(* ===== verification/_CoqProject ===== *)
-Q . S2P
Prelude.v
CNum.v
CJson.v
CJsonSafety.v
CHeap.v
CJsonAlloc.v
Glob.v
Rules.v
RulesParse.v
RulesMatch.v
Apr.v
AprFile.v
AprRef.v
Util.v
Config.v
Meta.v
Cache.v
Publish.v
Lookup.v
RoundTrip.v
Admin.v
Purge.v
Handler.v
Serve.v
Race.v
Reload.v
Store.v
Delivery.v
Refine.v
Startup.v
Headers.v
Site.v
Conc.v
Workers.v
Shared.v
Traffic.v
Registration.v
