(* ===== verification/Prelude.v ===== *)
(** * Cacher: a verification library for the mod_cacher Apache module

    mod_cacher caches the responses of an Apache httpd server on disk, under
    rules written in JSON.  The library models the module function by function,
    from the sources in src/src and the half of src/third_party/cJSON.c that
    the module runs, and proves what the parts promise and how they compose.

    ** The program

    - cacher_rules.c parses a JSON document to a rule set and answers which
      rule a request matches, with globs.
    - cacher_config.c holds the directives, merges the configurations of nested
      directories, and keeps the rule sets of rules files in a cache of the
      process behind a mutex.
    - cacher_util.c reads cookies and finds the original request.
    - cacher_cache.c computes the key of a request, stores a captured response
      as a header file and a body file, and looks entries up.
    - cacher_admin.c lists and purges the entries of one host.
    - mod_cacher.c is the request handler that calls all of them.

    ** How code is modelled

    A C string is the list of its characters, a pointer into it the suffix it
    points at, a pointer that may be NULL an [option].  Integers are [Z] with
    the ranges of CNum.v; an overflow, a conversion out of range, a read or
    write out of bounds and an invalid free are undefined behaviour, which is
    [None] or the program [Undef].  Code that only computes is a function; code
    that allocates is in the monad [M] of CHeap.v, whose oracle decides which
    allocations fail; code that does I/O is a [prog] of AprFile.v, a tree of
    APR calls with a continuation for every answer, and of atomic steps on the
    memory of the process.  [exec] runs a program, [wpp] and [wpa] are the
    rules to reason about it, [always] holds before and after every call.

    APR and httpd are parameters: the classes of Apr.v, AprFile.v and [Httpd]
    of Cache.v list the functions with the documented behaviour the module
    relies on.  Every call may fail, in any pattern; on a [healthy] world a
    call whose conditions hold succeeds.  AprRef.v has concrete instances, on
    which the examples and witnesses run.  [same_store], [keep], [pruned] and
    [discarded] say what a program left alone.

    ** Files

    - Prelude, CNum, CHeap: strings, arithmetic, dynamic memory.
    - CJson, CJsonSafety, CJsonAlloc: the parser [cJSON_Parse], that it is memory
      safe and terminates on every input, and the nodes and strings it allocates,
      which are released whichever allocation fails.
    - Glob: [cacher_glob_match] against the language of a pattern.
    - Rules, RulesParse, RulesMatch: cacher_rules.c; parsing against the
      abstract rules [arule] a document denotes, its behaviour under failing
      allocations, its release, and matching.
    - Apr, AprFile, AprRef: the interfaces and their instances.
    - Util: requests and cookies.
    - Config: directives, merging, and [cacher_config_get_ruleset], with the
      memory of a process: its heap, the cache of rule sets, and the static in
      which cJSON notes where the last syntax error is.
    - Meta: keys, paths, and the text of header files.
    - Cache: the output filter, publication, lookup.  Publish: what publication
      leaves on disk whichever calls fail.  Lookup: what a lookup returns.
      RoundTrip: a stored response is found; a refused one is not stored.
    - Admin, Purge: the administration, and what it counts and removes.
    - Handler, Serve: the request handler; who may administer and who is
      cached; a request is decided by the first matching rule of the document.
    - Race, Conc, Workers, Shared: several workers at once.  Race interleaves
      programs call by call and shows what publications of one entry can leave
      behind when they overlap; Conc is a
      small separation logic for such pools, of files, open directories and
      blocks of memory, counting steps, with its soundness; Workers applies it
      to workers that deliver responses and look entries up: files stay
      complete and readers see complete files, as long as no temporary name is
      handed out twice, and what happens when one is.  Shared applies it to the
      purges of the administration, and to the memory that the rules of
      requests share.
    - Reload: rules files that are replaced while requests ask for their rules,
      every critical section and call of a request a step of its own; and what
      two parses do to each other in cJSON's static.
    - Store, Delivery, Refine: the cache as a map.  Store gives the invariant
      [tidy] of the tree between two requests and the map of pages a tree
      [represents]; Delivery covers every way a response can end; Refine has
      the abstract specification [spec], the proof that each operation, run on
      the files of a healthy file system, is one of its steps, and what
      follows for any history: a lookup serves the last response kept for its
      key and not purged since.
    - Startup: the roots are made when the server starts; a cache survives a
      restart.
    - Headers: what visitors see of the headers of a response, stored or not.
    - Site: the whole path of a request, through the handler, the cache or the
      content generator, and back through the filter; the cache is
      transparent.
    - Traffic: the same for any number of visitors and administrators at the
      same time, from the handler to the cleanup of the memory.
    - Registration: the command table, hooks and filters the module hands to
      httpd; what .htaccess files can change; the server from its start on.

    ** What is proved, from the outside in

    A site with the cache answers as it would without, headers included (Site),
    and with the same status and body when requests run at the same time
    (Traffic), with the hooks the module registers (Registration). A request is
    decided by the rules of the document in force (Serve), only permitted
    requests administer (Handler), and what the cache serves is specified by a
    map (Refine), whichever requests came before. When calls fail, the header
    of an entry is never ahead of its body (Publish), a lookup never fails to
    return and leaks nothing (Lookup), workers that run at once do not disturb
    each other (Workers), rule sets stay coherent and live while files are
    replaced (Reload), and a purge touches no other host
    (Purge).  What the listing and the purges are about is specified without the
    program's own tests: equality of hosts up to case, and the language of the
    glob ([same_host], [covered], [settled] in Purge). Below that: rule sets parse, match and are released as the
    document says (Rules, RulesParse, RulesMatch), the parser is memory safe
    and leaks nothing (CJsonAlloc), globs match their language (Glob), keys, paths and metadata
    are injective or round-trip (Meta), directives merge (Config), cookies
    parse (Util).

    ** The shared static of cJSON

    [global_error] of cJSON.c is one record for all threads of a process, without
    a lock: every parse clears it, a parse that fails fills it, and
    [cacher_ruleset_parse] reads it back for its message.  It is part of the
    memory [pstate] of a process, and [parse_in_process] of Config makes each
    load and store of one of its two words a step of its own, which the steps of
    other threads can come between; a word is loaded and stored whole.  What is
    computed on the heap in between, [parse_ruleset] of Rules, is one step:
    malloc is thread safe, and nobody else has the blocks.  The function
    [cacher_ruleset_parse] of Rules is the same without other threads
    ([parse_in_process_alone]).  A pointer that another parse has left there is
    never followed by a defined step, since the pool of that text may be gone.

    ** Fuel

    The loops of the sources that are not structural take fuel, and each has a
    theorem that its fuel is enough: [glob_fuel] (pattern length times value
    length), [parse_fuel] (cJSON's nesting limit), [tokens] (the length of the
    string), and the depth and width of [walk_cache], for which [walk_fuel] is
    enough: one more than the directories and files of the tree.  When other
    workers make entries during a walk there is no such bound, and Traffic is
    about runs of any length that the fuel exceeds; its runs are shorter than
    2^31 steps, so that the counters of a walk do not overflow, and its files
    smaller than 4 GiB, so that the sum of their sizes does not.

    ** Not modelled

    Log lines (except that logging an unwritten buffer is undefined).  The range
    of the [apr_off_t] that adds up the bytes of one response in the filter: they
    have just been written to a file whose own size is an [apr_off_t].  The
    printing and editing half of cJSON, which the module does not call.  The
    listing of the administration while other workers write (it is modelled,
    and proved on a cache at rest): it may open the header of a temporary file
    that is being written.  tools/cacher, a
    Python script that walks the cache by itself, and the test program.  Pool
    memory does not fail, since APR aborts the process.  The order in which C
    evaluates the arguments of one call is fixed to left to right, which
    matters only for the two clock readings of [finalize_cache_entry]. *)

From stdpp Require Export base list strings gmap sets.
From Stdlib Require Export ZArith Ascii.
From Stdlib Require Import Lia.

Set Default Proof Using "Type".

(** ** C strings

    A NUL-terminated C string is the list of the characters in front of its
    terminator; a [char *] that may be NULL is an [option].  A pointer into a
    string is the suffix it points at, so [*p == '\0'] is [p = []] and [p++]
    drops the head. *)

Abbreviation cstr := (list ascii).

Declare Scope cstr_scope.
Delimit Scope cstr_scope with cstr.

Notation "a =? b" := (Ascii.eqb a b) (at level 70) : cstr_scope.
Notation "a <>? b" := (negb (Ascii.eqb a b)) (at level 70) : cstr_scope.

(** String literals. *)
Definition str (s : string) : cstr := String.list_ascii_of_string s.

Definition NUL : ascii := ascii_of_nat 0.
Definition TAB : ascii := ascii_of_nat 9.
Definition LF : ascii := ascii_of_nat 10.
Definition CR : ascii := ascii_of_nat 13.
Definition SP : ascii := ascii_of_nat 32.
Definition DQUOTE : ascii := ascii_of_nat 34.
Definition SQUOTE : ascii := ascii_of_nat 39.
Definition BACKSLASH : ascii := ascii_of_nat 92.

(** JSON literals: a single quote in the literal stands for a double quote. *)
Definition json_text (s : string) : cstr :=
  (fun c => if (c =? SQUOTE)%cstr then DQUOTE else c) <$> str s.

(** The value of [(unsigned char) c]. *)
Definition uchar (c : ascii) : Z := Z.of_N (N_of_ascii c).
Definition of_uchar (z : Z) : ascii := ascii_of_N (Z.to_N z).

(** The string a [char *] to the start of the byte buffer [b] denotes. *)
Fixpoint c_str (b : list ascii) : cstr :=
  match b with
  | [] => []
  | c :: b' => if (c =? NUL)%cstr then [] else c :: c_str b'
  end.

(** ** <ctype.h> and <string.h>, in the C locale *)

Definition is_digit (c : ascii) : bool := (48 <=? uchar c)%Z && (uchar c <=? 57)%Z.

Definition tolower (c : ascii) : ascii :=
  if (65 <=? uchar c)%Z && (uchar c <=? 90)%Z then of_uchar (uchar c + 32) else c.

Definition toupper (c : ascii) : ascii :=
  if (97 <=? uchar c)%Z && (uchar c <=? 122)%Z then of_uchar (uchar c - 32) else c.

(** [strncmp(a, b, n) == 0]. *)
Definition strncmp_eq (a b : cstr) (n : nat) : bool :=
  bool_decide (take n a = take n b).

(** [strcmp(a, b) == 0]. *)
Definition strcmp_eq (a b : cstr) : bool := bool_decide (a = b).

(** [strchr(s, c)], for [c] not NUL: the suffix at the first [c]. *)
Fixpoint strchr (s : cstr) (c : ascii) : option cstr :=
  match s with
  | [] => None
  | d :: s' => if (d =? c)%cstr then Some s else strchr s' c
  end.

(** [strstr(hay, needle)]: the suffix at the first occurrence. *)
Fixpoint strstr (hay needle : cstr) : option cstr :=
  if strncmp_eq hay needle (length needle) then Some hay
  else match hay with
       | [] => None
       | _ :: hay' => strstr hay' needle
       end.

(** The characters of [s] in front of the suffix [t] of [s]. *)
Definition before (s t : cstr) : cstr := take (length s - length t) s.

(** Skip a run of characters accepted by [f] at the front of [s]. *)
Fixpoint skip_while (f : ascii -> bool) (s : cstr) : cstr :=
  match s with
  | [] => []
  | c :: s' => if f c then skip_while f s' else s
  end.

(** ** Tactics *)

(** Case analysis on the character tests and the [if]s of the goal. *)
Ltac char_case :=
  repeat match goal with
         | |- context [Ascii.eqb ?a ?b] => destruct (Ascii.eqb_spec a b)
         | H : context [Ascii.eqb ?a ?b] |- _ => destruct (Ascii.eqb_spec a b)
         end.

(** Split the boolean connectives of the hypotheses. *)
Ltac bool_hyps :=
  repeat match goal with
         | H : andb _ _ = true |- _ => apply andb_true_iff in H as [??]
         | H : orb _ _ = false |- _ => apply orb_false_iff in H as [??]
         | H : negb _ = true |- _ => apply negb_true_iff in H
         | H : negb _ = false |- _ => apply negb_false_iff in H
         | H : Ascii.eqb _ _ = true |- _ => apply Ascii.eqb_eq in H
         | H : Ascii.eqb _ _ = false |- _ => apply Ascii.eqb_neq in H
         | H : bool_decide _ = true |- _ => apply bool_decide_eq_true in H
         | H : bool_decide _ = false |- _ => apply bool_decide_eq_false in H
         end.

Create HintDb cacher.

(** ** Facts about C strings *)

Definition no_char (c : ascii) (s : cstr) : Prop := c ∉ s.

Definition no_nul (s : cstr) : Prop := NUL ∉ s.

Lemma c_str_no_nul b : no_nul (c_str b).
Proof.
  unfold no_nul. induction b as [|c b IH]; cbn; [set_solver|].
  destruct (Ascii.eqb_spec c NUL); set_solver.
Qed.

Lemma c_str_id s : no_nul s -> c_str s = s.
Proof.
  unfold no_nul. induction s as [|c s IH]; cbn; [done|]. intros Hn.
  destruct (Ascii.eqb_spec c NUL); [set_solver|]. f_equal. apply IH. set_solver.
Qed.

Lemma c_str_app_nul s b : no_nul s -> c_str (s ++ NUL :: b) = s.
Proof.
  unfold no_nul. induction s as [|c s IH]; cbn; [done|]. intros Hn.
  destruct (Ascii.eqb_spec c NUL); [set_solver|]. f_equal. apply IH. set_solver.
Qed.

#[export] Hint Resolve c_str_no_nul : cacher.

Lemma strncmp_eq_prefix (s t : cstr) n :
  length t = n -> strncmp_eq s t n = true <-> exists s', s = t ++ s'.
Proof.
  intros <-. unfold strncmp_eq. rewrite bool_decide_eq_true, firstn_all. split.
  - intros E. exists (drop (length t) s). rewrite <- E at 1. by rewrite take_drop.
  - intros [s' ->]. by rewrite take_app_length.
Qed.

Lemma strncmp_eq_app (t s : cstr) : strncmp_eq (t ++ s) t (length t) = true.
Proof. apply strncmp_eq_prefix; eauto. Qed.

Lemma strchr_app s c t : c ∉ s -> strchr (s ++ c :: t) c = Some (c :: t).
Proof.
  induction s as [|d s IH]; cbn; intros Hn.
  - by rewrite Ascii.eqb_refl.
  - destruct (Ascii.eqb_spec d c); [set_solver|]. apply IH. set_solver.
Qed.

Lemma strchr_None s c : strchr s c = None <-> c ∉ s.
Proof.
  induction s as [|d s IH]; cbn; [set_solver|].
  destruct (Ascii.eqb_spec d c) as [->|]; [set_solver|]. rewrite IH. set_solver.
Qed.

Lemma strchr_Some s c t :
  strchr s c = Some t -> exists u v, s = u ++ c :: v /\ t = c :: v /\ c ∉ u.
Proof.
  induction s as [|d s IH]; cbn; [done|].
  destruct (Ascii.eqb_spec d c) as [->|].
  - intros [= <-]. exists [], s. set_solver.
  - intros (u & v & -> & -> & Hu)%IH. exists (d :: u), v. set_solver.
Qed.

Lemma before_app (s t : cstr) : before (s ++ t) t = s.
Proof. unfold before. rewrite length_app, Nat.add_sub. apply take_app_length. Qed.

Lemma skip_while_app f s t :
  Forall (fun c => f c = true) s -> skip_while f (s ++ t) = skip_while f t.
Proof. induction 1 as [|c s Hc _ IH]; cbn; [done|]. by rewrite Hc. Qed.

(** ** Strings up to case *)

Definition ci_eq (a b : cstr) : Prop := tolower <$> a = tolower <$> b.

#[export] Instance ci_eq_dec a b : Decision (ci_eq a b) := decide (tolower <$> a = tolower <$> b).

#[export] Instance ci_eq_equiv : Equivalence ci_eq.
Proof. split; unfold ci_eq; [intros ?; done|intros ???; done|intros ??? -> ->; done]. Qed.

Lemma uchar_inj c d : uchar c = uchar d -> c = d.
Proof.
  unfold uchar. intros H%N2Z.inj. rewrite <- (ascii_N_embedding c), <- (ascii_N_embedding d).
  by rewrite H.
Qed.

Lemma uchar_pos c : c <> NUL -> (0 < uchar c)%Z.
Proof.
  intros H. assert (uchar c <> 0)%Z by (intros E; apply H, uchar_inj; by rewrite E).
  unfold uchar in *. lia.
Qed.

(** [strrchr(s, c)]: the suffix at the last [c]. *)
Fixpoint strrchr (s : cstr) (c : ascii) : option cstr :=
  match s with
  | [] => None
  | d :: s' =>
      match strrchr s' c with
      | Some t => Some t
      | None => if (d =? c)%cstr then Some s else None
      end
  end.

Lemma strrchr_None s c : strrchr s c = None <-> c ∉ s.
Proof.
  induction s as [|d s IH]; cbn; [set_solver|].
  destruct (strrchr s c); destruct (Ascii.eqb_spec d c) as [->|]; set_solver.
Qed.

Lemma strrchr_app s c t : c ∉ t -> strrchr (s ++ c :: t) c = Some (c :: t).
Proof.
  intros Ht. induction s as [|d s IH]; cbn.
  - apply strrchr_None in Ht. by rewrite Ht, Ascii.eqb_refl.
  - by rewrite IH.
Qed.

Lemma strrchr_Some s c t :
  strrchr s c = Some t -> exists u v, s = u ++ c :: v /\ t = c :: v /\ c ∉ v.
Proof.
  induction s as [|d s IH]; cbn; [done|]. destruct (strrchr s c) as [t'|] eqn:E.
  - intros [= ->]. destruct (IH eq_refl) as (u & v & -> & -> & Hv). by exists (d :: u), v.
  - apply strrchr_None in E. destruct (Ascii.eqb_spec d c) as [->|]; [|done].
    intros [= <-]. by exists [], s.
Qed.

Lemma c_str_length b : length (c_str b) <= length b.
Proof. induction b as [|c b IH]; cbn; [done|]. destruct (c =? NUL)%cstr; cbn; lia. Qed.

(** A text without [c], as a token between separators [c]. *)
Lemma Forall_no_char c s : no_char c s -> Forall (fun d => d ∉ [c]) s.
Proof.
  unfold no_char. intros H. apply Forall_forall. intros d Hd ->%list_elem_of_singleton. done.
Qed.

Lemma elem_of_sep (c : ascii) : c ∈ [c].
Proof. by apply list_elem_of_singleton. Qed.

#[export] Hint Resolve Forall_no_char elem_of_sep : cacher.
