(* ===== verification/CNum.v ===== *)
(** * C arithmetic the sources rely on

    Machine integers with their ranges and conversions, IEEE doubles (the
    executable [spec_float] of the Standard Library, at precision 53), and
    [strtod] restricted to the characters a JSON number is copied from.  A
    conversion whose C behaviour is undefined is [None]. *)

From S2P Require Import Prelude.
From Stdlib Require Import Lia SpecFloat.
Local Open Scope Z_scope.

(** ** Integers *)

Definition INT_MIN : Z := -2147483648.
Definition INT_MAX : Z := 2147483647.
Definition LONG_MIN : Z := -9223372036854775808.
Definition LONG_MAX : Z := 9223372036854775807.

Definition in_int (z : Z) : bool := (INT_MIN <=? z) && (z <=? INT_MAX).
Definition in_long (z : Z) : bool := (LONG_MIN <=? z) && (z <=? LONG_MAX).

(** Conversion of an unsigned or 64-bit value to [int] (modulo 2^32, as every
    supported compiler defines it). *)
Definition to_int32 (z : Z) : Z :=
  let m := z mod 4294967296 in if m <=? INT_MAX then m else m - 4294967296.

(** [int64_t] addition; overflow is undefined. *)
Definition add_int64 (a b : Z) : option Z :=
  if in_long (a + b) then Some (a + b) else None.

(** The difference of two 64-bit integers, and the sum of two ints. *)
Definition sub_int64 (a b : Z) : option Z := if in_long (a - b) then Some (a - b) else None.
Definition add_int (a b : Z) : option Z := if in_int (a + b) then Some (a + b) else None.

Lemma in_int_spec z : in_int z = true <-> INT_MIN <= z <= INT_MAX.
Proof. unfold in_int. rewrite andb_true_iff, !Z.leb_le. done. Qed.

Lemma in_long_spec z : in_long z = true <-> LONG_MIN <= z <= LONG_MAX.
Proof. unfold in_long. rewrite andb_true_iff, !Z.leb_le. done. Qed.

Lemma add_int_ok a b : INT_MIN <= a + b <= INT_MAX -> add_int a b = Some (a + b).
Proof. intros H. unfold add_int. by rewrite (proj2 (in_int_spec _)). Qed.

Lemma add_int64_ok a b : LONG_MIN <= a + b <= LONG_MAX -> add_int64 a b = Some (a + b).
Proof. intros H. unfold add_int64. by rewrite (proj2 (in_long_spec _)). Qed.

Lemma to_int32_id z : in_int z = true -> to_int32 z = z.
Proof.
  rewrite in_int_spec. unfold to_int32, INT_MIN, INT_MAX. intros H.
  destruct (Z.leb_spec 0 z).
  - rewrite Z.mod_small by lia. destruct (Z.leb_spec z 2147483647); lia.
  - rewrite <- (Z_mod_plus_full z 1), Z.mod_small by lia.
    destruct (Z.leb_spec (z + 1 * 4294967296) 2147483647); lia.
Qed.

(** ** Doubles *)

Abbreviation double := spec_float (only parsing).

Definition d_div : double -> double -> double := SFdiv 53 1024.

(** The double nearest to the integer [z]. *)
Definition d_of_Z (z : Z) : double := binary_normalize 53 1024 z 0 false.

(** The integer part, towards zero; infinities and NaN have none. *)
Definition d_trunc (d : double) : option Z :=
  match d with
  | S754_zero _ => Some 0
  | S754_finite s m e =>
      let a := if 0 <=? e then Zpos m * 2 ^ e else Zpos m / 2 ^ (- e) in
      Some (if s then - a else a)
  | _ => None
  end.

(** [(int) d] and [(long) d]: undefined when the integer part does not fit. *)
Definition int_of_double (d : double) : option Z :=
  match d_trunc d with
  | Some z => if in_int z then Some z else None
  | None => None
  end.

Definition long_of_double (d : double) : option Z :=
  match d_trunc d with
  | Some z => if in_long z then Some z else None
  | None => None
  end.

Lemma int_of_double_range d z : int_of_double d = Some z -> INT_MIN <= z <= INT_MAX.
Proof.
  unfold int_of_double. destruct (d_trunc d) as [y|]; [|done].
  destruct (in_int y) eqn:E; [|done]. intros [= <-]. by apply in_int_spec.
Qed.

Lemma long_of_double_range d z : long_of_double d = Some z -> LONG_MIN <= z <= LONG_MAX.
Proof.
  unfold long_of_double. destruct (d_trunc d) as [y|]; [|done].
  destruct (in_long y) eqn:E; [|done]. intros [= <-]. by apply in_long_spec.
Qed.

(** ** [strtod] on the characters of a JSON number *)

(** The longest prefix of digits, and the rest. *)
Fixpoint span_digits (s : cstr) : cstr * cstr :=
  match s with
  | [] => ([], [])
  | c :: s' =>
      if is_digit c then let '(ds, r) := span_digits s' in (c :: ds, r) else ([], s)
  end.

Definition digits_value (ds : cstr) : Z :=
  fold_left (fun acc c => acc * 10 + (uchar c - 48)) ds 0.

Definition span_sign (s : cstr) : bool * cstr :=
  match s with
  | c :: s' =>
      if (c =? "-"%char)%cstr then (true, s')
      else if (c =? "+"%char)%cstr then (false, s')
      else (false, s)
  | [] => (false, [])
  end.

(** The fraction part, when a point follows. *)
Definition span_fraction (s : cstr) : cstr * cstr :=
  match s with
  | c :: s' => if (c =? "."%char)%cstr then span_digits s' else ([], s)
  | [] => ([], [])
  end.

(** The exponent part: an [e] not followed by digits is left unread. *)
Definition span_exponent (s : cstr) : Z * cstr :=
  match s with
  | c :: s' =>
      if (c =? "e"%char)%cstr || (c =? "E"%char)%cstr then
        let '(neg, s'') := span_sign s' in
        match span_digits s'' with
        | ([], _) => (0, s)
        | (ds, r) => ((if neg then - digits_value ds else digits_value ds), r)
        end
      else (0, s)
  | [] => (0, [])
  end.

(** The double nearest to [mant * 10^e10].  Exponents beyond the range of
    doubles (the mantissa has at most 63 digits here) are decided first, so
    that no power of ten is computed for them. *)
Definition scale10 (neg : bool) (mant e10 : Z) : double :=
  match mant with
  | Zpos m =>
      if 400 <? e10 then S754_infinity neg
      else if e10 <? -500 then S754_zero neg
      else if 0 <=? e10 then
        binary_normalize 53 1024 ((if neg then -1 else 1) * (mant * 10 ^ e10)) 0 neg
      else d_div (S754_finite neg m 0) (S754_finite false (Z.to_pos (10 ^ (- e10))) 0)
  | _ => S754_zero neg
  end.

(** [strtod(s, &end)]: the value and the number of characters read. *)
Definition strtod (s : cstr) : double * nat :=
  let '(neg, s1) := span_sign s in
  let '(ip, s2) := span_digits s1 in
  let '(fp, s3) := span_fraction s2 in
  match ip ++ fp with
  | [] => (S754_zero false, 0%nat)
  | ds =>
      let '(e, s4) := span_exponent s3 in
      (scale10 neg (digits_value ds) (e - Z.of_nat (length fp)), (length s - length s4)%nat)
  end.

Lemma span_digits_suffix s : exists ds, s = ds ++ snd (span_digits s).
Proof.
  induction s as [|c s [ds IH]]; cbn; [by exists []|].
  destruct (is_digit c); [|by exists []].
  destruct (span_digits s) as [ds' r]. cbn in *. exists (c :: ds). cbn. by f_equal.
Qed.

Lemma strtod_consumed s : (snd (strtod s) <= length s)%nat.
Proof.
  unfold strtod. destruct (span_sign s) as [neg s1], (span_digits s1) as [ip s2],
    (span_fraction s2) as [fp s3]. destruct (ip ++ fp); cbn; [lia|].
  destruct (span_exponent s3) as [e s4]. cbn. lia.
Qed.

(** ** [%d] and [%lld] of printf *)

Fixpoint dec_digits (fuel : nat) (n : Z) (acc : cstr) : cstr :=
  match fuel with
  | O => acc
  | S fuel' =>
      let acc := of_uchar (48 + n mod 10) :: acc in
      if n <? 10 then acc else dec_digits fuel' (n / 10) acc
  end.

(** A number has no more decimal digits than binary ones. *)
Definition dec_nat (n : Z) : cstr := dec_digits (S (Z.to_nat (Z.log2 n))) n [].

Definition dec (z : Z) : cstr := if z <? 0 then "-"%char :: dec_nat (- z) else dec_nat z.

Lemma uchar_of_uchar z : 0 <= z < 256 -> uchar (of_uchar z) = z.
Proof. intros H. unfold uchar, of_uchar. rewrite N_ascii_embedding; lia. Qed.

Lemma digits_value_app a b :
  digits_value (a ++ b) = digits_value a * 10 ^ Z.of_nat (length b) + digits_value b.
Proof.
  unfold digits_value. rewrite fold_left_app. generalize (fold_left (fun acc c => acc * 10 + (uchar c - 48)) a 0).
  induction b as [|c b IH]; intros x; cbn [fold_left length]; [cbn; lia|].
  rewrite IH, (IH (0 * 10 + _)). rewrite Nat2Z.inj_succ, Z.pow_succ_r by lia. lia.
Qed.

Lemma log2_div10 n : 10 <= n -> Z.log2 (n / 10) < Z.log2 n.
Proof.
  intros H. assert (0 < n / 10) by (apply Z.div_str_pos; lia).
  apply Z.log2_lt_pow2; [lia|]. pose proof (Z.log2_spec n ltac:(lia)) as [Hl Hu].
  assert (n / 10 * 10 <= n) by (rewrite Z.mul_comm; apply Z.mul_div_le; lia).
  rewrite Z.pow_succ_r in Hu by apply Z.log2_nonneg. lia.
Qed.

Lemma dec_digits_spec fuel n acc :
  0 <= n -> (Z.to_nat (Z.log2 n) < fuel)%nat ->
  exists ds, dec_digits fuel n acc = ds ++ acc /\ Forall (fun c => is_digit c = true) ds /\
    digits_value ds = n /\ ds <> [].
Proof.
  revert n acc. induction fuel as [|fuel IH]; intros n acc Hn Hf; [lia|]. cbn [dec_digits].
  pose proof (Z.mod_pos_bound n 10 ltac:(lia)) as Hm.
  assert (is_digit (of_uchar (48 + n mod 10)) = true) as Hd.
  { unfold is_digit. rewrite uchar_of_uchar by lia. apply andb_true_iff. split; apply Z.leb_le; lia. }
  assert (forall ds, digits_value (ds ++ [of_uchar (48 + n mod 10)]) = digits_value ds * 10 + n mod 10) as Hv.
  { intros ds. rewrite digits_value_app. unfold digits_value at 2. cbn [fold_left length].
    rewrite uchar_of_uchar by lia. lia. }
  destruct (Z.ltb_spec n 10).
  - exists [of_uchar (48 + n mod 10)]. split_and!; [done|by constructor| |done].
    rewrite <- (app_nil_l [_]), Hv, Z.mod_small by lia. done.
  - pose proof (log2_div10 n ltac:(lia)) as Hlog. pose proof (Z.log2_nonneg (n / 10)).
    destruct (IH (n / 10) (of_uchar (48 + n mod 10) :: acc)) as (ds & -> & Hds & Hval & Hne);
      [apply Z.div_pos; lia|lia|].
    exists (ds ++ [of_uchar (48 + n mod 10)]). rewrite <- app_assoc. split_and!; [done| | |by destruct ds].
    + apply Forall_app. split; [done|by constructor].
    + rewrite Hv, Hval. pose proof (Z.div_mod n 10 ltac:(lia)). lia.
Qed.

Lemma dec_nat_spec n :
  0 <= n -> Forall (fun c => is_digit c = true) (dec_nat n) /\ digits_value (dec_nat n) = n /\ dec_nat n <> [].
Proof.
  intros Hn. destruct (dec_digits_spec (S (Z.to_nat (Z.log2 n))) n [] Hn ltac:(lia))
    as (ds & E & H). unfold dec_nat. by rewrite E, app_nil_r.
Qed.

(** A numeral holds digits and a sign only. *)
Lemma dec_chars z c : c ∈ dec z -> is_digit c = true \/ c = "-"%char.
Proof.
  unfold dec. destruct (Z.ltb_spec z 0).
  - destruct (dec_nat_spec (- z) ltac:(lia)) as (H1 & _ & _). rewrite Forall_forall in H1.
    intros [->|Hc]%elem_of_cons; eauto.
  - destruct (dec_nat_spec z ltac:(lia)) as (H1 & _ & _). rewrite Forall_forall in H1. eauto.
Qed.

Lemma dec_no_char c z : is_digit c = false -> c <> "-"%char -> c ∉ dec z.
Proof. intros Hd Hn [H|H]%dec_chars; congruence. Qed.

Lemma span_digits_app ds s :
  Forall (fun c => is_digit c = true) ds ->
  match s with [] => True | c :: _ => is_digit c = false end ->
  span_digits (ds ++ s) = (ds, s).
Proof.
  intros Hds Hs. induction Hds as [|c ds Hc _ IH]; cbn.
  - destruct s as [|c s]; [done|]. cbn. by rewrite Hs.
  - by rewrite Hc, IH.
Qed.
