(* ===== verification/CJson.v ===== *)
(** * The JSON parser (src/third_party/cJSON.c)

    The part of the vendored cJSON that [cacher_ruleset_parse] runs:
    [cJSON_Parse] down to the tokens, and the accessors.  The parse buffer is
    the record of the source; a pointer into it is the suffix of the content it
    points at.  A read outside the buffer, or a write outside the string being
    built, is the outcome [PUB], an exhausted fuel the outcome [PFuel]; the
    theorem [cJSON_Parse_safe] shows neither happens.  Allocation succeeds here;
    CJsonAlloc.v has the same functions with allocations that may fail. *)

From S2P Require Import Prelude CNum.
From Stdlib Require Import Lia SpecFloat.
Local Open Scope cstr_scope.

(** ** Data *)

(** [cJSON]: the [type] tag with the members it uses.  Strings are the raw
    bytes in front of the terminator the parser wrote; a member of an object
    carries its [string]. *)
Inductive cJSON : Type :=
  | cJSON_NULL
  | cJSON_False
  | cJSON_True
  | cJSON_Number (valuedouble : double) (valueint : Z)
  | cJSON_String (valuestring : list ascii)
  | cJSON_Array (child : list cJSON)
  | cJSON_Object (child : list (list ascii * cJSON)).

Record parse_buffer := ParseBuffer {
  pb_content : list ascii;
  pb_length : nat;
  pb_offset : nat;
  pb_depth : nat;
}.

Definition CJSON_NESTING_LIMIT : nat := 1000.

(** Outcomes of a parsing function. *)
Inductive pres (A : Type) : Type :=
  | POk (a : A) (b : parse_buffer)
  | PErr (b : parse_buffer)
  | PUB
  | PFuel.
Arguments POk {A} a b.
Arguments PErr {A} b.
Arguments PUB {A}.
Arguments PFuel {A}.

Definition pbind {A B} (m : pres A) (k : A -> parse_buffer -> pres B) : pres B :=
  match m with
  | POk a b => k a b
  | PErr b => PErr b
  | PUB => PUB
  | PFuel => PFuel
  end.

Notation "'let!' x , b := m 'in' k" := (pbind m (fun x b => k))
  (at level 10, x name, b name, m at level 100, k at level 200) : cstr_scope.

Definition set_offset (b : parse_buffer) (o : nat) : parse_buffer :=
  ParseBuffer (pb_content b) (pb_length b) o (pb_depth b).
Definition set_depth (b : parse_buffer) (d : nat) : parse_buffer :=
  ParseBuffer (pb_content b) (pb_length b) (pb_offset b) d.
Definition advance (b : parse_buffer) (n : nat) : parse_buffer :=
  set_offset b (pb_offset b + n).
(** [buffer->offset--] *)
Definition step_back (b : parse_buffer) : parse_buffer :=
  set_offset b (pb_offset b - 1).

Definition can_read (b : parse_buffer) (size : nat) : bool :=
  pb_offset b + size <=? pb_length b.
Definition can_access_at_index (b : parse_buffer) (i : nat) : bool :=
  pb_offset b + i <? pb_length b.
Definition buffer_at_offset (b : parse_buffer) : list ascii :=
  drop (pb_offset b) (pb_content b).

(** The read [buffer_at_offset(b)[0]], undefined outside the content. *)
Definition read_char {A} (b : parse_buffer) (k : ascii -> pres A) : pres A :=
  match buffer_at_offset b with
  | c :: _ => k c
  | [] => PUB
  end.

(** [can_access_at_index(b, 0) && buffer_at_offset(b)[0] == c] *)
Definition at_char (b : parse_buffer) (c : ascii) : bool :=
  can_access_at_index b 0 && match buffer_at_offset b with
                             | d :: _ => d =? c
                             | [] => false
                             end.

(** ** Tokens *)

Definition is_json_ws (c : ascii) : bool := (uchar c <=? 32)%Z.

(** The characters [parse_number] copies to its stack buffer. *)
Definition is_number_char (c : ascii) : bool :=
  is_digit c || (c =? "+"%char) || (c =? "-"%char) || (c =? "e"%char)
  || (c =? "E"%char) || (c =? "."%char).

Definition buffer_skip_whitespace (b : parse_buffer) : parse_buffer :=
  if negb (can_access_at_index b 0) then b
  else
    let rest := skip_while is_json_ws (take (pb_length b - pb_offset b) (buffer_at_offset b)) in
    let o := pb_length b - length rest in
    set_offset b (if o =? pb_length b then o - 1 else o)%nat.

Definition UTF8_BOM : list ascii :=
  [ascii_of_nat 239; ascii_of_nat 187; ascii_of_nat 191].

Definition skip_utf8_bom (b : parse_buffer) : parse_buffer :=
  if can_access_at_index b 4 && strncmp_eq (buffer_at_offset b) UTF8_BOM 3
  then advance b 3 else b.

(** The copy loop: at most [n] characters of the alphabet of numbers. *)
Fixpoint take_number (n : nat) (s : list ascii) : cstr :=
  match n, s with
  | S n', c :: s' => if is_number_char c then c :: take_number n' s' else []
  | _, _ => []
  end.

(** The saturated [valueint]. *)
Definition saturate_int (d : double) : Z :=
  if SFleb (d_of_Z INT_MAX) d then INT_MAX
  else if SFleb d (d_of_Z INT_MIN) then INT_MIN
  else default 0%Z (d_trunc d).

Definition parse_number (b : parse_buffer) : pres cJSON :=
  let number_c_string :=
    take_number 63 (take (pb_length b - pb_offset b) (buffer_at_offset b)) in
  let '(number, n) := strtod number_c_string in
  if (n =? 0)%nat then PErr b
  else POk (cJSON_Number number (saturate_int number)) (advance b n).

(** [parse_hex4]: four digits from [input]; [None] is a read past the buffer,
    and an invalid digit makes the whole literal 0. *)
Definition hex_digit (c : ascii) : option Z :=
  let u := uchar c in
  if ((48 <=? u) && (u <=? 57))%Z then Some (u - 48)%Z
  else if ((65 <=? u) && (u <=? 70))%Z then Some (10 + u - 65)%Z
  else if ((97 <=? u) && (u <=? 102))%Z then Some (10 + u - 97)%Z
  else None.

Fixpoint parse_hex4_loop (left : nat) (h : Z) (input : list ascii) : option Z :=
  match left with
  | O => Some h
  | S left' =>
      match input with
      | [] => None
      | c :: input' =>
          match hex_digit c with
          | None => Some 0%Z
          | Some d =>
              let h := (h + d)%Z in
              parse_hex4_loop left' (if (0 <? left')%nat then Z.shiftl h 4 else h) input'
          end
      end
  end.

Definition parse_hex4 (input : list ascii) : option Z := parse_hex4_loop 4 0 input.

(** The UTF-8 bytes of a code point: the continuation bytes are written from
    the last one backwards, six bits each, then the first byte. *)
Fixpoint utf8_tail (n : nat) (codepoint : Z) (acc : list ascii) : Z * list ascii :=
  match n with
  | O => (codepoint, acc)
  | S n' =>
      utf8_tail n' (Z.shiftr codepoint 6)
        (of_uchar (Z.land (Z.lor codepoint 128) 191) :: acc)
  end.

Definition utf8_encode (codepoint : Z) : option (list ascii) :=
  let enc utf8_length first_byte_mark :=
    let '(cp, t) := utf8_tail (utf8_length - 1) codepoint [] in
    let first := if (1 <? utf8_length)%nat
                 then Z.land (Z.lor cp first_byte_mark) 255 else Z.land cp 127 in
    Some (of_uchar first :: t) in
  if (codepoint <? 128)%Z then enc 1%nat 0%Z
  else if (codepoint <? 2048)%Z then enc 2%nat 192%Z
  else if (codepoint <? 65536)%Z then enc 3%nat 224%Z
  else if (codepoint <=? 1114111)%Z then enc 4%nat 240%Z
  else None.

(** What [utf16_literal_to_utf8] does: the bytes it writes and the length of
    the sequence it read, a failure, or a read out of bounds. *)
Inductive utf16_result :=
  | U16_ok (bytes : list ascii) (sequence_length : nat)
  | U16_fail
  | U16_ub.

Definition utf16_finish (codepoint : Z) (sequence_length : nat) : utf16_result :=
  match utf8_encode codepoint with
  | Some bytes => U16_ok bytes sequence_length
  | None => U16_fail
  end.

Definition utf16_literal_to_utf8 (input_pointer input_end : list ascii) : utf16_result :=
  if (length input_pointer <? length input_end + 6)%nat then U16_fail
  else match parse_hex4 (drop 2 input_pointer) with
  | None => U16_ub
  | Some first_code =>
      if ((56320 <=? first_code) && (first_code <=? 57343))%Z then U16_fail
      else if ((55296 <=? first_code) && (first_code <=? 56319))%Z then
        let second_sequence := drop 6 input_pointer in
        if (length second_sequence <? length input_end + 6)%nat then U16_fail
        else match second_sequence with
        | s0 :: s1 :: second_hex =>
            if (s0 <>? BACKSLASH) || (s1 <>? "u"%char) then U16_fail
            else match parse_hex4 second_hex with
            | None => U16_ub
            | Some second_code =>
                if ((second_code <? 56320) || (57343 <? second_code))%Z then U16_fail
                else utf16_finish
                       (65536 + Z.lor (Z.shiftl (Z.land first_code 1023) 10)
                                      (Z.land second_code 1023)) 12
            end
        | _ => U16_ub
        end
      else utf16_finish first_code 6
  end.

(** The first loop of [parse_string]: from behind the opening quote to the
    closing one, counting the escapes. *)
Fixpoint scan_string (s : list ascii) (skipped : nat) : option (list ascii * nat) :=
  match s with
  | [] => None
  | c :: s' =>
      if c =? DQUOTE then Some (s, skipped)
      else if c =? BACKSLASH then
        match s' with
        | [] => None
        | _ :: s'' => scan_string s'' (S skipped)
        end
      else scan_string s' skipped
  end.

(** The one-character escapes; [None] for [u] and for an invalid escape. *)
Definition simple_escape (c : ascii) : option ascii :=
  if c =? "b"%char then Some (ascii_of_nat 8)
  else if c =? "f"%char then Some (ascii_of_nat 12)
  else if c =? "n"%char then Some LF
  else if c =? "r"%char then Some CR
  else if c =? "t"%char then Some TAB
  else if (c =? DQUOTE) || (c =? BACKSLASH) || (c =? "/"%char) then Some c
  else None.

(** The escape sequence at [input_pointer]: bytes written and length read. *)
Definition decode_escape (input_pointer input_end : list ascii) : utf16_result :=
  match input_pointer with
  | _ :: c :: _ =>
      match simple_escape c with
      | Some e => U16_ok [e] 2
      | None => if c =? "u"%char then utf16_literal_to_utf8 input_pointer input_end
                else U16_fail
      end
  | _ => U16_ub
  end.

(** Outcomes of the second loop: the output, the place of an invalid escape,
    an access out of bounds, or no fuel. *)
Inductive decode_result :=
  | D_ok (output : list ascii)
  | D_fail (input_pointer : list ascii)
  | D_ub
  | D_fuel.

(** The second loop: decode into a block of [capacity] bytes, the terminator
    included. *)
Fixpoint decode_loop (fuel : nat) (input_pointer input_end output : list ascii)
    (capacity : nat) : decode_result :=
  match fuel with
  | O => D_fuel
  | S fuel' =>
      if (length input_pointer <=? length input_end)%nat then
        if (length output <? capacity)%nat then D_ok output else D_ub
      else match input_pointer with
      | [] => D_ub
      | c :: ip' =>
          if c <>? BACKSLASH then
            if (length output <? capacity)%nat
            then decode_loop fuel' ip' input_end (output ++ [c]) capacity else D_ub
          else match decode_escape input_pointer input_end with
          | U16_ok bytes n =>
              if (length output + length bytes <=? capacity)%nat
              then decode_loop fuel' (drop n input_pointer) input_end (output ++ bytes) capacity
              else D_ub
          | U16_fail => D_fail input_pointer
          | U16_ub => D_ub
          end
      end
  end.

(** The offset of a pointer into the content. *)
Definition offset_of (b : parse_buffer) (p : list ascii) : nat :=
  length (pb_content b) - length p.

Definition parse_string_bytes (b : parse_buffer) : pres (list ascii) :=
  read_char b (fun c =>
    if c <>? DQUOTE then PErr (advance b 1)
    else
      let input_pointer := drop (pb_offset b + 1) (pb_content b) in
      match scan_string input_pointer 0 with
      | None => PErr (advance b 1)
      | Some (input_end, skipped_bytes) =>
          let allocation_length :=
            length (buffer_at_offset b) - length input_end - skipped_bytes in
          match decode_loop (S (length input_pointer)) input_pointer input_end []
                  (allocation_length + 1) with
          | D_ok output => POk output (set_offset b (offset_of b input_end + 1))
          | D_fail p => PErr (set_offset b (offset_of b p))
          | D_ub => PUB
          | D_fuel => PFuel
          end
      end).

Definition parse_string (b : parse_buffer) : pres cJSON :=
  let! s, b := parse_string_bytes b in POk (cJSON_String s) b.

(** ** Values *)

(** The loop over the elements of an array; [b] stands at the character in
    front of the next element, [pv] is [parse_value]. *)
Fixpoint parse_array_loop (fuel : nat) (pv : parse_buffer -> pres cJSON)
    (b : parse_buffer) (child : list cJSON) : pres (list cJSON) :=
  match fuel with
  | O => PFuel
  | S fuel' =>
      let b := buffer_skip_whitespace (advance b 1) in
      let! item, b := pv b in
      let b := buffer_skip_whitespace b in
      if at_char b ","%char
      then parse_array_loop fuel' pv b (child ++ [item])
      else POk (child ++ [item]) b
  end.

(** The common end of an array or object: the closing bracket. *)
Definition parse_close {A} (close : ascii) (a : A) (b : parse_buffer) : pres A :=
  if at_char b close
  then POk a (advance (set_depth b (pb_depth b - 1)) 1) else PErr b.

Definition parse_array (fuel : nat) (pv : parse_buffer -> pres cJSON)
    (b : parse_buffer) : pres cJSON :=
  if (CJSON_NESTING_LIMIT <=? pb_depth b)%nat then PErr b
  else
    let b := set_depth b (S (pb_depth b)) in
    read_char b (fun c =>
      if c <>? "["%char then PErr b
      else
        let b := buffer_skip_whitespace (advance b 1) in
        if at_char b "]"%char then
          parse_close "]"%char (cJSON_Array []) b
        else if negb (can_access_at_index b 0) then PErr (step_back b)
        else
          let! items, b := parse_array_loop fuel pv (step_back b) [] in
          parse_close "]"%char (cJSON_Array items) b).

(** One member of an object: name, colon, value. *)
Definition parse_member (pv : parse_buffer -> pres cJSON) (b : parse_buffer)
    : pres (list ascii * cJSON) :=
  if negb (can_access_at_index b 1) then PErr b
  else
    let b := buffer_skip_whitespace (advance b 1) in
    let! name, b := parse_string_bytes b in
    let b := buffer_skip_whitespace b in
    if negb (at_char b ":"%char) then PErr b
    else
      let b := buffer_skip_whitespace (advance b 1) in
      let! item, b := pv b in
      POk (name, item) (buffer_skip_whitespace b).

Fixpoint parse_object_loop (fuel : nat) (pv : parse_buffer -> pres cJSON)
    (b : parse_buffer) (child : list (list ascii * cJSON))
    : pres (list (list ascii * cJSON)) :=
  match fuel with
  | O => PFuel
  | S fuel' =>
      let! member, b := parse_member pv b in
      if at_char b ","%char
      then parse_object_loop fuel' pv b (child ++ [member])
      else POk (child ++ [member]) b
  end.

Definition parse_object (fuel : nat) (pv : parse_buffer -> pres cJSON)
    (b : parse_buffer) : pres cJSON :=
  if (CJSON_NESTING_LIMIT <=? pb_depth b)%nat then PErr b
  else
    let b := set_depth b (S (pb_depth b)) in
    if negb (at_char b "{"%char) then PErr b
    else
      let b := buffer_skip_whitespace (advance b 1) in
      if at_char b "}"%char then
        parse_close "}"%char (cJSON_Object []) b
      else if negb (can_access_at_index b 0) then PErr (step_back b)
      else
        let! members, b := parse_object_loop fuel pv (step_back b) [] in
        parse_close "}"%char (cJSON_Object members) b.

(** [can_read(b, |w|) && strncmp(buffer_at_offset(b), w, |w|) == 0] *)
Definition at_word (b : parse_buffer) (w : cstr) : bool :=
  can_read b (length w) && strncmp_eq (buffer_at_offset b) w (length w).

(** A number starts with a minus sign or a digit. *)
Definition at_number (b : parse_buffer) : bool :=
  can_access_at_index b 0 && match buffer_at_offset b with
                             | c :: _ => (c =? "-"%char) || is_digit c
                             | [] => false
                             end.

(** [fuel] bounds the nesting, [CJSON_NESTING_LIMIT] of it being enough; the
    loops inside get the length of the buffer. *)
Fixpoint parse_value (fuel : nat) (b : parse_buffer) : pres cJSON :=
  match fuel with
  | O => PFuel
  | S fuel' =>
      if at_word b (str "null") then POk cJSON_NULL (advance b 4)
      else if at_word b (str "false") then POk cJSON_False (advance b 5)
      else if at_word b (str "true") then POk cJSON_True (advance b 4)
      else if at_char b DQUOTE then parse_string b
      else if at_number b then parse_number b
      else if at_char b "["%char then parse_array (pb_length b) (parse_value fuel') b
      else if at_char b "{"%char then parse_object (pb_length b) (parse_value fuel') b
      else PErr b
  end.

Definition parse_fuel : nat := CJSON_NESTING_LIMIT + 2.

(** [cJSON_ParseWithOpts(value, NULL, false)]: the buffer holds the string and
    its terminator. *)
Definition init_buffer (value : cstr) : parse_buffer :=
  ParseBuffer (value ++ [NUL]) (length value + 1) 0 0.

Definition cJSON_Parse (value : cstr) : pres cJSON :=
  parse_value parse_fuel (buffer_skip_whitespace (skip_utf8_bom (init_buffer value))).

(** The position of the error that a parse which failed with the buffer [b] puts
    into [global_error]. *)
Definition error_position (b : parse_buffer) : nat :=
  if (pb_offset b <? pb_length b)%nat then pb_offset b
  else if (0 <? pb_length b)%nat then (pb_length b - 1)%nat else 0.

(** ** Accessors *)

Definition cJSON_IsBool (item : option cJSON) : bool :=
  match item with Some cJSON_True | Some cJSON_False => true | _ => false end.
Definition cJSON_IsTrue (item : option cJSON) : bool :=
  match item with Some cJSON_True => true | _ => false end.
Definition cJSON_IsNumber (item : option cJSON) : bool :=
  match item with Some (cJSON_Number _ _) => true | _ => false end.
Definition cJSON_IsString (item : option cJSON) : bool :=
  match item with Some (cJSON_String _) => true | _ => false end.
Definition cJSON_IsArray (item : option cJSON) : bool :=
  match item with Some (cJSON_Array _) => true | _ => false end.
Definition cJSON_IsObject (item : option cJSON) : bool :=
  match item with Some (cJSON_Object _) => true | _ => false end.

(** The items of the [child] list, which [cJSON_ArrayForEach] visits. *)
Definition cJSON_children (item : option cJSON) : list cJSON :=
  match item with
  | Some (cJSON_Array child) => child
  | Some (cJSON_Object child) => snd <$> child
  | _ => []
  end.

(** The number of nodes of a tree, a bound on every [child] list in it. *)
Fixpoint cJSON_nodes (item : cJSON) : nat :=
  match item with
  | cJSON_Array child => S (list_sum (List.map cJSON_nodes child))
  | cJSON_Object child => S (list_sum (List.map (fun m => cJSON_nodes (snd m)) child))
  | _ => 1
  end.

Definition cJSON_GetArraySize (array : option cJSON) : Z :=
  to_int32 (Z.of_nat (length (cJSON_children array))).

(** [get_object_item(object, name, true)]: the first member with that name;
    the elements of an array have no name, which ends the search. *)
Fixpoint find_member (child : list (list ascii * cJSON)) (name : cstr) : option cJSON :=
  match child with
  | [] => None
  | (s, v) :: child' => if strcmp_eq name (c_str s) then Some v else find_member child' name
  end.

Definition cJSON_GetObjectItemCaseSensitive (object : option cJSON) (name : cstr)
    : option cJSON :=
  match object with
  | Some (cJSON_Object child) => find_member child name
  | _ => None
  end.
