(* ===== verification/CJsonSafety.v ===== *)
(** * Safety of the JSON parser

    On every NUL-terminated input the parser of CJson.v reads only inside its
    buffer, writes each decoded string inside the block it allocated for it,
    and terminates.  The delicate part is [parse_string]: the block is sized by
    a first scan that pairs backslashes one way, and filled by a second scan
    that may pair them another way. *)

From S2P Require Import Prelude CNum CJson.
From Stdlib Require Import Lia.
Local Open Scope cstr_scope.

(** ** Outcomes *)

(** A run on the buffer over [value] that does not go wrong; [Q] holds of a
    successful one. *)
Definition safe {A} (value : cstr) (Q : A -> parse_buffer -> Prop) (r : pres A) : Prop :=
  match r with
  | POk a b => Q a b
  | PErr b => pb_content b = value ++ [NUL] /\ pb_length b = length value + 1
  | PUB | PFuel => False
  end.

(** The buffer over [value], standing inside it or at its terminator. *)
Definition buffer_wf (value : cstr) (b : parse_buffer) : Prop :=
  pb_content b = value ++ [NUL] /\ pb_length b = length value + 1 /\
  pb_offset b <= length value.

(** Progress: [b'] is the same buffer, further on, at the same depth. *)
Definition moved (value : cstr) (b b' : parse_buffer) : Prop :=
  buffer_wf value b' /\ pb_offset b < pb_offset b' /\ pb_depth b' = pb_depth b.

(** The same, without having to move. *)
Definition stayed (value : cstr) (b b' : parse_buffer) : Prop :=
  buffer_wf value b' /\ pb_offset b <= pb_offset b' /\ pb_depth b' = pb_depth b.

Lemma safe_bind {A B} value (m : pres A) (k : A -> parse_buffer -> pres B) P Q :
  safe value P m -> (forall a b, P a b -> safe value Q (k a b)) -> safe value Q (pbind m k).
Proof. destruct m; cbn; auto. Qed.

Lemma safe_mono {A} value (m : pres A) (P Q : A -> parse_buffer -> Prop) :
  safe value P m -> (forall a b, P a b -> Q a b) -> safe value Q m.
Proof. destruct m; cbn; auto. Qed.

Lemma safe_err {A} value b (Q : A -> parse_buffer -> Prop) :
  pb_content b = value ++ [NUL] -> pb_length b = length value + 1 ->
  safe value Q (PErr b).
Proof. done. Qed.

Ltac wf_solve :=
  unfold moved, stayed, buffer_wf, advance, step_back, set_offset, set_depth in *;
  cbn in *; intuition lia.

(** ** Moving in the buffer *)

Lemma skip_while_length f (s : cstr) : length (skip_while f s) <= length s.
Proof. induction s as [|c s IH]; cbn; [lia|]. destruct (f c); cbn; lia. Qed.

Lemma buffer_skip_whitespace_stays value b :
  buffer_wf value b -> stayed value b (buffer_skip_whitespace b).
Proof.
  intros (Hc & Hl & Ho). unfold buffer_skip_whitespace, can_access_at_index.
  destruct (Nat.ltb_spec (pb_offset b + 0) (pb_length b)); cbn; [|wf_solve].
  set (s := take _ _). pose proof (skip_while_length is_json_ws s) as Hs.
  assert (length s <= pb_length b - pb_offset b) by (subst s; rewrite length_take; lia).
  destruct (Nat.eqb_spec (pb_length b - length (skip_while is_json_ws s)) (pb_length b));
    wf_solve.
Qed.

Lemma stayed_refl value b : buffer_wf value b -> stayed value b b.
Proof. wf_solve. Qed.

(** What follows the offset, when it is not the terminator. *)
Lemma at_offset_inside value b c rest :
  buffer_wf value b -> c <> NUL -> buffer_at_offset b = c :: rest ->
  pb_offset b < length value.
Proof.
  unfold buffer_at_offset. intros (Hc & Hl & Ho) Hn E. rewrite Hc in E.
  destruct (Nat.eq_dec (pb_offset b) (length value)) as [Eo|]; [|lia].
  rewrite Eo, drop_app_length in E. by injection E as E _.
Qed.

Lemma at_char_inside value b c :
  buffer_wf value b -> c <> NUL -> at_char b c = true -> pb_offset b < length value.
Proof.
  unfold at_char. intros Hwf Hc [_ H]%andb_true_iff.
  destruct (buffer_at_offset b) as [|d rest] eqn:E; [done|].
  apply Ascii.eqb_eq in H as ->. by eapply at_offset_inside.
Qed.

Lemma advance_moved value b n :
  buffer_wf value b -> 0 < n -> pb_offset b + n <= length value ->
  moved value b (advance b n).
Proof. wf_solve. Qed.

Lemma buffer_at_offset_length value b :
  buffer_wf value b -> length (buffer_at_offset b) = pb_length b - pb_offset b.
Proof.
  unfold buffer_at_offset. intros (Hc & Hl & Ho).
  rewrite length_drop, Hc, length_app. cbn. lia.
Qed.

Lemma read_char_safe {A} value b (k : ascii -> pres A) Q :
  buffer_wf value b ->
  (forall c rest, buffer_at_offset b = c :: rest -> safe value Q (k c)) ->
  safe value Q (read_char b k).
Proof.
  intros Hwf Hk. unfold read_char. pose proof (buffer_at_offset_length _ _ Hwf) as Hl.
  destruct (buffer_at_offset b) eqn:E; [|by eapply Hk].
  cbn in Hl. destruct Hwf as (? & ? & ?). lia.
Qed.

(** ** Hexadecimal and UTF-8 *)

Local Open Scope Z_scope.

Lemma hex_digit_range c d : hex_digit c = Some d -> 0 <= d < 16.
Proof.
  unfold hex_digit.
  destruct (_ && _) eqn:E1; [apply andb_true_iff in E1 as [?%Z.leb_le ?%Z.leb_le]; intros [=]; lia|].
  destruct ((65 <=? _) && _) eqn:E2; [apply andb_true_iff in E2 as [?%Z.leb_le ?%Z.leb_le]; intros [=]; lia|].
  destruct ((97 <=? _) && _) eqn:E3; [apply andb_true_iff in E3 as [?%Z.leb_le ?%Z.leb_le]; intros [=]; lia|done].
Qed.

Lemma parse_hex4_loop_ok left h input :
  (left <= length input)%nat -> 0 <= h ->
  exists z, parse_hex4_loop left h input = Some z /\
            0 <= z < Z.max 1 ((h + (if (0 <? left)%nat then 16 else 1)) * 16 ^ Z.of_nat (left - 1)).
Proof.
  revert h input. induction left as [|left IH]; cbn -[Z.mul Z.pow Z.of_nat Nat.sub].
  - intros h input _ Hh. exists h. rewrite Z.mul_1_r. split; [done|lia].
  - intros h [|c input]; cbn -[Z.mul Z.pow Z.of_nat Nat.sub]; [lia|]. intros Hl Hh.
    destruct (hex_digit c) as [d|] eqn:E; [|exists 0; split; [done|lia]].
    apply hex_digit_range in E. destruct left as [|left]; cbn -[Z.mul Z.pow Z.of_nat Nat.sub].
    + exists (h + d). split; [done|]. rewrite Z.mul_1_r. lia.
    + destruct (IH (Z.shiftl (h + d) 4) input) as (z & Hz & Hr); [lia|rewrite Z.shiftl_nonneg; lia|].
      exists z. split; [done|]. cbn -[Z.mul Z.pow Z.of_nat Nat.sub] in Hr.
      rewrite Z.shiftl_mul_pow2 in Hr by lia.
      replace (Z.of_nat (S (S left) - 1)) with (Z.of_nat (S left - 1) + 1) by lia.
      rewrite Z.pow_add_r, Z.pow_1_r by lia.
      pose proof (Z.pow_pos_nonneg 16 (Z.of_nat (S left - 1))) as Hp.
      change (2 ^ 4) with 16 in Hr. nia.
Qed.

Lemma parse_hex4_ok input :
  (4 <= length input)%nat -> exists z, parse_hex4 input = Some z /\ 0 <= z < 65536.
Proof. intros H. by destruct (parse_hex4_loop_ok 4 0 input) as (z & ? & ?); [done..|exists z]. Qed.

Lemma utf8_tail_length n cp acc : length (snd (utf8_tail n cp acc)) = (n + length acc)%nat.
Proof. revert cp acc. induction n as [|n IH]; cbn; intros; [done|]. rewrite IH. cbn. lia. Qed.

Lemma utf8_encode_length cp bytes :
  utf8_encode cp = Some bytes ->
  (length bytes <= 4)%nat /\ (cp < 65536 -> (length bytes <= 3)%nat).
Proof.
  unfold utf8_encode.
  assert (forall n m, (length (let '(c, t) := utf8_tail n cp [] in
            of_uchar (if (1 <? S n)%nat then Z.land (Z.lor c m) 255 else Z.land c 127) :: t) = S n)%nat) as L.
  { intros n m. pose proof (utf8_tail_length n cp []) as H.
    destruct (utf8_tail n cp []). cbn in *. lia. }
  pose proof (L 0%nat 0) as L0. pose proof (L 1%nat 192) as L1.
  pose proof (L 2%nat 224) as L2. pose proof (L 3%nat 240) as L3. clear L.
  cbn [Nat.sub] in *.
  repeat match goal with |- context [if ?c then _ else _] =>
    match c with (_ <? _)%nat => fail 1 | _ => destruct c eqn:? end end;
  rewrite ?Z.ltb_lt, ?Z.ltb_ge in *;
  destruct (utf8_tail _ cp []); intros [= <-]; cbn in *; lia.
Qed.

Local Close Scope Z_scope.

(** ** The two scans of a string *)

(** [scan_rel pend s ie k]: the first loop of [parse_string] goes from [s] to
    the closing quote at [ie] and counts [k] escapes on the way; with [pend]
    the head of [s] is the escaped character of a pair. *)
Inductive scan_rel : bool -> list ascii -> list ascii -> nat -> Prop :=
  | sr_end s : scan_rel false (DQUOTE :: s) (DQUOTE :: s) 0
  | sr_plain c s ie k :
      c <> DQUOTE -> c <> BACKSLASH -> scan_rel false s ie k -> scan_rel false (c :: s) ie k
  | sr_escape s ie k : scan_rel true s ie k -> scan_rel false (BACKSLASH :: s) ie (S k)
  | sr_escaped c s ie k : scan_rel false s ie k -> scan_rel true (c :: s) ie k.

Lemma scan_string_rel s k0 ie k :
  scan_string s k0 = Some (ie, k) -> exists j, k = k0 + j /\ scan_rel false s ie j.
Proof.
  remember (length s) as n eqn:Hn. assert (length s <= n) as Hle by lia. clear Hn.
  revert s k0 Hle. induction n as [|n IH]; intros [|c s] k0 Hle; cbn in *; try done; [lia|].
  destruct (Ascii.eqb_spec c DQUOTE) as [->|Hq].
  { intros [= <- <-]. exists 0. split; [lia|constructor]. }
  destruct (Ascii.eqb_spec c BACKSLASH) as [->|Hb].
  - destruct s as [|d s]; [done|]. cbn in Hle. intros (j & -> & H)%IH; [|lia].
    exists (S j). split; [lia|]. by repeat constructor.
  - intros (j & -> & H)%IH; [|lia]. exists j. split; [done|]. by constructor.
Qed.

Lemma scan_rel_end pend s ie k :
  scan_rel pend s ie k -> exists pre rest, s = pre ++ ie /\ ie = DQUOTE :: rest.
Proof.
  induction 1 as [s|c s ie k _ _ _ (p & r & -> & ->)|s ie k _ (p & r & -> & ->)
                 |c s ie k _ (p & r & -> & ->)].
  - by exists [], s.
  - by exists (c :: p), r.
  - by exists (BACKSLASH :: p), r.
  - by exists (c :: p), r.
Qed.

(** Escapes do not overlap. *)
Lemma scan_rel_count pend s ie k :
  scan_rel pend s ie k -> 2 * k + Nat.b2n pend + length ie <= length s.
Proof. induction 1; cbn in *; lia. Qed.

Lemma scan_rel_step pend c s ie k :
  scan_rel pend (c :: s) ie k -> length ie < length (c :: s) ->
  exists pend', scan_rel pend' s ie (k - Nat.b2n pend') /\ Nat.b2n pend' <= k /\
    Nat.b2n pend + Nat.b2n pend' <= 1 /\ (pend' = true -> c = BACKSLASH).
Proof.
  inversion 1; subst; cbn; intros Hl; [lia|..].
  - exists false. rewrite Nat.sub_0_r. cbn. repeat split; [done|lia..|done].
  - exists true. cbn. rewrite Nat.sub_0_r. repeat split; [done|lia..].
  - exists false. rewrite Nat.sub_0_r. cbn. repeat split; [done|lia..|done].
Qed.

Lemma scan_rel_drop n pend s ie k :
  scan_rel pend s ie k -> n + length ie <= length s ->
  exists pend' k', scan_rel pend' (drop n s) ie k' /\ k' <= k /\
    2 * k + Nat.b2n pend <= 2 * k' + n + Nat.b2n pend'.
Proof.
  revert pend s k. induction n as [|n IH]; intros pend s k H Hl.
  - exists pend, k. rewrite drop_0. split; [done|lia].
  - destruct s as [|c s]; [apply scan_rel_count in H; cbn in *; lia|]. cbn in Hl.
    apply scan_rel_step in H as (p1 & H & Hk & Hp & _); [|cbn; lia].
    apply IH in H as (p' & k' & H & Hle & Hpot); [|lia].
    exists p', k'. cbn. split; [done|]. lia.
Qed.

(** The room left: the output so far and what the rest may still produce fit
    in front of the terminator. *)
Definition decode_room (ip ie output : list ascii) (capacity : nat) : Prop :=
  (exists pend k, scan_rel pend ip ie k /\
      length output + (length ip - length ie) < capacity + k) \/
  (length ip <= length ie /\ length output < capacity).

(** An escape of [2 * m] characters producing at most [m] bytes. *)
Lemma decode_room_escape pend k m ip ie output bytes capacity :
  scan_rel pend ip ie k -> length output + (length ip - length ie) < capacity + k ->
  2 * m + length ie <= length ip -> length bytes <= m ->
  decode_room (drop (2 * m) ip) ie (output ++ bytes) capacity /\
  length output + length bytes <= capacity.
Proof.
  intros H Hroom Hn Hb. pose proof (scan_rel_count _ _ _ _ H) as Hc.
  apply (scan_rel_drop (2 * m)) in H as (p' & k' & H & Hk & Hpot); [|done].
  pose proof (scan_rel_count _ _ _ _ H) as Hc'. rewrite length_drop in Hc'.
  split; [left; exists p', k'; split; [done|]; rewrite length_app, length_drop|];
    destruct pend, p'; cbn -[Nat.mul] in *; lia.
Qed.

Lemma decode_room_plain c ip ie output capacity :
  c <> BACKSLASH -> length ie < length (c :: ip) ->
  decode_room (c :: ip) ie output capacity ->
  decode_room ip ie (output ++ [c]) capacity /\ length output < capacity.
Proof.
  intros Hc Hl [(pend & k & H & Hroom)|[? _]]; [|lia].
  pose proof (scan_rel_count _ _ _ _ H) as Hk.
  apply scan_rel_step in H as (p' & H & _ & Hp & Hb); [|done].
  destruct p'; [by destruct Hc; apply Hb|]. cbn in H, Hk, Hroom, Hl. rewrite Nat.sub_0_r in H.
  split; [left; exists false, k; split; [done|]; rewrite length_app; cbn|]; lia.
Qed.

Lemma decode_room_exit ip ie output capacity :
  decode_room ip ie output capacity -> length ip <= length ie -> length output < capacity.
Proof.
  intros [(pend & k & H & Hroom)|[_ ?]] Hl; [|done].
  apply scan_rel_count in H. lia.
Qed.

(** Where the escapes of the second loop stop. *)
Lemma utf16_literal_safe ip ie :
  match utf16_literal_to_utf8 ip ie with
  | U16_ok bytes n =>
      exists m, n = 2 * m /\ 0 < m /\ length bytes <= m /\ n + length ie <= length ip
  | U16_fail => True
  | U16_ub => False
  end.
Proof.
  unfold utf16_literal_to_utf8.
  destruct (Nat.ltb_spec (length ip) (length ie + 6)) as [|H6]; [done|].
  destruct (parse_hex4_ok (drop 2 ip)) as (f & -> & Hf); [rewrite length_drop; lia|].
  destruct (_ && _); [done|]. destruct (_ && _).
  - destruct (Nat.ltb_spec (length (drop 6 ip)) (length ie + 6)) as [|H12]; [done|].
    destruct (drop 6 ip) as [|s0 [|s1 hex]] eqn:E; cbn in H12; [lia..|].
    assert (length ip = 6 + length (s0 :: s1 :: hex)) as Hl
      by (rewrite <- E, length_drop; lia). cbn in Hl.
    destruct (_ || _); [done|].
    destruct (parse_hex4_ok hex) as (g & -> & _); [lia|]. destruct (_ || _); [done|].
    unfold utf16_finish. destruct (utf8_encode _) as [bytes|] eqn:Eu; [|done].
    apply utf8_encode_length in Eu as [Hb _]. exists 6. lia.
  - unfold utf16_finish. destruct (utf8_encode f) as [bytes|] eqn:Eu; [|done].
    apply utf8_encode_length in Eu as [_ Hb]. exists 3. lia.
Qed.

Lemma decode_escape_safe ip ie :
  2 <= length ip ->
  match decode_escape ip ie with
  | U16_ok bytes n =>
      exists m, n = 2 * m /\ 0 < m /\ length bytes <= m /\
        (n + length ie <= length ip \/ n = 2)
  | U16_fail => True
  | U16_ub => False
  end.
Proof.
  destruct ip as [|a [|c ip]]; cbn [length]; [lia..|intros _]. unfold decode_escape.
  destruct (simple_escape c); [exists 1; cbn; lia|].
  destruct (c =? "u"%char); [|done].
  pose proof (utf16_literal_safe (a :: c :: ip) ie) as H.
  destruct (utf16_literal_to_utf8 _ ie); [|done..]. naive_solver.
Qed.

(** A two-character escape whose second character is the closing quote. *)
Lemma decode_room_overshoot a ip ie output bytes capacity :
  length (a :: ip) = length ie + 1 -> length bytes <= 1 ->
  decode_room (a :: ip) ie output capacity ->
  decode_room (drop 2 (a :: ip)) ie (output ++ bytes) capacity /\
  length output + length bytes <= capacity.
Proof.
  intros Hl Hb [(pend & k & H & Hroom)|[? _]]; [|lia].
  apply scan_rel_count in H. unfold decode_room. rewrite length_drop, length_app. lia.
Qed.

Lemma decode_room_decode a ip ie output capacity :
  length ie < length (a :: ip) -> 2 <= length (a :: ip) ->
  decode_room (a :: ip) ie output capacity ->
  match decode_escape (a :: ip) ie with
  | U16_ok bytes n =>
      0 < n /\ decode_room (drop n (a :: ip)) ie (output ++ bytes) capacity /\
      length output + length bytes <= capacity
  | U16_fail => True
  | U16_ub => False
  end.
Proof.
  intros Hl H2 Hroom. pose proof (decode_escape_safe (a :: ip) ie H2) as He.
  destruct (decode_escape (a :: ip) ie) as [bytes n| |]; [|done..].
  destruct He as (m & -> & Hm & Hb & Hn). split; [lia|].
  destruct (Nat.le_gt_cases (2 * m + length ie) (length (a :: ip))) as [Hle|Hgt].
  - destruct Hroom as [(pend & k & H & Hr)|[? _]]; [|lia].
    by eapply decode_room_escape.
  - assert (m = 1) as -> by lia. apply decode_room_overshoot; [lia..|done].
Qed.

Lemma decode_loop_safe fuel ip ie output capacity :
  length ip < fuel -> 1 <= length ie -> decode_room ip ie output capacity ->
  match decode_loop fuel ip ie output capacity with
  | D_ok _ | D_fail _ => True
  | D_ub | D_fuel => False
  end.
Proof.
  revert ip output. induction fuel as [|fuel IH]; intros ip output Hf Hie Hroom; [lia|].
  cbn [decode_loop]. destruct (Nat.leb_spec (length ip) (length ie)) as [Hle|Hgt].
  { apply decode_room_exit in Hroom; [|done]. by rewrite (proj2 (Nat.ltb_lt _ _) Hroom). }
  destruct ip as [|c ip]; [cbn in Hgt; lia|].
  destruct (Ascii.eqb_spec c BACKSLASH) as [->|Hc]; cbn [negb].
  - pose proof (decode_room_decode _ _ _ _ _ Hgt ltac:(lia) Hroom) as He.
    destruct (decode_escape _ ie) as [bytes n| |]; [|done..].
    destruct He as (Hn & Hroom' & Hcap). rewrite (proj2 (Nat.leb_le _ _) Hcap).
    apply IH; [|done..]. rewrite length_drop. cbn in *. lia.
  - apply decode_room_plain in Hroom as [Hroom Hcap]; [|done..].
    rewrite (proj2 (Nat.ltb_lt _ _) Hcap). apply IH; [|done..]. cbn in Hf. lia.
Qed.

(** ** Tokens *)

(** The offset of a pointer to a quote. *)
Lemma quote_offset value b pre rest :
  buffer_wf value b -> pb_content b = pre ++ DQUOTE :: rest ->
  offset_of b (DQUOTE :: rest) = length pre /\ length pre < length value.
Proof.
  intros (Hc & _) E. unfold offset_of. rewrite E, length_app. cbn. split; [lia|].
  rewrite Hc in E. destruct rest as [|r rest].
  - apply app_inj_tail in E as [_ E]. done.
  - apply (f_equal length) in E. rewrite !length_app in E. cbn in E. lia.
Qed.

Lemma decode_room_start rest ie j :
  scan_rel false rest ie j ->
  decode_room rest ie [] (length (DQUOTE :: rest) - length ie - j + 1).
Proof.
  intros H. left. exists false, j. split; [done|].
  apply scan_rel_count in H. cbn in *. lia.
Qed.

Lemma parse_string_bytes_safe value b :
  buffer_wf value b -> safe value (fun _ b' => moved value b b') (parse_string_bytes b).
Proof.
  intros Hwf. pose proof Hwf as (Hc & Hl & Ho). apply read_char_safe; [done|].
  intros c rest Hat. destruct (Ascii.eqb_spec c DQUOTE) as [->|]; cbn [negb]; [|done].
  unfold buffer_at_offset in *. rewrite <- drop_drop, Hat. change (drop 1 (DQUOTE :: rest)) with rest.
  destruct (scan_string rest 0) as [[ie k]|] eqn:E; [|done].
  apply scan_string_rel in E as (j & -> & H). cbn [Nat.add].
  pose proof (scan_rel_end _ _ _ _ H) as (pre & r & Hre & Hie).
  pose proof (decode_loop_safe (S (length rest)) rest ie [] _ ltac:(lia)
    ltac:(subst ie; cbn; lia) (decode_room_start _ _ _ H)) as Hd.
  destruct (decode_loop _ rest ie [] _); [|done..].
  destruct (quote_offset value b (take (pb_offset b) (pb_content b) ++ DQUOTE :: pre) r)
    as [Hoff Hlt]; [done| |].
  - rewrite <- app_assoc. cbn. rewrite <- Hie, <- Hre, <- Hat. by rewrite take_drop.
  - rewrite Hie, Hoff. rewrite length_app, length_take, Hc, length_app in *. cbn in *.
    wf_solve.
Qed.

Lemma take_number_length n s : length (take_number n s) <= length s.
Proof.
  revert s. induction n as [|n IH]; intros [|c s]; cbn; try lia.
  destruct (is_number_char c); cbn; [|lia]. specialize (IH s). lia.
Qed.

Lemma take_number_prefix n s : exists t, s = take_number n s ++ t.
Proof.
  revert s. induction n as [|n IH]; intros [|c s]; cbn; eauto.
  destruct (is_number_char c); [|eauto]. destruct (IH s) as [t Ht]. exists t. cbn. by f_equal.
Qed.

Lemma take_number_no_nul n s : NUL ∉ take_number n s.
Proof.
  revert s. induction n as [|n IH]; intros [|c s]; cbn; try set_solver.
  destruct (is_number_char c) eqn:E; [|set_solver].
  apply not_elem_of_cons. split; [|apply IH]. intros <-. done.
Qed.

Lemma prefix_before_nul (v w t : cstr) :
  v ++ [NUL] = w ++ t -> NUL ∉ w -> length w <= length v.
Proof.
  intros [(k & -> & _)|(k & -> & E)]%app_eq_inv Hw; rewrite ?length_app; [lia|].
  destruct k as [|c k]; cbn in *; [lia|]. injection E as <- E. set_solver.
Qed.

Lemma parse_number_moves value b :
  buffer_wf value b ->
  safe value (fun item b' => moved value b b' /\ cJSON_nodes item = 1) (parse_number b).
Proof.
  intros Hwf. pose proof Hwf as (Hc & Hl & Ho). unfold parse_number.
  rewrite take_ge by (rewrite (buffer_at_offset_length value) by done; lia).
  unfold buffer_at_offset. rewrite Hc, drop_app_le by done. set (s := _ ++ [NUL]).
  pose proof (strtod_consumed (take_number 63 s)) as Hn.
  destruct (strtod _) as [d n]. cbn [snd] in Hn.
  destruct (Nat.eqb_spec n 0); [done|]. split; [|done]. apply advance_moved; [done|lia|].
  destruct (take_number_prefix 63 s) as [t Ht].
  apply prefix_before_nul in Ht; [|apply take_number_no_nul].
  rewrite length_drop in Ht. lia.
Qed.

(** ** Values *)

Lemma parse_close_safe {A} value close (a : A) b0 b :
  stayed value b0 b -> close <> NUL ->
  safe value (fun _ b' => buffer_wf value b' /\ pb_offset b0 < pb_offset b' /\
                pb_depth b' = pb_depth b0 - 1) (parse_close close a b).
Proof.
  intros (Hwf & Hle & Hd) Hn. unfold parse_close. destruct (at_char b close) eqn:E.
  - apply (at_char_inside value) in E; [|done..]. cbn. wf_solve.
  - destruct Hwf as (? & ? & ?). done.
Qed.

(** The result [b'] of reading [n] nodes from [b]: at least as many characters
    were read. *)
Definition read_nodes (value : cstr) (b b' : parse_buffer) (n : nat) : Prop :=
  moved value b b' /\ pb_offset b + n <= pb_offset b'.

(** A parser of values that is safe at depth [d]. *)
Definition value_parser (value : cstr) (d : nat) (pv : parse_buffer -> pres cJSON) : Prop :=
  forall b, buffer_wf value b -> pb_depth b = d ->
    safe value (fun item b' => read_nodes value b b' (cJSON_nodes item)) (pv b).

Definition nodes_sum (child : list cJSON) : nat := list_sum (List.map cJSON_nodes child).
Definition members_sum (child : list (list ascii * cJSON)) : nat :=
  list_sum (List.map (fun m => cJSON_nodes (snd m)) child).

Lemma nodes_sum_snoc child item : nodes_sum (child ++ [item]) = nodes_sum child + cJSON_nodes item.
Proof. unfold nodes_sum. rewrite List.map_app, list_sum_app. cbn. lia. Qed.
Lemma members_sum_snoc child m :
  members_sum (child ++ [m]) = members_sum child + cJSON_nodes (snd m).
Proof. unfold members_sum. rewrite List.map_app, list_sum_app. cbn. lia. Qed.

Lemma stayed_moved value b b1 b2 : stayed value b b1 -> moved value b1 b2 -> moved value b b2.
Proof. wf_solve. Qed.
Lemma moved_stayed value b b1 b2 : moved value b b1 -> stayed value b1 b2 -> moved value b b2.
Proof. wf_solve. Qed.
Lemma moved_trans value b b1 b2 : moved value b b1 -> moved value b1 b2 -> moved value b b2.
Proof. wf_solve. Qed.
Lemma moved_wf value b b' : moved value b b' -> buffer_wf value b'.
Proof. by intros (? & _). Qed.
Lemma stayed_wf value b b' : stayed value b b' -> buffer_wf value b'.
Proof. by intros (? & _). Qed.

#[local] Hint Resolve moved_wf stayed_wf buffer_skip_whitespace_stays : cacher.

Lemma skip_after value b b' :
  moved value b b' -> moved value b (buffer_skip_whitespace b').
Proof. intros H. eapply moved_stayed; eauto with cacher. Qed.

Lemma read_nodes_after value b b1 b2 n :
  moved value b b1 -> read_nodes value b1 b2 n ->
  read_nodes value b (buffer_skip_whitespace b2) (S n).
Proof.
  intros H1 [H2 Hn]. pose proof (skip_after _ _ _ (moved_trans _ _ _ _ H1 H2)) as H3.
  pose proof (buffer_skip_whitespace_stays value b2 (moved_wf _ _ _ H2)) as (_ & H4 & _).
  split; [done|]. destruct H1 as (_ & H1 & _). lia.
Qed.

(** [b] stands one character in front of the next element. *)
Lemma parse_array_loop_safe value d pv fuel b child :
  value_parser value d pv -> buffer_wf value b -> pb_offset b < length value ->
  pb_depth b = d -> length value - pb_offset b <= fuel ->
  safe value (fun items b' => moved value b b' /\
                pb_offset b + nodes_sum items <= pb_offset b' + nodes_sum child)
    (parse_array_loop fuel pv b child).
Proof.
  intros Hpv. revert b child. induction fuel as [|fuel IH]; intros b child Hwf Hin Hd Hf; [lia|].
  cbn. assert (Hm : moved value b (buffer_skip_whitespace (advance b 1)))
    by (apply skip_after, advance_moved; [done|lia..]).
  eapply safe_bind; [apply Hpv; [by eapply moved_wf|by destruct Hm as (_ & _ & ->)]|].
  intros item b1 [H1 Hs]%(read_nodes_after _ _ _ _ _ Hm).
  destruct (at_char _ _) eqn:E; [|cbn; rewrite nodes_sum_snoc; split; [done|lia]].
  apply (at_char_inside value) in E; [|by eapply moved_wf|done].
  pose proof H1 as (Hwf1 & Hlt & Hd1). eapply safe_mono.
  - apply IH; [done..|congruence|lia].
  - intros items b2 [H2 Hs2]. rewrite nodes_sum_snoc in Hs2.
    split; [by eapply moved_trans|lia].
Qed.

Lemma parse_member_safe value d pv b :
  value_parser value d pv -> buffer_wf value b -> pb_depth b = d ->
  safe value (fun m b' => read_nodes value b b' (cJSON_nodes (snd m))) (parse_member pv b).
Proof.
  intros Hpv Hwf Hd. unfold parse_member, can_access_at_index.
  pose proof Hwf as (Hc & Hl & Ho).
  destruct (Nat.ltb_spec (pb_offset b + 1) (pb_length b)); cbn [negb]; [|done].
  assert (Hm : moved value b (buffer_skip_whitespace (advance b 1)))
    by (apply skip_after, advance_moved; [done|lia..]).
  eapply safe_bind; [eapply parse_string_bytes_safe; by eapply moved_wf|].
  intros name b1 H1%(moved_trans _ _ _ _ Hm)%skip_after.
  destruct (at_char _ _) eqn:E; cbn [negb]; [|by destruct H1 as [(? & ? & ?) _]].
  apply (at_char_inside value) in E; [|by eapply moved_wf|done].
  assert (H2 : moved value b (buffer_skip_whitespace (advance (buffer_skip_whitespace b1) 1))).
  { apply skip_after. eapply moved_trans; [done|]. apply advance_moved; [|lia..].
    by eapply moved_wf. }
  eapply safe_bind; [apply Hpv; [by eapply moved_wf|by destruct H2 as (_ & _ & ->)]|].
  intros item b3 [H3 Hs]%(read_nodes_after _ _ _ _ _ H2). split; [done|cbn; lia].
Qed.

Lemma parse_object_loop_safe value d pv fuel b child :
  value_parser value d pv -> buffer_wf value b -> pb_depth b = d ->
  length value - pb_offset b < fuel ->
  safe value (fun items b' => moved value b b' /\
                pb_offset b + members_sum items <= pb_offset b' + members_sum child)
    (parse_object_loop fuel pv b child).
Proof.
  intros Hpv. revert b child. induction fuel as [|fuel IH]; intros b child Hwf Hd Hf; [lia|].
  cbn. eapply safe_bind; [by apply (parse_member_safe _ d)|].
  intros member b1 [H1 Hs].
  destruct (at_char _ _) eqn:E; [|cbn; rewrite members_sum_snoc; split; [done|lia]].
  pose proof H1 as (Hwf1 & Hlt & Hd1). eapply safe_mono.
  - apply IH; [done|congruence|]. apply (at_char_inside value) in E; [lia|done..].
  - intros items b2 [H2 Hs2]. rewrite members_sum_snoc in Hs2.
    split; [by eapply moved_trans|lia].
Qed.

(** The buffer behind an opening bracket at [b]. *)
Lemma open_bracket value b :
  buffer_wf value b -> pb_offset b < length value ->
  let b1 := set_depth b (S (pb_depth b)) in moved value b1 (buffer_skip_whitespace (advance b1 1)).
Proof. intros Hwf Hin b1. apply skip_after, advance_moved; [wf_solve|lia|cbn; lia]. Qed.

(** Read the items between the brackets, then the closing one. *)
Lemma parse_items_safe {A} value b b1 (loop : pres A) close (f : A -> cJSON) (sum : A -> nat) :
  moved value (set_depth b (S (pb_depth b))) b1 -> close <> NUL ->
  (forall items, cJSON_nodes (f items) = S (sum items)) ->
  safe value (fun items b' => moved value (step_back b1) b' /\
                pb_offset (step_back b1) + sum items <= pb_offset b') loop ->
  safe value (fun item b' => read_nodes value b b' (cJSON_nodes item))
    (let! items, b' := loop in parse_close close (f items) b').
Proof.
  intros H1 Hc Hf Hloop. eapply safe_bind; [done|]. intros items b2 [H2 Hs].
  unfold parse_close. destruct (at_char b2 close) eqn:E.
  - apply (at_char_inside value) in E; [|by eapply moved_wf|done].
    unfold read_nodes. cbn [safe]. rewrite Hf. wf_solve.
  - destruct H2 as [(? & ? & ?) _]. done.
Qed.

Lemma parse_close_at_once value b b1 close item :
  moved value (set_depth b (S (pb_depth b))) b1 -> close <> NUL -> cJSON_nodes item = 1 ->
  safe value (fun item b' => read_nodes value b b' (cJSON_nodes item))
    (parse_close close item b1).
Proof.
  intros H1 Hc Hi. unfold parse_close. destruct (at_char b1 close) eqn:E.
  - apply (at_char_inside value) in E; [|by eapply moved_wf|done].
    unfold read_nodes. cbn [safe]. rewrite Hi. wf_solve.
  - destruct H1 as [(? & ? & ?) _]. done.
Qed.

Lemma set_depth_wf value b d : buffer_wf value b -> buffer_wf value (set_depth b d).
Proof. wf_solve. Qed.

Lemma parse_array_safe value d pv b :
  (d < CJSON_NESTING_LIMIT -> value_parser value (S d) pv) -> buffer_wf value b -> pb_depth b = d ->
  safe value (fun item b' => read_nodes value b b' (cJSON_nodes item))
    (parse_array (pb_length b) pv b).
Proof.
  intros Hpv Hwf Hd. unfold parse_array. pose proof Hwf as (Hc & Hl & Ho).
  destruct (Nat.leb_spec CJSON_NESTING_LIMIT (pb_depth b)) as [|Hlim]; [done|].
  rewrite Hd in Hlim. specialize (Hpv Hlim).
  apply read_char_safe; [by apply set_depth_wf|]. intros c rest Hat.
  destruct (Ascii.eqb_spec c "["%char) as [->|]; cbn [negb]; [|done].
  apply (at_offset_inside value) in Hat; [|by apply set_depth_wf|done]. cbn in Hat.
  pose proof (open_bracket _ _ Hwf Hat) as H1. cbn zeta in H1.
  destruct (at_char _ _); [by apply parse_close_at_once|].
  destruct (can_access_at_index _ 0); cbn [negb]; [|wf_solve].
  apply (parse_items_safe value b _ _ _ cJSON_Array nodes_sum H1); [done..|].
  eapply safe_mono; [apply (parse_array_loop_safe value (S d)); [done|wf_solve..]|].
  intros items b2 [H2 Hs]. split; [done|]. change (nodes_sum []) with 0 in Hs. lia.
Qed.

Lemma parse_object_safe value d pv b :
  (d < CJSON_NESTING_LIMIT -> value_parser value (S d) pv) -> buffer_wf value b -> pb_depth b = d ->
  safe value (fun item b' => read_nodes value b b' (cJSON_nodes item))
    (parse_object (pb_length b) pv b).
Proof.
  intros Hpv Hwf Hd. unfold parse_object. pose proof Hwf as (Hc & Hl & Ho).
  destruct (Nat.leb_spec CJSON_NESTING_LIMIT (pb_depth b)) as [|Hlim]; [done|].
  rewrite Hd in Hlim. specialize (Hpv Hlim).
  destruct (at_char _ _) eqn:Hat; cbn [negb]; [|done].
  apply (at_char_inside value) in Hat; [|by apply set_depth_wf|done]. cbn in Hat.
  pose proof (open_bracket _ _ Hwf Hat) as H1. cbn zeta in H1.
  destruct (at_char _ _); [by apply parse_close_at_once|].
  destruct (can_access_at_index _ 0); cbn [negb]; [|wf_solve].
  apply (parse_items_safe value b _ _ _ cJSON_Object members_sum H1); [done..|].
  eapply safe_mono; [apply (parse_object_loop_safe value (S d)); [done|wf_solve..]|].
  intros items b2 [H2 Hs]. split; [done|]. change (members_sum []) with 0 in Hs. lia.
Qed.

(** A literal without NUL is read in front of the terminator. *)
Lemma at_word_moved value b w :
  buffer_wf value b -> at_word b w = true -> NUL ∉ w -> 0 < length w ->
  moved value b (advance b (length w)).
Proof.
  intros Hwf [_ H]%andb_true_iff Hw Hpos. pose proof Hwf as (Hc & Hl & Ho).
  apply strncmp_eq_prefix in H as [s Hs]; [|done].
  unfold buffer_at_offset in Hs. rewrite Hc, drop_app_le in Hs by done.
  apply prefix_before_nul in Hs; [|done]. rewrite length_drop in Hs.
  apply advance_moved; [done|lia..].
Qed.

Lemma str_no_nul_dec s : bool_decide (NUL ∉ str s) = true -> NUL ∉ str s.
Proof. apply bool_decide_eq_true. Qed.

(** A token is one node. *)
Lemma safe_leaf value b m :
  safe value (fun item b' => moved value b b' /\ cJSON_nodes item = 1) m ->
  safe value (fun item b' => read_nodes value b b' (cJSON_nodes item)) m.
Proof.
  intros H. eapply safe_mono; [done|]. intros item b' [Hm ->]. split; [done|].
  destruct Hm as (_ & ? & _). lia.
Qed.

Lemma parse_string_safe value b :
  buffer_wf value b ->
  safe value (fun item b' => read_nodes value b b' (cJSON_nodes item)) (parse_string b).
Proof.
  intros Hwf. apply safe_leaf. eapply safe_bind; [by apply parse_string_bytes_safe|]. done.
Qed.

Lemma parse_number_safe value b :
  buffer_wf value b ->
  safe value (fun item b' => read_nodes value b b' (cJSON_nodes item)) (parse_number b).
Proof. intros Hwf. by apply safe_leaf, parse_number_moves. Qed.

Lemma at_word_safe value b w item :
  buffer_wf value b -> at_word b w = true -> NUL ∉ w -> 0 < length w -> cJSON_nodes item = 1 ->
  safe value (fun item b' => read_nodes value b b' (cJSON_nodes item))
    (POk item (advance b (length w))).
Proof. intros. apply safe_leaf. cbn. split; [by apply at_word_moved|done]. Qed.

Lemma parse_value_safe value fuel b :
  buffer_wf value b -> CJSON_NESTING_LIMIT < fuel + pb_depth b -> pb_depth b <= CJSON_NESTING_LIMIT ->
  safe value (fun item b' => read_nodes value b b' (cJSON_nodes item)) (parse_value fuel b).
Proof.
  revert b. induction fuel as [|fuel IH]; intros b Hwf Hf Hd; [lia|]. cbn [parse_value].
  destruct (at_word b (str "null")) eqn:E;
    [by apply (at_word_safe value b (str "null")); [| |apply str_no_nul_dec|cbn; lia|]|clear E].
  destruct (at_word b (str "false")) eqn:E;
    [by apply (at_word_safe value b (str "false")); [| |apply str_no_nul_dec|cbn; lia|]|clear E].
  destruct (at_word b (str "true")) eqn:E;
    [by apply (at_word_safe value b (str "true")); [| |apply str_no_nul_dec|cbn; lia|]|clear E].
  destruct (at_char b DQUOTE); [by apply parse_string_safe|].
  destruct (at_number b); [by apply parse_number_safe|].
  assert (pb_depth b < CJSON_NESTING_LIMIT -> value_parser value (S (pb_depth b)) (parse_value fuel)).
  { intros Hlt b1 Hwf1 Hd1. apply IH; [done|lia..]. }
  destruct (at_char b "["%char); [by eapply parse_array_safe|].
  destruct (at_char b "{"%char); [by eapply parse_object_safe|].
  by destruct Hwf as (? & ? & ?).
Qed.

Lemma init_buffer_wf value : buffer_wf value (init_buffer value).
Proof. repeat split; cbn; lia. Qed.

Lemma skip_utf8_bom_stays value b :
  buffer_wf value b -> stayed value b (skip_utf8_bom b).
Proof.
  intros Hwf. unfold skip_utf8_bom. destruct (_ && _) eqn:E; [|by apply stayed_refl].
  apply andb_true_iff in E as [H%Nat.ltb_lt _]. wf_solve.
Qed.

(** The outcome of [cJSON_Parse] on any C string. *)
Lemma cJSON_Parse_outcome value :
  safe value (fun item b => buffer_wf value b /\ cJSON_nodes item <= length value)
    (cJSON_Parse value).
Proof.
  assert (stayed value (init_buffer value)
            (buffer_skip_whitespace (skip_utf8_bom (init_buffer value)))) as (Hwf & _ & Hd).
  { pose proof (skip_utf8_bom_stays value _ (init_buffer_wf value)) as H.
    pose proof (buffer_skip_whitespace_stays value _ (stayed_wf _ _ _ H)). wf_solve. }
  cbn in Hd. eapply safe_mono.
  - apply parse_value_safe; [done|rewrite Hd; unfold parse_fuel; lia..].
  - intros item b [(Hwf' & _) Hn]. split; [done|]. destruct Hwf' as (_ & _ & ?). lia.
Qed.

(** ** Properties *)

(** On every NUL-terminated input the JSON parser returns a value or an
    error: it never reads outside its buffer, never writes past the block
    allocated for a decoded string, and terminates (nesting included); a value
    has at most as many nodes as the input has characters. *)
Theorem cJSON_Parse_safe value :
  (exists item b, cJSON_Parse value = POk item b /\ pb_offset b <= length value /\
                  cJSON_nodes item <= length value) \/
  (exists b, cJSON_Parse value = PErr b).
Proof.
  pose proof (cJSON_Parse_outcome value) as H. destruct (cJSON_Parse value) as [a b|b| |].
  - left. exists a, b. destruct H as [(_ & _ & Ho) Hn]. by repeat split.
  - right. by exists b.
  - done.
  - done.
Qed.
