(* ===== verification/CHeap.v ===== *)
(** * Dynamic memory

    A state monad for code that calls [malloc] and [free].  The heap records
    which blocks are live; an oracle decides which allocations succeed, so a
    theorem over every heap covers every pattern of allocation failures.
    [None] is undefined behaviour: freeing a block that is not live, or writing
    an array out of range. *)

From S2P Require Import Prelude.
From Stdlib Require Import Lia.

Record heap := Heap {
  h_next : nat;             (* number of allocation attempts so far *)
  h_live : gset nat;        (* blocks allocated and not freed *)
  h_oracle : nat -> bool;   (* does the n-th attempt succeed? *)
}.

Definition M (A : Type) : Type := heap -> option (A * heap).

#[export] Instance M_ret : MRet M := fun A a h => Some (a, h).
#[export] Instance M_bind : MBind M := fun A B k m h =>
  match m h with
  | Some (a, h') => k a h'
  | None => None
  end.

(** Undefined behaviour, and a partial C operation. *)
Definition ub {A} : M A := fun _ => None.
Definition defined {A} (o : option A) : M A := fun h => (fun a => (a, h)) <$> o.

(** [malloc]: a block, or NULL when the oracle refuses. *)
Definition malloc : M (option nat) := fun h =>
  let h' := fun live => Heap (S (h_next h)) live (h_oracle h) in
  if h_oracle h (h_next h)
  then Some (Some (h_next h), h' ({[h_next h]} ∪ h_live h))
  else Some (None, h' (h_live h)).

(** [calloc(n, size)] fails when the product overflows a [size_t]. *)
Definition calloc (n size : Z) : M (option nat) :=
  if (n * size <? 18446744073709551616)%Z then malloc else mret None.

(** [(size_t) count + 1] *)
Definition size_succ (count : Z) : Z :=
  ((count mod 18446744073709551616 + 1) mod 18446744073709551616)%Z.

(** [free(p)] for a non-NULL pointer. *)
Definition free (b : nat) : M unit := fun h =>
  if decide (b ∈ h_live h)
  then Some (tt, Heap (h_next h) (h_live h ∖ {[b]}) (h_oracle h))
  else None.

(** ** Strings and arrays in blocks *)

(** A string in a block of its own. *)
Record mstr := MStr { ms_blk : nat; ms_val : cstr }.

(** A terminated array in a block of its own: the elements in front of the
    terminator the code wrote. *)
Record marr (A : Type) := MArr { ma_blk : nat; ma_elts : list A }.
Arguments MArr {A} ma_blk ma_elts.
Arguments ma_blk {A} m.
Arguments ma_elts {A} m.

(** An array being filled: its slots, [None] where nothing (or NULL) is
    stored.  A write out of range is undefined. *)
Abbreviation slots A := (list (option A)).

Definition write_slot {A} (a : slots A) (i : nat) (x : option A) : option (slots A) :=
  if (i <? length a)%nat then Some (<[i := x]> a) else None.

(** The elements in front of the first empty slot; undefined without one. *)
Fixpoint until_empty {A} (a : slots A) : option (list A) :=
  match a with
  | [] => None
  | None :: _ => Some []
  | Some x :: a' => cons x <$> until_empty a'
  end.

(** ** Reasoning *)

(** [wp m Q h]: [m] run in [h] is defined and ends in [Q]. *)
Definition wp {A} (m : M A) (Q : A -> heap -> Prop) (h : heap) : Prop :=
  match m h with Some (a, h') => Q a h' | None => False end.

Lemma wp_ret {A} (a : A) Q h : Q a h -> wp (mret a) Q h.
Proof. done. Qed.

Lemma wp_bind {A B} (m : M A) (k : A -> M B) Q h :
  wp m (fun a h' => wp (k a) Q h') h -> wp (m ≫= k) Q h.
Proof. unfold wp, mbind, M_bind. destruct (m h) as [[a h']|]; done. Qed.

Lemma wp_mono {A} (m : M A) (P Q : A -> heap -> Prop) h :
  wp m P h -> (forall a h', P a h' -> Q a h') -> wp m Q h.
Proof. unfold wp. destruct (m h) as [[a h']|]; naive_solver. Qed.

Lemma wp_defined {A} (o : option A) (a : A) Q h : o = Some a -> Q a h -> wp (defined o) Q h.
Proof. by intros ->. Qed.

(** What every result has. *)
Lemma wp_fact {A} (m : M A) Q (P : A -> Prop) h :
  wp m Q h -> (forall a h', m h = Some (a, h') -> P a) -> wp m (fun a h' => Q a h' /\ P a) h.
Proof. unfold wp. destruct (m h) as [[a h']|]; [|done]. intros H HP. split; [done|by eapply HP]. Qed.

Lemma wp_run {A} (m : M A) Q h : wp m Q h -> exists a h', m h = Some (a, h') /\ Q a h'.
Proof. unfold wp. destruct (m h) as [[a h']|]; naive_solver. Qed.

Definition heap_wf (h : heap) : Prop := forall b, b ∈ h_live h -> b < h_next h.

Definition reliable (h : heap) : Prop := forall n, h_oracle h n = true.

(** [owns h h' l]: from [h] to [h'] exactly the fresh blocks [l] were added. *)
Record owns (h h' : heap) (l : list nat) : Prop := {
  own_next : h_next h <= h_next h';
  own_live : h_live h' = h_live h ∪ list_to_set l;
  own_nodup : NoDup l;
  own_fresh : Forall (fun b => h_next h <= b < h_next h') l;
  own_oracle : h_oracle h' = h_oracle h;
}.

Lemma owns_nil h : owns h h [].
Proof. split; [done|set_solver|constructor|constructor|done]. Qed.

(** What is new was not in use. *)
Lemma owns_disjoint h h' l : heap_wf h -> owns h h' l -> list_to_set l ## h_live h.
Proof.
  intros Hwf Ho b Hin Hlive. apply elem_of_list_to_set in Hin. pose proof (own_fresh _ _ _ Ho) as Hf.
  rewrite Forall_forall in Hf. apply Hf in Hin. apply Hwf in Hlive. lia.
Qed.

Lemma owns_wf h h' l : heap_wf h -> owns h h' l -> heap_wf h'.
Proof.
  intros Hwf [Hn Hl _ Hf _] b. rewrite Hl, elem_of_union, elem_of_list_to_set.
  rewrite Forall_forall in Hf. intros [?%Hwf|?%Hf]; lia.
Qed.

Lemma owns_trans h h1 h2 l1 l2 :
  owns h h1 l1 -> owns h1 h2 l2 -> owns h h2 (l1 ++ l2).
Proof.
  intros [Hn1 Hl1 Hd1 Hf1 Ho1] [Hn2 Hl2 Hd2 Hf2 Ho2]. rewrite Forall_forall in *.
  split; [lia| | | |congruence].
  - rewrite Hl2, Hl1, list_to_set_app_L. set_solver.
  - apply NoDup_app. repeat split; [done| |done].
    intros b ?%Hf1 ?%Hf2. lia.
  - apply Forall_forall. intros b [?%Hf1|?%Hf2]%elem_of_app; lia.
Qed.

Lemma owns_perm h h' l l' : l ≡ₚ l' -> owns h h' l -> owns h h' l'.
Proof.
  intros Hp [Hn Hl Hd Hf Ho]. split; [done| | | |done].
  - rewrite Hl. by rewrite Hp.
  - by rewrite <- Hp.
  - by rewrite <- Hp.
Qed.

Lemma owns_reliable h h' l : owns h h' l -> reliable h -> reliable h'.
Proof. intros [] Hr n. rewrite own_oracle0. apply Hr. Qed.

Lemma wp_malloc h :
  wp malloc (fun r h' => owns h h' (option_list r) /\ (reliable h -> is_Some r)) h.
Proof.
  unfold wp, malloc. destruct (h_oracle h (h_next h)) eqn:E; cbn;
    (split; [split; cbn; [lia|set_solver|repeat constructor; set_solver
                         |repeat constructor; lia|done]
            |intros Hr; specialize (Hr (h_next h)); congruence || eauto]).
Qed.

Lemma size_succ_id count : (0 <= count < 4294967296)%Z -> size_succ count = (count + 1)%Z.
Proof. intros H. unfold size_succ. rewrite (Z.mod_small count) by lia. apply Z.mod_small. lia. Qed.

Lemma wp_calloc n size h :
  wp (calloc n size) (fun r h' => owns h h' (option_list r) /\
     (reliable h -> (n * size < 18446744073709551616)%Z -> is_Some r)) h.
Proof.
  unfold calloc. destruct (Z.ltb_spec (n * size) 18446744073709551616).
  - eapply wp_mono; [apply wp_malloc|]. naive_solver.
  - apply wp_ret. split; [apply owns_nil|]. intros; lia.
Qed.

(** [frees m l]: [m] releases exactly the blocks [l]. *)
Definition frees (m : M unit) (l : list nat) : Prop :=
  forall h, NoDup l -> Forall (fun b => b ∈ h_live h) l ->
    wp m (fun _ h' => h_live h' = h_live h ∖ list_to_set l /\
                      h_next h' = h_next h /\ h_oracle h' = h_oracle h) h.

Lemma frees_ret : frees (mret tt) [].
Proof. intros h _ _. apply wp_ret. split; [set_solver|done]. Qed.

Lemma frees_free b : frees (free b) [b].
Proof.
  intros h _ Hl. inversion_clear Hl. unfold wp, free. rewrite decide_True by done. cbn.
  split; [set_solver|done].
Qed.

Lemma frees_seq m1 m2 l1 l2 :
  frees m1 l1 -> frees m2 l2 -> frees (m1 ≫= fun _ => m2) (l1 ++ l2).
Proof.
  intros H1 H2 h (Hd1 & Hd & Hd2)%NoDup_app [Hl1 Hl2]%Forall_app.
  apply wp_bind. eapply wp_mono; [by apply H1|]. intros [] h1 (E1 & En1 & Eo1).
  assert (Forall (fun b => b ∈ h_live h1) l2) as Hl2'.
  { rewrite Forall_forall in *. intros b Hb. rewrite E1.
    specialize (Hl2 b Hb). rewrite elem_of_difference, elem_of_list_to_set. naive_solver. }
  eapply wp_mono; [by apply H2|]. intros [] h2 (E2 & En2 & Eo2).
  rewrite E2, E1, list_to_set_app_L. split; [set_solver|split; congruence].
Qed.

(** Freeing what was allocated restores the heap. *)
Lemma frees_owned h h' l m :
  heap_wf h -> owns h h' l -> frees m l ->
  wp m (fun _ h'' => h_live h'' = h_live h) h'.
Proof.
  intros Hwf [Hn Hl Hd Hf Ho] Hm. rewrite Forall_forall in Hf. eapply wp_mono; [apply Hm|].
  - done.
  - apply Forall_forall. intros b Hb. rewrite Hl. set_solver.
  - intros [] h'' (E & _ & _). rewrite E, Hl. apply set_eq. intros b.
    rewrite elem_of_difference, elem_of_union, elem_of_list_to_set.
    split; [naive_solver|]. intros Hb. split; [by left|]. intros ?%Hf. apply Hwf in Hb. lia.
Qed.

(** Freeing one of the fresh blocks. *)
Lemma owns_free h h' b l :
  heap_wf h -> owns h h' (b :: l) -> wp (free b) (fun _ h'' => owns h h'' l) h'.
Proof.
  intros Hwf [Hn Hl [Hb Hd]%NoDup_cons [Hfb Hf]%Forall_cons Ho]. unfold wp, free.
  rewrite decide_True by (rewrite Hl; set_solver). split; cbn; try done.
  rewrite Hl. cbn. apply set_eq. intros x.
  rewrite elem_of_difference, !elem_of_union, elem_of_singleton, elem_of_list_to_set.
  destruct (decide (x = b)) as [->|]; [|naive_solver]. split; [naive_solver|].
  intros [Hx|Hx]; [apply Hwf in Hx; lia|done].
Qed.

(** Run [m], and know what it owns from the start. *)
Lemma wp_then {A B} (m : M A) (k : A -> M B) P Q h0 h l (blks : A -> list nat) :
  heap_wf h0 -> owns h0 h l ->
  (heap_wf h -> wp m (fun a h' => owns h h' (blks a) /\ P a) h) ->
  (forall a h', owns h0 h' (l ++ blks a) -> P a -> wp (k a) Q h') ->
  wp (m ≫= k) Q h.
Proof.
  intros Hwf Ho Hm Hk. apply wp_bind. eapply wp_mono; [apply Hm; by eapply owns_wf|].
  intros a h' [Ho' HP]. apply Hk; [by eapply owns_trans|done].
Qed.

(** ** Filled arrays *)

(** The array with the elements [l] followed by [k] empty slots. *)
Definition filled {A} (l : list A) (k : nat) : slots A := (Some <$> l) ++ replicate k None.

Lemma filled_nil {A} k : replicate k None = @filled A [] k.
Proof. done. Qed.

Lemma write_filled {A} (l : list A) k i (x : A) :
  i = length l -> 0 < k -> write_slot (filled l k) i (Some x) = Some (filled (l ++ [x]) (k - 1)).
Proof.
  intros -> Hk. unfold write_slot, filled. destruct k as [|k]; [lia|]. cbn [replicate].
  rewrite length_app, length_fmap, (proj2 (Nat.ltb_lt _ _)) by (cbn; lia).
  rewrite insert_app_r_alt by (rewrite length_fmap; lia).
  rewrite length_fmap, Nat.sub_diag, fmap_app, <- app_assoc. cbn. by rewrite Nat.sub_0_r.
Qed.

Lemma write_filled_none {A} (l : list A) k i :
  i = length l -> 0 < k -> write_slot (filled l k) i None = Some (filled l k).
Proof.
  intros -> Hk. unfold write_slot, filled. destruct k as [|k]; [lia|]. cbn [replicate].
  rewrite length_app, length_fmap, (proj2 (Nat.ltb_lt _ _)) by (cbn; lia).
  rewrite insert_app_r_alt by (rewrite length_fmap; lia).
  by rewrite length_fmap, Nat.sub_diag.
Qed.

Lemma until_empty_filled {A} (l : list A) k :
  0 < k -> until_empty (filled l k) = Some l.
Proof.
  intros Hk. unfold filled. induction l as [|x l IH]; cbn.
  - by destruct k; [lia|].
  - by rewrite IH.
Qed.
