(* ===== verification/CJsonAlloc.v ===== *)
(** * The JSON parser and its memory (src/third_party/cJSON.c)

    The functions of [CJson.v] that allocate: every node and every string is in
    a block of its own, any allocation may fail, and on every error the part of
    the tree that was built is deleted again.  A parse gives the tree that
    [CJson.v] describes, in fresh blocks that [cJSON_Delete] releases, or it
    leaves the heap as it was. *)

From S2P Require Import Prelude CNum CHeap CJson CJsonSafety.
From Stdlib Require Import Lia.
Local Open Scope cstr_scope.

(** ** Data *)

(** A node: its block, [string] (the name it has in an object), and what the
    [type] tag tells about the rest of it. *)
Record node (V : Type) := Node { nd_blk : nat; nd_string : option mstr; nd_value : V }.
Arguments Node {V}.
Arguments nd_blk {V}.
Arguments nd_string {V}.
Arguments nd_value {V}.

(** [JInvalid] is the zeroed node of [cJSON_New_Item]; a string is in a block
    ([valuestring]); [child] is the list of the nodes of an array or object. *)
Inductive jvalue : Type :=
  | JInvalid
  | JScalar (item : cJSON)
  | JString (valuestring : mstr)
  | JArray (child : list (node jvalue))
  | JObject (child : list (node jvalue)).

Abbreviation jnode := (node jvalue).

Section for_each.
Context {A : Type} (f : A -> M unit).

Fixpoint for_each (l : list A) : M unit :=
  match l with
  | [] => mret tt
  | x :: l' => f x ≫= fun _ => for_each l'
  end.
End for_each.

Definition free_mstr (s : option mstr) : M unit :=
  match s with Some s => free (ms_blk s) | None => mret tt end.

(** What [cJSON_Delete] does with one node: the children, [valuestring],
    [string], the node. *)
Fixpoint delete_value (v : jvalue) : M unit :=
  match v with
  | JArray child | JObject child =>
      for_each (fun n => delete_value (nd_value n) ≫= fun _ =>
                         free_mstr (nd_string n) ≫= fun _ => free (nd_blk n)) child
  | JString s => free (ms_blk s)
  | JScalar _ | JInvalid => mret tt
  end.

(** An item and its siblings. *)
Definition cJSON_Delete (item : list jnode) : M unit :=
  for_each (fun n => delete_value (nd_value n) ≫= fun _ =>
                     free_mstr (nd_string n) ≫= fun _ => free (nd_blk n)) item.

(** The tree without its blocks. *)
Fixpoint view_value (v : jvalue) : cJSON :=
  match v with
  | JInvalid => cJSON_NULL
  | JScalar item => item
  | JString s => cJSON_String (ms_val s)
  | JArray child => cJSON_Array (List.map (fun n => view_value (nd_value n)) child)
  | JObject child =>
      cJSON_Object (List.map (fun n => (default [] (ms_val <$> nd_string n), view_value (nd_value n))) child)
  end.

Definition view_node (n : jnode) : cJSON := view_value (nd_value n).
Definition view_member (n : jnode) : list ascii * cJSON := (default [] (ms_val <$> nd_string n), view_node n).

(** ** Parsing *)

(** [false] with what is left of the buffer, or [true] with what was parsed. *)
Inductive ares (A : Type) : Type :=
  | AOk (a : A) (b : parse_buffer)
  | AErr (b : parse_buffer).
Arguments AOk {A} a b.
Arguments AErr {A} b.

(** A function that does not allocate. *)
Definition lift {A} (r : pres A) : M (ares A) :=
  match r with
  | POk a b => mret (AOk a b)
  | PErr b => mret (AErr b)
  | PUB | PFuel => ub
  end.

(** Go on, or to the label [fail]. *)
Definition on_ok {A B} (fail : M unit) (m : M (ares A)) (k : A -> parse_buffer -> M (ares B)) : M (ares B) :=
  r ← m;
  match r with
  | AOk a b => k a b
  | AErr b => _ ← fail; mret (AErr b)
  end.

Definition goto_fail {A} (fail : M unit) (b : parse_buffer) : M (ares A) := _ ← fail; mret (AErr b).

Definition cJSON_New_Item : M (option nat) := malloc.

(** [parse_string]: the string it leaves in [valuestring]. *)
Definition parse_string_alloc (b : parse_buffer) : M (ares mstr) :=
  match buffer_at_offset b with
  | [] => ub
  | c :: _ =>
      if c <>? DQUOTE then mret (AErr (advance b 1))
      else
        let input_pointer := drop (pb_offset b + 1) (pb_content b) in
        match scan_string input_pointer 0 with
        | None => mret (AErr (advance b 1))
        | Some (input_end, skipped_bytes) =>
            let allocation_length :=
              length (buffer_at_offset b) - length input_end - skipped_bytes in
            output ← malloc;
            match output with
            | None => mret (AErr (advance b 1))
            | Some blk =>
                match decode_loop (S (length input_pointer)) input_pointer input_end []
                        (allocation_length + 1) with
                | D_ok output => mret (AOk (MStr blk output) (set_offset b (offset_of b input_end + 1)))
                | D_fail p => _ ← free blk; mret (AErr (set_offset b (offset_of b p)))
                | D_ub | D_fuel => ub
                end
            end
        end
  end.

Fixpoint parse_array_loop_alloc (fuel : nat) (pv : parse_buffer -> M (ares jvalue))
    (b : parse_buffer) (child : list jnode) : M (ares (list jnode)) :=
  match fuel with
  | O => ub
  | S fuel' =>
      new_item ← cJSON_New_Item;
      match new_item with
      | None => goto_fail (cJSON_Delete child) b
      | Some n =>
          let b := buffer_skip_whitespace (advance b 1) in
          on_ok (cJSON_Delete (child ++ [Node n None JInvalid])) (pv b) (fun v b =>
            let child := child ++ [Node n None v] in
            let b := buffer_skip_whitespace b in
            if at_char b ","%char
            then parse_array_loop_alloc fuel' pv b child
            else mret (AOk child b))
      end
  end.

(** The common end of an array or object: the closing bracket, or [fail]. *)
Definition parse_close_alloc (close : ascii) (f : list jnode -> jvalue) (child : list jnode)
    (b : parse_buffer) : M (ares jvalue) :=
  if at_char b close
  then mret (AOk (f child) (advance (set_depth b (pb_depth b - 1)) 1))
  else goto_fail (cJSON_Delete child) b.

Definition parse_array_alloc (fuel : nat) (pv : parse_buffer -> M (ares jvalue)) (b : parse_buffer)
    : M (ares jvalue) :=
  if (CJSON_NESTING_LIMIT <=? pb_depth b)%nat then mret (AErr b)
  else
    let b := set_depth b (S (pb_depth b)) in
    match buffer_at_offset b with
    | [] => ub
    | c :: _ =>
        if c <>? "["%char then mret (AErr b)
        else
          let b := buffer_skip_whitespace (advance b 1) in
          if at_char b "]"%char then parse_close_alloc "]"%char JArray [] b
          else if negb (can_access_at_index b 0) then mret (AErr (step_back b))
          else
            on_ok (mret tt) (parse_array_loop_alloc fuel pv (step_back b) []) (fun child b =>
              parse_close_alloc "]"%char JArray child b)
    end.

(** One member of an object, in the node [n] behind [child]. *)
Definition parse_member_alloc (pv : parse_buffer -> M (ares jvalue)) (b : parse_buffer)
    (child : list jnode) (n : nat) : M (ares jnode) :=
  let fail := cJSON_Delete (child ++ [Node n None JInvalid]) in
  if negb (can_access_at_index b 1) then goto_fail fail b
  else
    let b := buffer_skip_whitespace (advance b 1) in
    on_ok fail (parse_string_alloc b) (fun name b =>
      let fail := cJSON_Delete (child ++ [Node n (Some name) JInvalid]) in
      let b := buffer_skip_whitespace b in
      if negb (at_char b ":"%char) then goto_fail fail b
      else
        let b := buffer_skip_whitespace (advance b 1) in
        on_ok fail (pv b) (fun v b => mret (AOk (Node n (Some name) v) (buffer_skip_whitespace b)))).

Fixpoint parse_object_loop_alloc (fuel : nat) (pv : parse_buffer -> M (ares jvalue))
    (b : parse_buffer) (child : list jnode) : M (ares (list jnode)) :=
  match fuel with
  | O => ub
  | S fuel' =>
      new_item ← cJSON_New_Item;
      match new_item with
      | None => goto_fail (cJSON_Delete child) b
      | Some n =>
          on_ok (mret tt) (parse_member_alloc pv b child n) (fun member b =>
            let child := child ++ [member] in
            if at_char b ","%char
            then parse_object_loop_alloc fuel' pv b child
            else mret (AOk child b))
      end
  end.

Definition parse_object_alloc (fuel : nat) (pv : parse_buffer -> M (ares jvalue)) (b : parse_buffer)
    : M (ares jvalue) :=
  if (CJSON_NESTING_LIMIT <=? pb_depth b)%nat then mret (AErr b)
  else
    let b := set_depth b (S (pb_depth b)) in
    if negb (at_char b "{"%char) then mret (AErr b)
    else
      let b := buffer_skip_whitespace (advance b 1) in
      if at_char b "}"%char then parse_close_alloc "}"%char JObject [] b
      else if negb (can_access_at_index b 0) then mret (AErr (step_back b))
      else
        on_ok (mret tt) (parse_object_loop_alloc fuel pv (step_back b) []) (fun child b =>
          parse_close_alloc "}"%char JObject child b).

Fixpoint parse_value_alloc (fuel : nat) (b : parse_buffer) : M (ares jvalue) :=
  match fuel with
  | O => ub
  | S fuel' =>
      if at_word b (str "null") then mret (AOk (JScalar cJSON_NULL) (advance b 4))
      else if at_word b (str "false") then mret (AOk (JScalar cJSON_False) (advance b 5))
      else if at_word b (str "true") then mret (AOk (JScalar cJSON_True) (advance b 4))
      else if at_char b DQUOTE then
        on_ok (mret tt) (parse_string_alloc b) (fun s b => mret (AOk (JString s) b))
      else if at_number b then
        on_ok (mret tt) (lift (parse_number b)) (fun item b => mret (AOk (JScalar item) b))
      else if at_char b "["%char then parse_array_alloc (pb_length b) (parse_value_alloc fuel') b
      else if at_char b "{"%char then parse_object_alloc (pb_length b) (parse_value_alloc fuel') b
      else mret (AErr b)
  end.

(** [cJSON_ParseWithLengthOpts] from its allocation on: the root, or the
    position of the error in [value]. *)
Definition parse_root (fuel : nat) (value : cstr) (b : parse_buffer) : M (jnode + nat) :=
  item ← cJSON_New_Item;
  match item with
  | None => mret (inr (error_position (init_buffer value)))
  | Some n =>
      r ← parse_value_alloc fuel b;
      match r with
      | AOk v _ => mret (inl (Node n None v))
      | AErr b => _ ← cJSON_Delete [Node n None JInvalid]; mret (inr (error_position b))
      end
  end.

Definition cJSON_Parse_alloc (value : cstr) : M (jnode + nat) :=
  parse_root parse_fuel value (buffer_skip_whitespace (skip_utf8_bom (init_buffer value))).

(** ** The blocks of a tree *)

(** In the order in which they are released. *)
Fixpoint value_blks (v : jvalue) : list nat :=
  match v with
  | JArray child | JObject child =>
      concat (List.map (fun n => value_blks (nd_value n) ++ option_list (ms_blk <$> nd_string n) ++ [nd_blk n]) child)
  | JString s => [ms_blk s]
  | JScalar _ | JInvalid => []
  end.

Definition node_blks (n : jnode) : list nat :=
  value_blks (nd_value n) ++ option_list (ms_blk <$> nd_string n) ++ [nd_blk n].
Definition nodes_blks (l : list jnode) : list nat := concat (List.map node_blks l).

Lemma nodes_blks_app l l' : nodes_blks (l ++ l') = nodes_blks l ++ nodes_blks l'.
Proof. unfold nodes_blks. by rewrite List.map_app, concat_app. Qed.

Lemma nodes_blks_snoc l n : nodes_blks (l ++ [n]) = nodes_blks l ++ node_blks n.
Proof. rewrite nodes_blks_app. unfold nodes_blks at 2. cbn. by rewrite app_nil_r. Qed.

(** Induction on trees. *)
Section jvalue_ind.
Context (P : jvalue -> Prop) (Hinvalid : P JInvalid) (Hscalar : forall item, P (JScalar item))
  (Hstring : forall s, P (JString s))
  (Harray : forall child, Forall (fun n => P (nd_value n)) child -> P (JArray child))
  (Hobject : forall child, Forall (fun n => P (nd_value n)) child -> P (JObject child)).

Fixpoint jvalue_tree_ind (v : jvalue) : P v :=
  let children := fix children (l : list jnode) : Forall (fun n => P (nd_value n)) l :=
    match l with
    | [] => Forall_nil_2 _
    | n :: l' => Forall_cons_2 _ n l' (jvalue_tree_ind (nd_value n)) (children l')
    end in
  match v with
  | JInvalid => Hinvalid
  | JScalar item => Hscalar item
  | JString s => Hstring s
  | JArray child => Harray child (children child)
  | JObject child => Hobject child (children child)
  end.
End jvalue_ind.

Lemma for_each_frees {A} (f : A -> M unit) (blks : A -> list nat) l :
  Forall (fun x => frees (f x) (blks x)) l -> frees (for_each f l) (concat (List.map blks l)).
Proof. induction 1; cbn; [apply frees_ret|by apply frees_seq]. Qed.

Lemma delete_value_frees v : frees (delete_value v) (value_blks v).
Proof.
  induction v as [|item|s|child IH|child IH] using jvalue_tree_ind; cbn;
    [apply frees_ret|apply frees_ret|apply frees_free|..];
    (apply for_each_frees; eapply Forall_impl; [exact IH|]; intros [n name v] Hv; cbn in *;
     apply frees_seq; [done|]; apply frees_seq; [destruct name; [apply frees_free|apply frees_ret]|apply frees_free]).
Qed.

Lemma cJSON_Delete_frees l : frees (cJSON_Delete l) (nodes_blks l).
Proof.
  apply for_each_frees, Forall_true. intros [n name v]. cbn.
  apply frees_seq; [apply delete_value_frees|].
  apply frees_seq; [destruct name; [apply frees_free|apply frees_ret]|apply frees_free].
Qed.

(** ** Against the parser without memory *)

(** [owns] and the blocks a program frees. *)
Lemma owns_frees h h' m l1 l2 :
  heap_wf h -> owns h h' (l1 ++ l2) -> frees m l1 -> wp m (fun _ h'' => owns h h'' l2) h'.
Proof.
  intros Hwf [Hn Hl Hd Hf Ho] Hm. apply NoDup_app in Hd as (Hd1 & Hd & Hd2). apply Forall_app in Hf as [Hf1 Hf2].
  eapply wp_mono; [apply Hm; [done|]|].
  - apply Forall_forall. intros b Hb. rewrite Hl, list_to_set_app_L. set_solver.
  - intros [] h'' (E & En & Eo). split; [lia| |done|by rewrite En|congruence].
    rewrite E, Hl, list_to_set_app_L. apply set_eq. intros b. rewrite Forall_forall in Hf1.
    rewrite elem_of_difference, !elem_of_union, !elem_of_list_to_set.
    split; [naive_solver|]. intros [Hb|Hb]; (split; [tauto|]).
    + intros ?%Hf1. apply Hwf in Hb. lia.
    + intros Hb1. by apply (Hd b).
Qed.

(** The program [m] in [h] follows [r], where [h0] had not the blocks [l] that
    are in use on success, and on success only. *)
Definition follows {A A'} (h0 : heap) (blks : A -> list nat) (view : A -> A') (m : M (ares A)) (r : pres A')
    (h : heap) : Prop :=
  wp m (fun res h' => match res with
    | AOk a b => r = POk (view a) b /\ owns h0 h' (blks a)
    | AErr b => owns h0 h' [] /\ (reliable h0 -> r = PErr b)
    end) h.

(** The parser without memory is defined. *)
Definition fine {A} (r : pres A) : Prop := match r with PUB | PFuel => False | _ => True end.

Section follows.
Context {A A' : Type} (h0 : heap) (Hwf : heap_wf h0) (blks : A -> list nat) (view : A -> A').
Abbreviation follows := (follows h0 blks view).

Lemma follows_ok a b h r : owns h0 h (blks a) -> r = POk (view a) b -> follows (mret (AOk a b)) r h.
Proof. intros Ho ->. by apply wp_ret. Qed.

Lemma follows_err b h r : owns h0 h [] -> r = PErr b -> follows (mret (AErr b)) r h.
Proof. intros Ho ->. by apply wp_ret. Qed.

Lemma follows_fail l m b h r :
  owns h0 h l -> frees m l -> (reliable h0 -> r = PErr b) -> follows (goto_fail m b) r h.
Proof.
  intros Ho Hm Hr. apply wp_bind. eapply wp_mono; [eapply (owns_frees h0 h m l []); [done|by rewrite app_nil_r|done]|].
  intros [] h' Ho'. by apply wp_ret.
Qed.

(** A call, in the heap with the blocks [l], and what comes after it. *)
Lemma follows_call {B B'} blks1 (view1 : B -> B') l fail m r1 (k : B -> parse_buffer -> M (ares A)) k' h :
  owns h0 h l -> frees fail l -> fine (pbind r1 k') ->
  (fine r1 -> heap_wf h -> CJsonAlloc.follows h blks1 view1 m r1 h) ->
  (forall a b h', owns h0 h' (l ++ blks1 a) -> fine (k' (view1 a) b) -> follows (k a b) (k' (view1 a) b) h') ->
  follows (on_ok fail m k) (pbind r1 k') h.
Proof.
  intros Ho Hfail Hf Hm Hk. apply wp_bind. eapply wp_mono; [apply Hm; [by destruct r1|by eapply owns_wf]|].
  intros [a b|b] h1.
  - intros [-> Ho1]. cbn in Hf |- *. apply Hk; [by eapply owns_trans|done].
  - intros [Ho1 Hr]. eapply follows_fail; [|done|].
    + pose proof (owns_trans _ _ _ _ _ Ho Ho1) as H. by rewrite app_nil_r in H.
    + intros Hre. rewrite Hr; [done|]. by eapply owns_reliable.
Qed.

(** An allocation that comes first. *)
Lemma follows_malloc (k : option nat -> M (ares A)) r h l :
  owns h0 h l -> (forall n h', owns h0 h' (l ++ [n]) -> follows (k (Some n)) r h') ->
  (forall h', owns h0 h' l -> (reliable h0 -> False) -> follows (k None) r h') ->
  follows (malloc ≫= k) r h.
Proof.
  intros Ho Hs Hn. apply wp_bind. eapply wp_mono; [apply wp_malloc|]. intros [n|] h1 [Ho1 Hr]; cbn in Ho1.
  - apply Hs. by eapply owns_trans.
  - apply Hn.
    + pose proof (owns_trans _ _ _ _ _ Ho Ho1) as H. by rewrite app_nil_r in H.
    + intros Hre. destruct Hr as [? [=]]. by eapply owns_reliable.
Qed.
End follows.

(** ** The functions *)

Lemma parse_string_alloc_follows b h :
  heap_wf h -> fine (parse_string_bytes b) ->
  follows h (fun s => [ms_blk s]) ms_val (parse_string_alloc b) (parse_string_bytes b) h.
Proof.
  unfold parse_string_bytes, parse_string_alloc, read_char. intros Hwf Hf.
  destruct (buffer_at_offset b) as [|c rest]; [done|]. destruct (negb _); [apply follows_err; [apply owns_nil|done]|].
  destruct (scan_string _ 0) as [[input_end skipped]|]; [|apply follows_err; [apply owns_nil|done]].
  apply (follows_malloc h _ _ _ _ h []); [apply owns_nil| |].
  - intros n h' Ho. destruct (decode_loop _ _ _ _ _) as [output|p| |]; [| |done..].
    + by eapply follows_ok.
    + eapply (follows_fail _ Hwf _ _ [n]); [done|apply frees_free|done].
  - intros h' Ho Hr. apply wp_ret. split; [done|]. by intros ?%Hr.
Qed.

(** What is asked of [parse_value]. *)
Definition value_follows (pv : parse_buffer -> M (ares jvalue)) (pv' : parse_buffer -> pres cJSON) : Prop :=
  forall b h, heap_wf h -> fine (pv' b) -> follows h value_blks view_value (pv b) (pv' b) h.

Lemma new_node_blks child n name v :
  nodes_blks (child ++ [Node n name v]) =
  nodes_blks child ++ value_blks v ++ option_list (ms_blk <$> name) ++ [n].
Proof. by rewrite nodes_blks_snoc. Qed.

Lemma delete_new_frees child n :
  frees (cJSON_Delete (child ++ [Node n None JInvalid])) (nodes_blks child ++ [n]).
Proof. exact (eq_rect _ _ (cJSON_Delete_frees _) _ (new_node_blks child n None JInvalid)). Qed.

Section loops.
Context (h0 : heap) (Hwf : heap_wf h0) (pv : parse_buffer -> M (ares jvalue)) (pv' : parse_buffer -> pres cJSON).
Context (Hpv : value_follows pv pv').

Lemma parse_array_loop_follows fuel b child h :
  owns h0 h (nodes_blks child) -> fine (parse_array_loop fuel pv' b (view_node <$> child)) ->
  follows h0 nodes_blks (fmap view_node) (parse_array_loop_alloc fuel pv b child)
    (parse_array_loop fuel pv' b (view_node <$> child)) h.
Proof.
  revert b child h. induction fuel as [|fuel IH]; intros b child h Ho; [done|].
  cbn [parse_array_loop parse_array_loop_alloc]. intros Hf. apply (follows_malloc _ _ _ _ _ _ _ Ho).
  - intros n h1 Ho1. eapply (follows_call h0 Hwf); [exact Ho1|apply delete_new_frees|done|by intros; apply Hpv|].
    intros v b1 h2 Ho2. assert (owns h0 h2 (nodes_blks (child ++ [Node n None v]))) as Ho3.
    { eapply owns_perm; [|exact Ho2]. rewrite new_node_blks. cbn. solve_Permutation. }
    change [view_value v] with (view_node <$> [Node n None v]). rewrite <- fmap_app.
    destruct (at_char _ _); [by apply IH|]. intros _. by eapply follows_ok.
  - intros h1 Ho1 Hr. eapply follows_fail; [done|exact Ho1|apply cJSON_Delete_frees|by intros ?%Hr].
Qed.

Lemma parse_member_follows b child n h :
  owns h0 h (nodes_blks child ++ [n]) -> fine (parse_member pv' b) ->
  follows h0 (fun m => nodes_blks child ++ node_blks m) view_member (parse_member_alloc pv b child n)
    (parse_member pv' b) h.
Proof.
  intros Ho. unfold parse_member, parse_member_alloc.
  pose proof (delete_new_frees child n) as Hdel.
  destruct (negb _); [by intros _; eapply follows_fail|]. intros Hf.
  eapply (follows_call h0 Hwf); [exact Ho|done|done|by intros; apply parse_string_alloc_follows|].
  clear h Ho Hf Hdel. intros name b1 h Ho. cbn beta zeta. pose proof (cJSON_Delete_frees (child ++ [Node n (Some name) JInvalid])) as Hdel.
  assert (owns h0 h (nodes_blks (child ++ [Node n (Some name) JInvalid]))) as Ho1.
  { eapply owns_perm; [|exact Ho]. rewrite new_node_blks. cbn. solve_Permutation. }
  destruct (negb _); [by intros _; eapply follows_fail|]. intros Hf.
  eapply (follows_call h0 Hwf); [exact Ho1|done|done|by intros; apply Hpv|].
  clear h Ho Ho1 Hf. intros v b2 h Ho _. eapply follows_ok; [|done]. eapply owns_perm; [|exact Ho].
  rewrite new_node_blks. unfold node_blks. cbn. solve_Permutation.
Qed.

Lemma parse_object_loop_follows fuel b child h :
  owns h0 h (nodes_blks child) -> fine (parse_object_loop fuel pv' b (view_member <$> child)) ->
  follows h0 nodes_blks (fmap view_member) (parse_object_loop_alloc fuel pv b child)
    (parse_object_loop fuel pv' b (view_member <$> child)) h.
Proof.
  revert b child h. induction fuel as [|fuel IH]; intros b child h Ho; [done|].
  cbn [parse_object_loop parse_object_loop_alloc]. intros Hf. apply (follows_malloc _ _ _ _ _ _ _ Ho).
  - intros n h1 Ho1. apply wp_bind. eapply wp_mono; [apply parse_member_follows; [exact Ho1|by destruct (parse_member _ _)]|].
    intros [m b1|b1] h2.
    + intros [E Ho2]. rewrite E in Hf |- *. cbn [pbind] in Hf |- *. rewrite <- nodes_blks_snoc in Ho2.
      change [view_member m] with (view_member <$> [m]) in *. rewrite <- fmap_app in *.
      destruct (at_char _ _); [by apply IH|]. by eapply follows_ok.
    + intros [Ho2 Hr]. apply wp_bind, wp_ret, wp_ret. split; [done|]. intros Hre. by rewrite Hr.
  - intros h1 Ho1 Hr. eapply follows_fail; [done|exact Ho1|apply cJSON_Delete_frees|by intros ?%Hr].
Qed.
End loops.

(** The end of an array or object. *)
Lemma parse_close_follows {A} h0 close f (g : A -> cJSON) (view : list jnode -> A) child b h :
  heap_wf h0 -> owns h0 h (nodes_blks child) ->
  value_blks (f child) = nodes_blks child -> view_value (f child) = g (view child) ->
  follows h0 value_blks view_value (parse_close_alloc close f child b) (parse_close close (g (view child)) b) h.
Proof.
  intros Hwf Ho Hb Hv. unfold parse_close_alloc, parse_close. destruct (at_char b close).
  - eapply follows_ok; [by rewrite Hb|by rewrite Hv].
  - eapply follows_fail; [done|exact Ho|apply cJSON_Delete_frees|done].
Qed.

(** The items, then the end. *)
Lemma parse_items_follows {A} h0 close f (g : list A -> cJSON) (view : jnode -> A) m r h :
  heap_wf h0 -> (forall child, value_blks (f child) = nodes_blks child) ->
  (forall child, view_value (f child) = g (view <$> child)) ->
  fine (let! items, b := r in parse_close close (g items) b) ->
  (fine r -> follows h0 nodes_blks (fmap view) m r h) ->
  follows h0 value_blks view_value
    (on_ok (mret tt) m (fun child b => parse_close_alloc close f child b))
    (let! items, b := r in parse_close close (g items) b) h.
Proof.
  intros Hwf Hb Hv Hf Hm. apply wp_bind. eapply wp_mono; [apply Hm; by destruct r|].
  intros [child b|b] h1.
  - intros [-> Ho]. cbn [pbind]. by apply (parse_close_follows h0 close f g (fmap view)).
  - intros [Ho Hr]. apply wp_bind, wp_ret, wp_ret. split; [done|]. intros Hre. by rewrite Hr.
Qed.

Lemma view_array child : view_value (JArray child) = cJSON_Array (view_node <$> child).
Proof. done. Qed.

Lemma view_object child : view_value (JObject child) = cJSON_Object (view_member <$> child).
Proof. done. Qed.

Lemma parse_array_follows fuel pv pv' b h :
  value_follows pv pv' -> heap_wf h -> fine (parse_array fuel pv' b) ->
  follows h value_blks view_value (parse_array_alloc fuel pv b) (parse_array fuel pv' b) h.
Proof.
  intros Hpv Hwf. unfold parse_array, parse_array_alloc, read_char. pose proof (owns_nil h) as Ho.
  destruct (_ <=? _)%nat; [intros _; by apply follows_err|].
  destruct (buffer_at_offset _) as [|c rest]; [done|]. destruct (negb _); [intros _; by apply follows_err|].
  destruct (at_char _ _).
  { intros _. exact (parse_close_follows h "]"%char JArray cJSON_Array (fmap view_node) [] _ h Hwf Ho eq_refl eq_refl). }
  destruct (negb _); [intros _; by apply follows_err|]. intros Hf.
  apply (parse_items_follows h "]"%char JArray cJSON_Array view_node); [done..|].
  by apply (parse_array_loop_follows h Hwf pv pv' Hpv fuel _ []).
Qed.

Lemma parse_object_follows fuel pv pv' b h :
  value_follows pv pv' -> heap_wf h -> fine (parse_object fuel pv' b) ->
  follows h value_blks view_value (parse_object_alloc fuel pv b) (parse_object fuel pv' b) h.
Proof.
  intros Hpv Hwf. unfold parse_object, parse_object_alloc. pose proof (owns_nil h) as Ho.
  destruct (_ <=? _)%nat; [intros _; by apply follows_err|]. destruct (negb _); [intros _; by apply follows_err|].
  destruct (at_char _ _).
  { intros _. exact (parse_close_follows h "}"%char JObject cJSON_Object (fmap view_member) [] _ h Hwf Ho eq_refl eq_refl). }
  destruct (negb _); [intros _; by apply follows_err|]. intros Hf.
  apply (parse_items_follows h "}"%char JObject cJSON_Object view_member); [done..|].
  by apply (parse_object_loop_follows h Hwf pv pv' Hpv fuel _ []).
Qed.

Lemma parse_value_follows fuel : value_follows (parse_value_alloc fuel) (parse_value fuel).
Proof.
  induction fuel as [|fuel IH]; intros b h Hwf; [done|]. cbn [parse_value parse_value_alloc].
  pose proof (owns_nil h) as Ho.
  destruct (at_word b (str "null")); [intros _; by eapply follows_ok|].
  destruct (at_word b (str "false")); [intros _; by eapply follows_ok|].
  destruct (at_word b (str "true")); [intros _; by eapply follows_ok|].
  destruct (at_char b DQUOTE).
  { unfold parse_string. intros Hf. eapply (follows_call h Hwf _ _ _ _ []); [done|apply frees_ret|exact Hf|by intros; apply parse_string_alloc_follows|].
    intros s b1 h1 Ho1 _. by eapply follows_ok. }
  destruct (at_number b).
  { unfold parse_number. destruct (strtod _) as [number n]. destruct (_ =? _)%nat; intros _; apply wp_bind, wp_ret;
      [apply wp_bind, wp_ret; by apply follows_err|by eapply follows_ok]. }
  destruct (at_char b "["%char); [by apply parse_array_follows|].
  destruct (at_char b "{"%char); [by apply parse_object_follows|]. intros _. by apply follows_err.
Qed.

(** ** Properties *)

(** *** The position of an error *)

(** What [m] leaves of a buffer of length [n] is as long. *)
Definition keeps {A} (n : nat) (m : M (ares A)) : Prop :=
  forall h res h', m h = Some (res, h') ->
    match res with AOk _ b | AErr b => pb_length b = n end.

Section keeps.
Context (n : nat).

Lemma keeps_ok {A} (a : A) b : pb_length b = n -> keeps n (mret (AOk a b)).
Proof. by intros H h res h' [= <- _]. Qed.

Lemma keeps_err {A} b : pb_length b = n -> keeps (A := A) n (mret (AErr b)).
Proof. by intros H h res h' [= <- _]. Qed.

Lemma keeps_bind {A B} (m : M A) (k : A -> M (ares B)) : (forall a, keeps n (k a)) -> keeps n (m ≫= k).
Proof.
  intros Hk h res h'. unfold mbind, M_bind. destruct (m h) as [[a h1]|]; [|done]. apply Hk.
Qed.

Lemma keeps_ub {A} : keeps (A := A) n ub.
Proof. done. Qed.

Lemma keeps_on_ok {A B} fail (m : M (ares A)) (k : A -> parse_buffer -> M (ares B)) :
  keeps n m -> (forall a b, pb_length b = n -> keeps n (k a b)) -> keeps n (on_ok fail m k).
Proof.
  intros Hm Hk h res h'. unfold on_ok, mbind at 1, M_bind at 1.
  destruct (m h) as [[r h1]|] eqn:E; [|done]. specialize (Hm _ _ _ E). destruct r as [a b|b]; [by apply Hk|].
  apply keeps_bind. intros _. by apply keeps_err.
Qed.

Lemma skip_whitespace_length b : pb_length (buffer_skip_whitespace b) = pb_length b.
Proof. unfold buffer_skip_whitespace. by repeat case_match. Qed.

(** One step down a parser, on what is left of a buffer. *)
Ltac keep_length :=
  repeat first [rewrite skip_whitespace_length | progress (cbn [advance step_back set_offset set_depth pb_length])]; assumption.
Ltac keep :=
  cbv zeta;
  repeat (apply keeps_ub || (apply keeps_ok; keep_length) || (apply keeps_err; keep_length)
          || (apply keeps_on_ok; [|intros ? ? ?]) || (apply keeps_bind; intros ?) || case_match; cbv zeta).

Lemma parse_string_keeps b : pb_length b = n -> keeps n (parse_string_alloc b).
Proof. intros H. unfold parse_string_alloc. keep. Qed.

Lemma parse_close_keeps close f child b : pb_length b = n -> keeps n (parse_close_alloc close f child b).
Proof. intros H. unfold parse_close_alloc, goto_fail. keep. Qed.

Section loops.
Context (pv : parse_buffer -> M (ares jvalue)) (Hpv : forall b, pb_length b = n -> keeps n (pv b)).

Lemma parse_array_loop_keeps fuel b child : pb_length b = n -> keeps n (parse_array_loop_alloc fuel pv b child).
Proof.
  revert b child. induction fuel as [|fuel IH]; intros b child H; cbn [parse_array_loop_alloc]; [done|].
  unfold goto_fail. keep; [apply Hpv; keep_length|apply IH; keep_length].
Qed.

Lemma parse_member_keeps b child k : pb_length b = n -> keeps n (parse_member_alloc pv b child k).
Proof.
  intros H. unfold parse_member_alloc, goto_fail. keep; [apply parse_string_keeps; keep_length|apply Hpv; keep_length].
Qed.

Lemma parse_object_loop_keeps fuel b child : pb_length b = n -> keeps n (parse_object_loop_alloc fuel pv b child).
Proof.
  revert b child. induction fuel as [|fuel IH]; intros b child H; cbn [parse_object_loop_alloc]; [done|].
  unfold goto_fail. keep; [by apply parse_member_keeps|by apply IH].
Qed.

Lemma parse_array_keeps fuel b : pb_length b = n -> keeps n (parse_array_alloc fuel pv b).
Proof.
  intros H. unfold parse_array_alloc. keep;
    [apply parse_close_keeps; keep_length|apply parse_array_loop_keeps; keep_length|by apply parse_close_keeps].
Qed.

Lemma parse_object_keeps fuel b : pb_length b = n -> keeps n (parse_object_alloc fuel pv b).
Proof.
  intros H. unfold parse_object_alloc. keep;
    [apply parse_close_keeps; keep_length|apply parse_object_loop_keeps; keep_length|by apply parse_close_keeps].
Qed.
End loops.

Lemma parse_value_keeps fuel b : pb_length b = n -> keeps n (parse_value_alloc fuel b).
Proof.
  revert b. induction fuel as [|fuel IH]; intros b H; cbn [parse_value_alloc]; [done|].
  unfold parse_number. destruct (strtod _). repeat case_match;
    try solve [keep|by apply parse_array_keeps|by apply parse_object_keeps];
    apply keeps_on_ok; [by apply parse_string_keeps|intros; keep].
Qed.
End keeps.

Lemma skip_utf8_bom_length b : pb_length (skip_utf8_bom b) = pb_length b.
Proof. unfold skip_utf8_bom. by case_match. Qed.

Lemma error_position_bound b n : pb_length b = n + 1 -> error_position b <= n.
Proof. unfold error_position. intros ->. destruct (Nat.ltb_spec (pb_offset b) (n + 1)); [lia|]. case_match; lia. Qed.

(** The position noted for an error is in the text. *)
Lemma cJSON_Parse_position value h position h' :
  cJSON_Parse_alloc value h = Some (inr position, h') -> position <= length value.
Proof.
  unfold cJSON_Parse_alloc. generalize parse_fuel. intros fuel.
  assert (pb_length (buffer_skip_whitespace (skip_utf8_bom (init_buffer value))) = length value + 1) as Hb
    by by rewrite skip_whitespace_length, skip_utf8_bom_length.
  revert Hb. generalize (buffer_skip_whitespace (skip_utf8_bom (init_buffer value))). intros b Hb.
  unfold parse_root, mbind at 1, M_bind at 1. destruct (cJSON_New_Item h) as [[[n|] h1]|]; [|intros [= <- _]; apply error_position_bound; reflexivity|done].
  unfold mbind at 1, M_bind at 1. destruct (parse_value_alloc fuel b h1) as [[[v b'|b'] h2]|] eqn:E; [done| |done].
  apply (parse_value_keeps _ _ _ Hb) in E. unfold mbind, M_bind. destruct (cJSON_Delete _ h2) as [[[] h3]|]; [|done].
  intros [= <- _]. by apply error_position_bound.
Qed.

(** What a parse in [h] comes to, when the one without memory comes to [r]: the
    tree in fresh blocks, or nothing. *)
Definition parsed (h : heap) (r : pres cJSON) (res : jnode + nat) (h' : heap) : Prop :=
  match res with
  | inl root => (exists b, r = POk (view_node root) b) /\ owns h h' (nodes_blks [root])
  | inr position => owns h h' [] /\ (reliable h -> exists b, r = PErr b /\ position = error_position b)
  end.

Lemma parse_root_parsed fuel value b0 h :
  heap_wf h -> fine (parse_value fuel b0) -> wp (parse_root fuel value b0) (parsed h (parse_value fuel b0)) h.
Proof.
  intros Hwf Hf. apply wp_bind. eapply wp_mono; [apply wp_malloc|]. intros [n|] h1 [Ho Hr]; cbn in Ho.
  2: { apply wp_ret. split; [done|]. intros H. by destruct (Hr H) as [? [=]]. }
  pose proof (owns_wf _ _ _ Hwf Ho) as Hwf1.
  apply wp_bind. eapply wp_mono; [by apply parse_value_follows|]. intros [v b|b] h2.
  - intros [E Ho2]. apply wp_ret. split; [exists b; exact E|]. eapply owns_perm; [|by eapply owns_trans].
    unfold nodes_blks, node_blks. cbn. solve_Permutation.
  - intros [Ho2 Hre]. apply wp_bind. eapply wp_mono.
    + apply (owns_frees h h2 _ [n] []); [done| |apply (delete_new_frees [])].
      by apply (owns_trans h h1 h2 [n] []).
    + intros [] h3 Ho3. apply wp_ret. split; [done|]. intros H. exists b. split; [|done].
      apply Hre. by eapply owns_reliable.
Qed.

(** The definition of [cJSON_Parse], as an equation. *)
Lemma cJSON_Parse_root value :
  parse_value parse_fuel (buffer_skip_whitespace (skip_utf8_bom (init_buffer value))) = cJSON_Parse value.
Proof.
  exact (@eq_refl (pres cJSON) (parse_value parse_fuel (buffer_skip_whitespace (skip_utf8_bom (init_buffer value))))).
Qed.

Lemma cJSON_Parse_parsed value h : heap_wf h -> wp (cJSON_Parse_alloc value) (parsed h (cJSON_Parse value)) h.
Proof.
  intros Hwf. rewrite <- cJSON_Parse_root. apply parse_root_parsed; [done|]. rewrite cJSON_Parse_root.
  pose proof (cJSON_Parse_outcome value) as H. by destruct (cJSON_Parse value).
Qed.

(** C10: on every NUL-terminated input and whichever allocations fail, the JSON
    parser ends, without a read outside its buffer, a write past the block of a
    decoded string or a release of what is not allocated.  A tree it returns is
    the value of the text, has at most as many nodes as the text characters, no
    block twice, and [cJSON_Delete] leaves the heap as it was; without a result
    nothing stays allocated, the position noted for the error is in the text,
    and when no allocation failed the text is no JSON and the position the one
    where parsing ended. *)
Theorem cJSON_Parse_memory value h :
  heap_wf h ->
  exists res h', cJSON_Parse_alloc value h = Some (res, h') /\
    match res with
    | inl root =>
        (exists b, cJSON_Parse value = POk (view_node root) b /\ pb_offset b <= length value) /\
        cJSON_nodes (view_node root) <= length value /\ NoDup (nodes_blks [root]) /\
        exists h'', cJSON_Delete [root] h' = Some (tt, h'') /\ h_live h'' = h_live h
    | inr position =>
        h_live h' = h_live h /\ position <= length value /\
        (reliable h -> exists b, cJSON_Parse value = PErr b /\ position = error_position b)
    end.
Proof.
  intros Hwf. destruct (wp_run _ _ _ (cJSON_Parse_parsed value h Hwf)) as (res & h' & E & H).
  exists res, h'. split; [done|]. destruct res as [root|position]; cbn [parsed] in H.
  - destruct H as [[b Hb] Ho]. pose proof (cJSON_Parse_outcome value) as Hout. rewrite Hb in Hout.
    destruct Hout as [(_ & _ & Hlen) Hn]. split; [by exists b|]. split; [done|]. split; [apply Ho|].
    destruct (wp_run _ _ _ (frees_owned _ _ _ _ Hwf Ho (cJSON_Delete_frees [root]))) as ([] & h'' & Ed & Hl).
    by exists h''.
  - destruct H as [Ho Hr]. split; [rewrite (own_live _ _ _ Ho); set_solver|].
    split; [by eapply cJSON_Parse_position|done].
Qed.

(** The seventh allocation fails, in the middle of the document. *)
Definition scarce_heap : heap := Heap 0 ∅ (fun n => negb (n =? 6)%nat).

Definition scarce_text : cstr := json_text "{'rules':[1,'two',{'three':[]}]}".

Lemma cJSON_Parse_memory_witness :
  exists position h', cJSON_Parse_alloc scarce_text scarce_heap = Some (inr position, h') /\
    h_live h' = ∅ /\ h_next h' = 7 /\ position <= length scarce_text.
Proof.
  assert (heap_wf scarce_heap) as Hwf by (intros b Hb; by apply elem_of_empty in Hb).
  destruct (cJSON_Parse_memory scarce_text scarce_heap Hwf) as (res & h' & E & H).
  assert (match cJSON_Parse_alloc scarce_text scarce_heap with
          | Some (inr _, h) => bool_decide (h_next h = 7) | _ => false end = true) as Hrun by (vm_compute; reflexivity).
  rewrite E in Hrun. destruct res as [root|position]; [done|]. apply bool_decide_eq_true in Hrun.
  exists position, h'. split; [exact E|]. split; [apply H|]. split; [exact Hrun|apply H].
Defined.
