(* ===== verification/Glob.v ===== *)
(** * Glob matching ([cacher_glob_match], src/cacher_rules.c)

    The matcher is the two-pointer loop of the source: pointers [p] and [v]
    into pattern and value, and the position of the last star met.  One turn of
    the loop is [glob_step]; [glob_loop] iterates it with a fuel that
    [glob_loop_total] proves sufficient.  The reference is the language
    [glob_lang] of a pattern: a star stands for any run of characters, a
    question mark for any one character. *)

From S2P Require Import Prelude.
From Stdlib Require Import Lia.
Local Open Scope cstr_scope.

Definition STAR : ascii := "*"%char.
Definition QMARK : ascii := "?"%char.

(** ** The code *)

(** The test [pc == vc] of the loop body, with the case folding of [ci]. *)
Definition glob_char_eq (ci : bool) (p v : ascii) : bool :=
  if ci then tolower p =? tolower v else p =? v.

(** The locals of the loop: [p], [v], and [star_p]/[star_v] once a star was
    met ([star_p] points at the star itself). *)
Record glob_state := GlobState {
  gs_p : cstr;
  gs_v : cstr;
  gs_star : option (cstr * cstr);
}.

(** [while ( *p == '*' ) p++; return *p == '\0';] *)
Definition glob_tail (p : cstr) : bool :=
  match skip_while (fun c => c =? STAR) p with [] => true | _ => false end.

(** The [else if (star_p)] branch: resume behind the last star, which now
    takes one more character. *)
Definition glob_backtrack (star : option (cstr * cstr)) : glob_state + bool :=
  match star with
  | Some (star_p, star_v) =>
      inl (GlobState (tail star_p) (tail star_v) (Some (star_p, tail star_v)))
  | None => inr false
  end.

(** One turn of [while ( *v )], or the code behind the loop. *)
Definition glob_step (ci : bool) (s : glob_state) : glob_state + bool :=
  match gs_v s with
  | [] => inr (glob_tail (gs_p s))
  | vc :: v' =>
      match gs_p s with
      | pc :: p' =>
          if (pc =? QMARK) || glob_char_eq ci pc vc
          then inl (GlobState p' v' (gs_star s))
          else if pc =? STAR
          then inl (GlobState p' (gs_v s) (Some (gs_p s, gs_v s)))
          else glob_backtrack (gs_star s)
      | [] => glob_backtrack (gs_star s)
      end
  end.

Fixpoint glob_loop (fuel : nat) (ci : bool) (s : glob_state) : option bool :=
  match fuel with
  | O => None
  | S fuel' =>
      match glob_step ci s with
      | inr b => Some b
      | inl s' => glob_loop fuel' ci s'
      end
  end.

(** A bound on the turns of the loop: every value position is the start of at
    most one attempt, which reads at most the whole pattern. *)
Definition glob_fuel (pattern value : cstr) : nat :=
  (length value + 2) * (length pattern + 2).

Definition cacher_glob_match (pattern value : option cstr) (ci : bool) : bool :=
  match pattern, value with
  | Some p, Some v =>
      default false (glob_loop (glob_fuel p v) ci (GlobState p v None))
  | _, _ => false
  end.

(** ** The reference language *)

Inductive glob_lang (ci : bool) : cstr -> cstr -> Prop :=
  | gl_nil : glob_lang ci [] []
  | gl_star_nil p v : glob_lang ci p v -> glob_lang ci (STAR :: p) v
  | gl_star_cons p c v :
      glob_lang ci (STAR :: p) v -> glob_lang ci (STAR :: p) (c :: v)
  | gl_qmark p c v : glob_lang ci p v -> glob_lang ci (QMARK :: p) (c :: v)
  | gl_char a p c v :
      a <> STAR -> a <> QMARK -> glob_char_eq ci a c = true ->
      glob_lang ci p v -> glob_lang ci (a :: p) (c :: v).

#[export] Hint Constructors glob_lang : cacher.

(** An executable form of the language. *)
Fixpoint glob_ref (ci : bool) (p v : cstr) : bool :=
  match p with
  | [] => match v with [] => true | _ => false end
  | a :: p' =>
      if a =? STAR
      then (fix star (u : cstr) : bool :=
              glob_ref ci p' u || match u with [] => false | _ :: u' => star u' end) v
      else match v with
           | [] => false
           | c :: v' => ((a =? QMARK) || glob_char_eq ci a c) && glob_ref ci p' v'
           end
  end.

(** ** Lemmas on the language *)

Lemma tolower_star : tolower STAR = STAR. Proof. reflexivity. Qed.

Lemma glob_char_eq_refl ci c : glob_char_eq ci c c = true.
Proof. destruct ci; cbn; apply Ascii.eqb_refl. Qed.

(** A star absorbs any prefix. *)
Lemma glob_lang_star_app ci p u v :
  glob_lang ci (STAR :: p) v -> glob_lang ci (STAR :: p) (u ++ v).
Proof. intros H. induction u; cbn; auto with cacher. Qed.

Lemma glob_lang_star_inv ci p v :
  glob_lang ci (STAR :: p) v <-> exists u w, v = u ++ w /\ glob_lang ci p w.
Proof.
  split.
  - remember (STAR :: p) as q eqn:Eq. intros H. revert Eq.
    induction H as [|p' v' H _|p' c v' _ IH|p' c v' _ _|]; intros [=]; subst; try done.
    + by exists [], v'.
    + destruct IH as (u & w & -> & H); [done|]. by exists (c :: u), w.
  - intros (u & w & -> & H). apply glob_lang_star_app. by constructor.
Qed.

(** A pattern character other than a star takes exactly one character. *)
Lemma glob_lang_cons_inv ci a p v :
  a <> STAR -> glob_lang ci (a :: p) v ->
  exists c v', v = c :: v' /\ glob_lang ci p v'.
Proof. intros Ha H. inversion H; subst; try done; eauto. Qed.

Lemma glob_lang_nil_inv ci v : glob_lang ci [] v -> v = [].
Proof. by inversion 1. Qed.

(** A star-free run of pattern characters takes as many characters. *)
Lemma glob_lang_run ci q p v :
  STAR ∉ q -> glob_lang ci (q ++ p) v ->
  exists w v', v = w ++ v' /\ length w = length q /\ glob_lang ci p v'.
Proof.
  revert v. induction q as [|a q IH]; cbn; intros v Hq H.
  - by exists [], v.
  - apply glob_lang_cons_inv in H as (c & v' & -> & H); [|set_solver].
    apply IH in H as (w & v'' & -> & Hw & H); [|set_solver].
    exists (c :: w), v''. cbn. auto.
Qed.

Lemma glob_tail_lang ci p : glob_tail p = true <-> glob_lang ci p [].
Proof.
  unfold glob_tail. induction p as [|a p IH]; cbn.
  - split; auto with cacher.
  - destruct (Ascii.eqb_spec a STAR) as [->|Ha].
    + rewrite IH. split; [auto with cacher|]. intros H. by inversion H; subst.
    + split; [done|]. intros H. inversion H; subst; done.
Qed.

Lemma glob_ref_spec ci p v : glob_ref ci p v = true <-> glob_lang ci p v.
Proof.
  revert v. induction p as [|a p IH]; intros v; cbn.
  - destruct v; split; try done; auto with cacher. by inversion 1.
  - destruct (Ascii.eqb_spec a STAR) as [->|Ha].
    + induction v as [|c v IHv].
      * rewrite orb_false_r, IH. split; [auto with cacher|]. by inversion 1; subst.
      * rewrite orb_true_iff, IH, IHv. split; [naive_solver auto with cacher|].
        inversion 1; subst; auto; done.
    + destruct v as [|c v]; [split; [done|by inversion 1; subst]|].
      rewrite andb_true_iff, orb_true_iff, Ascii.eqb_eq, IH. split.
      * intros [[->|Hc] H]; [auto with cacher|].
        destruct (Ascii.eqb_spec a QMARK) as [->|]; auto with cacher.
      * inversion 1; subst; auto; done.
Qed.

#[export] Instance glob_lang_dec ci p v : Decision (glob_lang ci p v).
Proof. refine (cast_if (decide (glob_ref ci p v = true))); by rewrite <- glob_ref_spec. Defined.

(** ** The loop *)

(** The invariant rule of the loop. *)
Lemma glob_loop_inv (I : glob_state -> Prop) (P : bool -> Prop) ci fuel s b :
  (forall s s', I s -> glob_step ci s = inl s' -> I s') ->
  (forall s b, I s -> glob_step ci s = inr b -> P b) ->
  I s -> glob_loop fuel ci s = Some b -> P b.
Proof.
  intros Hstep Hexit. revert s. induction fuel as [|fuel IH]; cbn; [done|].
  intros s Hs. destruct (glob_step ci s) as [s'|b'] eqn:E; [eauto|].
  intros [= <-]. eauto.
Qed.

(** The exits and transitions of one turn. *)
Ltac glob_step_cases s :=
  destruct s as [p [|vc v] star]; unfold glob_step; cbn [gs_p gs_v gs_star];
  [|destruct p as [|pc p]; [|destruct (Ascii.eqb_spec pc QMARK) as [->|?];
      cbn [orb]; [|destruct (glob_char_eq _ pc vc) eqn:?; cbn [orb];
        [|destruct (Ascii.eqb_spec pc STAR) as [->|?]]]]].

(** *** Termination *)

(** Value positions still to be tried as the end of the last star. *)
Definition glob_left (v0 : cstr) (s : glob_state) : nat :=
  match gs_star s with None => S (length v0) | Some (_, sv) => length sv end.

Definition glob_measure (p0 v0 : cstr) (s : glob_state) : nat :=
  glob_left v0 s * (length p0 + 2) + length (gs_p s).

Definition glob_bounded (p0 v0 : cstr) (s : glob_state) : Prop :=
  length (gs_p s) <= length p0 /\ length (gs_v s) <= length v0 /\
  match gs_star s with
  | None => True
  | Some (sp, sv) =>
      length sp <= length p0 /\ length sv <= length v0 /\
      length (gs_v s) <= length sv
  end.

Lemma glob_backtrack_decreases p0 v0 s s' :
  glob_bounded p0 v0 s -> gs_v s <> [] -> glob_backtrack (gs_star s) = inl s' ->
  glob_bounded p0 v0 s' /\ glob_measure p0 v0 s' < glob_measure p0 v0 s.
Proof.
  unfold glob_bounded, glob_measure, glob_left.
  destruct s as [p v [[sp sv]|]]; cbn; [|done]. intros (? & ? & ? & ? & Hle) Hv [= <-].
  destruct v as [|c v]; [done|]. destruct sv as [|d sv]; cbn in *; [lia|].
  destruct sp as [|a sp]; cbn in *; lia.
Qed.

Lemma glob_step_decreases ci p0 v0 s s' :
  glob_bounded p0 v0 s -> glob_step ci s = inl s' ->
  glob_bounded p0 v0 s' /\ glob_measure p0 v0 s' < glob_measure p0 v0 s.
Proof.
  glob_step_cases s; intros Hb; try done;
    try (apply (glob_backtrack_decreases _ _ (GlobState _ (vc :: v) star)); done);
    intros [= <-]; unfold glob_bounded, glob_measure, glob_left in *;
    destruct star as [[sp sv]|]; cbn in *; nia.
Qed.

Lemma glob_loop_measure ci p0 v0 fuel s :
  glob_bounded p0 v0 s -> glob_measure p0 v0 s < fuel ->
  is_Some (glob_loop fuel ci s).
Proof.
  revert s. induction fuel as [|fuel IH]; intros s Hb Hm; [lia|]. cbn.
  destruct (glob_step ci s) as [s'|b] eqn:E; [|done].
  destruct (glob_step_decreases _ _ _ _ _ Hb E). apply IH; [done|lia].
Qed.

Lemma glob_loop_total ci p v :
  is_Some (glob_loop (glob_fuel p v) ci (GlobState p v None)).
Proof.
  apply (glob_loop_measure ci p v).
  - unfold glob_bounded; cbn. auto.
  - unfold glob_measure, glob_left, glob_fuel; cbn. nia.
Qed.

(** *** Soundness *)

Definition glob_sound_inv (ci : bool) (p0 v0 : cstr) (s : glob_state) : Prop :=
  (glob_lang ci (gs_p s) (gs_v s) -> glob_lang ci p0 v0) /\
  match gs_star s with
  | None => True
  | Some (sp, sv) =>
      exists q, sp = STAR :: q /\ (glob_lang ci sp sv -> glob_lang ci p0 v0)
  end.

Lemma glob_sound_backtrack ci p0 v0 s s' :
  glob_sound_inv ci p0 v0 s -> glob_backtrack (gs_star s) = inl s' ->
  glob_sound_inv ci p0 v0 s'.
Proof.
  destruct s as [p v [[sp sv]|]]; cbn; [|done].
  intros [_ (q & -> & H)] [= <-]. unfold glob_sound_inv; cbn. split.
  - intros Hq. apply H. destruct sv; cbn in *; auto with cacher.
  - exists q. split; [done|]. intros Hq. apply H. destruct sv; cbn in *; auto with cacher.
Qed.

Lemma glob_sound_step ci p0 v0 s s' :
  glob_sound_inv ci p0 v0 s -> glob_step ci s = inl s' -> glob_sound_inv ci p0 v0 s'.
Proof.
  glob_step_cases s; intros Hi; try done;
    try (by apply (glob_sound_backtrack _ _ _ (GlobState [] (vc :: v) star)));
    try (by apply (glob_sound_backtrack _ _ _ (GlobState (pc :: p) (vc :: v) star)));
    intros [= <-]; destruct Hi as [Hi Hs]; split; cbn in *; auto with cacher.
  - intros H. apply Hi. destruct (Ascii.eqb_spec pc STAR) as [->|]; auto with cacher.
  - exists p. auto.
Qed.

Lemma glob_sound_exit ci p0 v0 s b :
  glob_sound_inv ci p0 v0 s -> glob_step ci s = inr b -> b = true -> glob_lang ci p0 v0.
Proof.
  glob_step_cases s; intros [Hi _]; cbn in *; try done;
    try (destruct star as [[??]|]; cbn; congruence).
  intros [= <-] H. by apply Hi, glob_tail_lang.
Qed.

(** *** Completeness on values without a star *)

Lemma glob_char_eq_star ci c : glob_char_eq ci STAR c = true -> c = STAR.
Proof.
  unfold glob_char_eq. destruct ci; [|by intros <-%Ascii.eqb_eq].
  destruct c as [[] [] [] [] [] [] [] []]; vm_compute; done.
Qed.

Lemma suffix_of_app_le (u x w v : cstr) :
  u ++ x = w ++ v -> length x <= length v -> exists y, v = y ++ x.
Proof.
  intros [(k & -> & ->)|(k & -> & ->)]%app_eq_inv Hl; [by exists k|].
  rewrite length_app in Hl. destruct k; cbn in *; [by exists []|lia].
Qed.

Definition glob_complete_inv (ci : bool) (p0 v0 : cstr) (s : glob_state) : Prop :=
  STAR ∉ gs_v s /\
  match gs_star s with
  | None => glob_lang ci p0 v0 -> glob_lang ci (gs_p s) (gs_v s)
  | Some (sp, sv) =>
      exists q w, sp = STAR :: q ++ gs_p s /\ sv = w ++ gs_v s /\
        STAR ∉ q /\ STAR ∉ w /\ length w = length q /\
        (glob_lang ci p0 v0 -> glob_lang ci sp sv)
  end.

(** What the attempt under way says about the last star: if the rest of the
    pattern does not match here, the star has to take one more character. *)
Lemma glob_lang_attempt ci q p w v :
  STAR ∉ q -> length w = length q -> glob_lang ci (STAR :: q ++ p) (w ++ v) ->
  glob_lang ci p v \/
  exists c u, w ++ v = c :: u /\ glob_lang ci (STAR :: q ++ p) u.
Proof.
  intros Hq Hw (u & x & E & H)%glob_lang_star_inv. destruct u as [|c u].
  - cbn in E. subst x. apply glob_lang_run in H as (w' & v' & E & Hl & H); [|done].
    apply app_inj_1 in E as [-> ->]; [auto|congruence].
  - right. exists c, (u ++ x). split; [done|].
    apply glob_lang_star_app. by constructor.
Qed.

Lemma glob_complete_backtrack ci p0 v0 s s' :
  glob_complete_inv ci p0 v0 s -> ~ glob_lang ci (gs_p s) (gs_v s) ->
  gs_v s <> [] -> glob_backtrack (gs_star s) = inl s' -> glob_complete_inv ci p0 v0 s'.
Proof.
  destruct s as [p v [[sp sv]|]]; cbn; [|done].
  intros [Hv (q & w & -> & -> & Hq & Hw & Hl & H)] Hno Hne [= <-].
  unfold glob_complete_inv; cbn in *.
  assert (exists c u, w ++ v = c :: u) as (c & u & E)
    by (destruct w, v; cbn; eauto; done).
  rewrite E. cbn. assert (STAR ∉ c :: u) as Hcu by (rewrite <- E; set_solver).
  split; [set_solver|]. exists [], []. cbn.
  repeat split; [set_solver..|]. intros [?|(c' & u' & E' & ?)]%H%glob_lang_attempt; try done.
  rewrite E in E'. by injection E' as -> ->.
Qed.

(** A second star makes the first one irrelevant. *)
Lemma glob_lang_second_star ci q p w v :
  STAR ∉ q -> length w = length q ->
  glob_lang ci (STAR :: q ++ STAR :: p) (w ++ v) -> glob_lang ci (STAR :: p) v.
Proof.
  intros Hq Hw (u & x & E & H)%glob_lang_star_inv.
  apply glob_lang_run in H as (w' & x' & -> & Hl & H); [|done].
  rewrite app_assoc in E. destruct (suffix_of_app_le (u ++ w') x' w v) as [y ->]; [done| |].
  - assert (length (w ++ v) = length ((u ++ w') ++ x')) as L by (by rewrite E).
    rewrite !length_app in L. lia.
  - by apply glob_lang_star_app.
Qed.

Lemma glob_complete_match ci p0 v0 pc p vc v star :
  pc <> STAR -> glob_complete_inv ci p0 v0 (GlobState (pc :: p) (vc :: v) star) ->
  glob_complete_inv ci p0 v0 (GlobState p v star).
Proof.
  unfold glob_complete_inv. cbn. intros Hpc [Hv Hs]. split; [set_solver|].
  destruct star as [[sp sv]|].
  - destruct Hs as (q & w & -> & -> & Hq & Hw & Hl & H).
    exists (q ++ [pc]), (w ++ [vc]). rewrite !length_app, <- !app_assoc. cbn.
    repeat split; [set_solver..|lia|done].
  - intros H%Hs. by apply glob_lang_cons_inv in H as (? & ? & [= <- <-] & H).
Qed.

Lemma glob_complete_star ci p0 v0 p vc v star :
  glob_complete_inv ci p0 v0 (GlobState (STAR :: p) (vc :: v) star) ->
  glob_complete_inv ci p0 v0 (GlobState p (vc :: v) (Some (STAR :: p, vc :: v))).
Proof.
  unfold glob_complete_inv. cbn. intros [Hv Hs]. split; [done|].
  exists [], []. cbn. repeat split; [set_solver..|].
  destruct star as [[sp sv]|]; [|done].
  destruct Hs as (q & w & -> & -> & Hq & Hw & Hl & H). intros ?%H.
  by apply (glob_lang_second_star ci q p w).
Qed.

Lemma glob_complete_step ci p0 v0 s s' :
  glob_complete_inv ci p0 v0 s -> glob_step ci s = inl s' -> glob_complete_inv ci p0 v0 s'.
Proof.
  glob_step_cases s; intros Hi; try done.
  - apply (glob_complete_backtrack _ _ _ (GlobState [] (vc :: v) star)); [done| |done].
    by intros ?%glob_lang_nil_inv.
  - intros [= <-]. by apply glob_complete_match in Hi.
  - intros [= <-]. apply glob_complete_match in Hi; [done|]. intros ->.
    apply glob_char_eq_star in Heqb as ->. destruct Hi as [Hv _]. cbn in Hv. set_solver.
  - intros [= <-]. by apply glob_complete_star in Hi.
  - apply (glob_complete_backtrack _ _ _ (GlobState (pc :: p) (vc :: v) star)); [done| |done].
    cbn. inversion 1; subst; congruence.
Qed.

Lemma glob_complete_fail ci p0 v0 s :
  glob_complete_inv ci p0 v0 s -> ~ glob_lang ci (gs_p s) (gs_v s) ->
  gs_v s = [] \/ gs_star s = None -> ~ glob_lang ci p0 v0.
Proof.
  destruct s as [p v star]. unfold glob_complete_inv. cbn. intros [Hv Hs] Hno Hx Hg.
  destruct star as [[sp sv]|]; [|by auto]. destruct Hx as [->|]; [|done].
  destruct Hs as (q & w & -> & -> & Hq & Hw & Hl & H). apply H in Hg.
  apply glob_lang_star_inv in Hg as (u & x & E & Hx).
  apply glob_lang_run in Hx as (w' & v' & -> & Hl' & Hx); [|done].
  apply (f_equal length) in E. rewrite !length_app in E. cbn in E.
  destruct v'; cbn in *; [done|lia].
Qed.

Lemma glob_complete_exit ci p0 v0 s b :
  glob_complete_inv ci p0 v0 s -> glob_step ci s = inr b -> glob_lang ci p0 v0 -> b = true.
Proof.
  glob_step_cases s; intros Hi; try done.
  - intros [= <-] H. destruct (glob_tail p) eqn:E; [done|]. exfalso.
    revert H. eapply glob_complete_fail; [done| |auto]. cbn.
    rewrite <- glob_tail_lang. congruence.
  - destruct star as [[??]|]; cbn; [done|]. intros [= <-] H. exfalso. revert H.
    eapply glob_complete_fail; [done| |auto]. cbn. by intros ?%glob_lang_nil_inv.
  - destruct star as [[??]|]; cbn; [done|]. intros [= <-] H. exfalso. revert H.
    eapply glob_complete_fail; [done| |auto]. cbn. inversion 1; subst; congruence.
Qed.

(** ** The matcher *)

(** The fuel of [cacher_glob_match] is never exhausted. *)
Lemma glob_match_loop p v ci :
  glob_loop (glob_fuel p v) ci (GlobState p v None)
  = Some (cacher_glob_match (Some p) (Some v) ci).
Proof. cbn. by destruct (glob_loop_total ci p v) as [b ->]. Qed.

Lemma glob_match_sound_aux p v ci :
  cacher_glob_match (Some p) (Some v) ci = true -> glob_lang ci p v.
Proof.
  refine (glob_loop_inv (glob_sound_inv ci p v) (fun b => b = true -> _) ci _ _ _ _ _ _
            (glob_match_loop p v ci)).
  - intros s s'. apply glob_sound_step.
  - intros s b. apply glob_sound_exit.
  - split; cbn; auto.
Qed.

Lemma glob_match_complete_aux p v ci :
  STAR ∉ v -> glob_lang ci p v -> cacher_glob_match (Some p) (Some v) ci = true.
Proof.
  intros Hv.
  refine (glob_loop_inv (glob_complete_inv ci p v) (fun b => _ -> b = true) ci _ _ _ _ _ _
            (glob_match_loop p v ci)).
  - intros s s'. apply glob_complete_step.
  - intros s b. apply glob_complete_exit.
  - split; cbn; auto.
Qed.

(** The form the callers use. *)
Lemma glob_match_iff p v ci :
  STAR ∉ v -> cacher_glob_match (Some p) (Some v) ci = true <-> glob_lang ci p v.
Proof. split; [apply glob_match_sound_aux|by apply glob_match_complete_aux]. Qed.

(** ** Properties *)

(** C18: the matcher always returns, and on a value without a star it decides
    exactly the glob language: a star is any run of characters, a question
    mark any single one, the rest literal (up to case when [ci] is set), the
    whole value anchored. *)
Theorem glob_match_correct p v ci :
  STAR ∉ v ->
  exists b, glob_loop (glob_fuel p v) ci (GlobState p v None) = Some b /\
            cacher_glob_match (Some p) (Some v) ci = b /\
            (b = true <-> glob_lang ci p v).
Proof.
  intros Hv. eexists. split; [apply glob_match_loop|]. split; [done|].
  by apply glob_match_iff.
Qed.

Lemma glob_match_correct_witness :
  exists b, glob_loop (glob_fuel (str "/blog/*") (str "/blog/hello")) false
              (GlobState (str "/blog/*") (str "/blog/hello") None) = Some b /\
            cacher_glob_match (Some (str "/blog/*")) (Some (str "/blog/hello")) false = b /\
            (b = true <-> glob_lang false (str "/blog/*") (str "/blog/hello")).
Proof.
  apply glob_match_correct. apply (bool_decide_unpack _). vm_compute. exact I.
Defined.

(** Whatever the value, a match reported by the code is a match of the
    glob language (so a path, cookie or content type is never matched by a
    pattern that does not cover it), and NULL arguments never match. *)
Theorem glob_match_sound op ov ci :
  cacher_glob_match op ov ci = true ->
  exists p v, op = Some p /\ ov = Some v /\ glob_lang ci p v.
Proof.
  destruct op as [p|], ov as [v|]; try done.
  intros H. exists p, v. by apply glob_match_sound_aux in H.
Qed.

Lemma glob_match_sound_witness :
  cacher_glob_match (Some (str "a?c")) (Some (str "abc")) false = true /\
  exists p v, Some (str "a?c") = Some p /\ Some (str "abc") = Some v /\ glob_lang false p v.
Proof. split; [reflexivity|]. apply glob_match_sound. reflexivity. Defined.

(** The literal comparison is tried before the wildcard, so a star in the value
    consumes the star of the pattern: behind any prefix without a star, a star
    and more is not covered by the pattern that ends in a star there. *)
Lemma glob_prefix_star_missed ci pre c more :
  STAR ∉ pre -> cacher_glob_match (Some (pre ++ [STAR])) (Some (pre ++ STAR :: c :: more)) ci = false.
Proof.
  intros Hpre. unfold cacher_glob_match. generalize (glob_fuel (pre ++ [STAR]) (pre ++ STAR :: c :: more)). intros fuel.
  destruct (glob_loop fuel ci _) as [b|] eqn:E; [|done]. cbn.
  apply (glob_loop_inv (fun s => gs_star s = None /\
    ((exists u, gs_p s = u ++ [STAR] /\ gs_v s = u ++ STAR :: c :: more /\ STAR ∉ u) \/
     gs_p s = [] /\ gs_v s <> [])) (fun b => b = false) ci fuel
    (GlobState (pre ++ [STAR]) (pre ++ STAR :: c :: more) None) b); [| |by split; [|left; exists pre]|exact E].
  - intros [p v star] [p' v' star'] [Hs H]. cbn in Hs, H. subst star. cbn. destruct H as [([|a u] & -> & -> & Hu)|[-> Hv]]; cbn.
    + destruct ci; cbn; intros [= <- <- <-]; (split; [done|]); by right.
    + rewrite glob_char_eq_refl, orb_true_r. intros [= <- <- <-]. split; [done|]. left. exists u. set_solver.
    + by destruct v.
  - intros [p v star] b' [Hs H]. cbn in Hs, H. subst star. cbn. destruct H as [([|a u] & -> & -> & Hu)|[-> Hv]]; cbn.
    + by destruct ci.
    + by rewrite glob_char_eq_refl, orb_true_r.
    + destruct v; [done|]. by intros [= <-].
Qed.

(** The converse fails once the value itself contains a star: the
    literal comparison is tried before the wildcard, so a star in the value
    consumes the star of the pattern.  The pattern that should match every
    string rejects every two-character string that starts with a star. *)
Theorem glob_star_in_value_missed c :
  glob_lang false [STAR] [STAR; c] /\
  cacher_glob_match (Some [STAR]) (Some [STAR; c]) false = false.
Proof. split; [auto with cacher|reflexivity]. Qed.
