(* ===== verification/Rules.v ===== *)
(** * Caching rules (src/cacher_rules.c)

    The rule set: its construction from JSON (with the allocations, array
    writes and numeric conversions of the source), its release, and the queries
    the request path makes: matching a request, a cookie name, a status, a
    content type. *)

From S2P Require Import Prelude CNum CHeap CJson CJsonAlloc Glob.
From Stdlib Require Import Lia.
Local Open Scope cstr_scope.

(** ** Data *)

Record cacher_rule := CacherRule {
  rule_blk : nat;
  path : option mstr;
  query : option mstr;
  methods : option (marr mstr);
  enabled : Z;
  ttl_seconds : Z;
  status_codes : option (marr Z);
  content_types : option (marr mstr);
  bypass_cookies : option (marr mstr);
  vary : option (marr mstr);
}.

Record cacher_ruleset := CacherRuleset {
  rs_blk : nat;
  rules : option (marr cacher_rule);
}.

(** ** Construction *)

Definition cacher_strdup (s : option (list ascii)) : M (option mstr) :=
  match s with
  | None => mret None
  | Some s =>
      out ← malloc;
      mret ((fun b => MStr b (c_str s)) <$> out)
  end.

(** The value string of a string item. *)
Definition valuestring (item : cJSON) : option (list ascii) :=
  match item with cJSON_String s => Some s | _ => None end.

Definition valuedouble (item : cJSON) : option double :=
  match item with cJSON_Number d _ => Some d | _ => None end.

Definition upper_mstr (to_upper : bool) (s : mstr) : mstr :=
  if to_upper then MStr (ms_blk s) (toupper <$> ms_val s) else s.

(** The loop over the items of a string array. *)
Fixpoint json_string_loop (items : list cJSON) (to_upper : bool)
    (out : slots mstr) (i : nat) : M (slots mstr * nat) :=
  match items with
  | [] => mret (out, i)
  | item :: items' =>
      match valuestring item with
      | None => json_string_loop items' to_upper out i
      | Some s =>
          c ← cacher_strdup (Some s);
          out' ← defined (write_slot out i (upper_mstr to_upper <$> c));
          match c with
          | None => json_string_loop items' to_upper out' i
          | Some _ => json_string_loop items' to_upper out' (S i)
          end
      end
  end.

Definition json_string_array (arr : option cJSON) (to_upper : bool)
    : M (option (marr mstr)) :=
  if negb (cJSON_IsArray arr) then mret None
  else
    let count := cJSON_GetArraySize arr in
    if (count <=? 0)%Z then mret None
    else
      out ← calloc (size_succ count) 8;
      match out with
      | None => mret None
      | Some b =>
          '(a, i) ← json_string_loop (cJSON_children arr) to_upper
                      (replicate (Z.to_nat (count + 1)) None) 0;
          a' ← defined (write_slot a i None);
          if (i =? 0)%nat then (_ ← free b; mret None)
          else
            elts ← defined (until_empty a');
            mret (Some (MArr b elts))
      end.

(** The loop over the items of a number array: [out[n++] = (int) d]. *)
Fixpoint json_int_loop (items : list cJSON) (out : slots Z) (n : nat) : M (slots Z * nat) :=
  match items with
  | [] => mret (out, n)
  | item :: items' =>
      match valuedouble item with
      | None => json_int_loop items' out n
      | Some d =>
          z ← defined (int_of_double d);
          out' ← defined (write_slot out n (Some z));
          json_int_loop items' out' (S n)
      end
  end.

Definition json_int_array (arr : option cJSON) : M (option (marr Z)) :=
  if negb (cJSON_IsArray arr) then mret None
  else
    let count := cJSON_GetArraySize arr in
    if (count <=? 0)%Z then mret None
    else
      out ← malloc;
      match out with
      | None => mret None
      | Some b =>
          '(a, n) ← json_int_loop (cJSON_children arr)
                      (replicate (Z.to_nat (count + 1)) None) 0;
          a' ← defined (write_slot a n (Some (-1)%Z));
          if (n =? 0)%nat then (_ ← free b; mret None)
          else
            elts ← defined (until_empty (take n a' ++ [None]));
            mret (Some (MArr b elts))
      end.

(** The string member of the [match] object, when it is one. *)
Definition dup_member (obj : option cJSON) (name : cstr) : M (option mstr) :=
  match cJSON_GetObjectItemCaseSensitive obj name with
  | Some item => cacher_strdup (valuestring item)
  | None => mret None
  end.

Definition parse_ttl (ttl : option cJSON) : M Z :=
  match ttl ≫= valuedouble with
  | Some d => defined (long_of_double d)
  | None => mret 0%Z
  end.

(** The default [{200, -1}]. *)
Definition default_status_codes (codes : option (marr Z)) : M (option (marr Z)) :=
  match codes with
  | Some _ => mret codes
  | None =>
      b ← malloc;
      mret ((fun b => MArr b [200%Z]) <$> b)
  end.

Definition parse_enabled (enabled : option cJSON) : Z :=
  if cJSON_IsBool enabled then (if cJSON_IsTrue enabled then 1 else 0)%Z else 1%Z.

Definition parse_rule (robj : cJSON) : M (option cacher_rule) :=
  let member := cJSON_GetObjectItemCaseSensitive (Some robj) in
  r ← malloc;
  match r with
  | None => mret None
  | Some b =>
      let m := member (str "match") in
      path ← (if cJSON_IsObject m then dup_member m (str "path") else mret None);
      query ← (if cJSON_IsObject m then dup_member m (str "query") else mret None);
      methods ← (if cJSON_IsObject m
                 then json_string_array
                        (cJSON_GetObjectItemCaseSensitive m (str "methods")) true
                 else mret None);
      ttl ← parse_ttl (member (str "ttl"));
      codes ← json_int_array (member (str "status_codes"));
      codes ← default_status_codes codes;
      content_types ← json_string_array (member (str "content_types")) false;
      bypass_cookies ← json_string_array (member (str "bypass_cookies")) false;
      vary ← json_string_array (member (str "vary")) false;
      mret (Some (CacherRule b path query methods (parse_enabled (member (str "enabled")))
                    ttl codes content_types bypass_cookies vary))
  end.

(** The loop over the rule objects. *)
Fixpoint parse_rules_loop (items : list cJSON) (out : slots cacher_rule) (i : nat)
    : M (slots cacher_rule * nat) :=
  match items with
  | [] => mret (out, i)
  | ritem :: items' =>
      if negb (cJSON_IsObject (Some ritem)) then parse_rules_loop items' out i
      else
        r ← parse_rule ritem;
        match r with
        | None => parse_rules_loop items' out i
        | Some rule =>
            out' ← defined (write_slot out i (Some rule));
            parse_rules_loop items' out' (S i)
        end
  end.

(** [snprintf(errbuf, errbuf_len, ...)]: what the caller's buffer then holds;
    [None] when there is no buffer to write. *)
Definition write_error (errbuf_len : option nat) (msg : cstr) : option cstr :=
  match errbuf_len with
  | Some (S n) => Some (take n msg)
  | _ => None
  end.

(** The message for a syntax error; [ep] is what [cJSON_GetErrorPtr] answers. *)
Definition syntax_error_msg (ep : option cstr) : cstr :=
  str "JSON syntax error near: " ++ take 40 (default (str "(unknown)") ep).

Definition no_rules_msg : cstr :=
  str "missing top-level " ++ [DQUOTE] ++ str "rules" ++ [DQUOTE] ++ str " array".

(** The rule array of a parsed document, once the set itself is allocated. *)
Definition fill_ruleset (rules_arr : option cJSON) (root : jnode) (rs : nat)
    : M (option cacher_ruleset) :=
  let count := cJSON_GetArraySize rules_arr in
  out ← calloc (size_succ count) 8;
  match out with
  | None => _ ← free rs; _ ← cJSON_Delete [root]; mret None
  | Some b =>
      '(a, i) ← parse_rules_loop (cJSON_children rules_arr)
                  (replicate (Z.to_nat (count + 1)) None) 0;
      a' ← defined (write_slot a i None);
      elts ← defined (until_empty a');
      _ ← cJSON_Delete [root];
      mret (Some (CacherRuleset rs (Some (MArr b elts))))
  end.

(** Why there is no rule set, when a message says so. *)
Inductive parse_error :=
  | NO_MESSAGE
  | NO_JSON
  | SYNTAX (position : nat)
  | NO_RULES.

(** What the function computes on the heap: the rule set, or what is wrong.  The
    place of a syntax error is in [global_error], which all threads of a process
    share, until the message is made of it. *)
Definition parse_ruleset (json : option cstr) : M (option cacher_ruleset * parse_error) :=
  match json with
  | None => mret (None, NO_JSON)
  | Some json =>
      parsed ← cJSON_Parse_alloc json;
      match parsed with
      | inr position => mret (None, SYNTAX position)
      | inl root =>
          let rules_arr := cJSON_GetObjectItemCaseSensitive (Some (view_node root)) (str "rules") in
          if negb (cJSON_IsArray rules_arr) then
            _ ← cJSON_Delete [root];
            mret (None, NO_RULES)
          else
            rs ← malloc;
            match rs with
            | None => _ ← cJSON_Delete [root]; mret (None, NO_MESSAGE)
            | Some rs =>
                r ← fill_ruleset rules_arr root rs;
                mret (r, NO_MESSAGE)
            end
      end
  end.

(** The text at a position of a C string. *)
Definition text_at (json : cstr) (position : nat) : cstr := c_str (drop position (json ++ [NUL])).

(** What is written to [errbuf]; [ep] is what [cJSON_GetErrorPtr] answers. *)
Definition error_message (errbuf_len : option nat) (e : parse_error) (ep : option cstr) : option cstr :=
  match e with
  | NO_MESSAGE => None
  | NO_JSON => write_error errbuf_len (str "no JSON supplied")
  | SYNTAX _ => write_error errbuf_len (syntax_error_msg ep)
  | NO_RULES => write_error errbuf_len no_rules_msg
  end.

(** The rule set, and what was written to [errbuf], when no other thread parses
    meanwhile: the error is where this parse found it. *)
Definition cacher_ruleset_parse (json : option cstr) (errbuf_len : option nat)
    : M (option cacher_ruleset * option cstr) :=
  '(rs, e) ← parse_ruleset json;
  mret (rs, error_message errbuf_len e
              match e, json with SYNTAX position, Some json => Some (text_at json position) | _, _ => None end).

(** ** Release *)

Definition free_opt (b : option nat) : M unit :=
  match b with Some b => free b | None => mret tt end.

Fixpoint free_all (bs : list nat) : M unit :=
  match bs with
  | [] => mret tt
  | b :: bs' => free b ≫= fun _ => free_all bs'
  end.

Definition free_string_array (arr : option (marr mstr)) : M unit :=
  match arr with
  | None => mret tt
  | Some a => free_all (ms_blk <$> ma_elts a) ≫= fun _ => free (ma_blk a)
  end.

Definition free_rule (r : cacher_rule) : M unit :=
  free_opt (ms_blk <$> path r) ≫= fun _ =>
  free_opt (ms_blk <$> query r) ≫= fun _ =>
  free_string_array (methods r) ≫= fun _ =>
  free_opt (ma_blk <$> status_codes r) ≫= fun _ =>
  free_string_array (content_types r) ≫= fun _ =>
  free_string_array (bypass_cookies r) ≫= fun _ =>
  free_string_array (vary r) ≫= fun _ =>
  free (rule_blk r).

Fixpoint free_rules (rs : list cacher_rule) : M unit :=
  match rs with
  | [] => mret tt
  | r :: rs' => free_rule r ≫= fun _ => free_rules rs'
  end.

Definition cacher_ruleset_free (rs : option cacher_ruleset) : M unit :=
  match rs with
  | None => mret tt
  | Some rs =>
      match rules rs with
      | Some a => free_rules (ma_elts a) ≫= fun _ => free (ma_blk a)
      | None => mret tt
      end ≫= fun _ => free (rs_blk rs)
  end.

(** ** Queries *)

(** The result of [cacher_strcasecmp]: 0 on strings equal up to case. *)
Fixpoint cacher_strcasecmp (a b : cstr) : Z :=
  match a, b with
  | c :: a', d :: b' =>
      let ca := uchar (tolower c) in
      let cb := uchar (tolower d) in
      if (ca =? cb)%Z then cacher_strcasecmp a' b' else (ca - cb)%Z
  | c :: _, [] => uchar c
  | [], d :: _ => (- uchar d)%Z
  | [], [] => 0%Z
  end.

(** The elements a NULL-terminated array shows. *)
Definition arr_vals (a : marr mstr) : list cstr := ms_val <$> ma_elts a.

(** The tests of one turn of the loop in [cacher_ruleset_match]. *)
Definition rule_matches (r : cacher_rule) (p q m : option cstr) : bool :=
  match path r with
  | Some pat => cacher_glob_match (Some (ms_val pat)) (Some (default [] p)) false
  | None => true
  end &&
  match query r with
  | Some pat => cacher_glob_match (Some (ms_val pat)) (Some (default [] q)) false
  | None => true
  end &&
  match methods r with
  | Some a => existsb (fun x => match m with
                                | Some m => (cacher_strcasecmp x m =? 0)%Z
                                | None => false
                                end) (arr_vals a)
  | None => true
  end.

Fixpoint match_loop (rs : list cacher_rule) (p q m : option cstr) : option cacher_rule :=
  match rs with
  | [] => None
  | r :: rs' => if rule_matches r p q m then Some r else match_loop rs' p q m
  end.

Definition cacher_ruleset_match (rs : option cacher_ruleset) (p q m : option cstr)
    : option cacher_rule :=
  match rs ≫= rules with
  | None => None
  | Some a => match_loop (ma_elts a) p q m
  end.

Definition cacher_rule_bypasses_cookie (rule : option cacher_rule) (cookie_name : option cstr)
    : bool :=
  match rule ≫= bypass_cookies, cookie_name with
  | Some a, Some name =>
      existsb (fun pat => cacher_glob_match (Some pat) (Some name) false) (arr_vals a)
  | _, _ => false
  end.

(** [content_type] up to its parameters, cut to the 127 characters of [base]. *)
Fixpoint base_type (room : nat) (content_type : cstr) : cstr :=
  match room, content_type with
  | S room', c :: s =>
      if (c =? ";"%char) || (c =? SP) then [] else c :: base_type room' s
  | _, _ => []
  end.

Definition cacher_rule_allows_content_type (rule : option cacher_rule)
    (content_type : option cstr) : bool :=
  match rule ≫= content_types with
  | None => true
  | Some a =>
      match content_type with
      | None => false
      | Some s =>
          let base := base_type 127 s in
          existsb (fun pat => cacher_glob_match (Some pat) (Some base) true) (arr_vals a)
      end
  end.

(** The codes end at the first -1, a stored one included. *)
Fixpoint allows_status_loop (codes : list Z) (status : Z) : bool :=
  match codes with
  | [] => false
  | c :: codes' =>
      if (c =? -1)%Z then false
      else if (c =? status)%Z then true else allows_status_loop codes' status
  end.

Definition cacher_rule_allows_status (rule : option cacher_rule) (status : Z) : bool :=
  match rule ≫= status_codes with
  | None => false
  | Some a => allows_status_loop (ma_elts a) status
  end.
