(* ===== verification/RulesParse.v ===== *)
(** * What parsing a rules document yields

    The specification of [cacher_ruleset_parse]: the abstract rules a JSON
    document stands for ([rules_of_json]), the blocks a rule set owns, and the
    proof that the code of Rules.v computes the former, allocates exactly the
    latter on every pattern of allocation failures, and that
    [cacher_ruleset_free] gives all of them back. *)

From S2P Require Import Prelude CNum CHeap CJson CJsonAlloc CJsonSafety Glob Rules.
From Stdlib Require Import Lia.
Local Open Scope cstr_scope.

(** ** Abstract rules *)

Record arule := ARule {
  a_path : option cstr;
  a_query : option cstr;
  a_methods : option (list cstr);
  a_enabled : Z;
  a_ttl : Z;
  a_status : option (list Z);
  a_types : option (list cstr);
  a_bypass : option (list cstr);
  a_vary : option (list cstr);
}.

Definition view_rule (r : cacher_rule) : arule :=
  ARule (ms_val <$> path r) (ms_val <$> query r) (arr_vals <$> methods r) (enabled r)
    (ttl_seconds r) (ma_elts <$> status_codes r) (arr_vals <$> content_types r)
    (arr_vals <$> bypass_cookies r) (arr_vals <$> vary r).

Definition view_ruleset (rs : cacher_ruleset) : option (list arule) :=
  (fun a => view_rule <$> ma_elts a) <$> rules rs.

(** The items of an array; anything else has none. *)
Definition items_of (arr : option cJSON) : list cJSON :=
  if cJSON_IsArray arr then cJSON_children arr else [].

Definition item_string (item : cJSON) : option cstr := c_str <$> valuestring item.

Definition upper_if (to_upper : bool) (s : cstr) : cstr :=
  if to_upper then toupper <$> s else s.

(** A list, unless it is empty. *)
Definition nonempty {A} (l : list A) : option (list A) :=
  match l with [] => None | _ => Some l end.

(** The strings of a string array; an array without strings is no array. *)
Definition strings_of_json (arr : option cJSON) (to_upper : bool) : option (list cstr) :=
  nonempty (upper_if to_upper <$> omap item_string (items_of arr)).

(** The integers of a number array; undefined when one does not fit an int. *)
Definition ints_of_json (arr : option cJSON) : option (option (list Z)) :=
  l ← mapM int_of_double (omap valuedouble (items_of arr));
  Some (nonempty l).

Definition ttl_of_json (ttl : option cJSON) : option Z :=
  match ttl ≫= valuedouble with
  | Some d => long_of_double d
  | None => Some 0%Z
  end.

Definition string_of_member (obj : option cJSON) (name : cstr) : option cstr :=
  cJSON_GetObjectItemCaseSensitive obj name ≫= item_string.

Definition member (item : cJSON) (name : string) : option cJSON :=
  cJSON_GetObjectItemCaseSensitive (Some item) (str name).

(** The match clause of a rule, absent unless it is an object. *)
Definition match_clause (robj : cJSON) : option cJSON :=
  if cJSON_IsObject (member robj "match") then member robj "match" else None.

(** The rule a JSON object stands for, with its defaults; [None] when a number
    of it cannot be converted. *)
Definition rule_of_json (robj : cJSON) : option arule :=
  ttl ← ttl_of_json (member robj "ttl");
  codes ← ints_of_json (member robj "status_codes");
  Some (ARule
    (string_of_member (match_clause robj) (str "path"))
    (string_of_member (match_clause robj) (str "query"))
    (strings_of_json (cJSON_GetObjectItemCaseSensitive (match_clause robj) (str "methods")) true)
    (parse_enabled (member robj "enabled"))
    ttl
    (Some (default [200%Z] codes))
    (strings_of_json (member robj "content_types") false)
    (strings_of_json (member robj "bypass_cookies") false)
    (strings_of_json (member robj "vary") false)).

Definition is_object (item : cJSON) : bool := cJSON_IsObject (Some item).

(** The rules of the items of the top-level array: the objects among them. *)
Definition rules_of_items (items : list cJSON) : option (list arule) :=
  mapM rule_of_json (List.filter is_object items).

(** ** Blocks *)

Definition str_blks (s : option mstr) : list nat := option_list (ms_blk <$> s).
Definition strs_blks (a : option (marr mstr)) : list nat :=
  match a with Some a => (ms_blk <$> ma_elts a) ++ [ma_blk a] | None => [] end.
Definition ints_blks (a : option (marr Z)) : list nat := option_list (ma_blk <$> a).

Definition rule_blks (r : cacher_rule) : list nat :=
  str_blks (path r) ++ str_blks (query r) ++ strs_blks (methods r) ++
  ints_blks (status_codes r) ++ strs_blks (content_types r) ++
  strs_blks (bypass_cookies r) ++ strs_blks (vary r) ++ [rule_blk r].

Definition rules_blks (l : list cacher_rule) : list nat := concat (rule_blks <$> l).

Definition ruleset_blks (rs : cacher_ruleset) : list nat :=
  match rules rs with
  | Some a => rules_blks (ma_elts a) ++ [ma_blk a]
  | None => []
  end ++ [rs_blk rs].

(** *** Release *)

Lemma free_all_frees bs : frees (free_all bs) bs.
Proof.
  induction bs as [|b bs IH]; [apply frees_ret|].
  apply (frees_seq _ _ [b]); [apply frees_free|done].
Qed.

Lemma free_opt_frees o : frees (free_opt o) (option_list o).
Proof. destruct o; [apply frees_free|apply frees_ret]. Qed.

Lemma free_string_array_frees a : frees (free_string_array a) (strs_blks a).
Proof.
  destruct a as [a|]; [|apply frees_ret].
  apply frees_seq; [apply free_all_frees|apply frees_free].
Qed.

Create HintDb frees.
#[local] Hint Resolve frees_ret frees_free frees_seq free_all_frees free_opt_frees
  free_string_array_frees : frees.

Lemma free_rule_frees r : frees (free_rule r) (rule_blks r).
Proof. unfold free_rule, rule_blks, str_blks, ints_blks. auto 20 with frees. Qed.
#[local] Hint Resolve free_rule_frees : frees.

Lemma free_rules_frees l : frees (free_rules l) (rules_blks l).
Proof. induction l as [|r l IH]; cbn; auto with frees. Qed.
#[local] Hint Resolve free_rules_frees : frees.

Lemma cacher_ruleset_free_frees rs : frees (cacher_ruleset_free (Some rs)) (ruleset_blks rs).
Proof.
  unfold cacher_ruleset_free, ruleset_blks. destruct (rules rs); auto with frees.
Qed.

(** ** Construction *)

(** What a constructor returns in a good run: the blocks it owns, and, when no
    allocation fails, the value it should have. *)
Definition builds {A V} (blks : A -> list nat) (view : A -> V) (v : V) (m : M A) (h : heap) : Prop :=
  wp m (fun a h' => owns h h' (blks a) /\ (reliable h -> view a = v)) h.

Lemma cacher_strdup_builds s h :
  builds str_blks (fmap ms_val) (c_str <$> s) (cacher_strdup s) h.
Proof.
  unfold builds. destruct s as [s|]; cbn [cacher_strdup]; [|apply wp_ret; split; [apply owns_nil|done]].
  apply wp_bind. eapply wp_mono; [apply wp_malloc|]. intros r h' [Ho Hr]. apply wp_ret.
  split; [by destruct r|]. intros [b ->]%Hr. done.
Qed.

(** The loop over the strings, from an array holding [l]. *)
Lemma json_string_loop_builds items up l k h :
  heap_wf h -> length items < k ->
  wp (json_string_loop items up (filled l k) (length l))
    (fun '(a, i) h' => exists l' k', a = filled (l ++ l') k' /\ i = length (l ++ l') /\ 0 < k' /\
       owns h h' (ms_blk <$> l') /\
       (reliable h -> ms_val <$> l' = upper_if up <$> omap item_string items))
    h.
Proof.
  revert l k h. induction items as [|item items IH]; intros l k h Hwf Hk; cbn [json_string_loop].
  - apply wp_ret. exists [], k. rewrite app_nil_r.
    split_and!; [done..|lia|apply owns_nil|done].
  - unfold item_string at 1. cbn. destruct (valuestring item) as [s|] eqn:Es; cbn [fmap option_fmap option_map];
      [|apply IH; [done|cbn in Hk; lia]].
    apply wp_bind. eapply wp_mono; [apply (cacher_strdup_builds (Some s))|]. intros c h1 [Ho Hr].
    apply wp_bind. cbn in Hk. destruct c as [m|]; cbn [fmap option_fmap option_map] in *.
    + eapply wp_defined; [apply write_filled; [done|lia]|].
      replace (S (length l)) with (length (l ++ [upper_mstr up m])) by (rewrite length_app; cbn; lia).
      eapply wp_mono; [apply IH; [by eapply owns_wf|lia]|].
      intros [a i] h2 (l' & k' & -> & -> & Hk' & Ho' & Hr').
      exists (upper_mstr up m :: l'), k'. rewrite <- app_assoc. cbn. split_and!; try done.
      * replace (ms_blk (upper_mstr up m)) with (ms_blk m) by by destruct up.
        by apply (owns_trans h h1 h2 [ms_blk m]).
      * intros H. rewrite Hr' by (by eapply owns_reliable). f_equal.
        specialize (Hr H). injection Hr as Hr. destruct up; cbn; by rewrite Hr.
    + eapply wp_defined; [apply write_filled_none; [done|lia]|].
      eapply wp_mono; [apply IH; [by eapply owns_wf|lia]|].
      intros [a i] h2 (l' & k' & -> & -> & Hk' & Ho' & Hr').
      exists l', k'. split_and!; try done; [by apply (owns_trans h h1 h2 [])|].
      intros H. by specialize (Hr H).
Qed.

(** The arrays of the document are short enough for an [int] count. *)
Definition fits (arr : option cJSON) : Prop :=
  (Z.of_nat (length (cJSON_children arr)) < INT_MAX)%Z.

Lemma fits_size arr : fits arr -> cJSON_GetArraySize arr = Z.of_nat (length (cJSON_children arr)).
Proof.
  unfold fits, cJSON_GetArraySize. intros H. apply to_int32_id, in_int_spec.
  unfold INT_MIN, INT_MAX in *. lia.
Qed.

Lemma items_of_empty arr :
  fits arr -> (cJSON_GetArraySize arr <=? 0)%Z = true -> items_of arr = [].
Proof.
  intros Hf. rewrite (fits_size _ Hf). intros H%Z.leb_le. unfold items_of.
  destruct (cJSON_IsArray arr); [|done]. by destruct (cJSON_children arr); [|cbn in H; lia].
Qed.

Lemma builds_nothing {A V} (blks : A -> list nat) (view : A -> V) v a h :
  blks a = [] -> view a = v -> builds blks view v (mret a) h.
Proof. intros Hb Hv. apply wp_ret. rewrite Hb. split; [apply owns_nil|done]. Qed.

Lemma owns_block_last h h1 h2 b l :
  owns h h1 [b] -> owns h1 h2 l -> owns h h2 (l ++ [b]).
Proof.
  intros H1 H2. eapply owns_perm; [|by eapply owns_trans]. by rewrite Permutation_app_comm.
Qed.

Lemma json_string_array_builds arr up h :
  heap_wf h -> fits arr ->
  builds strs_blks (fmap arr_vals) (strings_of_json arr up) (json_string_array arr up) h.
Proof.
  intros Hwf Hf. unfold json_string_array, strings_of_json.
  destruct (cJSON_IsArray arr) eqn:Ea; cbn [negb];
    [|apply builds_nothing; [done|]; unfold items_of; by rewrite Ea].
  destruct (Z.leb_spec (cJSON_GetArraySize arr) 0) as [Hz|Hpos].
  { apply builds_nothing; [done|]. rewrite items_of_empty; [done..|]. by apply Z.leb_le. }
  unfold items_of. rewrite Ea, (fits_size _ Hf) in *. set (items := cJSON_children arr) in *.
  unfold fits, INT_MAX in Hf. fold items in Hf.
  apply wp_bind. eapply wp_mono; [apply wp_calloc|]. intros [b|] h1 [Ho Hr]; cbn in Ho.
  2: { apply wp_ret. split; [done|]. intros H. destruct (Hr H) as [? [=]]. rewrite size_succ_id; lia. }
  clear Hr. apply wp_bind. rewrite filled_nil. eapply wp_mono.
  { apply (json_string_loop_builds items up []); [by eapply owns_wf|lia]. }
  intros [a i] h2 (l' & k' & -> & -> & Hk' & Ho' & Hr'). cbn [app].
  apply wp_bind. eapply wp_defined; [by apply write_filled_none|].
  pose proof (owns_block_last _ _ _ _ _ Ho Ho') as Ho2.
  destruct (Nat.eqb_spec (length l') 0) as [Hl|Hl].
  - apply nil_length_inv in Hl as ->. cbn in *. apply wp_bind.
    eapply wp_mono; [by eapply owns_free|]. intros [] h3 Ho3. apply wp_ret. split; [done|].
    intros H. by rewrite <- Hr' by (by eapply owns_reliable).
  - apply wp_bind. eapply wp_defined; [by apply until_empty_filled|]. apply wp_ret.
    split; [done|]. intros H. cbn. unfold arr_vals. cbn.
    rewrite <- Hr' by (by eapply owns_reliable). by destruct l'.
Qed.

(** The loop over the numbers, when they all convert. *)
Lemma json_int_loop_builds items l k zs h :
  length items < k -> mapM int_of_double (omap valuedouble items) = Some zs ->
  wp (json_int_loop items (filled l k) (length l))
    (fun '(a, n) h' => exists k', a = filled (l ++ zs) k' /\ n = length (l ++ zs) /\ 0 < k' /\ h' = h) h.
Proof.
  revert l k zs. induction items as [|item items IH]; intros l k zs Hk; cbn [json_int_loop].
  - intros [= <-]. apply wp_ret. exists k. rewrite app_nil_r. split_and!; [done..|lia|done].
  - cbn. cbn in Hk. destruct (valuedouble item) as [d|] eqn:Ed; [|apply IH; lia].
    cbn. destruct (int_of_double d) as [z|] eqn:Ez; cbn; [|done].
    destruct (mapM int_of_double (omap valuedouble items)) as [zs'|] eqn:Ezs; cbn; [|done].
    intros [= <-]. apply wp_bind. eapply wp_defined; [done|]. apply wp_bind.
    eapply wp_defined; [apply write_filled; [done|lia]|].
    replace (S (length l)) with (length (l ++ [z])) by (rewrite length_app; cbn; lia).
    eapply wp_mono; [apply IH; [lia|done]|].
    intros [a n] h' (k' & -> & -> & Hk' & ->). exists k'. by rewrite <- app_assoc.
Qed.

Lemma until_empty_ints (l : list Z) k :
  0 < k -> exists a', write_slot (filled l k) (length l) (Some (-1)%Z) = Some a' /\
    until_empty (take (length l) a' ++ [None]) = Some l.
Proof.
  intros Hk. eexists. split; [by apply write_filled|]. unfold filled.
  rewrite fmap_app, <- app_assoc, take_app_length' by (by rewrite length_fmap).
  apply (until_empty_filled l 1). lia.
Qed.

Lemma json_int_array_builds arr codes h :
  heap_wf h -> fits arr -> ints_of_json arr = Some codes ->
  builds ints_blks (fmap ma_elts) codes (json_int_array arr) h.
Proof.
  intros Hwf Hf. unfold json_int_array, ints_of_json.
  destruct (mapM _ _) as [zs|] eqn:Ezs; cbn; [|done]. intros [= <-].
  destruct (cJSON_IsArray arr) eqn:Ea; cbn [negb].
  2: { apply builds_nothing; [done|]. unfold items_of in Ezs. rewrite Ea in Ezs. by injection Ezs as <-. }
  destruct (Z.leb_spec (cJSON_GetArraySize arr) 0) as [Hz|Hpos].
  { apply builds_nothing; [done|]. rewrite items_of_empty in Ezs; [by injection Ezs as <-|done|].
    by apply Z.leb_le. }
  unfold items_of in Ezs. rewrite Ea in Ezs. rewrite (fits_size _ Hf) in *.
  set (items := cJSON_children arr) in *. clearbody items.
  apply wp_bind. eapply wp_mono; [apply wp_malloc|]. intros [b|] h1 [Ho Hr]; cbn in Ho.
  2: { apply wp_ret. split; [done|]. intros H. by destruct (Hr H) as [? [=]]. }
  apply wp_bind. rewrite filled_nil. eapply wp_mono.
  { apply (json_int_loop_builds items [] _ zs); [lia|done]. }
  intros [a n] h2 (k' & -> & -> & Hk' & ->). cbn [app].
  destruct (until_empty_ints zs k' Hk') as (a' & Ha' & Hu).
  apply wp_bind. eapply wp_defined; [done|].
  destruct (Nat.eqb_spec (length zs) 0) as [Hl|Hl].
  - apply nil_length_inv in Hl as ->. apply wp_bind.
    eapply wp_mono; [by eapply (owns_free h h1 b [])|]. intros [] h3 Ho3. by apply wp_ret.
  - apply wp_bind. eapply wp_defined; [done|]. apply wp_ret. split; [done|]. intros _. cbn.
    by destruct zs.
Qed.

(** Run a constructor in the middle of a computation started at [h0]. *)
Lemma builds_then {A V B} (blks : A -> list nat) (view : A -> V) v m (k : A -> M B) Q h0 h l :
  heap_wf h0 -> owns h0 h l -> (heap_wf h -> builds blks view v m h) ->
  (forall a h', owns h0 h' (l ++ blks a) -> (reliable h0 -> view a = v) -> wp (k a) Q h') ->
  wp (m ≫= k) Q h.
Proof.
  intros Hwf Ho Hm Hk. apply wp_bind. eapply wp_mono; [apply Hm; by eapply owns_wf|].
  intros a h' [Ho' Hv]. apply Hk; [by eapply owns_trans|]. intros Hr. apply Hv.
  by eapply owns_reliable.
Qed.

(** ** Sizes of the parts of a document *)

Definition small (item : cJSON) : Prop := (Z.of_nat (cJSON_nodes item) < INT_MAX)%Z.

Lemma list_sum_nodes {A} (f : A -> nat) (l : list A) x :
  x ∈ l -> f x <= list_sum (List.map f l).
Proof. unfold list_sum. induction 1; cbn; lia. Qed.

Lemma cJSON_nodes_pos item : 1 <= cJSON_nodes item.
Proof. destruct item; cbn; lia. Qed.

Lemma list_sum_length {A} (f : A -> nat) (l : list A) :
  (forall x, 1 <= f x) -> length l <= list_sum (List.map f l).
Proof.
  unfold list_sum. intros Hf. induction l as [|x l IH]; cbn; [lia|]. specialize (Hf x). lia.
Qed.

Lemma small_fits item : small item -> fits (Some item).
Proof.
  unfold small, fits.
  destruct item; cbn [cJSON_nodes cJSON_children length]; try (cbn; lia); intros H.
  - pose proof (list_sum_length cJSON_nodes child cJSON_nodes_pos). lia.
  - rewrite length_fmap.
    pose proof (list_sum_length (fun m => cJSON_nodes (snd m)) child (fun m => cJSON_nodes_pos _)).
    lia.
Qed.

Lemma fits_None : fits None.
Proof. done. Qed.

Lemma small_child item i : small item -> i ∈ cJSON_children (Some item) -> small i.
Proof.
  unfold small. destruct item as [| | | | |child|child]; cbn [cJSON_nodes cJSON_children];
    try set_solver; intros H Hi.
  - pose proof (list_sum_nodes cJSON_nodes child i Hi). lia.
  - apply list_elem_of_fmap in Hi as (m & -> & Hm).
    pose proof (list_sum_nodes (fun m => cJSON_nodes (snd m)) child m Hm). cbn in *. lia.
Qed.

Lemma find_member_child child name v : find_member child name = Some v -> v ∈ snd <$> child.
Proof.
  induction child as [|[s x] child IH]; cbn; [done|].
  destruct (strcmp_eq name (c_str s)); [intros [= ->]|intros ?%IH]; set_solver.
Qed.

(** Every object looked at while parsing a rule is small. *)
Definition small_opt (item : option cJSON) : Prop :=
  match item with Some i => small i | None => True end.

Lemma small_opt_fits item : small_opt item -> fits item.
Proof. destruct item; [apply small_fits|intros _; apply fits_None]. Qed.

Lemma small_opt_member obj name :
  small_opt obj -> small_opt (cJSON_GetObjectItemCaseSensitive obj name).
Proof.
  destruct obj as [[| | | | | |child]|]; try done. cbn. intros H.
  destruct (find_member child name) as [v|] eqn:E; cbn; [|done].
  apply (small_child (cJSON_Object child)); [done|]. by eapply find_member_child.
Qed.

Lemma small_match_clause robj : small robj -> small_opt (match_clause robj).
Proof.
  intros H. unfold match_clause. destruct (cJSON_IsObject _); [|done].
  by apply (small_opt_member (Some robj)).
Qed.

#[local] Hint Resolve small_opt_fits small_opt_member small_match_clause : cacher.

Lemma small_field robj name : small robj -> fits (member robj name).
Proof. intros H. apply small_opt_fits. by apply (small_opt_member (Some robj)). Qed.
#[local] Hint Resolve small_field : cacher.

(** ** Rules *)

Lemma dup_member_builds obj name h :
  builds str_blks (fmap ms_val) (string_of_member obj name) (dup_member obj name) h.
Proof.
  unfold dup_member, string_of_member.
  destruct (cJSON_GetObjectItemCaseSensitive obj name) as [item|]; [|by apply builds_nothing].
  apply cacher_strdup_builds.
Qed.

(** The conditional steps on the match clause are steps on [match_clause]. *)
Lemma match_clause_member robj name :
  (if cJSON_IsObject (member robj "match") then dup_member (member robj "match") name else mret None)
  = dup_member (match_clause robj) name.
Proof. unfold match_clause. by destruct (cJSON_IsObject _). Qed.

Lemma match_clause_array robj name up :
  (if cJSON_IsObject (member robj "match")
   then json_string_array (cJSON_GetObjectItemCaseSensitive (member robj "match") name) up
   else mret None)
  = json_string_array (cJSON_GetObjectItemCaseSensitive (match_clause robj) name) up.
Proof. unfold match_clause. by destruct (cJSON_IsObject _). Qed.

Lemma default_status_codes_builds codes l0 h0 h v :
  heap_wf h0 -> owns h0 h (l0 ++ ints_blks codes) -> (reliable h0 -> ma_elts <$> codes = v) ->
  wp (default_status_codes codes) (fun codes' h' => owns h0 h' (l0 ++ ints_blks codes') /\
       (reliable h0 -> ma_elts <$> codes' = Some (default [200%Z] v))) h.
Proof.
  intros Hwf Ho Hv. destruct codes as [a|]; cbn [default_status_codes].
  - apply wp_ret. split; [done|]. intros H. by rewrite <- (Hv H).
  - apply wp_bind. eapply wp_mono; [apply wp_malloc|]. intros b h' [Ho' Hr]. apply wp_ret.
    split.
    + rewrite app_nil_r in Ho. pose proof (owns_trans _ _ _ _ _ Ho Ho') as H. by destruct b.
    + intros H. rewrite <- (Hv H). destruct Hr as [x ->]; [by eapply owns_reliable|]. done.
Qed.

Definition opt_rule_blks (r : option cacher_rule) : list nat :=
  match r with Some r => rule_blks r | None => [] end.

Lemma parse_ttl_run ttl z h Q :
  ttl_of_json ttl = Some z -> Q z h -> wp (parse_ttl ttl) Q h.
Proof.
  unfold ttl_of_json, parse_ttl. destruct (ttl ≫= valuedouble) as [d|].
  - intros E HQ. by eapply wp_defined.
  - by intros [= ->].
Qed.

Lemma parse_rule_builds robj v h :
  heap_wf h -> small robj -> rule_of_json robj = Some v ->
  builds opt_rule_blks (fmap view_rule) (Some v) (parse_rule robj) h.
Proof.
  intros Hwf Hs. unfold rule_of_json.
  destruct (ttl_of_json _) as [ttl|] eqn:Ettl; cbn; [|done].
  destruct (ints_of_json _) as [codes|] eqn:Ecodes; cbn; [|done]. intros [= <-].
  unfold parse_rule. fold (member robj "match") (member robj "ttl") (member robj "status_codes")
    (member robj "content_types") (member robj "bypass_cookies") (member robj "vary")
    (member robj "enabled").
  rewrite !match_clause_member, !match_clause_array.
  apply wp_bind. eapply wp_mono; [apply wp_malloc|]. intros [b|] h1 [Ho Hr]; cbn in Ho.
  2: { apply wp_ret. split; [done|]. intros H. by destruct (Hr H) as [? [=]]. }
  clear Hr.
  eapply builds_then; [done|exact Ho|intros _; apply dup_member_builds|]. clear dependent h1.
  intros p h2 Ho Hp.
  eapply builds_then; [done|exact Ho|intros _; apply dup_member_builds|]. clear dependent h2.
  intros q h3 Ho Hq.
  eapply builds_then; [done|exact Ho|intros ?; apply json_string_array_builds; auto with cacher|].
  clear dependent h3. intros ms h4 Ho Hm.
  apply wp_bind. eapply parse_ttl_run; [done|].
  eapply builds_then; [done|exact Ho|intros ?; apply json_int_array_builds; auto with cacher; done|].
  clear dependent h4. intros cs h5 Ho Hc.
  apply wp_bind. eapply wp_mono; [by apply default_status_codes_builds|].
  clear dependent h5. clear Hc. intros cs' h6 [Ho Hc].
  eapply builds_then; [done|exact Ho|intros ?; apply json_string_array_builds; auto with cacher|].
  clear dependent h6. intros ts h7 Ho Ht.
  eapply builds_then; [done|exact Ho|intros ?; apply json_string_array_builds; auto with cacher|].
  clear dependent h7. intros bs h8 Ho Hb.
  eapply builds_then; [done|exact Ho|intros ?; apply json_string_array_builds; auto with cacher|].
  clear dependent h8. intros vs h9 Ho Hv.
  apply wp_ret. split.
  - eapply owns_perm; [|exact Ho]. cbn. unfold rule_blks. cbn. solve_Permutation.
  - intros H. cbn. unfold view_rule. cbn.
    by rewrite Hp, Hq, Hm, Hc, Ht, Hb, Hv.
Qed.

Lemma rules_of_items_cons item items :
  rules_of_items (item :: items) =
    if is_object item
    then v ← rule_of_json item; vs ← rules_of_items items; Some (v :: vs)
    else rules_of_items items.
Proof. unfold rules_of_items. cbn [List.filter]. by destruct (is_object item). Qed.

Lemma parse_rules_loop_builds items l k vs h :
  heap_wf h -> length items < k -> Forall small items -> rules_of_items items = Some vs ->
  wp (parse_rules_loop items (filled l k) (length l))
    (fun '(a, i) h' => exists l' k', a = filled (l ++ l') k' /\ i = length (l ++ l') /\ 0 < k' /\
       owns h h' (rules_blks l') /\ (reliable h -> view_rule <$> l' = vs)) h.
Proof.
  revert l k vs h. induction items as [|item items IH]; intros l k vs h Hwf Hk Hs;
    cbn [parse_rules_loop].
  - intros [= <-]. apply wp_ret. exists [], k. rewrite app_nil_r.
    split_and!; [done..|lia|apply owns_nil|done].
  - cbn in Hk. apply Forall_cons in Hs as [Hi Hs]. rewrite rules_of_items_cons.
    unfold is_object. destruct (cJSON_IsObject (Some item)) eqn:Eo; cbn [negb];
      [|apply IH; [done|lia|done]].
    destruct (rule_of_json item) as [v|] eqn:Ev; cbn; [|done].
    destruct (rules_of_items items) as [vs'|] eqn:Evs; cbn; [|done].
    intros [= <-]. apply wp_bind. eapply wp_mono; [by apply parse_rule_builds|].
    intros r h1 [Ho Hv]. destruct r as [r|].
    + apply wp_bind. eapply wp_defined; [apply write_filled; [done|lia]|].
      replace (S (length l)) with (length (l ++ [r])) by (rewrite length_app; cbn; lia).
      eapply wp_mono; [apply IH; [by eapply owns_wf|lia|done|done]|].
      intros [a i] h2 (l' & k' & -> & -> & Hk' & Ho' & Hv').
      exists (r :: l'), k'. rewrite <- app_assoc. split_and!; [done..| |].
      * by apply (owns_trans h h1 h2 (rule_blks r)).
      * intros H. cbn. rewrite Hv' by (by eapply owns_reliable). specialize (Hv H).
        by injection Hv as ->.
    + eapply wp_mono; [apply IH; [by eapply owns_wf|lia|done|done]|].
      intros [a i] h2 (l' & k' & -> & -> & Hk' & Ho' & Hv').
      exists l', k'. split_and!; [done..|by apply (owns_trans h h1 h2 [])|].
      intros H. by specialize (Hv H).
Qed.

(** ** Documents *)

Definition opt_ruleset_blks (rs : option cacher_ruleset) : list nat :=
  match rs with Some rs => ruleset_blks rs | None => [] end.

Lemma owns_free_last h h1 b l :
  heap_wf h -> owns h h1 (l ++ [b]) -> wp (free b) (fun _ h2 => owns h h2 l) h1.
Proof.
  intros Hwf Ho. apply owns_free; [done|]. eapply owns_perm; [|exact Ho].
  by rewrite Permutation_app_comm.
Qed.

Lemma owns_delete h h1 root : heap_wf h -> owns h h1 (nodes_blks [root]) ->
  wp (cJSON_Delete [root]) (fun _ h2 => owns h h2 []) h1.
Proof. intros Hwf Ho. eapply owns_frees; [done|by rewrite app_nil_r|apply cJSON_Delete_frees]. Qed.

Lemma fill_ruleset_builds arr root rs vs h0 h :
  heap_wf h0 -> owns h0 h (nodes_blks [root] ++ [rs]) -> fits arr -> Forall small (cJSON_children arr) ->
  rules_of_items (cJSON_children arr) = Some vs ->
  wp (fill_ruleset arr root rs) (fun r h' => owns h0 h' (opt_ruleset_blks r) /\
        (reliable h0 -> r ≫= view_ruleset = Some vs)) h.
Proof.
  intros Hwf Ho Hf Hs Hvs. unfold fill_ruleset. rewrite (fits_size _ Hf).
  unfold fits, INT_MAX in Hf.
  apply wp_bind. eapply wp_mono; [apply wp_calloc|]. intros [b|] h1 [Ho1 Hr]; cbn in Ho1.
  - clear Hr. apply wp_bind. rewrite filled_nil. eapply wp_mono.
    { apply (parse_rules_loop_builds _ []); [|lia|done|done].
      eapply owns_wf; [|exact Ho1]. by eapply owns_wf. }
    intros [a i] h2 (l' & k' & -> & -> & Hk' & Ho2 & Hv). cbn [app].
    apply wp_bind. eapply wp_defined; [by apply write_filled_none|].
    apply wp_bind. eapply wp_defined; [by apply until_empty_filled|].
    pose proof (owns_trans _ _ _ _ _ Ho (owns_block_last _ _ _ _ _ Ho1 Ho2)) as Ho3.
    rewrite <- app_assoc in Ho3. apply wp_bind. eapply wp_mono; [by eapply owns_frees, cJSON_Delete_frees|].
    intros [] h3 Ho4. apply wp_ret. split.
    + eapply owns_perm; [|exact Ho4]. cbn. unfold ruleset_blks. cbn. solve_Permutation.
    + intros H. cbn. f_equal. apply Hv. eapply owns_reliable; [exact Ho1|].
      by eapply owns_reliable.
  - pose proof (owns_trans _ _ _ _ _ Ho Ho1) as Ho2.
    rewrite app_nil_r in Ho2. apply wp_bind. eapply wp_mono; [by apply owns_free_last|]. intros [] h2 Ho3.
    apply wp_bind. eapply wp_mono; [by apply owns_delete|]. intros [] h3 Ho4.
    apply wp_ret. split; [done|]. intros H. destruct Hr as [? [=]].
    + by eapply owns_reliable.
    + rewrite size_succ_id; lia.
Qed.

(** The rules of a document: [Some None] when it is rejected, [None] when a
    number of it cannot be converted. *)
Definition rules_of_document (json : cstr) : option (option (list arule)) :=
  match cJSON_Parse json with
  | POk item _ =>
      let rules_arr := member item "rules" in
      if cJSON_IsArray rules_arr then Some <$> rules_of_items (cJSON_children rules_arr)
      else Some None
  | _ => Some None
  end.

Lemma small_children arr : small_opt arr -> Forall small (cJSON_children arr).
Proof.
  destruct arr as [a|]; cbn; [|constructor]. intros H. apply Forall_forall.
  intros i Hi. by eapply small_child.
Qed.

(** What an error says of the text it is an error of. *)
Definition error_of (json : cstr) (rs : option cacher_ruleset) (e : parse_error) : Prop :=
  match e with
  | NO_MESSAGE => True
  | SYNTAX position => rs = None /\ position <= length json
  | NO_JSON => False
  | NO_RULES => rs = None
  end.

(** The place of a syntax error is in the text. *)
Lemma parse_ruleset_position json h rs position h' :
  parse_ruleset (Some json) h = Some ((rs, SYNTAX position), h') -> position <= length json.
Proof.
  unfold parse_ruleset, mbind at 1, M_bind at 1.
  destruct (cJSON_Parse_alloc json h) as [[[root|p] h1]|] eqn:E; [|intros [= _ <- _]; by eapply cJSON_Parse_position|done].
  cbv zeta. destruct (negb _); unfold mbind at 1, M_bind at 1.
  - by destruct (cJSON_Delete [root] h1) as [[[] h2]|].
  - destruct (malloc h1) as [[[b|] h2]|]; [| |done]; unfold mbind, M_bind.
    + by destruct (fill_ruleset _ root b h2) as [[r h3]|].
    + by destruct (cJSON_Delete [root] h2) as [[[] h3]|].
Qed.

Lemma parse_ruleset_builds json vs h :
  heap_wf h -> (Z.of_nat (length json) < INT_MAX)%Z -> rules_of_document json = Some vs ->
  wp (parse_ruleset (Some json))
    (fun '(rs, e) h' => owns h h' (opt_ruleset_blks rs) /\ (reliable h -> rs ≫= view_ruleset = vs) /\
       error_of json rs e /\ (vs = None -> e <> NO_MESSAGE) /\
       (forall position, reliable h -> e = SYNTAX position ->
          exists b, cJSON_Parse json = PErr b /\ position = error_position b)) h.
Proof.
  intros Hwf Hlen. unfold rules_of_document, parse_ruleset.
  pose proof (cJSON_Parse_outcome json) as Hp. intros Hvs.
  apply wp_bind. eapply wp_mono.
  { eapply (wp_fact _ _ (fun res => forall p, res = inr p -> p <= length json)); [by apply cJSON_Parse_parsed|].
    intros res h' E p ->. by eapply cJSON_Parse_position. }
  intros [root|position] h1 [Hparsed Hpos]; cbn [parsed] in Hparsed.
  2: { destruct Hparsed as [Ho Hr]. apply wp_ret. split_and!; [done| |split; [done|by apply Hpos]|done|].
       - intros H. destruct (Hr H) as (b & E & _). rewrite E in Hvs. by injection Hvs as <-.
       - intros p H [= <-]. exact (Hr H). }
  destruct Hparsed as [[b E] Ho]. rewrite E in Hp, Hvs. destruct Hp as [_ Hn].
  assert (small (view_node root)) as Hs by (unfold small; lia). fold (member (view_node root) "rules").
  destruct (cJSON_IsArray (member (view_node root) "rules")) eqn:Ea; cbn [negb].
  2: { injection Hvs as <-. apply wp_bind. eapply wp_mono; [by apply owns_delete|].
       intros [] h2 Ho2. by apply wp_ret. }
  destruct (rules_of_items _) as [l|] eqn:El; [|done]. injection Hvs as <-.
  apply wp_bind. eapply wp_mono; [apply wp_malloc|]. intros [rs|] h2 [Ho2 Hr]; cbn [option_list] in Ho2;
    pose proof (owns_trans _ _ _ _ _ Ho Ho2) as Ho3.
  - apply wp_bind. eapply wp_mono.
    + apply (fill_ruleset_builds _ root rs l h); [done..|by apply small_field| |done].
      apply small_children, (small_opt_member (Some (view_node root))). done.
    + intros r h3 [Hr3 Hr4]. by apply wp_ret.
  - rewrite app_nil_r in Ho3. apply wp_bind. eapply wp_mono; [by apply owns_delete|].
    intros [] h3 Ho4. apply wp_ret. split_and!; [done| |done..]. intros H.
    destruct Hr as [? [=]]. by eapply owns_reliable.
Qed.

Lemma cacher_ruleset_parse_builds json errbuf_len vs h :
  heap_wf h -> (Z.of_nat (length json) < INT_MAX)%Z -> rules_of_document json = Some vs ->
  wp (cacher_ruleset_parse (Some json) errbuf_len)
    (fun '(rs, err) h' => owns h h' (opt_ruleset_blks rs) /\ (reliable h -> rs ≫= view_ruleset = vs) /\
       (vs = None -> exists msg, err = write_error errbuf_len msg)) h.
Proof.
  intros Hwf Hlen Hvs. apply wp_bind. eapply wp_mono; [by apply parse_ruleset_builds|].
  intros [rs e] h' (Ho & Hv & He & Hn & _). apply wp_ret. split_and!; [done..|]. intros ->.
  specialize (Hn eq_refl). destruct e; try done; by eexists.
Qed.

(** ** Properties *)

(** C9: parsing a document whose numbers all convert is defined whatever
    allocations fail (no write out of an array, no invalid free); when none
    fails, the rule set is the one the document stands for: NULL exactly for a
    syntax error or a missing "rules" array, and otherwise the objects of the
    array in order, each with the defaults of the source.  In every case exactly
    the blocks of the result are in use afterwards that were not before, and all
    that were still are. *)
Theorem cacher_ruleset_parse_correct json errbuf_len vs h :
  heap_wf h -> (Z.of_nat (length json) < INT_MAX)%Z -> rules_of_document json = Some vs ->
  exists rs err h', cacher_ruleset_parse (Some json) errbuf_len h = Some ((rs, err), h') /\
    (reliable h -> rs ≫= view_ruleset = vs) /\
    NoDup (opt_ruleset_blks rs) /\ list_to_set (opt_ruleset_blks rs) ## h_live h /\
    h_live h' = h_live h ∪ list_to_set (opt_ruleset_blks rs).
Proof.
  intros Hwf Hl Hvs.
  destruct (wp_run _ _ _ (cacher_ruleset_parse_builds json errbuf_len vs h Hwf Hl Hvs))
    as ([rs err] & h' & E & Ho & Hv & _).
  exists rs, err, h'. split_and!; [done..|apply Ho| |by rewrite (own_live _ _ _ Ho)].
  by eapply owns_disjoint.
Qed.

(** A heap on which every allocation succeeds. *)
Definition fresh_heap : heap := Heap 0 ∅ (fun _ => true).

Lemma fresh_heap_wf : heap_wf fresh_heap.
Proof. intros b. cbn. set_solver. Qed.

Definition sample_rules : cstr := json_text
  "{'rules':[{'match':{'path':'/admin/*'},'enabled':false},{'ttl':10,'bypass_cookies':['sid']}]}".

Lemma cacher_ruleset_parse_correct_witness :
  exists rs err h', cacher_ruleset_parse (Some sample_rules) (Some 128) fresh_heap = Some ((rs, err), h') /\
    (reliable fresh_heap -> rs ≫= view_ruleset = Some
       [ARule (Some (str "/admin/*")) None None 0 0 (Some [200%Z]) None None None;
        ARule None None None 1 10 (Some [200%Z]) None (Some [str "sid"]) None]) /\
    NoDup (opt_ruleset_blks rs) /\ list_to_set (opt_ruleset_blks rs) ## h_live fresh_heap /\
    h_live h' = h_live fresh_heap ∪ list_to_set (opt_ruleset_blks rs).
Proof.
  apply cacher_ruleset_parse_correct; [apply fresh_heap_wf|reflexivity|vm_compute; reflexivity].
Defined.

(** C22: parsing allocates exactly the blocks of the rule set it returns (none
    when it returns NULL, also when an allocation failed half-way), and
    [cacher_ruleset_free] releases each of them once: the heap is as before. *)
Theorem cacher_ruleset_free_restores json errbuf_len vs h :
  heap_wf h -> (Z.of_nat (length json) < INT_MAX)%Z -> rules_of_document json = Some vs ->
  exists rs err h' h'', cacher_ruleset_parse (Some json) errbuf_len h = Some ((rs, err), h') /\
    (rs = None -> h_live h' = h_live h) /\
    cacher_ruleset_free rs h' = Some (tt, h'') /\ h_live h'' = h_live h.
Proof.
  intros Hwf Hl Hvs.
  destruct (wp_run _ _ _ (cacher_ruleset_parse_builds json errbuf_len vs h Hwf Hl Hvs))
    as ([rs err] & h' & E & Ho & _ & _).
  assert (frees (cacher_ruleset_free rs) (opt_ruleset_blks rs)) as Hf
    by (destruct rs; [apply cacher_ruleset_free_frees|apply frees_ret]).
  destruct (wp_run _ _ _ (frees_owned _ _ _ _ Hwf Ho Hf)) as ([] & h'' & E' & Hlive).
  exists rs, err, h', h''. split_and!; [done| |done..].
  intros ->. rewrite (own_live _ _ _ Ho). set_solver.
Qed.

Lemma cacher_ruleset_free_restores_witness :
  exists rs err h' h'', cacher_ruleset_parse (Some sample_rules) None fresh_heap = Some ((rs, err), h') /\
    (rs = None -> h_live h' = h_live fresh_heap) /\
    cacher_ruleset_free rs h' = Some (tt, h'') /\ h_live h'' = h_live fresh_heap.
Proof.
  eapply cacher_ruleset_free_restores; [apply fresh_heap_wf|reflexivity|vm_compute; reflexivity].
Defined.

(** *** Numbers that cannot be converted *)

Lemma undef_call {A B} (m : M A) (k : A -> M B) h : m h = None -> (m ≫= k) h = None.
Proof. unfold mbind, M_bind. by intros ->. Qed.

Lemma undef_bind {A B} (m : M A) (k : A -> M B) h : wp m (fun a h' => k a h' = None) h -> (m ≫= k) h = None.
Proof. unfold wp, mbind, M_bind. by destruct (m h) as [[a h']|]. Qed.

Lemma undef_defined {A B} (o : option A) (k : A -> M B) h :
  (forall a, k a h = None) -> (defined o ≫= k) h = None.
Proof. intros Hk. destruct o as [a|]; [|done]. exact (Hk a). Qed.

Lemma undef_malloc {B} (k : option nat -> M B) h :
  heap_wf h -> reliable h ->
  (forall b h', heap_wf h' -> reliable h' -> k (Some b) h' = None) -> (malloc ≫= k) h = None.
Proof.
  intros Hwf Hr Hk. apply undef_bind. eapply wp_mono; [apply wp_malloc|]. intros r h' [Ho Hs].
  destruct (Hs Hr) as [b ->]. apply Hk; [by eapply owns_wf|by eapply owns_reliable].
Qed.

Lemma undef_builds {A V B} (blks : A -> list nat) (view : A -> V) v m (k : A -> M B) h :
  heap_wf h -> reliable h -> builds blks view v m h ->
  (forall a h', heap_wf h' -> reliable h' -> view a = v -> k a h' = None) -> (m ≫= k) h = None.
Proof.
  intros Hwf Hr Hm Hk. apply undef_bind. eapply wp_mono; [exact Hm|]. intros a h' [Ho Hv].
  apply Hk; [by eapply owns_wf|by eapply owns_reliable|auto].
Qed.

Lemma json_int_loop_undef items out n h :
  mapM int_of_double (omap valuedouble items) = None -> json_int_loop items out n h = None.
Proof.
  revert out n h. induction items as [|item items IH]; intros out n h; cbn [json_int_loop]; [done|].
  cbn. destruct (valuedouble item) as [d|]; [|apply IH]. cbn.
  destruct (int_of_double d) as [z|]; [|intros _; by apply undef_call].
  destruct (mapM int_of_double (omap valuedouble items)) eqn:E; [done|]. intros _.
  apply undef_defined. intros z'. apply undef_defined. intros out'. by apply IH.
Qed.

Lemma json_int_array_undef arr h :
  heap_wf h -> reliable h -> fits arr -> ints_of_json arr = None -> json_int_array arr h = None.
Proof.
  intros Hwf Hr Hf. unfold ints_of_json, json_int_array. destruct (mapM _ _) eqn:E; [done|]. intros _.
  destruct (Z.leb_spec (cJSON_GetArraySize arr) 0) as [Hz%Z.leb_le|_].
  { by rewrite (items_of_empty _ Hf Hz) in E. }
  unfold items_of in E. destruct (cJSON_IsArray arr); [|done]. cbn [negb].
  apply undef_malloc; [done..|]. intros b h' _ _. by apply undef_call, json_int_loop_undef.
Qed.

Lemma parse_rule_undef robj h :
  heap_wf h -> reliable h -> small robj -> rule_of_json robj = None -> parse_rule robj h = None.
Proof.
  intros Hwf Hr Hs Hrule. unfold parse_rule. fold (member robj "match") (member robj "ttl") (member robj "status_codes").
  rewrite !match_clause_member, match_clause_array. apply undef_malloc; [done..|]. clear Hwf Hr h. intros b h Hwf Hr. cbv zeta.
  eapply undef_builds; [done..|apply dup_member_builds|]. clear Hwf Hr h. intros p h Hwf Hr _.
  eapply undef_builds; [done..|apply dup_member_builds|]. clear Hwf Hr h. intros q h Hwf Hr _.
  eapply undef_builds; [done..|apply json_string_array_builds; auto with cacher|]. clear Hwf Hr h. intros ms h Hwf Hr _.
  unfold rule_of_json in Hrule. unfold ttl_of_json in Hrule. unfold parse_ttl.
  destruct (member robj "ttl" ≫= valuedouble) as [d|].
  - destruct (long_of_double d) as [z|]; [|by apply undef_call]. cbn in Hrule.
    destruct (ints_of_json _) eqn:E; [done|].
    apply undef_bind, (wp_defined _ z); [done|]. apply undef_call, json_int_array_undef; auto with cacher.
  - cbn in Hrule. destruct (ints_of_json _) eqn:E; [done|].
    apply undef_bind, wp_ret. apply undef_call, json_int_array_undef; auto with cacher.
Qed.

Lemma parse_rules_loop_undef items out i h :
  heap_wf h -> reliable h -> Forall small items -> rules_of_items items = None ->
  parse_rules_loop items out i h = None.
Proof.
  revert out i h. induction items as [|item items IH]; intros out i h Hwf Hr; [done|].
  intros [Hi Hs]%Forall_cons. rewrite rules_of_items_cons. cbn [parse_rules_loop]. unfold is_object.
  destruct (cJSON_IsObject (Some item)); cbn [negb]; [|by apply IH].
  destruct (rule_of_json item) as [v|] eqn:Ev; cbn [mbind option_bind].
  - destruct (rules_of_items items) as [vs|] eqn:Evs; [done|]. intros _.
    eapply undef_builds; [done..|by eapply parse_rule_builds|]. intros r h' Hwf' Hr' Hv.
    destruct r as [r|]; [|by apply IH]. apply undef_defined. intros out'. by apply IH.
  - intros _. by apply undef_call, parse_rule_undef.
Qed.

Lemma parse_ruleset_undef json h :
  heap_wf h -> reliable h -> (Z.of_nat (length json) < INT_MAX)%Z -> rules_of_document json = None ->
  parse_ruleset (Some json) h = None.
Proof.
  intros Hwf Hr Hlen. unfold rules_of_document, parse_ruleset. pose proof (cJSON_Parse_outcome json) as Hp. intros Hvs.
  apply undef_bind. eapply wp_mono; [by apply cJSON_Parse_parsed|]. intros [root|position] h1; cbn [parsed].
  2: { intros [_ He]. destruct (He Hr) as (b & E & _). by rewrite E in Hvs. }
  intros [[b E] Ho]. rewrite E in Hp, Hvs. destruct Hp as [_ Hn].
  assert (small (view_node root)) as Hs by (unfold small; lia). fold (member (view_node root) "rules").
  destruct (cJSON_IsArray (member (view_node root) "rules")); cbn [negb]; [|done].
  destruct (rules_of_items _) as [l|] eqn:El; [done|].
  apply undef_malloc; [by eapply owns_wf|by eapply owns_reliable|]. intros rs h2 Hwf2 Hr2.
  apply undef_call. unfold fill_ruleset. pose proof (small_field (view_node root) "rules" Hs) as Hf.
  rewrite (fits_size _ Hf). unfold fits, INT_MAX in Hf.
  apply undef_bind. eapply wp_mono; [apply wp_calloc|]. intros [out|] h3 [Ho3 Hr3]; cbn in Ho3.
  - apply undef_call, parse_rules_loop_undef; [by eapply owns_wf|by eapply owns_reliable| |done].
    apply small_children, (small_opt_member (Some (view_node root))). done.
  - destruct (Hr3 Hr2) as [? [=]]. rewrite size_succ_id; lia.
Qed.

(** A rule with a lifetime that does not fit a [long] or a status code that does
    not fit an [int]. *)
Definition unfit (robj : cJSON) : Prop :=
  (exists d, member robj "ttl" ≫= valuedouble = Some d /\ long_of_double d = None) \/
  (exists code d, code ∈ items_of (member robj "status_codes") /\ valuedouble code = Some d /\ int_of_double d = None).

Lemma rule_of_json_unfit robj : rule_of_json robj = None <-> unfit robj.
Proof.
  unfold rule_of_json, unfit, ttl_of_json, ints_of_json. split.
  - destruct (member robj "ttl" ≫= valuedouble) as [d|]; [destruct (long_of_double d) eqn:Ed; [|by left; exists d]|];
      cbn; (destruct (mapM _ _) eqn:E; [done|]); intros _; right;
      apply mapM_None_1, Exists_exists in E as (c & (code & Hc & Hv)%list_elem_of_omap & Hd); eauto.
  - intros [(d & -> & ->)|(code & d & Hc & Hv & Hd)]; [done|].
    assert (mapM int_of_double (omap valuedouble (items_of (member robj "status_codes"))) = None) as ->.
    { apply mapM_None_2, Exists_exists. exists d. split; [|done]. apply list_elem_of_omap. eauto. }
    by destruct (match _ with Some d => long_of_double d | None => Some 0%Z end).
Qed.

Lemma rules_of_document_unfit json :
  rules_of_document json = None <->
  exists item b robj, cJSON_Parse json = POk item b /\ cJSON_IsArray (member item "rules") = true /\
    robj ∈ cJSON_children (member item "rules") /\ is_object robj = true /\ unfit robj.
Proof.
  unfold rules_of_document. split.
  - destruct (cJSON_Parse json) as [item b| | |]; try done.
    destruct (cJSON_IsArray (member item "rules")) eqn:Ea; [|done].
    unfold rules_of_items. destruct (mapM _ _) eqn:E; [done|]. intros _.
    apply mapM_None_1, Exists_exists in E as (robj & Hin & Hu%rule_of_json_unfit).
    apply list_elem_of_In, List.filter_In in Hin as [Hin Ho]. apply list_elem_of_In in Hin.
    by exists item, b, robj.
  - intros (item & b & robj & -> & -> & Hin & Ho & Hu%rule_of_json_unfit). unfold rules_of_items.
    assert (mapM rule_of_json (List.filter is_object (cJSON_children (member item "rules"))) = None) as ->; [|done].
    apply mapM_None_2, Exists_exists. exists robj. split; [|done].
    apply list_elem_of_In, List.filter_In. by rewrite <- list_elem_of_In.
Qed.

(** C33: when memory does not run out, parsing a document is undefined exactly
    when a rule object of it has a lifetime that does not fit a [long] or, at
    any place of its list, a status code that does not fit an [int]: the
    conversions [(long) ttl->valuedouble] and [(int) item->valuedouble] are not
    guarded. *)
Theorem number_overflow_undefined json errbuf_len h :
  heap_wf h -> reliable h -> (Z.of_nat (length json) < INT_MAX)%Z ->
  cacher_ruleset_parse (Some json) errbuf_len h = None <->
  exists item b robj, cJSON_Parse json = POk item b /\ cJSON_IsArray (member item "rules") = true /\
    robj ∈ cJSON_children (member item "rules") /\ is_object robj = true /\ unfit robj.
Proof.
  intros Hwf Hr Hl. rewrite <- rules_of_document_unfit. split.
  - intros E. destruct (rules_of_document json) as [vs|] eqn:Hvs; [|done].
    destruct (wp_run _ _ _ (cacher_ruleset_parse_builds json errbuf_len vs h Hwf Hl Hvs)) as (r & h' & E' & _).
    congruence.
  - intros Hvs. by apply undef_call, parse_ruleset_undef.
Qed.

Definition unfit_rules : cstr := json_text "{'rules':[{},{'status_codes':[200,1e10,404]}]}".

Lemma unfit_rules_undefined : cacher_ruleset_parse (Some unfit_rules) None fresh_heap = None.
Proof. vm_compute. reflexivity. Qed.

Lemma number_overflow_undefined_witness :
  cacher_ruleset_parse (Some unfit_rules) None fresh_heap = None /\
  exists item b robj, cJSON_Parse unfit_rules = POk item b /\ cJSON_IsArray (member item "rules") = true /\
    robj ∈ cJSON_children (member item "rules") /\ is_object robj = true /\ unfit robj.
Proof.
  split; [exact unfit_rules_undefined|]. apply (number_overflow_undefined unfit_rules None fresh_heap);
    [apply fresh_heap_wf|intros n; reflexivity|reflexivity|exact unfit_rules_undefined].
Defined.
