(* ===== verification/RulesMatch.v ===== *)
(** * Which rule decides a request

    The queries of Rules.v against their meaning on abstract rules: first match
    wins (exclusions included), globs as languages, methods up to case, status
    codes as a set, content types up to parameters. *)

From S2P Require Import Prelude CNum CHeap CJson Glob Rules RulesParse.
From Stdlib Require Import Lia.
Local Open Scope cstr_scope.

(** ** The comparison of methods *)

Lemma cacher_strcasecmp_spec a b :
  no_nul a -> no_nul b -> cacher_strcasecmp a b = 0%Z <-> ci_eq a b.
Proof.
  unfold no_nul, ci_eq. revert b. induction a as [|c a IH]; intros [|d b] Ha Hb; cbn.
  - done.
  - pose proof (uchar_pos d ltac:(set_solver)). split; [lia|done].
  - pose proof (uchar_pos c ltac:(set_solver)). split; [lia|done].
  - destruct (Z.eqb_spec (uchar (tolower c)) (uchar (tolower d))) as [E%uchar_inj|E].
    + rewrite IH by set_solver. rewrite E. split; [by intros ->|by intros [= ->]].
    + split; [lia|]. intros [= E' _]. by rewrite E' in E.
Qed.

(** ** Matching *)

(** A pattern that is absent matches everything. *)
Definition glob_opt (pat : option cstr) (v : cstr) : Prop :=
  match pat with Some pat => glob_lang false pat v | None => True end.

Definition method_allowed (ms : option (list cstr)) (m : option cstr) : Prop :=
  match ms with
  | None => True
  | Some ms => exists m' x, m = Some m' /\ x ∈ ms /\ ci_eq x m'
  end.

(** What the match clause of a rule says of a request. *)
Definition arule_matches (r : arule) (p q m : option cstr) : Prop :=
  glob_opt (a_path r) (default [] p) /\ glob_opt (a_query r) (default [] q) /\
  method_allowed (a_methods r) m.

Lemma glob_opt_spec (pat : option mstr) v :
  STAR ∉ v ->
  match pat with
  | Some pat => cacher_glob_match (Some (ms_val pat)) (Some v) false
  | None => true
  end = true <-> glob_opt (ms_val <$> pat) v.
Proof. intros Hv. destruct pat as [pat|]; [by apply glob_match_iff|done]. Qed.

Lemma existsb_exists' {A} (f : A -> bool) l : existsb f l = true <-> exists x, x ∈ l /\ f x = true.
Proof.
  induction l as [|y l IH]; cbn; [set_solver|]. rewrite orb_true_iff, IH. set_solver.
Qed.

(** The methods of a rule hold no NUL. *)
Definition methods_c_strings (r : cacher_rule) : Prop :=
  match methods r with Some a => Forall no_nul (arr_vals a) | None => True end.

Lemma methods_spec ms m :
  match ms with Some a => Forall no_nul (arr_vals a) | None => True end ->
  no_nul (default [] m) ->
  match ms with
  | Some a => existsb (fun x => match m with
                                | Some m => (cacher_strcasecmp x m =? 0)%Z
                                | None => false
                                end) (arr_vals a)
  | None => true
  end = true <-> method_allowed (arr_vals <$> ms) m.
Proof.
  intros Hms Hm. destruct ms as [a|]; [|done]. rewrite Forall_forall in Hms.
  rewrite existsb_exists'. cbn. destruct m as [m|]; [|naive_solver]. split.
  - intros (x & Hx & E%Z.eqb_eq). exists m, x. split_and!; [done..|].
    by apply cacher_strcasecmp_spec; [apply Hms| |].
  - intros (m' & x & [= <-] & Hx & E). exists x. split; [done|]. apply Z.eqb_eq.
    by apply cacher_strcasecmp_spec; [apply Hms| |].
Qed.

Lemma rule_matches_spec r p q m :
  methods_c_strings r -> STAR ∉ default [] p -> STAR ∉ default [] q -> no_nul (default [] m) ->
  rule_matches r p q m = true <-> arule_matches (view_rule r) p q m.
Proof.
  intros Hms Hp Hq Hm. unfold rule_matches, arule_matches.
  rewrite !andb_true_iff, !glob_opt_spec, methods_spec by done. cbn. tauto.
Qed.

Lemma match_loop_spec rs p q m r :
  match_loop rs p q m = Some r <->
  exists pre post, rs = pre ++ r :: post /\ rule_matches r p q m = true /\
    Forall (fun r' => rule_matches r' p q m = false) pre.
Proof.
  induction rs as [|r0 rs IH]; cbn.
  - split; [done|]. intros ([|??] & ? & ? & _); done.
  - destruct (rule_matches r0 p q m) eqn:E.
    + split.
      * intros [= ->]. by exists [], rs.
      * intros ([|r1 pre] & post & [= -> ->] & Hr & Hpre); [done|].
        apply Forall_cons in Hpre as [? _]. congruence.
    + rewrite IH. split.
      * intros (pre & post & -> & Hr & Hpre). exists (r0 :: pre), post.
        split_and!; [done..|by constructor].
      * intros ([|r1 pre] & post & [= -> ->] & Hr & Hpre); [congruence|].
        apply Forall_cons in Hpre as [_ Hpre]. by exists pre, post.
Qed.

Lemma match_loop_None rs p q m :
  match_loop rs p q m = None <-> Forall (fun r => rule_matches r p q m = false) rs.
Proof.
  induction rs as [|r rs IH]; cbn; [done|]. rewrite Forall_cons.
  destruct (rule_matches r p q m); [naive_solver|]. rewrite IH. naive_solver.
Qed.

(** The rules of a set. *)
Definition ruleset_rules (rs : option cacher_ruleset) : list cacher_rule :=
  match rs ≫= rules with Some a => ma_elts a | None => [] end.

Lemma cacher_ruleset_match_loop rs p q m :
  cacher_ruleset_match rs p q m = match_loop (ruleset_rules rs) p q m.
Proof. unfold cacher_ruleset_match, ruleset_rules. by destruct (rs ≫= rules). Qed.

(** ** Status and content type *)

Lemma allows_status_loop_spec codes status :
  allows_status_loop codes status = true <->
  exists pre post, codes = pre ++ status :: post /\ (-1)%Z ∉ status :: pre.
Proof.
  induction codes as [|c codes IH]; cbn.
  - split; [done|]. intros ([|??] & ? & ? & _); done.
  - destruct (Z.eqb_spec c (-1)) as [->|Hc].
    { split; [done|]. intros ([|??] & post & [= E ?] & Hn); set_solver. }
    destruct (Z.eqb_spec c status) as [->|Hs].
    + split; [|done]. intros _. exists [], codes. set_solver.
    + rewrite IH. split.
      * intros (pre & post & -> & Hn). exists (c :: pre), post. set_solver.
      * intros ([|c' pre] & post & [= -> ->] & Hn); [done|]. exists pre, post. set_solver.
Qed.

Definition is_param_sep (c : ascii) : Prop := c = ";"%char \/ c = SP.

(** [base] is the media type in front of the parameters. *)
Lemma base_type_spec room base rest :
  Forall (fun c => ~ is_param_sep c) base -> length base <= room ->
  match rest with [] => True | c :: _ => is_param_sep c \/ length base = room end ->
  base_type room (base ++ rest) = base.
Proof.
  unfold is_param_sep. revert room. induction base as [|c base IH]; cbn; intros room Hb Hl Hr.
  - destruct rest as [|d rest]; [by destruct room|]. destruct room as [|room]; [done|].
    cbn. char_case; cbn; naive_solver.
  - destruct room as [|room]; [lia|]. cbn. apply Forall_cons in Hb as [Hc Hb].
    char_case; cbn; [naive_solver..|]. f_equal. apply IH; [done|lia|].
    destruct rest; [done|]. naive_solver lia.
Qed.

(** ** Parsed rules *)

(** What the fields of a rule can be: C strings, string arrays that are not
    empty, methods in upper case, [enabled] a truth value, numbers in range, and
    status codes always there. *)
Definition string_ok (o : option cstr) : Prop := match o with Some s => no_nul s | None => True end.

Definition strings_ok (P : cstr -> Prop) (o : option (list cstr)) : Prop :=
  match o with Some l => l <> [] /\ Forall (fun s => no_nul s /\ P s) l | None => True end.

Definition upper (s : cstr) : Prop := toupper <$> s = s.

Record arule_wf (v : arule) : Prop := {
  wf_path : string_ok (a_path v);
  wf_query : string_ok (a_query v);
  wf_methods : strings_ok upper (a_methods v);
  wf_enabled : (a_enabled v = 0 \/ a_enabled v = 1)%Z;
  wf_ttl : (LONG_MIN <= a_ttl v <= LONG_MAX)%Z;
  wf_codes : exists l, a_status v = Some l /\ l <> [] /\ Forall (fun c => INT_MIN <= c <= INT_MAX)%Z l;
  wf_content_types : strings_ok (fun _ => True) (a_types v);
  wf_bypass_cookies : strings_ok (fun _ => True) (a_bypass v);
  wf_vary : strings_ok (fun _ => True) (a_vary v);
}.

Lemma toupper_nul c : toupper c = NUL -> c = NUL.
Proof. destruct c as [[] [] [] [] [] [] [] []]; vm_compute; done. Qed.

Lemma toupper_idem c : toupper (toupper c) = toupper c.
Proof. by destruct c as [[] [] [] [] [] [] [] []]. Qed.

Lemma upper_if_no_nul up s : no_nul s -> no_nul (upper_if up s).
Proof.
  unfold no_nul, upper_if. destruct up; [|done]. intros Hs (c & E & Hc)%list_elem_of_fmap.
  symmetry in E. apply toupper_nul in E as ->. done.
Qed.

Lemma upper_upper s : upper (upper_if true s).
Proof. unfold upper, upper_if. rewrite <- list_fmap_compose. apply list_fmap_ext. intros ? c _. apply toupper_idem. Qed.

Lemma strings_of_json_ok arr up : strings_ok (fun s => up = true -> upper s) (strings_of_json arr up).
Proof.
  unfold strings_ok, strings_of_json, nonempty. destruct (upper_if up <$> _) as [|s l] eqn:E; [done|].
  split; [done|]. rewrite <- E. apply Forall_forall. intros t (u & -> & Hu)%list_elem_of_fmap.
  apply list_elem_of_omap in Hu as (i & _ & Hi). split; [|intros ->; apply upper_upper].
  apply upper_if_no_nul. unfold item_string in Hi.
  destruct (valuestring i); [|done]. injection Hi as <-. apply c_str_no_nul.
Qed.

Lemma strings_ok_mono (P Q : cstr -> Prop) o : (forall s, P s -> Q s) -> strings_ok P o -> strings_ok Q o.
Proof. intros H. destruct o; [|done]. intros [? Hl]. split; [done|]. eapply Forall_impl; naive_solver. Qed.

Lemma string_of_member_ok obj name : string_ok (string_of_member obj name).
Proof.
  unfold string_of_member. destruct (cJSON_GetObjectItemCaseSensitive _ _) as [i|]; [|done]. cbn.
  unfold item_string. destruct (valuestring i); [|done]. apply c_str_no_nul.
Qed.

Lemma ttl_of_json_range ttl z : ttl_of_json ttl = Some z -> (LONG_MIN <= z <= LONG_MAX)%Z.
Proof.
  unfold ttl_of_json. destruct (ttl ≫= valuedouble); [apply long_of_double_range|].
  intros [= <-]. split; done.
Qed.

Lemma ints_of_json_range arr codes : ints_of_json arr = Some codes ->
  default [200%Z] codes <> [] /\ Forall (fun c => INT_MIN <= c <= INT_MAX)%Z (default [200%Z] codes).
Proof.
  unfold ints_of_json. destruct (mapM _ _) as [l|] eqn:E; [|done]. cbn. intros [= <-].
  apply mapM_Some in E. unfold nonempty. destruct l as [|c l]; cbn.
  - split; [done|]. by repeat constructor.
  - split; [done|]. eapply Forall2_Forall_r; [exact E|]. apply Forall_forall. intros d _ z. apply int_of_double_range.
Qed.

Lemma rule_of_json_wf robj v : rule_of_json robj = Some v -> arule_wf v.
Proof.
  unfold rule_of_json. destruct (ttl_of_json _) eqn:Et; cbn; [|done].
  destruct (ints_of_json _) eqn:Ei; cbn; [|done]. intros [= <-].
  apply ttl_of_json_range in Et. apply ints_of_json_range in Ei as [Ei1 Ei2].
  split; cbn; try done; try apply string_of_member_ok;
    try (eapply strings_ok_mono; [|apply strings_of_json_ok]; auto; done).
  - unfold parse_enabled. destruct (cJSON_IsBool _); [|by right]. destruct (cJSON_IsTrue _); [by right|by left].
  - by eexists.
Qed.

Lemma rules_of_items_wf items vs : rules_of_items items = Some vs -> Forall arule_wf vs.
Proof.
  revert vs. induction items as [|item items IH]; intros vs.
  - intros [= <-]. constructor.
  - rewrite rules_of_items_cons. destruct (is_object item); [|apply IH].
    destruct (rule_of_json item) eqn:E; cbn; [|done].
    destruct (rules_of_items items); cbn; [|done]. intros [= <-].
    constructor; [by eapply rule_of_json_wf|by apply IH].
Qed.

Lemma rules_of_document_wf json vs :
  rules_of_document json = Some (Some vs) -> Forall arule_wf vs.
Proof.
  unfold rules_of_document. destruct (cJSON_Parse json); try done.
  destruct (cJSON_IsArray _); [|done]. destruct (rules_of_items _) eqn:E; [|done].
  intros [= <-]. by eapply rules_of_items_wf.
Qed.

#[export] Instance method_allowed_dec ms m : Decision (method_allowed ms m).
Proof.
  refine (match ms, m with
          | None, _ => left I
          | Some ms, Some m => cast_if (decide (Exists (fun x => ci_eq x m) ms))
          | Some _, None => right _
          end); cbn; rewrite ?Exists_exists in *; naive_solver.
Defined.

#[export] Instance glob_opt_dec pat v : Decision (glob_opt pat v).
Proof. destruct pat; cbn; apply _. Defined.

#[export] Instance arule_matches_dec r p q m : Decision (arule_matches r p q m).
Proof. unfold arule_matches. apply _. Defined.

(** The first rule of a list that matches. *)
Definition first_match (vs : list arule) (p q m : option cstr) : option arule :=
  head (filter (fun v => arule_matches v p q m) vs).

Lemma match_loop_view rs p q m :
  Forall (fun r => arule_wf (view_rule r)) rs ->
  STAR ∉ default [] p -> STAR ∉ default [] q -> no_nul (default [] m) ->
  view_rule <$> match_loop rs p q m = first_match (view_rule <$> rs) p q m.
Proof.
  intros Hwf Hp Hq Hm. unfold first_match. induction Hwf as [|r rs Hr _ IH]; [done|].
  assert (methods_c_strings r) as Hms.
  { apply wf_methods in Hr. unfold methods_c_strings, strings_ok in *. cbn in Hr.
    destruct (methods r); [|done]. destruct Hr as [_ Hr]. eapply Forall_impl; [exact Hr|]. by intros ? [? _]. }
  cbn [match_loop]. rewrite fmap_cons, filter_cons.
  destruct (rule_matches r p q m) eqn:E.
  - apply rule_matches_spec in E; [|done..]. by rewrite decide_True.
  - rewrite decide_False; [done|]. rewrite <- rule_matches_spec by done. congruence.
Qed.

(** ** Properties *)

(** C21: when no allocation fails, the rules of a parsed document are well-typed: their
    strings are C strings, a string array is never empty, methods are in upper
    case, [enabled] is 0 or 1, the lifetime fits a [long], and the status codes
    are there, not empty and in the range of an [int]. *)
Theorem parsed_rules_wellformed json errbuf_len vs h :
  heap_wf h -> reliable h -> (Z.of_nat (length json) < INT_MAX)%Z -> rules_of_document json = Some (Some vs) ->
  exists rs a err h', cacher_ruleset_parse (Some json) errbuf_len h = Some ((Some rs, err), h') /\
    rules rs = Some a /\ Forall (fun r => arule_wf (view_rule r)) (ma_elts a).
Proof.
  intros Hwf Hr Hl Hvs.
  destruct (wp_run _ _ _ (cacher_ruleset_parse_builds json errbuf_len _ h Hwf Hl Hvs))
    as ([rs err] & h' & E & _ & Hv & _).
  specialize (Hv Hr). destruct rs as [rs|]; [|done]. unfold view_ruleset in Hv. cbn in Hv.
  destruct (rules rs) as [a|] eqn:Ea; [|done]. injection Hv as Hv. exists rs, a, err, h'. split_and!; [done..|].
  apply rules_of_document_wf in Hvs. by rewrite <- Hv, Forall_fmap in Hvs.
Qed.

Lemma parsed_rules_wellformed_witness :
  exists rs a err h', cacher_ruleset_parse (Some sample_rules) None fresh_heap = Some ((Some rs, err), h') /\
    rules rs = Some a /\ Forall (fun r => arule_wf (view_rule r)) (ma_elts a).
Proof. eapply parsed_rules_wellformed; [apply fresh_heap_wf|done|reflexivity|vm_compute; reflexivity]. Defined.

(** C17: when memory does not run out, parsing a document and matching a request whose
    path and query have no star in them finds the first rule of the document
    whose clauses hold of the request: path and query by their globs (anchored,
    an absent one matching everything, an absent query being the empty string),
    the method up to case.  Disabled rules take part: an exclusion above a
    catch-all wins.  (See [exclusion_evaded_by_star] for a path with a star.) *)
Theorem ruleset_match_first_wins json errbuf_len vs h p q m :
  heap_wf h -> reliable h -> (Z.of_nat (length json) < INT_MAX)%Z ->
  rules_of_document json = Some (Some vs) ->
  STAR ∉ default [] p -> STAR ∉ default [] q -> no_nul (default [] m) ->
  exists rs err h', cacher_ruleset_parse (Some json) errbuf_len h = Some ((rs, err), h') /\
    view_rule <$> cacher_ruleset_match rs p q m = first_match vs p q m.
Proof.
  intros Hwf Hr Hl Hvs Hp Hq Hm.
  destruct (wp_run _ _ _ (cacher_ruleset_parse_builds json errbuf_len _ h Hwf Hl Hvs))
    as ([rs err] & h' & E & _ & Hv & _).
  exists rs, err, h'. split; [done|]. specialize (Hv Hr).
  rewrite cacher_ruleset_match_loop. unfold ruleset_rules.
  destruct rs as [[b [a|]]|]; try done. cbn in *. injection Hv as Hv. rewrite <- Hv.
  apply match_loop_view; [|done..]. apply rules_of_document_wf in Hvs.
  rewrite <- Hv, Forall_fmap in Hvs. done.
Qed.

(** The exclusion wins over the catch-all behind it. *)
Lemma ruleset_match_first_wins_witness :
  exists rs err h', cacher_ruleset_parse (Some sample_rules) None fresh_heap = Some ((rs, err), h') /\
    view_rule <$> cacher_ruleset_match rs (Some (str "/admin/dashboard")) None (Some (str "GET"))
    = first_match
        [ARule (Some (str "/admin/*")) None None 0 0 (Some [200%Z]) None None None;
         ARule None None None 1 10 (Some [200%Z]) None (Some [str "sid"]) None]
        (Some (str "/admin/dashboard")) None (Some (str "GET")).
Proof.
  apply (ruleset_match_first_wins sample_rules None);
    [apply fresh_heap_wf|done|reflexivity|vm_compute; reflexivity|..];
    apply (bool_decide_unpack _); vm_compute; exact I.
Defined.

(** A request is matched by no rule exactly when every rule fails one of
    its clauses, and then nothing is returned. *)
Theorem ruleset_match_none rs p q m :
  cacher_ruleset_match rs p q m = None <->
  Forall (fun r => rule_matches r p q m = false) (ruleset_rules rs).
Proof. rewrite cacher_ruleset_match_loop. apply match_loop_None. Qed.

(** A rule without clauses matches everything. *)
Lemma rule_matches_all r p q m :
  path r = None -> query r = None -> methods r = None -> rule_matches r p q m = true.
Proof. unfold rule_matches. by intros -> -> ->. Qed.

Lemma match_loop_skip rs1 r rs2 p q m :
  Forall (fun r => rule_matches r p q m = false) rs1 -> rule_matches r p q m = true ->
  match_loop (rs1 ++ r :: rs2) p q m = Some r.
Proof. intros H1 Hr. apply match_loop_spec. by exists rs1, rs2. Qed.

(** A rule set with the view [vs1 ++ v :: vs2], split there. *)
Lemma view_split rs vs1 v vs2 :
  view_rule <$> rs = vs1 ++ v :: vs2 ->
  exists rs1 r rs2, rs = rs1 ++ r :: rs2 /\ view_rule <$> rs1 = vs1 /\ view_rule r = v.
Proof.
  intros H. apply fmap_app_inv in H as (rs1 & rs' & E1 & E2 & ->). symmetry in E2.
  apply fmap_cons_inv in E2 as (r & rs2 & -> & -> & ->). by exists rs1, r, rs2.
Qed.

(** C32: a star in the request path evades exclusions: whatever rules for a
    prefix and a star stand above a catch-all, the paths that go on behind the
    prefix with a star and at least one character more are decided by the
    catch-all, although the globs of all these rules cover them. *)
Theorem exclusion_evaded_by_star json errbuf_len h pre vs1 v vs2 c more q m :
  heap_wf h -> reliable h -> (Z.of_nat (length json) < INT_MAX)%Z ->
  rules_of_document json = Some (Some (vs1 ++ v :: vs2)) ->
  STAR ∉ pre -> Forall (fun u => a_path u = Some (pre ++ [STAR])) vs1 ->
  a_path v = None -> a_query v = None -> a_methods v = None ->
  glob_lang false (pre ++ [STAR]) (pre ++ STAR :: c :: more) /\
  exists rs err h', cacher_ruleset_parse (Some json) errbuf_len h = Some ((rs, err), h') /\
    view_rule <$> cacher_ruleset_match rs (Some (pre ++ STAR :: c :: more)) q m = Some v.
Proof.
  intros Hwf Hr Hl Hvs Hpre H1 Hp Hq Hm. split.
  { clear -Hpre. induction pre as [|a pre IH]; cbn.
    - rewrite <- (app_nil_r (STAR :: c :: more)). apply glob_lang_star_app. auto with cacher.
    - apply not_elem_of_cons in Hpre as [Ha Hpre]. destruct (decide (a = QMARK)) as [->|Hq]; [by apply gl_qmark, IH|].
      apply gl_char; [done|done|apply glob_char_eq_refl|by apply IH]. }
  destruct (wp_run _ _ _ (cacher_ruleset_parse_builds json errbuf_len _ h Hwf Hl Hvs))
    as ([rs err] & h' & E & _ & Hv & _).
  exists rs, err, h'. split; [done|]. specialize (Hv Hr). rewrite cacher_ruleset_match_loop. unfold ruleset_rules.
  destruct rs as [[b [a|]]|]; try done. cbn in *. injection Hv as Hv.
  apply view_split in Hv as (rs1 & r & rs2 & -> & <- & <-). unfold view_rule in Hp, Hq, Hm. cbn in Hp, Hq, Hm.
  apply fmap_None in Hp, Hq, Hm. rewrite (match_loop_skip rs1 r); [done| |by apply rule_matches_all].
  rewrite Forall_fmap in H1. eapply Forall_impl; [exact H1|]. intros u Hu. cbn in Hu. unfold rule_matches.
  destruct (path u) as [pat|]; [|done]. injection Hu as ->. cbn [from_option id]. by rewrite glob_prefix_star_missed.
Qed.

Lemma exclusion_evaded_by_star_witness :
  glob_lang false (str "/admin/*") (str "/admin/*x") /\
  exists rs err h', cacher_ruleset_parse (Some sample_rules) None fresh_heap = Some ((rs, err), h') /\
    view_rule <$> cacher_ruleset_match rs (Some (str "/admin/*x")) None None
    = Some (ARule None None None 1 10 (Some [200%Z]) None (Some [str "sid"]) None).
Proof.
  apply (exclusion_evaded_by_star sample_rules None fresh_heap (str "/admin/")
    [ARule (Some (str "/admin/*")) None None 0 0 (Some [200%Z]) None None None] _ [] "x"%char [] None None);
    [apply fresh_heap_wf|intros n; reflexivity|reflexivity|vm_compute; reflexivity
    |apply (bool_decide_unpack _); vm_compute; exact I|by constructor|reflexivity..].
Defined.

Lemma bypasses_cookie_iff rule name :
  STAR ∉ name ->
  cacher_rule_bypasses_cookie (Some rule) (Some name) = true <->
  exists l pat, a_bypass (view_rule rule) = Some l /\ pat ∈ l /\ glob_lang false pat name.
Proof.
  intros Hn. unfold cacher_rule_bypasses_cookie. cbn.
  destruct (bypass_cookies rule) as [a|]; cbn; [|naive_solver].
  rewrite existsb_exists'. split.
  - intros (pat & Hp & H%glob_match_iff); [|done]. by exists (arr_vals a), pat.
  - intros (l & pat & [= <-] & Hp & H). exists pat. split; [done|]. by apply glob_match_iff.
Qed.

(** A cookie name is bypassed exactly when one of the rule's patterns covers
    it, compared with case; a rule without patterns bypasses nothing. *)
Theorem rule_bypasses_cookie_spec rule name :
  STAR ∉ name ->
  cacher_rule_bypasses_cookie (Some rule) (Some name) = true <->
  exists l pat, a_bypass (view_rule rule) = Some l /\ pat ∈ l /\ glob_lang false pat name.
Proof. apply bypasses_cookie_iff. Qed.

Definition sample_rule : cacher_rule :=
  CacherRule 0 None None None 1 60 (Some (MArr 1 [200; 301; -1; 404]%Z))
    (Some (MArr 2 [MStr 3 (str "text/html")])) (Some (MArr 4 [MStr 5 (str "wp_*")])) None.

Lemma rule_bypasses_cookie_spec_witness :
  cacher_rule_bypasses_cookie (Some sample_rule) (Some (str "wp_login")) = true <->
  exists l pat, a_bypass (view_rule sample_rule) = Some l /\ pat ∈ l /\
    glob_lang false pat (str "wp_login").
Proof.
  apply rule_bypasses_cookie_spec. apply (bool_decide_unpack _). vm_compute. exact I.
Defined.

(** A status is allowed exactly when it is listed in front of the first -1;
    so -1 itself never is, and a -1 written in the JSON hides the codes behind
    it. *)
Theorem rule_allows_status_spec rule status :
  cacher_rule_allows_status (Some rule) status = true <->
  exists l pre post, a_status (view_rule rule) = Some l /\ l = pre ++ status :: post /\
    (-1)%Z ∉ status :: pre.
Proof.
  unfold cacher_rule_allows_status. cbn. destruct (status_codes rule) as [a|]; cbn.
  - rewrite allows_status_loop_spec. naive_solver.
  - naive_solver.
Qed.

(** A content type is accepted exactly when the rule sets none or one of
    its globs covers the media type up to case, whatever parameters follow it
    behind a semicolon or a space. *)
Theorem rule_allows_content_type_spec rule base params :
  Forall (fun c => ~ is_param_sep c) base -> length base <= 127 -> STAR ∉ base ->
  match params with [] => True | c :: _ => is_param_sep c end ->
  cacher_rule_allows_content_type (Some rule) (Some (base ++ params)) = true <->
  match a_types (view_rule rule) with
  | None => True
  | Some l => exists pat, pat ∈ l /\ glob_lang true pat base
  end.
Proof.
  intros Hb Hl Hs Hp. unfold cacher_rule_allows_content_type, a_types.
  cbn -[base_type cacher_glob_match]. destruct (content_types rule) as [a|]; [|done].
  cbn -[base_type cacher_glob_match].
  rewrite base_type_spec by (done || destruct params; auto).
  rewrite existsb_exists'. split; intros (pat & Hpat & H); exists pat; (split; [done|]);
    by apply glob_match_iff.
Qed.

Lemma rule_allows_content_type_spec_witness :
  cacher_rule_allows_content_type (Some sample_rule) (Some (str "TEXT/html" ++ str "; charset=UTF-8")) = true <->
  exists pat, pat ∈ [str "text/html"] /\ glob_lang true pat (str "TEXT/html").
Proof.
  apply (rule_allows_content_type_spec sample_rule); [|cbn; lia| |by left].
  - repeat constructor; intros [?|?]; discriminate.
  - apply (bool_decide_unpack _). vm_compute. exact I.
Defined.
