(* ===== verification/Apr.v ===== *)
(** * What the program relies on of APR and httpd

    The Apache libraries are not part of the program.  Each group of functions
    it calls is a class: the functions are parameters, and the laws are the
    documented behaviour the program relies on.  Pool allocation does not
    fail (APR aborts the process), so a pool string is a value.  AprRef.v has
    concrete instances. *)

From S2P Require Import Prelude CNum.
From Stdlib Require Import Lia.
Local Open Scope cstr_scope.

(** ** Strings *)

(** A format string and its arguments, piece by piece: text, [%s], [%.ns],
    [%d] or [%lld], and a minimum width ([minus] for the flag that left-justifies). *)
Inductive fmt_arg :=
  | FLit (s : cstr)
  | FStr (s : cstr)
  | FStrN (n : nat) (s : cstr)
  | FInt (z : Z)
  | FWidth (minus : bool) (width : nat) (a : fmt_arg).

Fixpoint render (a : fmt_arg) : cstr :=
  match a with
  | FLit s | FStr s => s
  | FStrN n s => take n s
  | FInt z => dec z
  | FWidth minus width a =>
      let s := render a in
      let pad := replicate (width - length s) SP in
      if minus then s ++ pad else pad ++ s
  end.

(** [apr_strtok s sep] is the token and the place [last] points at; the
    buffer is the caller's own. *)
Class AprStrings := {
  apr_pstrcat : list cstr -> cstr;
  apr_pstrndup : cstr -> nat -> cstr;
  apr_psprintf : list fmt_arg -> cstr;
  apr_strtok : cstr -> cstr -> option (cstr * cstr);
  apr_atoi64 : cstr -> Z;
  apr_pstrcat_spec ss : apr_pstrcat ss = concat ss;
  apr_pstrndup_spec s n : apr_pstrndup s n = take n s;
  apr_psprintf_spec args : apr_psprintf args = concat (render <$> args);
  (* Tokens are the maximal runs of characters that are no separators. *)
  apr_strtok_end seps sep : Forall (fun c => c ∈ sep) seps -> apr_strtok seps sep = None;
  apr_strtok_last seps tok sep :
    Forall (fun c => c ∈ sep) seps -> Forall (fun c => c ∉ sep) tok -> tok <> [] ->
    apr_strtok (seps ++ tok) sep = Some (tok, []);
  apr_strtok_token seps tok c rest sep :
    Forall (fun c => c ∈ sep) seps -> Forall (fun c => c ∉ sep) tok -> tok <> [] -> c ∈ sep ->
    apr_strtok (seps ++ tok ++ c :: rest) sep = Some (tok, rest);
  apr_atoi64_dec z rest :
    in_long z = true -> match rest with [] => True | c :: _ => is_digit c = false end ->
    apr_atoi64 (dec z ++ rest) = z;
  apr_atoi64_range s : in_long (apr_atoi64 s) = true;
}.

(** ** Tables *)

(** A table keeps its entries in order; keys compare without case.  The first
    entry of a key is the one found. *)
Class AprTables := {
  table : Type;
  apr_table_get : table -> cstr -> option cstr;
  apr_table_setn : table -> cstr -> cstr -> table;
  (* The entries [apr_table_do] visits, in its order. *)
  table_elts : table -> list (cstr * cstr);
  apr_table_get_spec t k :
    apr_table_get t k = snd <$> head (filter (fun e => ci_eq (fst e) k) (table_elts t));
  apr_table_setn_new t k v :
    apr_table_get t k = None -> table_elts (apr_table_setn t k v) = table_elts t ++ [(k, v)];
  apr_table_setn_same t k v : apr_table_get (apr_table_setn t k v) k = Some v;
  apr_table_setn_other t k v :
    filter (fun e => ~ ci_eq (fst e) k) (table_elts (apr_table_setn t k v)) =
    filter (fun e => ~ ci_eq (fst e) k) (table_elts t);
}.

(** ** Digests and paths *)

Definition APR_MD5_DIGESTSIZE : nat := 16.

Class AprMd5 := {
  apr_md5 : cstr -> list Z;
  apr_md5_length s : length (apr_md5 s) = APR_MD5_DIGESTSIZE;
  apr_md5_bytes s : Forall (fun b => (0 <= b < 256)%Z) (apr_md5 s);
}.

(** [apr_filepath_merge(&p, root, add, 0, pool)]; [None] when it fails. *)
Class AprPaths := {
  apr_filepath_merge : cstr -> cstr -> option cstr;
}.

(** ** Derived facts *)

(** A string that is not all separators has a first token. *)
Lemma split_token (sep s : cstr) :
  Forall (fun c => c ∈ sep) s \/
  exists seps tok rest, s = seps ++ tok ++ rest /\ Forall (fun c => c ∈ sep) seps /\
    Forall (fun c => c ∉ sep) tok /\ tok <> [] /\
    match rest with [] => True | c :: _ => c ∈ sep end.
Proof.
  induction s as [|c s IH]; [by left|]. destruct (decide (c ∈ sep)) as [Hc|Hc].
  - destruct IH as [IH|(seps & tok & rest & -> & IH)]; [left; by constructor|right].
    exists (c :: seps), tok, rest. naive_solver.
  - right. clear IH. exists [].
    enough (exists tok rest, s = tok ++ rest /\ Forall (fun c => c ∉ sep) tok /\
              match rest with [] => True | c :: _ => c ∈ sep end) as (tok & rest & -> & ? & ?).
    { exists (c :: tok), rest. naive_solver. }
    induction s as [|d s (tok & rest & -> & H1 & H2)]; [by exists [], []|].
    destruct (decide (d ∈ sep)); [exists [], (d :: tok ++ rest)|exists (d :: tok), rest]; naive_solver.
Qed.

Section strtok.
Context {AS : AprStrings}.

(** What [apr_strtok] returns of any string. *)
Lemma apr_strtok_inv s sep :
  match apr_strtok s sep with
  | None => Forall (fun c => c ∈ sep) s
  | Some (tok, rest) =>
      exists seps, Forall (fun c => c ∈ sep) seps /\ Forall (fun c => c ∉ sep) tok /\ tok <> [] /\
        (s = seps ++ tok /\ rest = [] \/ exists c, c ∈ sep /\ s = seps ++ tok ++ c :: rest)
  end.
Proof.
  destruct (split_token sep s) as [Hall|(seps & tok & rest & -> & Hs & Ht & Hn & Hr)].
  - by rewrite apr_strtok_end.
  - destruct rest as [|c rest].
    + rewrite app_nil_r, apr_strtok_last by done. exists seps. naive_solver.
    + rewrite apr_strtok_token by done. exists seps. naive_solver.
Qed.

(** Every token shortens what is left, so a loop over the tokens ends. *)
Lemma apr_strtok_shorter s sep tok rest :
  apr_strtok s sep = Some (tok, rest) -> length rest < length s.
Proof.
  intros E. pose proof (apr_strtok_inv s sep) as H. rewrite E in H.
  destruct H as (seps & _ & _ & Hn & [[-> ->]|(c & _ & ->)]); rewrite !length_app; cbn;
    destruct tok; [done|cbn; lia|done|cbn; lia].
Qed.

(** [for (t = apr_strtok(s, sep, &last); t; t = apr_strtok(NULL, sep, &last))]:
    the tokens in order, when they are enumerated to the end. *)
Fixpoint strtok_all (fuel : nat) (s sep : cstr) : list cstr :=
  match fuel with
  | O => []
  | S fuel' =>
      match apr_strtok s sep with
      | None => []
      | Some (tok, rest) => tok :: strtok_all fuel' rest sep
      end
  end.

Definition tokens (s sep : cstr) : list cstr := strtok_all (S (length s)) s sep.

(** More fuel than characters changes nothing. *)
Lemma strtok_all_fuel fuel s sep :
  length s < fuel -> strtok_all fuel s sep = tokens s sep.
Proof.
  unfold tokens. enough (forall n m s, length s < n -> length s < m ->
    strtok_all n s sep = strtok_all m s sep) by eauto with lia.
  induction n as [|n IH]; intros m t Hn Hm; [lia|]. destruct m as [|m]; [lia|]. cbn.
  destruct (apr_strtok t sep) as [[tok rest]|] eqn:E; [|done].
  apply apr_strtok_shorter in E. f_equal. apply IH; lia.
Qed.

Lemma tokens_step s sep :
  tokens s sep = match apr_strtok s sep with
                 | None => []
                 | Some (tok, rest) => tok :: tokens rest sep
                 end.
Proof.
  unfold tokens at 1. cbn. destruct (apr_strtok s sep) as [[tok rest]|] eqn:E; [|done].
  apply apr_strtok_shorter in E. f_equal. by apply strtok_all_fuel.
Qed.

Lemma tokens_nil sep : tokens [] sep = [].
Proof. by rewrite tokens_step, apr_strtok_end. Qed.

Lemma tokens_cons seps tok c rest sep :
  Forall (fun c => c ∈ sep) seps -> Forall (fun c => c ∉ sep) tok -> tok <> [] -> c ∈ sep ->
  tokens (seps ++ tok ++ c :: rest) sep = tok :: tokens rest sep.
Proof. intros. by rewrite tokens_step, apr_strtok_token. Qed.
End strtok.

Section tables.
Context {AT : AprTables}.

Lemma apr_table_get_None t k :
  apr_table_get t k = None <-> forall e, e ∈ table_elts t -> ~ ci_eq (fst e) k.
Proof.
  rewrite apr_table_get_spec. destruct (filter _ _) as [|e l] eqn:E; cbn; split; try done.
  - intros _ e He Hk. assert (e ∈ filter (fun e => ci_eq (fst e) k) (table_elts t)) as H
      by (by apply list_elem_of_filter). rewrite E in H. set_solver.
  - intros H. assert (e ∈ filter (fun e => ci_eq (fst e) k) (table_elts t)) as He
      by (rewrite E; set_solver). apply list_elem_of_filter in He as [Hk He]. by apply H in He.
Qed.

(** The entries of a table after a set: those of before, or the new value
    under the same key. *)
Lemma apr_table_setn_elts t k v e :
  e ∈ table_elts (apr_table_setn t k v) -> e ∈ table_elts t \/ ci_eq (fst e) k.
Proof.
  intros He. destruct (decide (ci_eq (fst e) k)) as [|Hk]; [by right|left].
  assert (e ∈ filter (fun e => ~ ci_eq (fst e) k) (table_elts (apr_table_setn t k v))) as H
    by (by apply list_elem_of_filter).
  rewrite apr_table_setn_other in H. by apply list_elem_of_filter in H as [_ H].
Qed.
End tables.

#[global] Arguments tokens : simpl never.
