(* ===== verification/AprFile.v ===== *)
(** * Files, the clock and programs that use them

    A function of the program that does I/O is a [prog]: a tree of APR calls,
    each with a continuation for every answer, and of atomic steps on the
    memory of the process.  The file system is a parameter ([AprFiles]): any
    call may fail, and the laws say what a call that succeeds has done. *)

From S2P Require Import Prelude CNum.
From Stdlib Require Import Lia.
Local Open Scope cstr_scope.

(** ** APR calls *)

(** An entry of a directory: its name, when APR found one, and whether it is a
    directory. *)
Record dirent := Dirent { de_name : option cstr; de_dir : bool }.

#[export] Instance dirent_eq_dec : EqDecision dirent.
Proof. solve_decision. Defined.

Inductive op : Type :=
  | OpenRead (path : cstr)                  (* apr_file_open, APR_FOPEN_READ *)
  | InfoSize (fd : nat)                     (* apr_file_info_get, APR_FINFO_SIZE *)
  | ReadFull (fd : nat) (n : nat)           (* apr_file_read_full *)
  | Close (fd : nat)                        (* apr_file_close *)
  | Mktemp (template : cstr)                (* apr_file_mktemp *)
  | WriteFull (fd : nat) (data : list ascii) (* apr_file_write_full *)
  | Rename (from to : cstr)                 (* apr_file_rename *)
  | Remove (path : cstr)                    (* apr_file_remove *)
  | Mkdirs (path : cstr)                    (* apr_dir_make_recursive *)
  | Stat (path : cstr)                      (* apr_stat, mtime and size *)
  | DirOpen (path : cstr)
  | DirRead (dir : nat)
  | DirClose (dir : nat)
  | Now.                                    (* apr_time_sec(apr_time_now()) *)

(** [None] and [false] are any status but APR_SUCCESS. *)
Definition answer (o : op) : Type :=
  match o with
  | OpenRead _ => option nat
  | InfoSize _ => option Z
  | ReadFull _ _ => option (list ascii)
  | Close _ => unit
  | Mktemp _ => option (cstr * nat)         (* the name it chose, and the file *)
  | WriteFull _ _ | Rename _ _ | Remove _ | Mkdirs _ => bool
  | Stat _ => option (Z * Z)
  | DirOpen _ => option nat
  | DirRead _ => option dirent
  | DirClose _ => unit
  | Now => Z
  end.

(** ** Programs *)

Inductive prog (S A : Type) : Type :=
  | Ret (a : A)
  | Undef
  | Do (o : op) (k : answer o -> prog S A)
  | Mem (X : Type) (m : S -> option (X * S)) (k : X -> prog S A).
Arguments Ret {S A} a.
Arguments Undef {S A}.
Arguments Do {S A} o k.
Arguments Mem {S A X} m k.

#[export] Instance prog_ret S : MRet (prog S) := fun A a => Ret a.
#[export] Instance prog_bind S : MBind (prog S) := fun A B f =>
  fix go (p : prog S A) : prog S B :=
    match p with
    | Ret a => f a
    | Undef => Undef
    | Do o k => Do o (fun a => go (k a))
    | Mem m k => Mem m (fun x => go (k x))
    end.

(** One call, and one step on the memory; [None] is undefined behaviour. *)
Definition call {S} (o : op) : prog S (answer o) := Do o Ret.
Definition mem {S A} (m : S -> option (A * S)) : prog S A := Mem m Ret.

(** Every call of a program satisfies [P]. *)
Fixpoint all_ops {S A} (P : op -> Prop) (p : prog S A) : Prop :=
  match p with
  | Ret _ | Undef => True
  | Do o k => P o /\ forall a, all_ops P (k a)
  | Mem _ k => forall x, all_ops P (k x)
  end.

Lemma all_ops_bind {S A B} P (p : prog S A) (k : A -> prog S B) :
  all_ops P p -> (forall a, all_ops P (k a)) -> all_ops P (p ≫= k).
Proof.
  intros Hp Hk. induction p as [a| |o k' IH|X m k' IH]; cbn in *; [apply Hk|done| |].
  - destruct Hp as [? Hp]. split; [done|]. intros a. by apply IH.
  - intros x. by apply IH.
Qed.

Lemma all_ops_mono {S A} (P Q : op -> Prop) (p : prog S A) :
  (forall o, P o -> Q o) -> all_ops P p -> all_ops Q p.
Proof. intros HPQ. induction p as [a| |o k' IH|X m k' IH]; cbn; naive_solver. Qed.

(** ** What the calls do *)

Record disk := Disk {
  d_names : gmap cstr nat;             (* path of a file |-> file *)
  d_data : gmap nat (list ascii);      (* file |-> its bytes *)
  d_mtime : gmap nat Z;
  d_dirs : gset cstr;
  d_fds : gmap nat (nat * nat);        (* open file |-> file, offset *)
  d_streams : gmap nat (list dirent);  (* open directory |-> entries to come *)
  d_now : Z;
}.

Definition set_names (d : disk) x := Disk x (d_data d) (d_mtime d) (d_dirs d) (d_fds d) (d_streams d) (d_now d).
Definition set_dirs (d : disk) x := Disk (d_names d) (d_data d) (d_mtime d) x (d_fds d) (d_streams d) (d_now d).
Definition set_fds (d : disk) x := Disk (d_names d) (d_data d) (d_mtime d) (d_dirs d) x (d_streams d) (d_now d).
Definition set_streams (d : disk) x := Disk (d_names d) (d_data d) (d_mtime d) (d_dirs d) (d_fds d) x (d_now d).
Definition set_now (d : disk) x := Disk (d_names d) (d_data d) (d_mtime d) (d_dirs d) (d_fds d) (d_streams d) x.
Definition set_file (d : disk) i bytes t :=
  Disk (d_names d) (<[i := bytes]> (d_data d)) (<[i := t]> (d_mtime d)) (d_dirs d) (d_fds d) (d_streams d) (d_now d).

(** The bytes of the file at a path. *)
Definition file_at (d : disk) (path : cstr) : option (list ascii) :=
  d_names d !! path ≫= fun i => d_data d !! i.

Definition SLASH : ascii := "/"%char.

(** The child [name] of the directory [dir], as the program spells it. *)
Definition child (dir name : cstr) : cstr := dir ++ [SLASH] ++ name.

(** The entry of a directory is in the tree. *)
Definition entry_exists (d : disk) (dir : cstr) (e : dirent) : Prop :=
  match de_name e with
  | None => False
  | Some name =>
      if de_dir e then child dir name ∈ d_dirs d else is_Some (d_names d !! child dir name)
  end.

(** Files of a directory that a listing must show: their names have no slash
    and do not start with a dot. *)
Definition plain_name (name : cstr) : Prop :=
  SLASH ∉ name /\ match name with [] => False | c :: _ => c <> "."%char end.

(** What a directory entry is called. *)
Definition file_name (name : cstr) : Prop := SLASH ∉ name /\ name <> [].

#[export] Instance file_name_dec name : Decision (file_name name).
Proof. unfold file_name. apply _. Defined.

Lemma plain_file_name name : plain_name name -> file_name name.
Proof. intros [Hn Hp]. split; [done|]. by destruct name. Qed.

(** An entry that a listing may show. *)
Definition listed (d : disk) (dir : cstr) (e : dirent) : Prop :=
  match de_name e with
  | None => True
  | Some name => name = str "." \/ name = str ".." \/ file_name name /\ entry_exists d dir e
  end.

(** [q] is [p] or a directory on the way to it. *)
Definition on_path (q p : cstr) : Prop := p = q \/ exists s, p = q ++ SLASH :: s.

Definition TEMPLATE : cstr := str "XXXXXX".

(** [p] is [template] with its six last characters replaced. *)
Definition fills_template (template p : cstr) : Prop :=
  exists base suffix, template = base ++ TEMPLATE /\ p = base ++ suffix /\
    length suffix = 6 /\ SLASH ∉ suffix /\ NUL ∉ suffix.

(** Seconds an [apr_time_t], which counts microseconds in 64 bits, can hold. *)
Definition in_time (t : Z) : Prop := (0 <= t <= 9223372036854)%Z.

(** The clock goes forward, within its range. *)
Definition tick (t t' : Z) : Prop := (t <= t')%Z /\ (in_time t -> in_time t').

Lemma tick_refl t : tick t t.
Proof. split; [lia|done]. Qed.

(** The parts of the file system a call did not touch stay; time may pass. *)
Definition later (d d' : disk) : Prop := exists t, tick (d_now d) t /\ d' = set_now d t.

(** A call on a closed file or directory is undefined. *)
Definition op_defined (d : disk) (o : op) : bool :=
  match o with
  | InfoSize fd | ReadFull fd _ | Close fd | WriteFull fd _ => bool_decide (is_Some (d_fds d !! fd))
  | DirRead s | DirClose s => bool_decide (is_Some (d_streams d !! s))
  | _ => true
  end.

(** The bytes behind an open file. *)
Definition fd_data (d : disk) (fd : nat) : option (list ascii) :=
  '(i, _) ← d_fds d !! fd; d_data d !! i.

(** [fs_spec d o a d']: in [d] the call [o] may answer [a] and lead to [d']. *)
Definition fs_spec (d : disk) (o : op) : answer o -> disk -> Prop :=
  match o return answer o -> disk -> Prop with
  | OpenRead p => fun a d' =>
      match a with
      | None => later d d'
      | Some fd => exists i, d_names d !! p = Some i /\ d_fds d !! fd = None /\
                   later (set_fds d (<[fd := (i, 0)]> (d_fds d))) d'
      end
  | InfoSize fd => fun a d' =>
      later d d' /\ forall n, a = Some n -> (fun b => Z.of_nat (length b)) <$> fd_data d fd = Some n
  | ReadFull fd n => fun a d' =>
      match a with
      | None => exists off i off0, d_fds d !! fd = Some (i, off0) /\
                later (set_fds d (<[fd := (i, off)]> (d_fds d))) d'
      | Some bytes => exists i off data, d_fds d !! fd = Some (i, off) /\ d_data d !! i = Some data /\
                off + n <= length data /\ bytes = take n (drop off data) /\
                later (set_fds d (<[fd := (i, off + n)]> (d_fds d))) d'
      end
  | Close fd => fun _ d' => later (set_fds d (delete fd (d_fds d))) d'
  | Mktemp template => fun a d' =>
      match a with
      | None => later d d'
      | Some (p, fd) => exists i t, fills_template template p /\ d_names d !! p = None /\
          d_data d !! i = None /\ d_fds d !! fd = None /\
          later (set_fds (set_file (set_names d (<[p := i]> (d_names d))) i [] t)
                   (<[fd := (i, 0)]> (d_fds d))) d'
      end
  | WriteFull fd bytes => fun a d' =>
      exists i off data t, d_fds d !! fd = Some (i, off) /\ default [] (d_data d !! i) = data /\
        exists n, n <= length bytes /\ (a = true -> n = length bytes) /\
        later (set_fds (set_file d i (take off data ++ take n bytes ++ drop (off + n) data) t)
                 (<[fd := (i, off + n)]> (d_fds d))) d'
  | Rename a b => fun r d' =>
      if r then exists i, d_names d !! a = Some i /\
                  later (set_names d (<[b := i]> (delete a (d_names d)))) d'
      else later d d'
  | Remove p => fun r d' =>
      if r then later (set_names d (delete p (d_names d))) d' else later d d'
  | Mkdirs p => fun r d' =>
      if r then exists ds, later (set_dirs d (ds ∪ d_dirs d)) d' /\
                  (forall q, q ∈ ds -> on_path q p) /\
                  (forall q, on_path q p -> q <> [] -> q ∈ ds ∪ d_dirs d)
      else later d d'
  | Stat p => fun a d' =>
      later d d' /\ forall m n, a = Some (m, n) -> exists i data, d_names d !! p = Some i /\
        d_mtime d !! i = Some m /\ d_data d !! i = Some data /\ n = Z.of_nat (length data)
  | DirOpen p => fun a d' =>
      match a with
      | None => later d d'
      | Some s => exists es, d_streams d !! s = None /\
          Forall (listed d p) es /\
          (forall name isdir, plain_name name ->
             entry_exists d p (Dirent (Some name) isdir) -> Dirent (Some name) isdir ∈ es) /\
          NoDup es /\ later (set_streams d (<[s := es]> (d_streams d))) d'
      end
  | DirRead s => fun a d' =>
      match a with
      | None => later d d'
      | Some e => exists skipped es, d_streams d !! s = Some (skipped ++ e :: es) /\
          later (set_streams d (<[s := es]> (d_streams d))) d'
      end
  | DirClose s => fun _ d' => later (set_streams d (delete s (d_streams d))) d'
  | Now => fun a d' => tick (d_now d) a /\ d' = set_now d a
  end.

(** The directory a path is in. *)
Definition in_dir (d : disk) (path : cstr) : Prop :=
  exists dir name, path = child dir name /\ SLASH ∉ name /\ dir ∈ d_dirs d.

(** On a healthy file system a call whose conditions hold succeeds. *)
Definition fs_succeeds (d : disk) (o : op) : answer o -> Prop :=
  match o return answer o -> Prop with
  | OpenRead p => fun a => is_Some (file_at d p) -> is_Some a
  | InfoSize fd => fun a => is_Some (fd_data d fd) -> is_Some a
  | ReadFull fd n => fun a => forall i off data, d_fds d !! fd = Some (i, off) ->
      d_data d !! i = Some data -> off + n <= length data -> is_Some a
  | Mktemp template => fun a => forall base, template = base ++ TEMPLATE -> in_dir d template ->
      (forall s, d_names d !! (base ++ s) = None) -> is_Some a
  | WriteFull fd _ => fun a => is_Some (fd_data d fd) -> a = true
  | Rename p q => fun a => is_Some (d_names d !! p) -> in_dir d q -> q ∉ d_dirs d -> a = true
  | Remove p => fun a => is_Some (d_names d !! p) -> a = true
  | Mkdirs p => fun a => (forall q, on_path q p -> d_names d !! q = None) -> a = true
  | Stat p => fun a => forall i, d_names d !! p = Some i -> is_Some (d_mtime d !! i) ->
      is_Some (d_data d !! i) -> is_Some a
  | DirOpen p => fun a => p ∈ d_dirs d -> is_Some a
  | DirRead s => fun a => forall es, d_streams d !! s = Some es -> es <> [] ->
      exists e es', a = Some e /\ es = e :: es'
  | _ => fun _ => True
  end.

Class AprFiles := {
  world : Type;
  view : world -> disk;
  run : forall o : op, world -> answer o * world;
  healthy : world -> Prop;
  run_spec w o : op_defined (view w) o = true ->
    fs_spec (view w) o (fst (run o w)) (view (snd (run o w)));
  run_healthy w o : op_defined (view w) o = true -> healthy w ->
    fs_succeeds (view w) o (fst (run o w)) /\ healthy (snd (run o w));
}.

(** ** Running programs *)

Section exec.
Context {AF : AprFiles} {S : Type}.

(** Run to the end; [None] is undefined behaviour. *)
Fixpoint exec {A} (p : prog S A) (w : world) (s : S) : option (A * world * S) :=
  match p with
  | Ret a => Some (a, w, s)
  | Undef => None
  | Do o k =>
      if op_defined (view w) o then let '(a, w') := run o w in exec (k a) w' s else None
  | Mem m k => match m s with Some (x, s') => exec (k x) w s' | None => None end
  end.

(** [wpp p Q w s]: [p] run from [w] and [s] is defined and ends in [Q]. *)
Definition wpp {A} (p : prog S A) (Q : A -> world -> S -> Prop) (w : world) (s : S) : Prop :=
  match exec p w s with Some (a, w', s') => Q a w' s' | None => False end.

(** [always I p w s]: [I] holds of the disk before and after every call. *)
Fixpoint always {A} (I : disk -> Prop) (p : prog S A) (w : world) (s : S) : Prop :=
  I (view w) /\
  match p with
  | Ret _ | Undef => True
  | Do o k => if op_defined (view w) o then let '(a, w') := run o w in always I (k a) w' s else True
  | Mem m k => match m s with Some (x, s') => always I (k x) w s' | None => True end
  end.

Lemma wpp_ret {A} (a : A) (Q : A -> world -> S -> Prop) w s : Q a w s -> wpp (mret a) Q w s.
Proof. done. Qed.

Lemma exec_bind {A B} (p : prog S A) (k : A -> prog S B) w s :
  exec (p ≫= k) w s =
  match exec p w s with Some (a, w', s') => exec (k a) w' s' | None => None end.
Proof.
  revert w s. induction p as [a| |o k' IH|X m k' IH]; intros w s; cbn; try done.
  - destruct (op_defined _ _); [|done]. destruct (run o w) as [a w']. apply IH.
  - destruct (m s) as [[x s']|]; [|done]. apply IH.
Qed.

Lemma wpp_bind {A B} (p : prog S A) (k : A -> prog S B) (Q : B -> world -> S -> Prop) w s :
  wpp p (fun a w' s' => wpp (k a) Q w' s') w s -> wpp (p ≫= k) Q w s.
Proof. unfold wpp. rewrite exec_bind. by destruct (exec p w s) as [[[a w'] s']|]. Qed.

Lemma wpp_bind_inv {A B} (p : prog S A) (k : A -> prog S B) (Q : B -> world -> S -> Prop) w s :
  wpp (p ≫= k) Q w s -> wpp p (fun a w' s' => wpp (k a) Q w' s') w s.
Proof. unfold wpp. rewrite exec_bind. by destruct (exec p w s) as [[[a w'] s']|]. Qed.

Lemma wpp_mono {A} (p : prog S A) (P Q : A -> world -> S -> Prop) w s :
  wpp p P w s -> (forall a w' s', P a w' s' -> Q a w' s') -> wpp p Q w s.
Proof. unfold wpp. destruct (exec p w s) as [[[a w'] s']|]; naive_solver. Qed.

(** A call whose answer is in doubt. *)
Lemma wpp_call o (Q : answer o -> world -> S -> Prop) w s :
  op_defined (view w) o = true ->
  (forall a w', fs_spec (view w) o a (view w') ->
     (healthy w -> fs_succeeds (view w) o a /\ healthy w') -> Q a w' s) ->
  wpp (call o) Q w s.
Proof.
  intros Hd HQ. unfold wpp. cbn. rewrite Hd. pose proof (run_spec w o Hd) as Hs.
  pose proof (run_healthy w o Hd) as Hh. destruct (run o w) as [a w']. by apply HQ.
Qed.

Lemma wpp_mem {A} (m : S -> option (A * S)) (Q : A -> world -> S -> Prop) w s x s' :
  m s = Some (x, s') -> Q x w s' -> wpp (mem m) Q w s.
Proof. intros E HQ. unfold wpp. cbn. by rewrite E. Qed.

Lemma wpp_run {A} (p : prog S A) (Q : A -> world -> S -> Prop) w s :
  wpp p Q w s -> exists a w' s', exec p w s = Some (a, w', s') /\ Q a w' s'.
Proof. unfold wpp. destruct (exec p w s) as [[[a w'] s']|]; naive_solver. Qed.

Lemma always_bind {A B} I (p : prog S A) (k : A -> prog S B) w s :
  always I p w s ->
  (forall a w' s', exec p w s = Some (a, w', s') -> always I (k a) w' s') ->
  always I (p ≫= k) w s.
Proof.
  revert w s. induction p as [a| |o k' IH|X m k' IH]; intros w s; cbn.
  - intros _ H. by apply H.
  - intros [H _] _. done.
  - intros [HI H] Hk. split; [done|]. destruct (op_defined _ _); [|done].
    destruct (run o w) as [a w']. by apply IH.
  - intros [HI H] Hk. split; [done|]. destruct (m s) as [[x s']|]; [|done]. by apply IH.
Qed.

Lemma always_call I o w s :
  I (view w) ->
  (forall a d', op_defined (view w) o = true -> fs_spec (view w) o a d' -> I d') ->
  always I (call o) w s.
Proof.
  intros HI H. cbn. split; [done|]. destruct (op_defined _ _) eqn:Hd; [|done].
  pose proof (run_spec w o Hd) as Hs. destruct (run o w) as [a w'].
  split; [|done]. by eapply H.
Qed.
End exec.

(** ** Facts about the calls *)

Lemma later_refl d : later d d.
Proof. exists (d_now d). split; [apply tick_refl|]. by destruct d. Qed.

Lemma later_fields d d' :
  later d d' ->
  d_names d' = d_names d /\ d_data d' = d_data d /\ d_mtime d' = d_mtime d /\
  d_dirs d' = d_dirs d /\ d_fds d' = d_fds d /\ d_streams d' = d_streams d /\ tick (d_now d) (d_now d').
Proof. intros (t & Ht & ->). done. Qed.

Lemma later_file_at d d' p : later d d' -> file_at d' p = file_at d p.
Proof. intros (? & ? & ->). done. Qed.

(** The calls that open, close or advance no file. *)
Lemma fs_spec_fds d o a d' :
  fs_spec d o a d' ->
  match o with
  | Rename _ _ | Remove _ | Mkdirs _ | Stat _ | InfoSize _ | Now => d_fds d' = d_fds d
  | _ => True
  end.
Proof.
  destruct o; cbn; try done.
  - by intros [(t & _ & ->) _].
  - destruct a; [intros (i & _ & t & _ & ->)|intros (t & _ & ->)]; done.
  - destruct a; intros (t & _ & ->); done.
  - destruct a; [intros (ds & (t & _ & ->) & _)|intros (t & _ & ->)]; done.
  - by intros [(t & _ & ->) _].
  - by intros [_ ->].
Qed.

(** Only one call makes directories. *)
Lemma fs_spec_dirs d o a d' :
  fs_spec d o a d' -> match o with Mkdirs _ => True | _ => d_dirs d' = d_dirs d end.
Proof.
  destruct o; cbn; try done.
  - destruct a; [intros (i & _ & _ & t & _ & ->)|intros (t & _ & ->)]; done.
  - by intros [(t & _ & ->) _].
  - destruct a; [intros (i & off & b & _ & _ & _ & _ & t & _ & ->)|intros (? & ? & ? & _ & t & _ & ->)]; done.
  - by intros (t & _ & ->).
  - destruct a as [[p fd]|]; [intros (i & t & _ & _ & _ & _ & t' & _ & ->)|intros (t & _ & ->)]; done.
  - intros (i & off & b & t & _ & _ & n & _ & _ & t' & _ & ->). done.
  - destruct a; [intros (i & _ & t & _ & ->)|intros (t & _ & ->)]; done.
  - destruct a; intros (t & _ & ->); done.
  - by intros [(t & _ & ->) _].
  - destruct a; [intros (es & _ & _ & _ & _ & t & _ & ->)|intros (t & _ & ->)]; done.
  - destruct a; [intros (sk & es & _ & t & _ & ->)|intros (t & _ & ->)]; done.
  - by intros (t & _ & ->).
  - by intros [_ ->].
Qed.

#[export] Hint Resolve later_refl : cacher.

(** Nothing of the files changed; files may have been opened and closed. *)
Definition same_files (d d' : disk) : Prop :=
  d_names d' = d_names d /\ d_data d' = d_data d /\ d_mtime d' = d_mtime d /\
  d_dirs d' = d_dirs d /\ d_fds d' = d_fds d.

#[export] Instance same_files_equiv : Equivalence same_files.
Proof.
  split; unfold same_files; [done|intros ??; naive_solver|].
  intros ??? (->&->&->&->&->). done.
Qed.

Lemma later_same_files d d' : later d d' -> same_files d d'.
Proof. intros H. apply later_fields in H. unfold same_files. naive_solver. Qed.

(** ** Invariants along a run

    [wpa I p Q w s]: [p] is defined, ends in [Q], and [I] holds of the disk
    before and after every call of it. *)

Section wpa.
Context {AF : AprFiles} {S : Type}.

Definition wpa {A} (I : disk -> Prop) (p : prog S A) (Q : A -> world -> S -> Prop) (w : world) (s : S)
    : Prop := always I p w s /\ wpp p Q w s.

Lemma wpa_ret {A} I (a : A) (Q : A -> world -> S -> Prop) w s :
  I (view w) -> Q a w s -> wpa I (mret a) Q w s.
Proof. by split. Qed.

Lemma wpa_bind {A B} I (p : prog S A) (k : A -> prog S B) (Q : B -> world -> S -> Prop) w s :
  wpa I p (fun a w' s' => wpa I (k a) Q w' s') w s -> wpa I (p ≫= k) Q w s.
Proof.
  intros [Ha Hw]. split.
  - apply always_bind; [done|]. intros a w' s' E. unfold wpp in Hw. rewrite E in Hw. apply Hw.
  - apply wpp_bind. eapply wpp_mono; [done|]. by intros a w' s' [_ H].
Qed.

Lemma wpa_mono {A} I (p : prog S A) (P Q : A -> world -> S -> Prop) w s :
  wpa I p P w s -> (forall a w' s', P a w' s' -> Q a w' s') -> wpa I p Q w s.
Proof. intros [Ha Hw] H. split; [done|]. by eapply wpp_mono. Qed.

Lemma wpa_call I o (Q : answer o -> world -> S -> Prop) w s :
  I (view w) -> op_defined (view w) o = true ->
  (forall a w', fs_spec (view w) o a (view w') ->
     (healthy w -> fs_succeeds (view w) o a /\ healthy w') -> I (view w') /\ Q a w' s) ->
  wpa I (call o) Q w s.
Proof.
  intros HI Hd H. split.
  - cbn. split; [done|]. rewrite Hd. pose proof (run_spec w o Hd) as Hs.
    pose proof (run_healthy w o Hd) as Hh. destruct (run o w) as [a w']. split; [|done].
    by apply (H a w').
  - refine (wpp_call o _ _ _ Hd _). intros a w' Hs Hh. by apply H.
Qed.

Lemma wpa_weaken {A} (I J : disk -> Prop) (p : prog S A) (Q : A -> world -> S -> Prop) w s :
  (forall d, I d -> J d) -> wpa I p Q w s -> wpa J p Q w s.
Proof.
  intros HIJ [Ha Hw]. split; [|done]. clear Hw. revert w s Ha.
  induction p as [a| |o k IH|X m k IH]; intros w s; cbn; intros [HI Ha]; (split; [by apply HIJ|]); try done.
  - destruct (op_defined _ _); [|done]. destruct (run o w) as [a w']. by apply IH.
  - destruct (m s) as [[x s']|]; [by apply IH|done].
Qed.

Lemma wpa_wpp {A} I (p : prog S A) (Q : A -> world -> S -> Prop) w s : wpa I p Q w s -> wpp p Q w s.
Proof. by intros [_ H]. Qed.
End wpa.

Ltac wpa_call :=
  lazymatch goal with
  | |- wpa _ (call ?o ≫= _) _ _ _ => apply wpa_bind; refine (wpa_call _ o _ _ _ _ _ _)
  | |- wpa _ (call ?o) _ _ _ => refine (wpa_call _ o _ _ _ _ _ _)
  end.

(** ** What a call leaves alone *)

(** The file at [p] is the same file with the same bytes. *)
Definition keep (p : cstr) (d d' : disk) : Prop :=
  d_names d' !! p = d_names d !! p /\
  forall i, d_names d !! p = Some i -> d_data d' !! i = d_data d !! i.

(** A name stands for a file that has bytes. *)
Definition file_ok (d : disk) (p : cstr) : Prop :=
  forall i, d_names d !! p = Some i -> is_Some (d_data d !! i).

Definition spares (d : disk) (o : op) (p : cstr) : Prop :=
  match o with
  | WriteFull fd _ => forall i off, d_fds d !! fd = Some (i, off) -> d_names d !! p <> Some i
  | Rename a b => p <> a /\ p <> b
  | Remove q => p <> q
  | Mktemp template => ~ fills_template template p
  | _ => True
  end.

#[export] Instance keep_preorder p : PreOrder (keep p).
Proof.
  split; [by intros d|]. intros d1 d2 d3 [H1 H1'] [H2 H2']. split; [congruence|].
  intros i Hi. rewrite H2' by congruence. by apply H1'.
Qed.

Lemma keep_file_at p d d' : keep p d d' -> file_at d' p = file_at d p.
Proof.
  intros [H1 H2]. unfold file_at. rewrite H1. destruct (d_names d !! p) as [i|]; cbn; [|done].
  by apply H2.
Qed.

Lemma keep_ok p d d' : keep p d d' -> file_ok d p -> file_ok d' p.
Proof. intros [H1 H2] Hok i Hi. rewrite H1 in Hi. rewrite H2 by done. by apply Hok. Qed.

Lemma later_keep p d d' : later d d' -> keep p d d'.
Proof. intros (t & _ & ->). by split. Qed.

Lemma fs_spec_keep d o a d' p :
  fs_spec d o a d' -> file_ok d p -> spares d o p -> keep p d d'.
Proof.
  intros Hs Hok Hp. destruct o; cbn in Hs, Hp.
  - destruct a as [fd|]; [destruct Hs as (i & _ & _ & t & _ & ->); by split|by apply later_keep].
  - destruct Hs as [Hs _]. by apply later_keep.
  - destruct a as [b|]; [destruct Hs as (i & off & data & _ & _ & _ & _ & t & _ & ->); by split|].
    destruct Hs as (off & i & off0 & _ & t & _ & ->). by split.
  - destruct Hs as (t & _ & ->). by split.
  - destruct a as [[q fd]|]; [|by apply later_keep].
    destruct Hs as (i & t & Hq & _ & Hi & _ & t' & _ & ->). split; cbn.
    + rewrite lookup_insert_ne; [done|]. by intros ->.
    + intros j Hj. rewrite lookup_insert_ne; [done|]. intros ->.
      destruct (Hok j Hj). congruence.
  - destruct Hs as (i & off & b & t & Hfd & _ & n & _ & _ & t' & _ & ->). split; [done|]. cbn.
    intros j Hj. rewrite lookup_insert_ne; [done|]. intros ->. by eapply Hp.
  - destruct a; [|by apply later_keep]. destruct Hs as (i & _ & t & _ & ->). destruct Hp as [H1 H2].
    split; [|done]. cbn. by rewrite lookup_insert_ne, lookup_delete_ne by done.
  - destruct a; [|by apply later_keep]. destruct Hs as (t & _ & ->). split; [|done]. cbn.
    by rewrite lookup_delete_ne.
  - destruct a; [|by apply later_keep]. destruct Hs as (ds & (t & _ & ->) & _). by split.
  - destruct Hs as [Hs _]. by apply later_keep.
  - destruct a as [s|]; [|by apply later_keep]. destruct Hs as (es & _ & _ & _ & _ & t & _ & ->). by split.
  - destruct a as [e|]; [|by apply later_keep]. destruct Hs as (sk & es & _ & t & _ & ->). by split.
  - destruct Hs as (t & _ & ->). by split.
  - destruct Hs as [_ ->]. by split.
Qed.

(** Step over the call in front: first that it is defined, then with its
    answer [a] and the world [w'] behind it. *)
Ltac wp_call :=
  lazymatch goal with
  | |- wpp (call ?o ≫= _) _ _ _ => apply wpp_bind; refine (wpp_call o _ _ _ _ _)
  | |- wpp (call ?o) _ _ _ => refine (wpp_call o _ _ _ _ _)
  end.

(** ** Calls on a healthy file system *)

Section healthy_calls.
Context {AF : AprFiles} {S B : Type}.
Context (Q : B -> world -> S -> Prop) (w : world) (s : S) (Hw : healthy w).

Lemma wpp_mktemp_ok base (k : option (cstr * nat) -> prog S B) :
  in_dir (view w) (base ++ TEMPLATE) -> (forall x, d_names (view w) !! (base ++ x) = None) ->
  (forall p fd i t w', fills_template (base ++ TEMPLATE) p -> d_names (view w) !! p = None ->
     d_data (view w) !! i = None -> d_fds (view w) !! fd = None -> healthy w' ->
     later (set_fds (set_file (set_names (view w) (<[p := i]> (d_names (view w)))) i [] t)
              (<[fd := (i, 0)]> (d_fds (view w)))) (view w') ->
     wpp (k (Some (p, fd))) Q w' s) ->
  wpp (call (Mktemp (base ++ TEMPLATE)) ≫= k) Q w s.
Proof.
  intros Hdir Hfree H. wp_call; [done|]. intros a w' Hs Hh. destruct (Hh Hw) as [Hok Hw'].
  destruct a as [[p fd]|]; [|by destruct (Hok base eq_refl Hdir Hfree) as [? [=]]].
  destruct Hs as (i & t & H1 & H2 & H3 & H4 & Hl). by eapply H.
Qed.

(** All of the data goes to the end of the file. *)
Lemma wpp_write_ok fd i old bytes (k : bool -> prog S B) :
  d_fds (view w) !! fd = Some (i, length old) -> d_data (view w) !! i = Some old ->
  (forall t w', healthy w' ->
     later (set_fds (set_file (view w) i (old ++ bytes) t) (<[fd := (i, length (old ++ bytes))]> (d_fds (view w)))) (view w') ->
     wpp (k true) Q w' s) ->
  wpp (call (WriteFull fd bytes) ≫= k) Q w s.
Proof.
  intros Hfd Hd H. wp_call; [apply bool_decide_eq_true; by rewrite Hfd|]. intros ok w' Hs Hh.
  destruct (Hh Hw) as [Hok Hw']. cbn in Hs, Hok.
  assert (ok = true) as -> by (apply Hok; unfold fd_data; rewrite Hfd; cbn; by rewrite Hd).
  destruct Hs as (j & off & b & t & Hj & Hb & n & _ & Hn & Hl). rewrite Hfd in Hj. injection Hj as <- <-.
  rewrite Hd in Hb. cbn in Hb. subst b. rewrite (Hn eq_refl), !firstn_all, drop_ge, app_nil_r, <- length_app in Hl by lia.
  by eapply H.
Qed.

Lemma wpp_close_ok fd v (k : unit -> prog S B) :
  d_fds (view w) !! fd = Some v ->
  (forall w', healthy w' -> later (set_fds (view w) (delete fd (d_fds (view w)))) (view w') -> wpp (k tt) Q w' s) ->
  wpp (call (Close fd) ≫= k) Q w s.
Proof.
  intros Hfd H. wp_call; [apply bool_decide_eq_true; by rewrite Hfd|]. intros [] w' Hs Hh.
  apply H; [by apply Hh|done].
Qed.

Lemma wpp_rename_ok a b i (k : bool -> prog S B) :
  d_names (view w) !! a = Some i -> in_dir (view w) b -> b ∉ d_dirs (view w) ->
  (forall w', healthy w' -> later (set_names (view w) (<[b := i]> (delete a (d_names (view w))))) (view w') ->
     wpp (k true) Q w' s) ->
  wpp (call (Rename a b) ≫= k) Q w s.
Proof.
  intros Ha Hb Hd H. wp_call; [done|]. intros ok w' Hs Hh. destruct (Hh Hw) as [Hok Hw']. cbn in Hok.
  rewrite (Hok (ex_intro _ i Ha) Hb Hd) in Hs |- *. destruct Hs as (j & Hj & Hl). rewrite Ha in Hj.
  injection Hj as <-. by apply H.
Qed.

Lemma wpp_remove_ok p i (k : bool -> prog S B) :
  d_names (view w) !! p = Some i ->
  (forall w', healthy w' -> later (set_names (view w) (delete p (d_names (view w)))) (view w') -> wpp (k true) Q w' s) ->
  wpp (call (Remove p) ≫= k) Q w s.
Proof.
  intros Hp H. wp_call; [done|]. intros ok w' Hs Hh. destruct (Hh Hw) as [Hok Hw']. cbn in Hok.
  rewrite (Hok (ex_intro _ i Hp)) in Hs |- *. by apply H.
Qed.
End healthy_calls.
