(* ===== verification/AprRef.v ===== *)
(** * Reference instances of the APR interfaces

    Concrete functions that meet the laws of Apr.v and AprFile.v, to run the
    model on: a file system in memory that never fails without a cause, tables
    as lists, and a checksum in the place of MD5. *)

From S2P Require Import Prelude CNum Apr AprFile.
From Stdlib Require Import Lia.
Local Open Scope cstr_scope.

(** ** Strings *)

Definition in_chars (sep : cstr) (c : ascii) : bool := bool_decide (c ∈ sep).

Fixpoint span_token (sep s : cstr) : cstr * cstr :=
  match s with
  | [] => ([], [])
  | c :: s' =>
      if in_chars sep c then ([], s') else let '(t, r) := span_token sep s' in (c :: t, r)
  end.

Definition ref_strtok (s sep : cstr) : option (cstr * cstr) :=
  match skip_while (in_chars sep) s with
  | [] => None
  | s' => Some (span_token sep s')
  end.

Definition ref_atoi64 (s : cstr) : Z :=
  let '(neg, s1) := span_sign s in
  let v := digits_value (fst (span_digits s1)) in
  Z.max LONG_MIN (Z.min LONG_MAX (if neg then - v else v)).

Lemma skip_seps sep seps s :
  Forall (fun c => c ∈ sep) seps -> skip_while (in_chars sep) (seps ++ s) = skip_while (in_chars sep) s.
Proof.
  intros H. apply skip_while_app. eapply Forall_impl; [exact H|]. intros c Hc.
  by apply bool_decide_eq_true.
Qed.

Lemma skip_token sep tok s :
  Forall (fun c => c ∉ sep) tok -> tok <> [] -> skip_while (in_chars sep) (tok ++ s) = tok ++ s.
Proof.
  intros H Hn. destruct tok as [|c tok]; [done|]. inversion_clear H. cbn. unfold in_chars.
  by rewrite bool_decide_false.
Qed.

Lemma span_token_app sep tok s :
  Forall (fun c => c ∉ sep) tok ->
  span_token sep (tok ++ s) = (tok ++ fst (span_token sep s), snd (span_token sep s)).
Proof.
  induction 1 as [|c tok Hc _ IH]; cbn.
  - by destruct (span_token sep s).
  - unfold in_chars at 1. rewrite bool_decide_false by done. by rewrite IH.
Qed.

Lemma ref_strtok_token seps tok s sep :
  Forall (fun c => c ∈ sep) seps -> Forall (fun c => c ∉ sep) tok -> tok <> [] ->
  ref_strtok (seps ++ tok ++ s) sep = Some (tok ++ fst (span_token sep s), snd (span_token sep s)).
Proof.
  intros Hs Ht Hn. unfold ref_strtok. rewrite skip_seps, skip_token by done.
  destruct tok as [|c tok]; [done|]. cbn [app]. f_equal.
  by apply (span_token_app sep (c :: tok) s).
Qed.

Lemma ref_atoi64_dec z rest :
  in_long z = true -> match rest with [] => True | c :: _ => is_digit c = false end ->
  ref_atoi64 (dec z ++ rest) = z.
Proof.
  intros [Hl Hu]%andb_true_iff Hr. apply Z.leb_le in Hl, Hu. unfold ref_atoi64, dec.
  assert (forall n, 0 <= n -> fst (span_digits (dec_nat n ++ rest)) = dec_nat n /\
            digits_value (dec_nat n) = n)%Z as Hd.
  { intros n Hn. destruct (dec_nat_spec n Hn) as (H1 & H2 & _). by rewrite span_digits_app. }
  destruct (Z.ltb_spec z 0) as [Hz|Hz].
  - cbn [app span_sign]. change ("-"%char =? "-"%char) with true. cbn [fst snd].
    destruct (Hd (- z)%Z ltac:(lia)) as [-> ->]. lia.
  - destruct (Hd z Hz) as [E V]. destruct (dec_nat_spec z Hz) as (Hds & _ & Hn).
    destruct (dec_nat z) as [|c ds] eqn:Ed; [done|]. cbn [app].
    assert (span_sign (c :: ds ++ rest) = (false, c :: ds ++ rest)) as ->.
    { unfold span_sign. inversion_clear Hds as [|? ? Hc _].
      destruct (Ascii.eqb_spec c "-"%char) as [->|]; [discriminate Hc|].
      destruct (Ascii.eqb_spec c "+"%char) as [->|]; [discriminate Hc|done]. }
    cbn [app] in E. rewrite E, V. lia.
Qed.

#[export] Program Instance ref_strings : AprStrings := {|
  apr_pstrcat := fun ss => concat ss;
  apr_pstrndup := fun s n => take n s;
  apr_psprintf := fun args => concat (render <$> args);
  apr_strtok := ref_strtok;
  apr_atoi64 := ref_atoi64;
|}.
Next Obligation. done. Qed.
Next Obligation. done. Qed.
Next Obligation. done. Qed.
Next Obligation.
  intros seps sep H. unfold ref_strtok. by rewrite <- (app_nil_r seps), skip_seps.
Qed.
Next Obligation.
  intros seps tok sep Hs Ht Hn. rewrite <- (app_nil_r tok) at 1.
  rewrite ref_strtok_token by done. cbn. by rewrite app_nil_r.
Qed.
Next Obligation.
  intros seps tok c rest sep Hs Ht Hn Hc. rewrite ref_strtok_token by done. cbn.
  unfold in_chars. rewrite bool_decide_true by done. cbn. by rewrite app_nil_r.
Qed.
Next Obligation. intros. by apply ref_atoi64_dec. Qed.
Next Obligation.
  intros s. unfold ref_atoi64. destruct (span_sign s) as [neg s1].
  apply andb_true_iff. unfold LONG_MIN, LONG_MAX. split; apply Z.leb_le; lia.
Qed.

(** ** Tables *)

Fixpoint ref_setn (t : list (cstr * cstr)) (k v : cstr) : list (cstr * cstr) :=
  match t with
  | [] => [(k, v)]
  | e :: t' =>
      if decide (ci_eq (fst e) k) then (fst e, v) :: filter (fun e => ~ ci_eq (fst e) k) t'
      else e :: ref_setn t' k v
  end.

Definition ref_get (t : list (cstr * cstr)) (k : cstr) : option cstr :=
  snd <$> head (filter (fun e => ci_eq (fst e) k) t).

Lemma ref_get_cons e t k : ref_get (e :: t) k = if decide (ci_eq (fst e) k) then Some (snd e) else ref_get t k.
Proof. unfold ref_get. rewrite filter_cons. by destruct (decide _). Qed.

Lemma ref_setn_new t k v : ref_get t k = None -> ref_setn t k v = t ++ [(k, v)].
Proof.
  induction t as [|e t IH]; [done|]. rewrite ref_get_cons. cbn [ref_setn app].
  destruct (decide (ci_eq (fst e) k)); [done|]. intros H. by rewrite IH.
Qed.

Lemma ref_setn_same t k v : ref_get (ref_setn t k v) k = Some v.
Proof.
  induction t as [|e t IH]; cbn [ref_setn].
  - rewrite ref_get_cons. cbn. by rewrite decide_True.
  - destruct (decide (ci_eq (fst e) k)); rewrite ref_get_cons; cbn [fst snd];
      [by rewrite decide_True|by rewrite decide_False].
Qed.

Lemma filter_filter_other (t : list (cstr * cstr)) k :
  filter (fun e => ~ ci_eq (fst e) k) (filter (fun e => ~ ci_eq (fst e) k) t) =
  filter (fun e => ~ ci_eq (fst e) k) t.
Proof. rewrite list_filter_filter. apply list_filter_iff. tauto. Qed.

Lemma ref_setn_other t k v :
  filter (fun e => ~ ci_eq (fst e) k) (ref_setn t k v) = filter (fun e => ~ ci_eq (fst e) k) t.
Proof.
  induction t as [|e t IH]; cbn [ref_setn].
  - rewrite filter_cons. cbn [fst]. rewrite decide_False; [done|]. intros H. by apply H.
  - destruct (decide (ci_eq (fst e) k)) as [He|He]; rewrite !filter_cons; cbn [fst].
    + rewrite !decide_False by tauto. apply filter_filter_other.
    + rewrite !decide_True by done. by rewrite IH.
Qed.

#[export] Instance ref_tables : AprTables := {|
  table := list (cstr * cstr);
  apr_table_get := ref_get;
  apr_table_setn := ref_setn;
  table_elts := fun t => t;
  apr_table_get_spec := fun _ _ => eq_refl;
  apr_table_setn_new := ref_setn_new;
  apr_table_setn_same := ref_setn_same;
  apr_table_setn_other := ref_setn_other;
|}.

(** ** Digests and paths *)

Definition checksum (s : cstr) : Z :=
  fold_left (fun acc c => (acc * 257 + uchar c + 1) mod 2 ^ 128)%Z s 7%Z.

Fixpoint base256 (n : nat) (z : Z) : list Z :=
  match n with
  | O => []
  | S n' => (z mod 256)%Z :: base256 n' (z / 256)%Z
  end.

#[export] Program Instance ref_md5 : AprMd5 := {|
  apr_md5 := fun s => base256 APR_MD5_DIGESTSIZE (checksum s);
|}.
Next Obligation. done. Qed.
Next Obligation.
  intros s. cbn beta. generalize (checksum s), APR_MD5_DIGESTSIZE. intros z n. revert z.
  induction n as [|n IH]; intros z; cbn; constructor; [apply Z.mod_pos_bound; lia|apply IH].
Qed.

#[export] Instance ref_paths : AprPaths := {|
  apr_filepath_merge := fun root add =>
    match add with
    | "/"%char :: _ => Some add
    | _ => Some (root ++ [SLASH] ++ add)
    end;
|}.

(** ** Files *)

Definition fresh_key {A} (m : gmap nat A) : nat := S (foldr Nat.max 0 (fst <$> map_to_list m)).

Lemma fresh_key_None {A} (m : gmap nat A) : m !! fresh_key m = None.
Proof.
  destruct (m !! fresh_key m) as [x|] eqn:E; [|done]. exfalso.
  apply elem_of_map_to_list in E. unfold fresh_key in E.
  assert (forall l n, n ∈ l -> n <= foldr Nat.max 0 l) as Hmax.
  { intros l n. induction l as [|y l IH]; [set_solver|]. cbn.
    intros [->|Hn]%elem_of_cons; [lia|]. apply IH in Hn. lia. }
  apply (list_elem_of_fmap_2 fst) in E. apply Hmax in E. cbn in E. lia.
Qed.

(** The name under which [path] is a child of [dir]. *)
Definition strip_child (dir path : cstr) : option cstr :=
  let n := length dir + 1 in
  if bool_decide (take n path = dir ++ [SLASH]) && bool_decide (file_name (drop n path))
  then Some (drop n path) else None.

Lemma strip_child_spec dir path name :
  strip_child dir path = Some name <-> path = child dir name /\ file_name name.
Proof.
  unfold strip_child, child. split.
  - destruct (bool_decide (take _ _ = _)) eqn:E1; [|done].
    destruct (bool_decide (file_name _)) eqn:E2; [|done]. cbn. intros [= <-]. bool_hyps.
    split; [|done]. rewrite <- (take_drop (length dir + 1) path) at 1. rewrite E1.
    by rewrite <- app_assoc.
  - intros [-> Hn]. rewrite app_assoc.
    replace (length dir + 1) with (length (dir ++ [SLASH])) by (rewrite length_app; done).
    rewrite take_app_length, drop_app_length. by rewrite !bool_decide_true.
Qed.

Definition dir_entries (d : disk) (dir : cstr) : list dirent :=
  omap (fun q => (fun n => Dirent (Some n) false) <$> strip_child dir q)
    (fst <$> map_to_list (d_names d)) ++
  omap (fun q => (fun n => Dirent (Some n) true) <$> strip_child dir q) (elements (d_dirs d)).

Lemma strip_entries_elem b (l : list cstr) dir name isdir :
  Dirent (Some name) isdir ∈ omap (fun q => (fun n => Dirent (Some n) b) <$> strip_child dir q) l <->
  isdir = b /\ file_name name /\ child dir name ∈ l.
Proof.
  rewrite list_elem_of_omap. split.
  - intros (q & Hq & (n & Hs & [= -> ->])%fmap_Some). apply strip_child_spec in Hs as [-> Hn]. done.
  - intros (-> & Hn & Hl). exists (child dir name). split; [done|].
    apply fmap_Some. exists name. by rewrite strip_child_spec.
Qed.

Lemma strip_entries_NoDup b (l : list cstr) dir :
  NoDup l -> NoDup (omap (fun q => (fun n => Dirent (Some n) b) <$> strip_child dir q) l).
Proof.
  induction 1 as [|q l Hq _ IH]; cbn; [constructor|].
  destruct (strip_child dir q) as [n|] eqn:E; cbn; [|done]. constructor; [|done].
  apply strip_child_spec in E as [-> Hn]. by intros (_ & _ & ?)%strip_entries_elem.
Qed.

Lemma dir_entries_NoDup d dir : NoDup (dir_entries d dir).
Proof.
  unfold dir_entries. apply NoDup_app. split_and!.
  - apply strip_entries_NoDup, NoDup_fst_map_to_list.
  - intros [[n|] isdir]; [|].
    + intros (-> & _)%strip_entries_elem (? & _)%strip_entries_elem. done.
    + intros (q & _ & (n & _ & ?)%fmap_Some)%list_elem_of_omap. done.
  - apply strip_entries_NoDup, NoDup_elements.
Qed.

Lemma dir_entries_spec d dir name isdir :
  Dirent (Some name) isdir ∈ dir_entries d dir <->
  file_name name /\ entry_exists d dir (Dirent (Some name) isdir).
Proof.
  unfold dir_entries, entry_exists. cbn [de_name de_dir].
  rewrite elem_of_app, !strip_entries_elem, elem_of_elements.
  assert (child dir name ∈ fst <$> map_to_list (d_names d) <-> is_Some (d_names d !! child dir name)) as ->.
  { rewrite list_elem_of_fmap. split.
    - intros ([q i] & -> & H%elem_of_map_to_list). by exists i.
    - intros [i H]. exists (child dir name, i). split; [done|]. by apply elem_of_map_to_list. }
  destruct isdir; naive_solver.
Qed.

(** The directory in front of the last slash. *)
Definition parent_dir (path : cstr) : option cstr := before path <$> strrchr path SLASH.

Definition prefixes (p : cstr) : list cstr := (fun n => take n p) <$> seq 0 (S (length p)).

(** The directories on the way to [p], [p] included. *)
Definition ancestors (p : cstr) : list cstr :=
  filter (fun q => q = p \/ strncmp_eq (drop (length q) p) [SLASH] 1 = true) (prefixes p).

Lemma prefixes_spec p q : q ∈ prefixes p <-> exists s, p = q ++ s.
Proof.
  unfold prefixes. rewrite list_elem_of_fmap. split.
  - intros (n & -> & _). exists (drop n p). by rewrite take_drop.
  - intros [s ->]. exists (length q). rewrite take_app_length. split; [done|].
    apply elem_of_seq. rewrite length_app. lia.
Qed.

Definition ref_mktemp (d : disk) (template : cstr) : option cstr :=
  let base := take (length template - 6) template in
  let p := base ++ str "aaaaaa" in
  if bool_decide (drop (length template - 6) template = TEMPLATE)
     && bool_decide (d_names d !! p = None)
     && match parent_dir template with Some dir => bool_decide (dir ∈ d_dirs d) | None => false end
  then Some p else None.

Definition ref_run (o : op) (d : disk) : answer o * disk :=
  match o return answer o * disk with
  | OpenRead p =>
      match d_names d !! p with
      | Some i => let fd := fresh_key (d_fds d) in
                  (Some fd, set_fds d (<[fd := (i, 0)]> (d_fds d)))
      | None => (None, d)
      end
  | InfoSize fd => ((fun b => Z.of_nat (length b)) <$> fd_data d fd, d)
  | ReadFull fd n =>
      match d_fds d !! fd with
      | Some (i, off) =>
          match d_data d !! i with
          | Some data =>
              if off + n <=? length data
              then (Some (take n (drop off data)), set_fds d (<[fd := (i, off + n)]> (d_fds d)))
              else (None, set_fds d (<[fd := (i, off)]> (d_fds d)))
          | None => (None, set_fds d (<[fd := (i, off)]> (d_fds d)))
          end
      | None => (None, d)
      end
  | Close fd => (tt, set_fds d (delete fd (d_fds d)))
  | Mktemp template =>
      match ref_mktemp d template with
      | Some p =>
          let i := fresh_key (d_data d) in
          let fd := fresh_key (d_fds d) in
          (Some (p, fd),
           set_fds (set_file (set_names d (<[p := i]> (d_names d))) i [] (d_now d))
             (<[fd := (i, 0)]> (d_fds d)))
      | None => (None, d)
      end
  | WriteFull fd bytes =>
      match d_fds d !! fd with
      | Some (i, off) =>
          let data := default [] (d_data d !! i) in
          (true, set_fds (set_file d i (take off data ++ bytes ++ drop (off + length bytes) data) (d_now d))
                   (<[fd := (i, off + length bytes)]> (d_fds d)))
      | None => (false, d)
      end
  | Rename a b =>
      match d_names d !! a with
      | Some i => (true, set_names d (<[b := i]> (delete a (d_names d))))
      | None => (false, d)
      end
  | Remove p =>
      match d_names d !! p with
      | Some _ => (true, set_names d (delete p (d_names d)))
      | None => (false, d)
      end
  | Mkdirs p =>
      if bool_decide (Forall (fun q => d_names d !! q = None) (ancestors p))
      then (true, set_dirs d (list_to_set (ancestors p) ∪ d_dirs d)) else (false, d)
  | Stat p =>
      (i ← d_names d !! p; m ← d_mtime d !! i; data ← d_data d !! i;
       Some (m, Z.of_nat (length data)), d)
  | DirOpen p =>
      if bool_decide (p ∈ d_dirs d)
      then let s := fresh_key (d_streams d) in
           (Some s, set_streams d (<[s := dir_entries d p]> (d_streams d)))
      else (None, d)
  | DirRead s =>
      match d_streams d !! s with
      | Some (e :: es) => (Some e, set_streams d (<[s := es]> (d_streams d)))
      | _ => (None, d)
      end
  | DirClose s => (tt, set_streams d (delete s (d_streams d)))
  | Now => (d_now d, d)
  end.

Lemma ref_mktemp_spec d template p :
  ref_mktemp d template = Some p -> fills_template template p /\ d_names d !! p = None.
Proof.
  unfold ref_mktemp. intros H. case_match eqn:E; [|done]. injection H as <-. bool_hyps.
  split; [|done]. exists (take (length template - 6) template), (str "aaaaaa").
  split_and!; [|done|done|apply (bool_decide_unpack _); vm_compute; done..].
  match goal with H : drop _ _ = TEMPLATE |- _ => rewrite <- H end. by rewrite take_drop.
Qed.

Lemma ref_mktemp_succeeds d base :
  in_dir d (base ++ TEMPLATE) -> (forall s, d_names d !! (base ++ s) = None) ->
  is_Some (ref_mktemp d (base ++ TEMPLATE)).
Proof.
  intros (dir & name & E & Hn & Hdir) Hfree. unfold ref_mktemp.
  replace (length (base ++ TEMPLATE) - 6) with (length base)
    by (rewrite length_app; change (length TEMPLATE) with 6; lia).
  rewrite take_app_length, drop_app_length, !bool_decide_true by done.
  unfold parent_dir. rewrite E. unfold child. cbn [app].
  rewrite strrchr_app by done. cbn. rewrite before_app.
  by rewrite bool_decide_true.
Qed.

Lemma ancestors_spec p q : q ∈ ancestors p <-> on_path q p.
Proof.
  unfold ancestors, on_path. rewrite list_elem_of_filter, prefixes_spec. split.
  - intros [[->|H] [s ->]]; [by left|right]. rewrite drop_app_length in H.
    apply strncmp_eq_prefix in H as [t ->]; [|done]. by exists t.
  - intros [->|[s ->]].
    + split; [by left|]. exists []. by rewrite app_nil_r.
    + split; [right|by eexists]. rewrite drop_app_length. by apply (strncmp_eq_app [SLASH]).
Qed.

Lemma ref_run_spec d o :
  op_defined d o = true -> fs_spec d o (fst (ref_run o d)) (snd (ref_run o d)).
Proof.
  destruct o; cbn; intros Hd; bool_hyps.
  - destruct (d_names d !! path) as [i|] eqn:E; cbn; eauto using fresh_key_None with cacher.
  - split; [auto with cacher|done].
  - destruct Hd as [[i off] E]. rewrite E. destruct (d_data d !! i) as [data|] eqn:Ed; cbn.
    + destruct (Nat.leb_spec (off + n) (length data)); cbn; naive_solver auto with cacher.
    + naive_solver auto with cacher.
  - auto with cacher.
  - destruct (ref_mktemp d template) as [p|] eqn:E; cbn; [|auto with cacher].
    apply ref_mktemp_spec in E as [??]. exists (fresh_key (d_data d)), (d_now d).
    eauto 10 using fresh_key_None with cacher.
  - destruct Hd as [[i off] E]. rewrite E. cbn. exists i, off, (default [] (d_data d !! i)), (d_now d).
    split_and!; [done..|]. exists (length data).
    rewrite (take_ge data) by lia. auto with cacher.
  - destruct (d_names d !! from) eqn:E; cbn; eauto with cacher.
  - destruct (d_names d !! path) eqn:E; cbn; auto with cacher.
  - destruct (bool_decide _); cbn; [|auto with cacher].
    exists (list_to_set (ancestors path)). split_and!; [auto with cacher| |].
    + intros q Hq%elem_of_list_to_set. by apply ancestors_spec.
    + intros q Hq _. by apply elem_of_union_l, elem_of_list_to_set, ancestors_spec.
  - split; [auto with cacher|]. intros m n H.
    destruct (d_names d !! path) as [i|] eqn:E1; [|done]. cbn in H.
    destruct (d_mtime d !! i) eqn:E2; [|done]. cbn in H.
    destruct (d_data d !! i) eqn:E3; [|done]. cbn in H. naive_solver.
  - case_bool_decide; cbn; [|auto with cacher]. exists (dir_entries d path).
    split_and!; [apply fresh_key_None| | |apply dir_entries_NoDup|auto with cacher].
    + apply Forall_forall. intros [[name|] isdir] Hin; [|done]. apply dir_entries_spec in Hin.
      unfold listed. cbn [de_name]. tauto.
    + intros name isdir Hn%plain_file_name He. by apply dir_entries_spec.
  - destruct Hd as [es E]. rewrite E. destruct es as [|e es]; cbn; [auto with cacher|].
    exists [], es. auto with cacher.
  - auto with cacher.
  - split; [apply tick_refl|]. by destruct d.
Qed.

Lemma ref_run_succeeds d o : op_defined d o = true -> fs_succeeds d o (fst (ref_run o d)).
Proof.
  destruct o; cbn; intros Hd; bool_hyps; try done.
  - unfold file_at. destruct (d_names d !! path); cbn; [eauto|]. by intros [??].
  - intros [b E]. rewrite E. cbn. eauto.
  - intros i off data -> -> Hn. apply Nat.leb_le in Hn. rewrite Hn. cbn. eauto.
  - intros base -> Hdir Hfree.
    destruct (ref_mktemp_succeeds d base Hdir Hfree) as [p Hp]. cbn in *. rewrite Hp. cbn. eauto.
  - intros _. by destruct Hd as [[i off] ->].
  - by intros [i ->].
  - by intros [i ->].
  - intros H. rewrite bool_decide_true; [done|]. apply Forall_forall.
    intros q Hq%ancestors_spec. by apply H.
  - intros i -> [m Hm] [data Hd']. cbn. rewrite Hm. cbn. rewrite Hd'. cbn. eauto.
  - intros H. rewrite bool_decide_true by done. cbn. eauto.
  - intros es -> Hne. destruct es as [|e es]; [done|]. cbn. eauto.
Qed.

#[export] Program Instance ref_files : AprFiles := {|
  world := disk;
  view := fun d => d;
  run := ref_run;
  healthy := fun _ => True;
|}.
Next Obligation. intros d o H. by apply ref_run_spec. Qed.
Next Obligation. intros d o H _. split; [by apply ref_run_succeeds|done]. Qed.
