(* ===== verification/Util.v ===== *)
(** * Requests and their cookies (cacher_util.c)

    The part of a [request_rec] the program reads and writes, and the parsing
    of the Cookie header. *)

From S2P Require Import Prelude CNum CHeap Glob Rules RulesParse RulesMatch Apr AprFile AprRef.
From Stdlib Require Import Lia.
Local Open Scope cstr_scope.

(** ** Configuration records (cacher_config.h) *)

Definition CACHER_UNSET : Z := -1.

Record cacher_dir_conf := DirConf {
  dc_enabled : Z;                       (* enabled *)
  dc_admin_path : option cstr;          (* admin_path *)
  dc_admin_require_user : Z;            (* admin_require_user *)
  dc_status_header : Z;                 (* status_header *)
  dc_rules_json : option cstr;          (* rules_json *)
  dc_rules_file : option cstr;          (* rules_file *)
  dc_config_dir : option cstr;          (* config_dir *)
}.

Record cacher_svr_conf := SvrConf { sc_cache_root : option cstr }.

Section util.
Context {AS : AprStrings} {AT : AprTables}.

(** ** Requests *)

(** [r_main] says whether the request is a subrequest; [r_prev] is the
    request an internal redirect came from; [r_path] is [parsed_uri.path];
    [r_dir_conf] and [r_svr_conf] are the module's configurations. *)
Inductive request := Request {
  r_main : bool;
  r_prev : option request;
  r_uri : cstr;
  r_path : option cstr;
  r_args : option cstr;
  r_method : cstr;
  r_header_only : bool;
  r_hostname : option cstr;
  r_user : option cstr;
  r_status : Z;
  r_content_type : option cstr;
  r_headers_in : table;
  r_headers_out : table;
  r_aborted : bool;
  r_dir_conf : option cacher_dir_conf;
  r_svr_conf : option cacher_svr_conf;
}.

Definition set_status_code (r : request) (x : Z) : request :=
  Request (r_main r) (r_prev r) (r_uri r) (r_path r) (r_args r) (r_method r) (r_header_only r)
    (r_hostname r) (r_user r) x (r_content_type r) (r_headers_in r) (r_headers_out r)
    (r_aborted r) (r_dir_conf r) (r_svr_conf r).
Definition set_ctype (r : request) (x : option cstr) : request :=
  Request (r_main r) (r_prev r) (r_uri r) (r_path r) (r_args r) (r_method r) (r_header_only r)
    (r_hostname r) (r_user r) (r_status r) x (r_headers_in r) (r_headers_out r)
    (r_aborted r) (r_dir_conf r) (r_svr_conf r).
Definition set_headers_out (r : request) (x : table) : request :=
  Request (r_main r) (r_prev r) (r_uri r) (r_path r) (r_args r) (r_method r) (r_header_only r)
    (r_hostname r) (r_user r) (r_status r) (r_content_type r) (r_headers_in r) x
    (r_aborted r) (r_dir_conf r) (r_svr_conf r).

Fixpoint cacher_original_request (r : request) : request :=
  match r_prev r with
  | Some prev => cacher_original_request prev
  | None => r
  end.

Fixpoint streq_ci_loop (a b : cstr) : bool :=
  match a, b with
  | c :: a', d :: b' => if tolower c <>? tolower d then false else streq_ci_loop a' b'
  | [], [] => true
  | _, _ => false
  end.

Definition cacher_streq_ci (a b : option cstr) : bool :=
  match a, b with
  | Some a, Some b => streq_ci_loop a b
  | _, _ => false
  end.

(** ** Cookies *)

(** The name and the value of one token of the Cookie header. *)
Definition cookie_pair (pair : cstr) : option (cstr * cstr) :=
  let pair := skip_while (fun c => c =? SP) pair in
  match strchr pair "="%char with
  | Some eq => Some (before pair eq, tail eq)
  | None => None
  end.

Definition for_each_cookie {C} (r : request) (cb : cstr -> cstr -> C -> C) (ctx : C) : C :=
  match apr_table_get (r_headers_in r) (str "Cookie") with
  | None => ctx
  | Some header =>
      fold_left
        (fun ctx pair => match cookie_pair pair with
                         | Some (name, value) => cb name value ctx
                         | None => ctx
                         end)
        (tokens header [";"%char]) ctx
  end.

Definition bypass_cb (rule : cacher_rule) (name value : cstr) (bypass : bool) : bool :=
  if negb bypass && cacher_rule_bypasses_cookie (Some rule) (Some name) then true else bypass.

Definition cacher_request_bypasses (r : request) (rule : option cacher_rule) : bool :=
  match rule with
  | None => false
  | Some rule =>
      match bypass_cookies rule with
      | None => false
      | Some _ => for_each_cookie r (bypass_cb rule) false
      end
  end.

Definition lookup_cb (wanted : cstr) (name value : cstr) (found : option cstr) : option cstr :=
  match found with
  | None => if strcmp_eq name wanted then Some value else None
  | Some _ => found
  end.

Definition cacher_get_cookie (r : request) (name : cstr) : option cstr :=
  for_each_cookie r (lookup_cb name) None.

(** ** Facts *)

Lemma cacher_original_request_outermost r : r_prev (cacher_original_request r) = None.
Proof.
  revert r. fix IH 1. intros [m [prev|] ? ? ? ? ? ? ? ? ? ? ? ? ? ?]; cbn; [apply IH|done].
Qed.

Lemma streq_ci_loop_spec a b : streq_ci_loop a b = true <-> ci_eq a b.
Proof.
  unfold ci_eq. revert b. induction a as [|c a IH]; intros [|d b]; cbn; try done.
  destruct (Ascii.eqb_spec (tolower c) (tolower d)) as [->|Hn]; cbn.
  - rewrite IH. split; [by intros ->|by intros [= ->]].
  - naive_solver.
Qed.

Lemma cacher_streq_ci_spec a b : cacher_streq_ci (Some a) (Some b) = true <-> ci_eq a b.
Proof. apply streq_ci_loop_spec. Qed.

(** The cookies of a header. *)
Definition header_cookies (header : cstr) : list (cstr * cstr) :=
  omap cookie_pair (tokens header [";"%char]).

Definition request_cookies (r : request) : list (cstr * cstr) :=
  default [] (header_cookies <$> apr_table_get (r_headers_in r) (str "Cookie")).

Lemma for_each_cookie_fold {C} r cb (ctx : C) :
  for_each_cookie r cb ctx =
  fold_left (fun ctx nv => cb (fst nv) (snd nv) ctx) (request_cookies r) ctx.
Proof.
  unfold for_each_cookie, request_cookies.
  destruct (apr_table_get _ _) as [header|]; [|done]. cbn. unfold header_cookies.
  generalize (tokens header [";"%char]). intros l. revert ctx.
  induction l as [|pair l IH]; intros ctx; cbn; [done|].
  rewrite IH. by destruct (cookie_pair pair) as [[n v]|].
Qed.

Lemma bypass_fold rule l b :
  fold_left (fun ctx nv => bypass_cb rule (fst nv) (snd nv) ctx) l b =
  b || existsb (fun nv => cacher_rule_bypasses_cookie (Some rule) (Some (fst nv))) l.
Proof.
  revert b. induction l as [|[n v] l IH]; intros b; cbn [fold_left existsb].
  - by rewrite orb_false_r.
  - rewrite IH. unfold bypass_cb. cbn [fst]. destruct b; cbn; [done|].
    by destruct (cacher_rule_bypasses_cookie _ _).
Qed.

Lemma lookup_fold name l found :
  fold_left (fun ctx nv => lookup_cb name (fst nv) (snd nv) ctx) l found =
  match found with
  | Some v => Some v
  | None => snd <$> head (filter (fun nv => fst nv = name) l)
  end.
Proof.
  revert found. induction l as [|[n v] l IH]; intros found; cbn [fold_left].
  - by destruct found.
  - rewrite IH, filter_cons. unfold lookup_cb, strcmp_eq. cbn [fst].
    destruct found; [done|].
    destruct (decide (n = name)) as [->|Hn];
      [by rewrite bool_decide_true|by rewrite bool_decide_false].
Qed.

Lemma cacher_request_bypasses_iff r rule :
  cacher_request_bypasses r (Some rule) = true <->
  exists n v, (n, v) ∈ request_cookies r /\ cacher_rule_bypasses_cookie (Some rule) (Some n) = true.
Proof.
  unfold cacher_request_bypasses.
  destruct (bypass_cookies rule) as [pats|] eqn:E.
  - rewrite for_each_cookie_fold, bypass_fold. cbn [orb]. rewrite existsb_exists'. split.
    + intros ([n v] & H & Hb). eauto.
    + intros (n & v & H & Hb). by exists (n, v).
  - split; [done|]. intros (n & v & _ & Hb). unfold cacher_rule_bypasses_cookie in Hb.
    cbn in Hb. by rewrite E in Hb.
Qed.

Lemma cacher_get_cookie_first r name :
  cacher_get_cookie r name = snd <$> head (filter (fun nv => fst nv = name) (request_cookies r)).
Proof. unfold cacher_get_cookie. by rewrite for_each_cookie_fold, lookup_fold. Qed.
End util.

(** ** Cookie headers

    A header is printed from its cookies with any number of spaces in front of
    each. *)

Definition print_cookie (p : nat * (cstr * cstr)) : cstr :=
  replicate (fst p) SP ++ fst (snd p) ++ "="%char :: snd (snd p).

Fixpoint print_cookies (l : list (nat * (cstr * cstr))) : cstr :=
  match l with
  | [] => []
  | [p] => print_cookie p
  | p :: l' => print_cookie p ++ ";"%char :: print_cookies l'
  end.

(** Names and values a header can carry. *)
Definition valid_cookie (nv : cstr * cstr) : Prop :=
  ";"%char ∉ fst nv /\ "="%char ∉ fst nv /\
  match fst nv with c :: _ => c <> SP | [] => True end /\ ";"%char ∉ snd nv.

#[export] Instance valid_cookie_dec nv : Decision (valid_cookie nv).
Proof. unfold valid_cookie. destruct (fst nv); apply _. Defined.

Lemma skip_while_replicate c f k s :
  f c = true -> match s with [] => True | d :: _ => f d = false end ->
  skip_while f (replicate k c ++ s) = s.
Proof.
  intros Hc Hs. rewrite skip_while_app by by apply Forall_replicate.
  destruct s as [|d s]; cbn; [done|]. by rewrite Hs.
Qed.

Lemma cookie_pair_print p : valid_cookie (snd p) -> cookie_pair (print_cookie p) = Some (snd p).
Proof.
  destruct p as [k [n v]]. intros (Hn1 & Hn2 & Hn3 & _). cbn in *.
  unfold cookie_pair, print_cookie. cbn [fst snd].
  rewrite skip_while_replicate; [|by rewrite Ascii.eqb_refl|].
  - rewrite strchr_app by done. by rewrite before_app.
  - destruct n as [|c n]; cbn; [done|]. by apply Ascii.eqb_neq.
Qed.

Lemma print_cookie_token p :
  valid_cookie (snd p) -> Forall (fun c => c ∉ [";"%char]) (print_cookie p) /\ print_cookie p <> [].
Proof.
  destruct p as [k [n v]]. intros (Hn1 & _ & _ & Hv). cbn in *. unfold print_cookie. cbn [fst snd].
  split.
  - rewrite !Forall_app, Forall_cons, !Forall_forall. split_and!.
    + intros c Hc%elem_of_replicate. destruct Hc as [-> _]. by apply (bool_decide_unpack _).
    + set_solver.
    + by apply (bool_decide_unpack _).
    + set_solver.
  - destruct (replicate k SP); [|done]. by destruct n.
Qed.

Lemma first_named_Some (l : list (cstr * cstr)) name v :
  snd <$> head (filter (fun nv => fst nv = name) l) = Some v <->
  exists l1 l2, l = l1 ++ (name, v) :: l2 /\ name ∉ fst <$> l1.
Proof.
  induction l as [|[n u] l IH]; cbn [head].
  - split; [done|]. intros (l1 & l2 & H & _). by destruct l1.
  - rewrite filter_cons. cbn [fst]. destruct (decide (n = name)) as [->|Hn]; cbn.
    + split; [intros [= ->]; exists [], l; set_solver|].
      intros ([|p l1] & l2 & H & Hl); [by injection H as ->|]. cbn in *. injection H as <- ->. set_solver.
    + rewrite IH. split.
      * intros (l1 & l2 & -> & H). exists ((n, u) :: l1), l2. split; [done|]. cbn. set_solver.
      * intros ([|p l1] & l2 & H & Hl); [by injection H|]. cbn in *. injection H as <- ->.
        exists l1, l2. set_solver.
Qed.

Lemma first_named_None (l : list (cstr * cstr)) name :
  snd <$> head (filter (fun nv => fst nv = name) l) = None <-> name ∉ fst <$> l.
Proof.
  induction l as [|[n u] l IH]; cbn [head].
  - split; [set_solver|done].
  - rewrite filter_cons. cbn [fst]. destruct (decide (n = name)) as [->|Hn]; cbn; [set_solver|].
    rewrite IH. set_solver.
Qed.

Section cookies.
Context {AS : AprStrings} {AT : AprTables}.

Lemma header_cookies_print l :
  Forall valid_cookie (snd <$> l) -> header_cookies (print_cookies l) = snd <$> l.
Proof.
  unfold header_cookies. induction l as [|p l IH]; cbn [fmap list_fmap].
  - intros _. cbn [print_cookies]. by rewrite tokens_nil.
  - intros [Hp Hl]%Forall_cons. destruct (print_cookie_token p Hp) as [Ht Hn].
    destruct l as [|q l].
    + cbn [print_cookies]. rewrite tokens_step, <- (app_nil_l (print_cookie p)),
        apr_strtok_last by done. cbn. rewrite tokens_nil. cbn. by rewrite cookie_pair_print.
    + change (print_cookies (p :: q :: l))
        with ([] ++ print_cookie p ++ ";"%char :: print_cookies (q :: l)).
      rewrite tokens_cons by (done || set_solver). cbn [omap list_omap].
      rewrite cookie_pair_print by done. f_equal. by apply IH.
Qed.

Lemma request_cookies_print r l :
  apr_table_get (r_headers_in r) (str "Cookie") = Some (print_cookies l) ->
  Forall valid_cookie (snd <$> l) -> request_cookies r = snd <$> l.
Proof. intros E Hl. unfold request_cookies. rewrite E. cbn. by apply header_cookies_print. Qed.

(** The callback is invoked once for each cookie of a well-formed header,
    in order, with exactly its name and value. *)
Theorem for_each_cookie_roundtrip {C} r l (cb : cstr -> cstr -> C -> C) ctx :
  apr_table_get (r_headers_in r) (str "Cookie") = Some (print_cookies l) ->
  Forall valid_cookie (snd <$> l) ->
  for_each_cookie r cb ctx = fold_left (fun ctx nv => cb (fst nv) (snd nv) ctx) (snd <$> l) ctx.
Proof. intros E Hl. by rewrite for_each_cookie_fold, (request_cookies_print r l). Qed.

(** A request bypasses the cache exactly when a cookie of its header has a
    name that one of the rule's patterns covers, whatever its value and the
    spacing of the header; no other header content counts. *)
Theorem request_bypasses_correct r l rule :
  apr_table_get (r_headers_in r) (str "Cookie") = Some (print_cookies l) ->
  Forall valid_cookie (snd <$> l) -> Forall (fun nv => STAR ∉ fst nv) (snd <$> l) ->
  cacher_request_bypasses r (Some rule) = true <->
  exists nv pats pat, nv ∈ snd <$> l /\ a_bypass (view_rule rule) = Some pats /\ pat ∈ pats /\
    glob_lang false pat (fst nv).
Proof.
  intros E Hl Hstar. rewrite cacher_request_bypasses_iff, (request_cookies_print r l) by done.
  rewrite Forall_forall in Hstar. split.
  - intros (n & v & Hin & (pats & pat & H)%bypasses_cookie_iff); [|by apply (Hstar (n, v))].
    exists (n, v), pats, pat. naive_solver.
  - intros ([n v] & pats & pat & Hin & H). exists n, v. split; [done|].
    apply bypasses_cookie_iff; [by apply (Hstar (n, v))|]. exists pats, pat. naive_solver.
Qed.

(** The value found for a name is the one of the first cookie with exactly
    that name, and none is found when there is no such cookie. *)
Theorem get_cookie_correct r l name :
  apr_table_get (r_headers_in r) (str "Cookie") = Some (print_cookies l) ->
  Forall valid_cookie (snd <$> l) ->
  (forall v, cacher_get_cookie r name = Some v <->
     exists l1 l2, snd <$> l = l1 ++ (name, v) :: l2 /\ name ∉ fst <$> l1) /\
  (cacher_get_cookie r name = None <-> name ∉ fst <$> (snd <$> l)).
Proof.
  intros E Hl. rewrite cacher_get_cookie_first, (request_cookies_print r l) by done.
  generalize (snd <$> l). clear. intros l. split; [|apply first_named_None].
  apply first_named_Some.
Qed.
End cookies.

(** ** A request to run the model on *)

Definition sample_dir_conf : cacher_dir_conf :=
  DirConf 1 None CACHER_UNSET CACHER_UNSET None None None.

(** A GET request for [uri] on "site.example", with the given headers. *)
Definition sample_request (uri : string) (headers_in : list (cstr * cstr)) : request :=
  Request false None (str uri) (Some (str uri)) None (str "GET") false
    (Some (str "site.example")) None 200 None headers_in [] false (Some sample_dir_conf)
    (Some (SvrConf (Some (str "/var/cache")))).

Definition sample_cookies : list (nat * (cstr * cstr)) :=
  [(0, (str "theme", str "dark")); (1, (str "wp_login", str "bob=1")); (3, (str "theme", str "light"))].

Definition sample_cookie_request : request :=
  sample_request "/" [(str "cookie", print_cookies sample_cookies)].

Lemma for_each_cookie_roundtrip_witness :
  for_each_cookie sample_cookie_request (fun n v l => l ++ [(n, v)]) [] =
  fold_left (fun ctx nv => ctx ++ [(fst nv, snd nv)]) (snd <$> sample_cookies) [].
Proof.
  apply (for_each_cookie_roundtrip sample_cookie_request sample_cookies (fun n v l => l ++ [(n, v)]) []);
    [vm_compute; reflexivity|apply (bool_decide_unpack _); vm_compute; exact I].
Defined.

Lemma request_bypasses_correct_witness :
  cacher_request_bypasses sample_cookie_request (Some sample_rule) = true <->
  exists (nv : cstr * cstr) (pats : list cstr) (pat : cstr), nv ∈ snd <$> sample_cookies /\
    a_bypass (view_rule sample_rule) = Some pats /\ pat ∈ pats /\ glob_lang false pat (fst nv).
Proof.
  apply (request_bypasses_correct sample_cookie_request sample_cookies sample_rule);
    [vm_compute; reflexivity|apply (bool_decide_unpack _); vm_compute; exact I..].
Defined.

Lemma get_cookie_correct_witness :
  (forall v, cacher_get_cookie sample_cookie_request (str "theme") = Some v <->
     exists l1 l2, snd <$> sample_cookies = l1 ++ (str "theme", v) :: l2 /\ str "theme" ∉ fst <$> l1) /\
  (cacher_get_cookie sample_cookie_request (str "theme") = None <->
   str "theme" ∉ fst <$> (snd <$> sample_cookies)).
Proof.
  apply (get_cookie_correct sample_cookie_request sample_cookies (str "theme"));
    [vm_compute; reflexivity|apply (bool_decide_unpack _); vm_compute; exact I].
Defined.
