(* ===== verification/Config.v ===== *)
(** * Directives, their merging and the cache of rules files (cacher_config.c) *)

From S2P Require Import Prelude CNum CHeap CJson CJsonAlloc Rules RulesParse RulesMatch Apr AprFile AprRef Util.
From Stdlib Require Import Lia.
Local Open Scope cstr_scope.

(** ** Creation and merging *)

Definition cacher_create_dir_config (dir : option cstr) : cacher_dir_conf :=
  DirConf CACHER_UNSET None CACHER_UNSET CACHER_UNSET None None dir.

Definition merge_flag (add base : Z) : Z := if (add =? CACHER_UNSET)%Z then base else add.

Definition merge_ptr {A} (add base : option A) : option A :=
  match add with Some _ => add | None => base end.

Definition cacher_merge_dir_config (base add : cacher_dir_conf) : cacher_dir_conf :=
  let rules_file := merge_ptr (dc_rules_file add) (dc_rules_file base) in
  {| dc_enabled := merge_flag (dc_enabled add) (dc_enabled base);
     dc_rules_file := rules_file;
     dc_rules_json := match rules_file with
                      | Some _ => None
                      | None => merge_ptr (dc_rules_json add) (dc_rules_json base)
                      end;
     dc_config_dir := merge_ptr (dc_config_dir add) (dc_config_dir base);
     dc_admin_path := merge_ptr (dc_admin_path add) (dc_admin_path base);
     dc_admin_require_user := merge_flag (dc_admin_require_user add) (dc_admin_require_user base);
     dc_status_header := merge_flag (dc_status_header add) (dc_status_header base) |}.

Definition cacher_create_server_config : cacher_svr_conf := SvrConf None.

Definition cacher_merge_server_config (base add : cacher_svr_conf) : cacher_svr_conf :=
  SvrConf (merge_ptr (sc_cache_root add) (sc_cache_root base)).

(** ** Directives *)

Section directives.
Context {AS : AprStrings}.

Definition set_enabled (c : cacher_dir_conf) (x : Z) : cacher_dir_conf :=
  DirConf x (dc_admin_path c) (dc_admin_require_user c) (dc_status_header c)
    (dc_rules_json c) (dc_rules_file c) (dc_config_dir c).
Definition set_admin_path (c : cacher_dir_conf) (x : option cstr) : cacher_dir_conf :=
  DirConf (dc_enabled c) x (dc_admin_require_user c) (dc_status_header c)
    (dc_rules_json c) (dc_rules_file c) (dc_config_dir c).
Definition set_require_user (c : cacher_dir_conf) (x : Z) : cacher_dir_conf :=
  DirConf (dc_enabled c) (dc_admin_path c) x (dc_status_header c)
    (dc_rules_json c) (dc_rules_file c) (dc_config_dir c).
Definition set_status_header (c : cacher_dir_conf) (x : Z) : cacher_dir_conf :=
  DirConf (dc_enabled c) (dc_admin_path c) (dc_admin_require_user c) x
    (dc_rules_json c) (dc_rules_file c) (dc_config_dir c).
Definition set_rules_json (c : cacher_dir_conf) (x : option cstr) : cacher_dir_conf :=
  DirConf (dc_enabled c) (dc_admin_path c) (dc_admin_require_user c) (dc_status_header c)
    x (dc_rules_file c) (dc_config_dir c).
Definition set_rules_file (c : cacher_dir_conf) (x : option cstr) : cacher_dir_conf :=
  DirConf (dc_enabled c) (dc_admin_path c) (dc_admin_require_user c) (dc_status_header c)
    (dc_rules_json c) x (dc_config_dir c).

Definition is_blank (c : ascii) : bool := (c =? SP) || (c =? TAB).

(** The length of [start] without the blanks at its end. *)
Fixpoint trim_len (rstart : cstr) : nat :=
  match rstart with
  | c :: rstart' => if is_blank c then trim_len rstart' else length rstart
  | [] => 0
  end.

(** The text of a raw-args directive without one pair of quotes. *)
Definition unquote_args (args : cstr) : cstr :=
  let start := skip_while is_blank args in
  let len := trim_len (reverse start) in
  let quoted :=
    (2 <=? len) &&
    match start !! 0, start !! (len - 1) with
    | Some q, Some e => ((q =? SQUOTE) || (q =? DQUOTE)) && (e =? q)
    | _, _ => false
    end in
  if quoted then apr_pstrndup (tail start) (len - 2) else apr_pstrndup start len.

Definition cacher_set_enable (c : cacher_dir_conf) (flag : bool) : cacher_dir_conf :=
  set_enabled c (if flag then 1 else 0)%Z.

Definition cacher_set_rules (c : cacher_dir_conf) (args : cstr) : cacher_dir_conf :=
  set_rules_json c (Some (unquote_args args)).

Definition cacher_set_rules_file (c : cacher_dir_conf) (arg : cstr) : cacher_dir_conf :=
  set_rules_file c (Some arg).

Definition cacher_set_cache_root (c : cacher_svr_conf) (arg : cstr) : cacher_svr_conf :=
  SvrConf (Some arg).

(** The configuration, or the message of a rejected argument. *)
Definition cacher_set_admin_path (c : cacher_dir_conf) (arg : cstr) : cacher_dir_conf + cstr :=
  match arg with
  | "/"%char :: _ => inl (set_admin_path c (Some arg))
  | _ => inr (str "CacherAdminPath must start with '/'")
  end.

Definition cacher_set_admin_require_user (c : cacher_dir_conf) (flag : bool) : cacher_dir_conf :=
  set_require_user c (if flag then 1 else 0)%Z.

Definition cacher_set_status_header (c : cacher_dir_conf) (flag : bool) : cacher_dir_conf :=
  set_status_header c (if flag then 1 else 0)%Z.
End directives.

(** ** The cache of parsed rules files *)

Record cacher_rules_cache_entry := CacheEntry {
  ce_path : cstr;
  ce_mtime : Z;
  ce_size : Z;
  ce_ruleset : option cacher_ruleset;
}.

(** [global_error] of cJSON.c: the text and the position in it.  A text is known
    by its number in the order in which texts came to [cJSON_Parse]. *)
Record error := Error { err_json : option nat; err_position : nat }.

(** The memory of a child process: its heap, whether [rules_cache_mutex] was
    created, the list at [rules_cache_head], cJSON's [global_error], and how
    many texts were parsed. *)
Record pstate := PState {
  ps_heap : heap;
  ps_mutex : bool;
  ps_cache : list cacher_rules_cache_entry;
  ps_error : error;
  ps_texts : nat;
}.

Definition set_heap (s : pstate) (h : heap) : pstate :=
  PState h (ps_mutex s) (ps_cache s) (ps_error s) (ps_texts s).
Definition set_cache (s : pstate) (l : list cacher_rules_cache_entry) : pstate :=
  PState (ps_heap s) (ps_mutex s) l (ps_error s) (ps_texts s).
Definition set_error (s : pstate) (e : error) : pstate :=
  PState (ps_heap s) (ps_mutex s) (ps_cache s) e (ps_texts s).

(** The effect of [cacher_config_child_init], when creating the mutex has
    the given outcome. *)
Definition cacher_config_child_init (created : bool) (s : pstate) : pstate :=
  PState (ps_heap s) created [] (ps_error s) (ps_texts s).

Definition cache_lookup (l : list cacher_rules_cache_entry) (path : cstr)
    : option cacher_rules_cache_entry :=
  head (filter (fun e => ce_path e = path) l).

(** The first critical section: the rule set of an entry that is up to date. *)
Definition cache_hit (path : cstr) (mtime size : Z) (s : pstate)
    : option (option (option cacher_ruleset) * pstate) :=
  Some (match cache_lookup (ps_cache s) path with
        | Some e => if (ce_mtime e =? mtime)%Z && (ce_size e =? size)%Z
                    then Some (ce_ruleset e) else None
        | None => None
        end, s).

(** The entry of [path] is replaced in place, or added in front. *)
Fixpoint cache_replace (l : list cacher_rules_cache_entry) (e : cacher_rules_cache_entry)
    : list cacher_rules_cache_entry :=
  match l with
  | [] => []
  | e' :: l' => if decide (ce_path e' = ce_path e) then e :: l' else e' :: cache_replace l' e
  end.

(** The second critical section. *)
Definition cache_store (e : cacher_rules_cache_entry) (s : pstate) : option (unit * pstate) :=
  Some (tt, set_cache s
              (match cache_lookup (ps_cache s) (ce_path e) with
               | None => e :: ps_cache s
               | Some _ => cache_replace (ps_cache s) e
               end)).

(** A computation on the heap is one step of the process. *)
Definition on_heap {A} (m : M A) : prog pstate A :=
  mem (fun s => match m (ps_heap s) with
                | Some (a, h) => Some (a, set_heap s h)
                | None => None
                end).

(** *** A parse among other threads

    cJSON keeps the place of the last error in a static of its own, without a
    lock.  Each load and each store of one of its two words is a step. *)

(** [global_error.json = NULL], for a text that comes to be parsed. *)
Definition reset_json (s : pstate) : option (nat * pstate) :=
  Some (ps_texts s, PState (ps_heap s) (ps_mutex s) (ps_cache s)
                      (Error None (err_position (ps_error s))) (S (ps_texts s))).

Definition write_json (text : nat) (s : pstate) : option (unit * pstate) :=
  Some (tt, set_error s (Error (Some text) (err_position (ps_error s)))).

Definition write_position (position : nat) (s : pstate) : option (unit * pstate) :=
  Some (tt, set_error s (Error (err_json (ps_error s)) position)).

Definition read_json (s : pstate) : option (option nat * pstate) := Some (err_json (ps_error s), s).

(** [json + position], where [json] was loaded before, as the [ep] of a [%.40s]:
    NULL without an offset is replaced there, and an offset in the text [json]
    of this parse, [own], can be read.  NULL with an offset cannot, and neither
    can a text of another request, whose pool may be gone by now. *)
Definition read_text (own : nat) (json : cstr) (text : option nat) (s : pstate)
    : option (option cstr * pstate) :=
  let position := err_position (ps_error s) in
  match text with
  | None => if (position =? 0)%nat then Some (None, s) else None
  | Some t => if (t =? own)%nat && (position <=? length json)%nat
              then Some (Some (text_at json position), s) else None
  end.

Definition cJSON_GetErrorPtr (own : nat) (json : cstr) : prog pstate (option cstr) :=
  text ← mem read_json; mem (read_text own json text).

(** [cacher_ruleset_parse], with a buffer of 256 bytes for the message. *)
Definition parse_in_process (json : cstr) : prog pstate (option cacher_ruleset * option cstr) :=
  own ← mem reset_json;
  _ ← mem (write_position 0);
  '(rs, e) ← on_heap (parse_ruleset (Some json));
  ep ← match e with
       | SYNTAX position =>
           _ ← mem (write_json own);
           _ ← mem (write_position position);
           cJSON_GetErrorPtr own json
       | _ => mret None
       end;
  mret (rs, error_message (Some 256) e ep).

(** Logging [errbuf] with [%s]: undefined when nothing was written to it. *)
Definition log_errbuf (errbuf : option cstr) : prog pstate unit :=
  match errbuf with Some _ => mret tt | None => Undef end.

Section get_ruleset.
Context {AP : AprPaths}.

Definition resolve_rules_file_path (dconf : cacher_dir_conf) (rules_file : cstr) : option cstr :=
  match dc_config_dir dconf with
  | None => None
  | Some config_dir => apr_filepath_merge config_dir rules_file
  end.

Definition parse_or_log (json : cstr) : prog pstate (option cacher_ruleset) :=
  '(fresh, errbuf) ← parse_in_process json;
  match fresh with
  | None => _ ← log_errbuf errbuf; mret None
  | Some _ => mret fresh
  end.

(** A cache miss: read, parse and remember the file. *)
Definition load_ruleset (path : cstr) (mtime size : Z) : prog pstate (option cacher_ruleset) :=
  f ← call (OpenRead path);
  match f with
  | None => mret None
  | Some f =>
      bytes ← call (ReadFull f (Z.to_nat size));
      match bytes with
      | None => _ ← call (Close f); mret None
      | Some buf =>
          _ ← call (Close f);
          fresh ← parse_or_log (c_str buf);
          _ ← mem (cache_store (CacheEntry path mtime size fresh));
          mret fresh
      end
  end.

Definition get_ruleset_from_file (dconf : cacher_dir_conf) (rules_file : cstr)
    : prog pstate (option cacher_ruleset) :=
  mutex ← mem (fun s => Some (ps_mutex s, s));
  if negb mutex then mret None
  else match resolve_rules_file_path dconf rules_file with
  | None => mret None
  | Some path =>
      finfo ← call (Stat path);
      match finfo with
      | None => mret None
      | Some (mtime, size) =>
          entry ← mem (cache_hit path mtime size);
          match entry with
          | Some cached => mret cached
          | None => load_ruleset path mtime size
          end
      end
  end.

(** The rule set, and the rule sets the pool of the request frees at its
    end. *)
Definition cacher_config_get_ruleset (dconf : option cacher_dir_conf)
    : prog pstate (option cacher_ruleset * list cacher_ruleset) :=
  match dconf with
  | None => mret (None, [])
  | Some dconf =>
      match dc_rules_file dconf with
      | Some rules_file => rs ← get_ruleset_from_file dconf rules_file; mret (rs, [])
      | None =>
          match dc_rules_json dconf with
          | Some json => fresh ← parse_or_log json; mret (fresh, option_list fresh)
          | None => mret (None, [])
          end
      end
  end.

(** [cleanup_ruleset], for every cleanup registered on the pool. *)
Fixpoint cleanup_rulesets (l : list cacher_ruleset) : M unit :=
  match l with
  | [] => mret tt
  | rs :: l' => _ ← cacher_ruleset_free (Some rs); cleanup_rulesets l'
  end.
End get_ruleset.

(** ** Equivalent configurations *)

(** An inline rule set is irrelevant once a rules file is set. *)
Record conf_equiv (a b : cacher_dir_conf) : Prop := {
  ce_enabled : dc_enabled a = dc_enabled b;
  ce_admin_path : dc_admin_path a = dc_admin_path b;
  ce_require_user : dc_admin_require_user a = dc_admin_require_user b;
  ce_status_header : dc_status_header a = dc_status_header b;
  ce_config_dir : dc_config_dir a = dc_config_dir b;
  ce_rules_file : dc_rules_file a = dc_rules_file b;
  ce_rules_json : dc_rules_file a = None -> dc_rules_json a = dc_rules_json b;
}.

#[export] Instance conf_equiv_equivalence : Equivalence conf_equiv.
Proof.
  split.
  - intros a. by split.
  - intros a b []. split; try done. rewrite <- ce_rules_file0. intros H. symmetry. auto.
  - intros a b c [] []. split; try congruence. intros H. rewrite ce_rules_json0 by done.
    apply ce_rules_json1. congruence.
Qed.

#[export] Instance cacher_merge_dir_config_proper :
  Proper (conf_equiv ==> conf_equiv ==> conf_equiv) cacher_merge_dir_config.
Proof.
  intros a a' Ha b b' Hb. destruct Ha, Hb. split; cbn; try congruence.
  rewrite ce_rules_file0, ce_rules_file1 in *.
  destruct (dc_rules_file b'), (dc_rules_file a'); cbn; try done. intros _.
  by rewrite ce_rules_json0, ce_rules_json1.
Qed.

Lemma merge_flag_assoc a b c : merge_flag c (merge_flag b a) = merge_flag (merge_flag c b) a.
Proof. unfold merge_flag. destruct (Z.eqb_spec c CACHER_UNSET); [done|]. by destruct (Z.eqb_spec c CACHER_UNSET). Qed.

Lemma merge_ptr_assoc {A} (a b c : option A) :
  merge_ptr c (merge_ptr b a) = merge_ptr (merge_ptr c b) a.
Proof. by destruct c. Qed.

Lemma merge_flag_unset a : merge_flag a CACHER_UNSET = a.
Proof. unfold merge_flag. by destruct (Z.eqb_spec a CACHER_UNSET). Qed.

Lemma merge_ptr_none {A} (a : option A) : merge_ptr a None = a.
Proof. by destruct a. Qed.

(** The configuration httpd builds for a chain of directories. *)
Definition merge_chain (base : cacher_dir_conf) (l : list cacher_dir_conf) : cacher_dir_conf :=
  fold_left cacher_merge_dir_config l base.

(** [x] is the value of the innermost level that sets one. *)
Definition innermost {A} (unset : A) (l : list A) (x : A) : Prop :=
  exists l1 l2, l = l1 ++ x :: l2 /\ Forall (fun y => y = unset) l2.

Lemma merge_chain_field {A} (f : cacher_dir_conf -> A) (merge : A -> A -> A) base l :
  (forall a b, f (cacher_merge_dir_config a b) = merge (f b) (f a)) ->
  f (merge_chain base l) = fold_left (fun acc x => merge x acc) (f <$> l) (f base).
Proof.
  intros H. unfold merge_chain. revert base.
  induction l as [|c l IH]; intros base; cbn; [done|]. by rewrite IH, H.
Qed.

Lemma innermost_snoc {A} (unset : A) l y x :
  x <> unset ->
  innermost unset (l ++ [y]) x <-> x = y \/ (y = unset /\ innermost unset l x).
Proof.
  intros Hx. split.
  - intros (l1 & l2 & E & H). destruct l2 as [|z l2 _] using rev_ind.
    + apply app_inj_tail in E as [_ E]. by left.
    + rewrite app_comm_cons, app_assoc in E. apply app_inj_tail in E as [-> <-].
      apply Forall_app in H as [H Hy]. inversion_clear Hy. right. split; [done|]. by exists l1, l2.
  - intros [->|(-> & l1 & l2 & -> & H)]; [by exists l, []|].
    exists l1, (l2 ++ [unset]). rewrite <- app_assoc. split; [done|].
    apply Forall_app. by split; [|constructor].
Qed.

(** A fold that keeps the last value but [unset] computes the innermost one. *)
Lemma fold_innermost {A} (unset : A) (merge : A -> A -> A) l b x :
  (forall y acc, (y = unset /\ merge y acc = acc) \/ (y <> unset /\ merge y acc = y)) ->
  x <> unset ->
  fold_left (fun acc y => merge y acc) l b = x <-> innermost unset (b :: l) x.
Proof.
  intros Hm Hx. induction l as [|y l IH] using rev_ind.
  - cbn. rewrite (innermost_snoc unset [] b x) by done. split; [by left|].
    intros [->|(_ & l1 & l2 & E & _)]; [done|]. by destruct l1.
  - rewrite fold_left_app, app_comm_cons, innermost_snoc by done. cbn.
    destruct (Hm y (fold_left (fun acc y => merge y acc) l b)) as [[-> ->]|[Hy ->]].
    + rewrite IH. naive_solver.
    + naive_solver.
Qed.

Lemma merge_flag_cases y acc :
  (y = CACHER_UNSET /\ merge_flag y acc = acc) \/ (y <> CACHER_UNSET /\ merge_flag y acc = y).
Proof. unfold merge_flag. destruct (Z.eqb_spec y CACHER_UNSET); auto. Qed.

Lemma merge_ptr_cases {A} (y acc : option A) :
  (y = None /\ merge_ptr y acc = acc) \/ (y <> None /\ merge_ptr y acc = y).
Proof. destruct y; [right|left]; done. Qed.

(** ** Quotes of a raw argument *)

Definition is_quote (c : ascii) : Prop := c = SQUOTE \/ c = DQUOTE.

#[export] Instance is_quote_dec c : Decision (is_quote c).
Proof. unfold is_quote. apply _. Defined.

(** [t] starts and ends with a character that is no blank. *)
Definition trimmed (t : cstr) : Prop :=
  forall c, head t = Some c \/ last t = Some c -> is_blank c = false.

Lemma trim_len_spec t pad :
  trimmed t -> Forall (fun c => is_blank c = true) pad -> trim_len (reverse (t ++ pad)) = length t.
Proof.
  intros Ht Hp. rewrite reverse_app. apply Forall_reverse in Hp. rewrite <- (reverse_involutive t) at 2.
  rewrite length_reverse. assert (forall c, head (reverse t) = Some c -> is_blank c = false) as Hh.
  { intros c Hc. apply Ht. right. by rewrite <- head_reverse. }
  revert Hp. generalize (reverse pad). clear pad. intros pad Hp.
  induction Hp as [|c l Hc _ IH]; cbn.
  - destruct (reverse t) as [|c r]; cbn; [done|]. by rewrite Hh.
  - by rewrite Hc.
Qed.

Lemma skip_trimmed pad t rest :
  trimmed t -> t <> [] -> Forall (fun c => is_blank c = true) pad ->
  skip_while is_blank (pad ++ t ++ rest) = t ++ rest.
Proof.
  intros Ht Hn Hp. rewrite skip_while_app by done. destruct t as [|c t]; [done|]. cbn.
  by rewrite (Ht c) by auto.
Qed.

Lemma lookup_closing {A} (q e : A) t pad : (q :: (t ++ [e]) ++ pad) !! S (length t) = Some e.
Proof. rewrite <- app_assoc. by apply (list_lookup_middle (q :: t)). Qed.

Section unquote.
Context {AS : AprStrings}.

Lemma unquote_args_trimmed pad t pad' :
  trimmed t -> Forall (fun c => is_blank c = true) pad -> Forall (fun c => is_blank c = true) pad' ->
  unquote_args (pad ++ t ++ pad') =
  match t with
  | q :: t' => if decide (is_quote q /\ last t' = Some q) then removelast t' else t
  | [] => []
  end.
Proof.
  intros Ht Hp Hp'. unfold unquote_args. destruct t as [|q t].
  - cbn [app]. rewrite <- (app_nil_r (pad ++ pad')), skip_while_app by by apply Forall_app.
    cbn. by rewrite apr_pstrndup_spec.
  - rewrite skip_trimmed, trim_len_spec by done. rewrite !apr_pstrndup_spec, !take_app_length.
    cbn [lookup list_lookup app length tail].
    destruct (decide (is_quote q /\ last t = Some q)) as [[Hq Hl]|Hn].
    + destruct t as [|e t _] using rev_ind; [done|]. rewrite last_snoc in Hl. injection Hl as ->.
      rewrite length_app. cbn [length]. rewrite Nat.add_1_r. cbn [Nat.leb andb Nat.sub].
      rewrite Nat.sub_0_r, lookup_closing, <- app_assoc.
      assert ((q =? SQUOTE) || (q =? DQUOTE) = true) as ->.
      { unfold is_quote in Hq. char_case; naive_solver. }
      rewrite Ascii.eqb_refl. cbn. rewrite removelast_last. by rewrite take_app_length.
    + destruct (_ && _) eqn:E; [|done]. exfalso. apply Hn. clear Hn.
      apply andb_true_iff in E as [E1 E2]. apply Nat.leb_le in E1.
      destruct t as [|e t _] using rev_ind; [cbn in E1; lia|].
      rewrite length_app in E2. cbn [length] in E2. rewrite Nat.add_1_r in E2. cbn [Nat.sub] in E2.
      rewrite lookup_closing in E2.
      apply andb_true_iff in E2 as [Eq Ee]. apply Ascii.eqb_eq in Ee as ->.
      rewrite last_snoc. split; [|done]. unfold is_quote.
      apply orb_true_iff in Eq as [->%Ascii.eqb_eq| ->%Ascii.eqb_eq]; auto.
Qed.
End unquote.

(** ** The cache of rules files is coherent *)

(** The file at [path]: when it was modified, and its bytes. *)
Definition rules_file_at (d : disk) (path : cstr) (mtime : Z) (data : list ascii) : Prop :=
  exists i, d_names d !! path = Some i /\ d_mtime d !! i = Some mtime /\ d_data d !! i = Some data.

Lemma rules_file_at_same d d' path mtime data :
  same_files d d' -> rules_file_at d path mtime data -> rules_file_at d' path mtime data.
Proof. unfold rules_file_at. by intros (-> & -> & -> & _). Qed.

(** [rs] is what parsing the file of content [data] gives. *)
Definition parsed_from (data : list ascii) (rs : option cacher_ruleset) : Prop :=
  exists vs, rules_of_document (c_str data) = Some vs /\ rs ≫= view_ruleset = vs.

(** [content] says what a path held at each modification time and size. *)
Definition cache_ok (content : cstr -> Z -> Z -> list ascii) (l : list cacher_rules_cache_entry) : Prop :=
  Forall (fun e => parsed_from (content (ce_path e) (ce_mtime e) (ce_size e)) (ce_ruleset e)) l /\
  NoDup (ce_path <$> l).

Lemma cache_lookup_cons e l path :
  cache_lookup (e :: l) path = if decide (ce_path e = path) then Some e else cache_lookup l path.
Proof. unfold cache_lookup. rewrite filter_cons. by destruct (decide _). Qed.

Lemma cache_lookup_Some l path e : cache_lookup l path = Some e -> e ∈ l /\ ce_path e = path.
Proof.
  induction l as [|e' l IH]; [done|]. rewrite cache_lookup_cons.
  destruct (decide _); [intros [= ->]; set_solver|]. intros [? ?]%IH. set_solver.
Qed.

Lemma cache_lookup_None l path : cache_lookup l path = None -> path ∉ ce_path <$> l.
Proof.
  induction l as [|e l IH]; [set_solver|]. rewrite cache_lookup_cons.
  destruct (decide _); [done|]. intros ?%IH. set_solver.
Qed.

Lemma cache_replace_paths l e : ce_path <$> cache_replace l e = ce_path <$> l.
Proof. induction l as [|e' l IH]; cbn; [done|]. destruct (decide _) as [E|]; cbn; congruence. Qed.

Lemma cache_replace_Forall P l e : P e -> Forall P l -> Forall P (cache_replace l e).
Proof. induction 2; cbn; [constructor|]. destruct (decide _); by constructor. Qed.

Lemma cache_replace_lookup l e e' :
  cache_lookup l (ce_path e) = Some e' -> cache_lookup (cache_replace l e) (ce_path e) = Some e.
Proof.
  induction l as [|e'' l IH]; [done|]. rewrite cache_lookup_cons. cbn.
  destruct (decide _); rewrite cache_lookup_cons; [by rewrite decide_True|by rewrite decide_False].
Qed.

Lemma cache_store_ok content e s s' :
  cache_store e s = Some (tt, s') -> cache_ok content (ps_cache s) ->
  parsed_from (content (ce_path e) (ce_mtime e) (ce_size e)) (ce_ruleset e) ->
  cache_ok content (ps_cache s') /\ cache_lookup (ps_cache s') (ce_path e) = Some e.
Proof.
  intros [= <-] [Hf Hn] He. cbn. destruct (cache_lookup (ps_cache s) (ce_path e)) as [e'|] eqn:E.
  - split; [split|by eapply cache_replace_lookup].
    + by apply cache_replace_Forall.
    + by rewrite cache_replace_paths.
  - split; [split; [by constructor|]|].
    + cbn. constructor; [by apply cache_lookup_None|done].
    + rewrite cache_lookup_cons. by rewrite decide_True.
Qed.

(** The entry is found afterwards, and the others as before. *)
Lemma cache_replace_others l e q :
  q <> ce_path e -> cache_lookup (cache_replace l e) q = cache_lookup l q.
Proof.
  intros Hq. induction l as [|e' l IH]; [done|]. cbn. destruct (decide _) as [E|]; rewrite !cache_lookup_cons.
  - by rewrite !decide_False by congruence.
  - by rewrite IH.
Qed.

Lemma cache_store_lookup e s s' :
  cache_store e s = Some (tt, s') ->
  cache_lookup (ps_cache s') (ce_path e) = Some e /\
  (forall q, q <> ce_path e -> cache_lookup (ps_cache s') q = cache_lookup (ps_cache s) q) /\
  ps_mutex s' = ps_mutex s /\ ps_heap s' = ps_heap s.
Proof.
  intros [= <-]. cbn. destruct (cache_lookup (ps_cache s) (ce_path e)) as [e'|] eqn:E.
  - split_and!; [by eapply cache_replace_lookup|intros q; by apply cache_replace_others|done..].
  - split_and!; [rewrite cache_lookup_cons; by rewrite decide_True| |done..].
    intros q Hq. rewrite cache_lookup_cons. by rewrite decide_False by congruence.
Qed.

Section rules_cache.
Context {AP : AprPaths} {AF : AprFiles}.

(** A thread that nobody disturbs parses as [cacher_ruleset_parse] says. *)
Lemma parse_in_process_alone json w s :
  match cacher_ruleset_parse (Some json) (Some 256) (ps_heap s) with
  | Some (r, h) => exists e, exec (parse_in_process json) w s
      = Some (r, w, PState h (ps_mutex s) (ps_cache s) e (S (ps_texts s)))
  | None => exec (parse_in_process json) w s = None
  end.
Proof.
  unfold cacher_ruleset_parse, parse_in_process, mbind at 1, M_bind at 1.
  cbn [exec mem mbind prog_bind reset_json write_position on_heap set_error ps_heap].
  destruct (parse_ruleset (Some json) (ps_heap s)) as [[[rs e] h]|] eqn:E; [|done].
  destruct e as [| |position|]; cbn; try by eexists.
  apply parse_ruleset_position, Nat.leb_le in E. rewrite Nat.eqb_refl, E. cbn. by eexists.
Qed.

(** Parsing on a reliable heap is defined, also when it logs an error. *)
Lemma wpp_parse_or_log json vs (Q : option cacher_ruleset -> world -> pstate -> Prop) w s :
  heap_wf (ps_heap s) -> reliable (ps_heap s) -> (Z.of_nat (length json) < INT_MAX)%Z ->
  rules_of_document json = Some vs ->
  (forall rs h' e, rs ≫= view_ruleset = vs -> owns (ps_heap s) h' (opt_ruleset_blks rs) ->
     Q rs w (PState h' (ps_mutex s) (ps_cache s) e (S (ps_texts s)))) ->
  wpp (parse_or_log json) Q w s.
Proof.
  intros Hwf Hr Hl Hvs HQ. unfold parse_or_log. apply wpp_bind. pose proof (parse_in_process_alone json w s) as Ha.
  destruct (wp_run _ _ _ (cacher_ruleset_parse_builds json (Some 256) vs _ Hwf Hl Hvs))
    as ([rs err] & h' & E & Ho & Hv & He). specialize (Hv Hr).
  rewrite E in Ha. destruct Ha as [e Ha]. unfold wpp at 1. rewrite Ha. destruct rs as [rs|].
  - apply wpp_ret. by apply HQ.
  - cbn in Hv. destruct (He (eq_sym Hv)) as [msg ->]. cbn [write_error log_errbuf].
    apply wpp_ret. by apply HQ.
Qed.

(** What loading a file that can be read and parsed leaves behind: the rule set
    of its content, remembered with the stamp. *)
Definition remembered (path : cstr) (mtime size : Z) (w : world) (s : pstate) (rs : option cacher_ruleset)
    (w' : world) (s' : pstate) : Prop :=
  owns (ps_heap s) (ps_heap s') (opt_ruleset_blks rs) /\ same_files (view w) (view w') /\ healthy w' /\
  exists s1, ps_cache s1 = ps_cache s /\ ps_mutex s1 = ps_mutex s /\
    cache_store (CacheEntry path mtime size rs) s1 = Some (tt, s').

Lemma wpp_load_fresh path mtime data vs w s :
  healthy w -> heap_wf (ps_heap s) -> reliable (ps_heap s) ->
  rules_file_at (view w) path mtime data -> (Z.of_nat (length data) < INT_MAX)%Z ->
  rules_of_document (c_str data) = Some vs ->
  wpp (load_ruleset path mtime (Z.of_nat (length data)))
    (fun rs w' s' => rs ≫= view_ruleset = vs /\
       remembered path mtime (Z.of_nat (length data)) w s rs w' s') w s.
Proof.
  intros Hh Hwf Hr (i & Hi & Hmt & Hd) Hl Hvs. unfold load_ruleset.
  wp_call; [done|]. intros a w1 Ho Hh1. destruct (Hh1 Hh) as [Hs Hw1]. cbn in Ho, Hs.
  destruct a as [f|].
  2: { destruct Hs as [? [=]]. unfold file_at. rewrite Hi. cbn. eauto. }
  destruct Ho as (j & Hj & Hfree & Ho). rewrite Hi in Hj. injection Hj as <-. destruct Ho as (t & Ht & Ho).
  wp_call.
  { rewrite Ho. cbn. apply bool_decide_eq_true. rewrite lookup_insert_eq. eauto. }
  intros a w2 Hrd Hh2. destruct (Hh2 Hw1) as [Hs2 Hw2]. cbn in Hrd, Hs2. rewrite Ho in Hrd, Hs2.
  cbn in Hrd, Hs2. rewrite Nat2Z.id in *. destruct a as [buf|].
  2: { destruct (Hs2 i 0 data) as [? [=]]; [by rewrite lookup_insert_eq|done|lia]. }
  destruct Hrd as (j & off & data' & Hj & Hd' & Hle & -> & Hlat). rewrite lookup_insert_eq in Hj.
  injection Hj as <- <-. rewrite Hd in Hd'. injection Hd' as <-. cbn in Hlat.
  destruct Hlat as (t2 & Ht2 & Hv2).
  wp_call.
  { rewrite Hv2. cbn. apply bool_decide_eq_true. rewrite lookup_insert_eq. eauto. }
  intros [] w3 Hcl Hh3. destruct (Hh3 Hw2) as [_ Hw3]. cbn in Hcl. rewrite Hv2 in Hcl. cbn in Hcl.
  destruct Hcl as (t3 & Ht3 & Hv3).
  assert (same_files (view w) (view w3)) as Hsame.
  { rewrite Hv3. unfold same_files. cbn. split_and!; try done.
    rewrite !insert_insert_eq, delete_insert_id by done. done. }
  rewrite drop_0, firstn_all. apply wpp_bind. eapply wpp_parse_or_log; [done..|idtac|exact Hvs|].
  { pose proof (c_str_length data). lia. }
  intros rs h' e Hrs Howns. apply wpp_bind. eapply wpp_mem; [done|]. apply wpp_ret. split; [done|].
  split_and!; [done..|]. by exists (PState h' (ps_mutex s) (ps_cache s) e (S (ps_texts s))).
Qed.
End rules_cache.

(** The choice of a rule set does not tell equivalent configurations apart. *)
Lemma get_ruleset_equiv {AP : AprPaths} a b :
  conf_equiv a b -> cacher_config_get_ruleset (Some a) = cacher_config_get_ruleset (Some b).
Proof.
  intros []. unfold cacher_config_get_ruleset. rewrite ce_rules_file0.
  destruct (dc_rules_file b) as [f|].
  - unfold get_ruleset_from_file, resolve_rules_file_path. by rewrite ce_config_dir0.
  - by rewrite ce_rules_json0.
Qed.

(** ** Properties *)

(** Merging configurations is associative, and up to the equivalence that
    forgets an inline rule set behind a rules file, a level that sets nothing
    changes nothing, above or below. *)
Theorem merge_monoid a b c :
  cacher_merge_dir_config (cacher_merge_dir_config a b) c =
    cacher_merge_dir_config a (cacher_merge_dir_config b c) /\
  conf_equiv (cacher_merge_dir_config (cacher_create_dir_config None) a) a /\
  conf_equiv (cacher_merge_dir_config a (cacher_create_dir_config None)) a.
Proof.
  split_and!.
  - unfold cacher_merge_dir_config. cbn. rewrite !merge_flag_assoc, !merge_ptr_assoc. f_equal.
    destruct (dc_rules_file c), (dc_rules_file b), (dc_rules_file a); cbn; try done.
    by destruct (dc_rules_json c).
  - split; cbn; rewrite ?merge_flag_unset, ?merge_ptr_none; try done. by intros ->.
  - split; cbn; try done. by intros ->.
Qed.

(** C34: along a chain of directories the innermost level that sets a directive
    decides it, and a rules file set at any level wins over every inline rule
    set of the chain. *)
Theorem merge_chain_innermost base l :
  (forall x, x <> CACHER_UNSET ->
     (dc_enabled (merge_chain base l) = x <-> innermost CACHER_UNSET (dc_enabled <$> base :: l) x) /\
     (dc_admin_require_user (merge_chain base l) = x <->
        innermost CACHER_UNSET (dc_admin_require_user <$> base :: l) x) /\
     (dc_status_header (merge_chain base l) = x <->
        innermost CACHER_UNSET (dc_status_header <$> base :: l) x)) /\
  (forall p,
     (dc_admin_path (merge_chain base l) = Some p <->
        innermost None (dc_admin_path <$> base :: l) (Some p)) /\
     (dc_rules_file (merge_chain base l) = Some p <->
        innermost None (dc_rules_file <$> base :: l) (Some p))) /\
  (l = [] \/ dc_rules_file (merge_chain base l) = None \/ dc_rules_json (merge_chain base l) = None).
Proof.
  split_and!.
  - intros x Hx. rewrite !(merge_chain_field _ merge_flag) by done.
    rewrite !(fold_innermost CACHER_UNSET merge_flag) by (apply merge_flag_cases || done). done.
  - intros p. rewrite !(merge_chain_field _ merge_ptr) by done.
    rewrite !(fold_innermost None merge_ptr) by (apply merge_ptr_cases || done). done.
  - destruct l as [|c l _] using rev_ind; [by left|right].
    unfold merge_chain. rewrite fold_left_app. cbn.
    destruct (merge_ptr _ _) as [f|]; [by right|by left].
Qed.

Lemma merge_chain_innermost_witness :
  let base := set_enabled (cacher_create_dir_config (Some (str "/"))) 1 in
  let l := [cacher_create_dir_config (Some (str "/a"));
            set_enabled (cacher_create_dir_config (Some (str "/a/b"))) 0] in
  dc_enabled (merge_chain base l) = 0%Z <-> innermost CACHER_UNSET [1; CACHER_UNSET; 0]%Z 0%Z.
Proof.
  intros base l. by apply (merge_chain_innermost base l).
Defined.

(** The argument of CacherRules loses the blanks around it and one pair of
    equal quotes, if it has one, and nothing else: what is between the quotes
    is kept as it is written. *)
Theorem set_rules_unquotes {AS : AprStrings} c pad t pad' :
  trimmed t -> Forall (fun c => is_blank c = true) pad -> Forall (fun c => is_blank c = true) pad' ->
  exists json, dc_rules_json (cacher_set_rules c (pad ++ t ++ pad')) = Some json /\
    ((exists q, is_quote q /\ t = [q] ++ json ++ [q]) \/
     (json = t /\ forall q s, is_quote q -> t <> [q] ++ s ++ [q])).
Proof.
  intros Ht Hp Hp'. cbn. rewrite unquote_args_trimmed by done. eexists. split; [done|].
  destruct t as [|q t]; [right; split; [done|by intros]|].
  destruct (decide _) as [[Hq Hl]|Hn].
  - left. exists q. split; [done|]. destruct t as [|e t _] using rev_ind; [done|].
    rewrite last_snoc in Hl. injection Hl as ->. by rewrite removelast_last.
  - right. split; [done|]. intros q' s Hq' [= -> ->]. apply Hn. by rewrite last_snoc.
Qed.

Lemma set_rules_unquotes_witness :
  exists json, dc_rules_json (cacher_set_rules (cacher_create_dir_config None)
                  (str "  " ++ str "'{}'" ++ [TAB])) = Some json /\
    ((exists q, is_quote q /\ str "'{}'" = [q] ++ json ++ [q]) \/
     (json = str "'{}'" /\ forall q s, is_quote q -> str "'{}'" <> [q] ++ s ++ [q])).
Proof.
  apply (set_rules_unquotes (cacher_create_dir_config None) (str "  ") (str "'{}'") [TAB]).
  - intros c [[= <-]|[= <-]]; reflexivity.
  - repeat constructor.
  - repeat constructor.
Defined.

(** C36: a rules file inherited from an outer directory is resolved against the
    directory that inherits it, not against the one it was set for. *)
Theorem rules_file_inherited_dir {AP : AprPaths} base add f dir :
  dc_rules_file base = Some f -> dc_rules_file add = None -> dc_config_dir add = Some dir ->
  dc_rules_file (cacher_merge_dir_config base add) = Some f /\
  resolve_rules_file_path (cacher_merge_dir_config base add) f = apr_filepath_merge dir f.
Proof.
  intros Hb Ha Hd. unfold resolve_rules_file_path, cacher_merge_dir_config. cbn.
  by rewrite Hb, Ha, Hd.
Qed.

Lemma rules_file_inherited_dir_witness :
  let base := set_rules_file (cacher_create_dir_config (Some (str "/srv/site"))) (Some (str "cacher.json")) in
  let add := cacher_create_dir_config (Some (str "/srv/site/blog")) in
  dc_rules_file (cacher_merge_dir_config base add) = Some (str "cacher.json") /\
  resolve_rules_file_path (cacher_merge_dir_config base add) (str "cacher.json") =
    apr_filepath_merge (str "/srv/site/blog") (str "cacher.json").
Proof. intros base add. by apply rules_file_inherited_dir. Defined.

Section rules_file.
Context {AP : AprPaths} {AF : AprFiles}.

(** A working child, with memory, and a path that resolves to a readable file of
    a healthy disk. *)
Record rules_file_present (dconf : cacher_dir_conf) (f path : cstr) (mtime : Z) (data : list ascii)
    (vs : option (list arule)) (w : world) (s : pstate) : Prop := {
  rp_healthy : healthy w;
  rp_mutex : ps_mutex s = true;
  rp_heap : heap_wf (ps_heap s);
  rp_reliable : reliable (ps_heap s);
  rp_path : resolve_rules_file_path dconf f = Some path;
  rp_file : rules_file_at (view w) path mtime data;
  rp_short : (Z.of_nat (length data) < INT_MAX)%Z;
  rp_parses : rules_of_document (c_str data) = Some vs;
}.

(** The conditions under which a rules file is served: a working child, a
    path that resolves to a readable file, and a cache whose entries are what
    parsing that content gives. *)
Record rules_file_ready (content : cstr -> Z -> Z -> list ascii) (dconf : cacher_dir_conf)
    (f path : cstr) (mtime : Z) (data : list ascii) (vs : option (list arule))
    (w : world) (s : pstate) : Prop := {
  rf_healthy : healthy w;
  rf_mutex : ps_mutex s = true;
  rf_heap : heap_wf (ps_heap s);
  rf_reliable : reliable (ps_heap s);
  rf_path : resolve_rules_file_path dconf f = Some path;
  rf_file : rules_file_at (view w) path mtime data;
  rf_short : (Z.of_nat (length data) < INT_MAX)%Z;
  rf_content : content path mtime (Z.of_nat (length data)) = data;
  rf_parses : rules_of_document (c_str data) = Some vs;
  rf_cache : cache_ok content (ps_cache s);
}.

(** Up to the first critical section: the answer of [apr_stat] is the
    file's. *)
Lemma wpp_after_stat dconf f path mtime data (Q : option cacher_ruleset -> world -> pstate -> Prop) w s :
  healthy w -> ps_mutex s = true -> resolve_rules_file_path dconf f = Some path ->
  rules_file_at (view w) path mtime data ->
  (forall w1, healthy w1 -> same_files (view w) (view w1) ->
     wpp (entry ← mem (cache_hit path mtime (Z.of_nat (length data)));
          match entry with
          | Some cached => mret cached
          | None => load_ruleset path mtime (Z.of_nat (length data))
          end) Q w1 s) ->
  wpp (get_ruleset_from_file dconf f) Q w s.
Proof.
  intros Hh Hm Hp (i & Hi & Hmt & Hd) HQ. unfold get_ruleset_from_file.
  apply wpp_bind. eapply wpp_mem; [done|]. rewrite Hm, Hp. cbn [negb].
  wp_call; [done|]. intros a w1 [Hlat Ha] Hh1. destruct (Hh1 Hh) as [Hs Hw1]. cbn in Hs, Ha.
  destruct a as [[m n]|]; [|destruct (Hs i) as [? [=]]; eauto].
  destruct (Ha m n eq_refl) as (j & data' & Hj & Hm' & Hd' & ->).
  rewrite Hi in Hj. injection Hj as <-. rewrite Hmt in Hm'. injection Hm' as <-.
  rewrite Hd in Hd'. injection Hd' as <-. apply HQ; [done|]. by apply later_same_files.
Qed.

(** An up-to-date entry is returned, and the file is not opened. *)
Lemma wpp_cached dconf f path mtime data rs w s :
  healthy w -> ps_mutex s = true -> resolve_rules_file_path dconf f = Some path ->
  rules_file_at (view w) path mtime data ->
  cache_lookup (ps_cache s) path = Some (CacheEntry path mtime (Z.of_nat (length data)) rs) ->
  wpp (get_ruleset_from_file dconf f)
    (fun rs' w' s' => rs' = rs /\ s' = s /\ same_files (view w) (view w') /\ healthy w') w s.
Proof.
  intros Hh Hm Hp Hf Hlk. eapply wpp_after_stat; [done..|]. intros w1 Hw1 Hsame.
  apply wpp_bind. eapply wpp_mem.
  { unfold cache_hit. rewrite Hlk. cbn. by rewrite !Z.eqb_refl. }
  by apply wpp_ret.
Qed.

Lemma cache_lookup_current l path mtime size :
  (exists rs, cache_lookup l path = Some (CacheEntry path mtime size rs)) \/
  (forall rs, cache_lookup l path <> Some (CacheEntry path mtime size rs)).
Proof.
  destruct (cache_lookup l path) as [e|] eqn:E; [|by right].
  destruct (decide (ce_mtime e = mtime /\ ce_size e = size)) as [[<- <-]|Hne].
  - left. exists (ce_ruleset e). apply cache_lookup_Some in E as [_ <-]. by destruct e.
  - right. intros rs [= ->]. by apply Hne.
Qed.

(** No up-to-date entry: [cache_hit] asks for the file. *)
Lemma cache_hit_miss path mtime size s :
  (forall rs, cache_lookup (ps_cache s) path <> Some (CacheEntry path mtime size rs)) ->
  cache_hit path mtime size s = Some (None, s).
Proof.
  intros H. unfold cache_hit. destruct (cache_lookup _ _) as [e|] eqn:E; [|done].
  destruct (Z.eqb_spec (ce_mtime e) mtime) as [<-|]; [|done].
  destruct (Z.eqb_spec (ce_size e) size) as [<-|]; [|done]. exfalso.
  pose proof (cache_lookup_Some _ _ _ E) as [_ <-]. destruct e. by eapply H.
Qed.

(** Without an entry that has the stamp of the file, the file is read. *)
Lemma wpp_read_anew dconf f path mtime data vs w s :
  rules_file_present dconf f path mtime data vs w s ->
  (forall rs, cache_lookup (ps_cache s) path <> Some (CacheEntry path mtime (Z.of_nat (length data)) rs)) ->
  wpp (get_ruleset_from_file dconf f) (fun rs w' s' =>
    rs ≫= view_ruleset = vs /\ rules_file_present dconf f path mtime data vs w' s' /\
    exists s1, ps_cache s1 = ps_cache s /\ ps_mutex s1 = ps_mutex s /\
      cache_store (CacheEntry path mtime (Z.of_nat (length data)) rs) s1 = Some (tt, s')) w s.
Proof.
  intros [Hh Hm Hwf Hr Hp Hf Hl Hvs] Hno. eapply wpp_after_stat; [done..|]. intros w1 Hw1 Hsame.
  apply wpp_bind. eapply wpp_mem; [by apply cache_hit_miss|].
  eapply wpp_mono; [eapply (wpp_load_fresh path mtime data vs); try done; by eapply rules_file_at_same|].
  intros rs w' s' (Hrs & Ho & Hsame' & Hw' & s1 & Ec & Em & Est). split; [done|]. split; [|by exists s1].
  destruct (cache_store_lookup _ _ _ Est) as (_ & _ & Em' & _).
  split; try done; [congruence|by eapply owns_wf|by eapply owns_reliable|].
  eapply rules_file_at_same; [|done]. by etrans.
Qed.

Lemma wpp_ruleset_from_file content dconf f path mtime data vs w s :
  rules_file_ready content dconf f path mtime data vs w s ->
  wpp (get_ruleset_from_file dconf f)
    (fun rs w' s' => rs ≫= view_ruleset = vs /\
       rules_file_ready content dconf f path mtime data vs w' s' /\
       cache_lookup (ps_cache s') path = Some (CacheEntry path mtime (Z.of_nat (length data)) rs)) w s.
Proof.
  intros R. pose proof R as [Hh Hm Hwf Hr Hp Hf Hl Hc Hvs Hok].
  destruct (cache_lookup_current (ps_cache s) path mtime (Z.of_nat (length data)))
    as [[rs Hlk]|Hno].
  - eapply wpp_mono; [by eapply wpp_cached|]. intros rs' w' s' (-> & -> & Hsame & Hw').
    split_and!; [| |done].
    + pose proof (cache_lookup_Some _ _ _ Hlk) as [Hin _]. destruct Hok as [Hall _].
      rewrite Forall_forall in Hall. apply Hall in Hin as (vs' & Hvs' & <-).
      cbn in Hvs'. rewrite Hc in Hvs'. congruence.
    + split; try done. by eapply rules_file_at_same.
  - eapply wpp_mono; [apply (wpp_read_anew dconf f path mtime data vs); [by split|done]|].
    intros rs w' s' (Hrs & [] & s1 & Ec & Em & Est). destruct (cache_store_lookup _ _ _ Est) as (Hlk & _).
    split_and!; [done| |exact Hlk]. split; try done.
    eapply cache_store_ok; [exact Est|by rewrite Ec|]. cbn. rewrite Hc. by exists vs.
Qed.

(** C27: on a healthy disk, with the mutex and memory there, a request for the
    rules of a file is answered from the cache exactly when an entry has the
    modification time and the size the file has now, and then whatever the bytes
    of the file are; otherwise with the rules the file has now.  The answer is
    remembered under the file's time and size, and no other file's entry
    changes.  So where time and size tell the contents of the files apart, every
    answer is the current content's, and the cache stays that way. *)
Theorem rules_file_coherent dconf f path mtime data vs w s :
  rules_file_present dconf f path mtime data vs w s ->
  exists rs w' s', exec (get_ruleset_from_file dconf f) w s = Some (rs, w', s') /\
    rules_file_present dconf f path mtime data vs w' s' /\
    cache_lookup (ps_cache s') path = Some (CacheEntry path mtime (Z.of_nat (length data)) rs) /\
    (forall q, q <> path -> cache_lookup (ps_cache s') q = cache_lookup (ps_cache s) q) /\
    (forall old, cache_lookup (ps_cache s) path = Some (CacheEntry path mtime (Z.of_nat (length data)) old) ->
       rs = old /\ s' = s) /\
    ((forall old, cache_lookup (ps_cache s) path <> Some (CacheEntry path mtime (Z.of_nat (length data)) old)) ->
       rs ≫= view_ruleset = vs) /\
    (forall content, cache_ok content (ps_cache s) -> content path mtime (Z.of_nat (length data)) = data ->
       rs ≫= view_ruleset = vs /\ cache_ok content (ps_cache s')).
Proof.
  intros R. pose proof R as [Hh Hm Hwf Hr Hp Hf Hl Hvs].
  destruct (cache_lookup_current (ps_cache s) path mtime (Z.of_nat (length data))) as [[rs Hlk]|Hno].
  - destruct (wpp_run _ _ _ _ (wpp_cached _ _ _ _ _ _ _ _ Hh Hm Hp Hf Hlk)) as (rs' & w' & s' & E & -> & -> & Hsame & Hw').
    exists rs, w', s. split_and!; [done| |done|done| | |].
    + split; try done. by eapply rules_file_at_same.
    + intros old. rewrite Hlk. by intros [= <-].
    + intros Hno. by destruct (Hno rs).
    + intros content Hok Hc. split; [|done]. pose proof (cache_lookup_Some _ _ _ Hlk) as [Hin _].
      destruct Hok as [Hall _]. rewrite Forall_forall in Hall. apply Hall in Hin as (vs' & Hvs' & <-).
      cbn in Hvs'. rewrite Hc in Hvs'. congruence.
  - destruct (wpp_run _ _ _ _ (wpp_read_anew _ _ _ _ _ _ _ _ R Hno)) as (rs & w' & s' & E & Hrs & R' & s1 & Ec & Em & Est).
    destruct (cache_store_lookup _ _ _ Est) as (Hlk & Hothers & _ & _). cbn in Hlk, Hothers.
    exists rs, w', s'. split_and!; [done..| | |done|].
    + intros q Hq. by rewrite Hothers, Ec.
    + intros old Hold. by destruct (Hno old).
    + intros content Hok Hc. split; [done|]. eapply cache_store_ok; [exact Est|by rewrite Ec|]. cbn. rewrite Hc. by exists vs.
Qed.

(** A rules file that does not change is parsed once: the next request
    gets the same rule set, and the memory of the process is as the first
    left it. *)
Theorem rules_file_parsed_once content dconf f path mtime data vs w s :
  rules_file_ready content dconf f path mtime data vs w s ->
  exists rs w1 s1 w2, exec (get_ruleset_from_file dconf f) w s = Some (rs, w1, s1) /\
    exec (get_ruleset_from_file dconf f) w1 s1 = Some (rs, w2, s1).
Proof.
  intros R. destruct (wpp_run _ _ _ _ (wpp_ruleset_from_file _ _ _ _ _ _ _ _ _ R))
    as (rs & w1 & s1 & E & _ & R' & Hlk). destruct R'.
  destruct (wpp_run _ _ _ _ (wpp_cached dconf f path mtime data rs w1 s1
              rf_healthy0 rf_mutex0 rf_path0 rf_file0 Hlk)) as (rs2 & w2 & s2 & E2 & -> & -> & _).
  by exists rs, w1, s1, w2.
Qed.
End rules_file.

(** A disk with one rules file, and the memory of a child that just
    started. *)
Definition sample_disk : disk :=
  Disk {[str "/srv/site/cacher.json" := 1]} {[1 := sample_rules]} {[1 := 42%Z]}
    {[str "/srv"; str "/srv/site"]} ∅ ∅ 1000.

Definition sample_state : pstate :=
  cacher_config_child_init true (PState fresh_heap false [] (Error None 0) 0).

Definition sample_file_conf : cacher_dir_conf :=
  set_rules_file (cacher_create_dir_config (Some (str "/srv/site"))) (Some (str "cacher.json")).

Lemma sample_file_ready :
  rules_file_ready (fun _ _ _ => sample_rules) sample_file_conf (str "cacher.json")
    (str "/srv/site/cacher.json") 42 sample_rules
    (Some [ARule (Some (str "/admin/*")) None None 0 0 (Some [200%Z]) None None None;
           ARule None None None 1 10 (Some [200%Z]) None (Some [str "sid"]) None])
    sample_disk sample_state.
Proof.
  split;
    [done|done|apply fresh_heap_wf|done|reflexivity|exists 1; split_and!; vm_compute; reflexivity
    |reflexivity|reflexivity|vm_compute; reflexivity|split; constructor].
Defined.

Definition sample_vs : option (list arule) :=
  Some [ARule (Some (str "/admin/*")) None None 0 0 (Some [200%Z]) None None None;
        ARule None None None 1 10 (Some [200%Z]) None (Some [str "sid"]) None].

Lemma sample_file_present :
  rules_file_present sample_file_conf (str "cacher.json") (str "/srv/site/cacher.json") 42 sample_rules
    sample_vs sample_disk sample_state.
Proof. destruct sample_file_ready. by split. Defined.

Lemma rules_file_coherent_witness :
  exists rs w' s',
    exec (get_ruleset_from_file sample_file_conf (str "cacher.json")) sample_disk sample_state
      = Some (rs, w', s') /\
    rs ≫= view_ruleset = sample_vs /\
    rules_file_present sample_file_conf (str "cacher.json") (str "/srv/site/cacher.json") 42 sample_rules
      sample_vs w' s'.
Proof.
  destruct (rules_file_coherent (AF := ref_files) _ _ _ _ _ _ _ _ sample_file_present)
    as (rs & w' & s' & E & Hp & _ & _ & _ & Hrs & _).
  exists rs, w', s'. split; [exact E|]. split; [|exact Hp]. apply Hrs. intros old H. discriminate H.
Defined.

(** When the bytes of the file change but not its time and size, the next request
    gets the old rules. *)
Definition edited_rules : cstr := json_text
  "{'rules':[{'match':{'path':'/admin/*'},'enabled':false},{'ttl':99,'bypass_cookies':['sid']}]}".

Definition edited_disk : disk :=
  Disk {[str "/srv/site/cacher.json" := 1]} {[1 := edited_rules]} {[1 := 42%Z]}
    {[str "/srv"; str "/srv/site"]} ∅ ∅ 1000.

Example sample_stale :
  match exec (get_ruleset_from_file sample_file_conf (str "cacher.json")) sample_disk sample_state with
  | Some (_, _, s') =>
      match exec (AF := ref_files) (get_ruleset_from_file sample_file_conf (str "cacher.json")) edited_disk s' with
      | Some (rs, _, _) => bool_decide (a_ttl <$> default [] (rs ≫= view_ruleset) = [0; 10]%Z)
      | None => false
      end
  | None => false
  end = true.
Proof. vm_compute. reflexivity. Qed.

Lemma rules_file_parsed_once_witness :
  exists rs w1 s1 w2,
    exec (get_ruleset_from_file sample_file_conf (str "cacher.json")) sample_disk sample_state
      = Some (rs, w1, s1) /\
    exec (get_ruleset_from_file sample_file_conf (str "cacher.json")) w1 s1 = Some (rs, w2, s1).
Proof. eapply rules_file_parsed_once. apply sample_file_ready. Defined.

Section inline_rules.
Context {AP : AprPaths} {AF : AprFiles}.

(** C35: an inline rule set is parsed for every request, touches no file, and
    is gone once the request's pool is destroyed: the heap holds the blocks
    it held before. *)
Theorem inline_rules_released dconf json vs w s :
  dc_rules_file dconf = None -> dc_rules_json dconf = Some json ->
  heap_wf (ps_heap s) -> reliable (ps_heap s) -> (Z.of_nat (length json) < INT_MAX)%Z ->
  rules_of_document json = Some vs ->
  exists rs cleanups s' h,
    exec (cacher_config_get_ruleset (Some dconf)) w s = Some ((rs, cleanups), w, s') /\
    rs ≫= view_ruleset = vs /\ ps_cache s' = ps_cache s /\
    cleanup_rulesets cleanups (ps_heap s') = Some (tt, h) /\ h_live h = h_live (ps_heap s).
Proof.
  intros Hf Hj Hwf Hr Hl Hvs.
  assert (wpp (cacher_config_get_ruleset (Some dconf)) (fun '(rs, cleanups) w' s' =>
    w' = w /\ cleanups = option_list rs /\ rs ≫= view_ruleset = vs /\ ps_cache s' = ps_cache s /\
    owns (ps_heap s) (ps_heap s') (opt_ruleset_blks rs)) w s) as H.
  { unfold cacher_config_get_ruleset. rewrite Hf, Hj. apply wpp_bind.
    eapply wpp_parse_or_log; [done..|]. intros rs h' e Hrs Ho. by apply wpp_ret. }
  destruct (wpp_run _ _ _ _ H) as ([rs cl] & w' & s' & E & -> & -> & Hrs & Hc & Ho).
  assert (frees (cleanup_rulesets (option_list rs)) (opt_ruleset_blks rs)) as Hfr.
  { destruct rs as [rs|]; cbn; [|apply frees_ret].
    rewrite <- (app_nil_r (ruleset_blks rs)). apply frees_seq; [|apply frees_ret].
    apply cacher_ruleset_free_frees. }
  destruct (wp_run _ _ _ (frees_owned _ _ _ _ Hwf Ho Hfr)) as ([] & h & Eh & Hlive).
  by exists rs, (option_list rs), s', h.
Qed.

(** C37: when the document is parsed and the allocation of the rule set fails,
    nothing is written to the buffer for the error, and the error path logs it,
    which is undefined. *)
Theorem rules_oom_logs_garbage json root h1 w s :
  heap_wf (ps_heap s) -> cJSON_Parse_alloc json (ps_heap s) = Some (inl root, h1) ->
  cJSON_IsArray (cJSON_GetObjectItemCaseSensitive (Some (view_node root)) (str "rules")) = true ->
  h_oracle h1 (h_next h1) = false ->
  (exists h2, cacher_ruleset_parse (Some json) (Some 256) (ps_heap s) = Some ((None, None), h2)) /\
  exec (parse_or_log json) w s = None.
Proof.
  intros Hwf Hp Ha Hoom. pose proof (cJSON_Parse_parsed json _ Hwf) as H. unfold wp in H. rewrite Hp in H.
  destruct H as [_ Ho]. set (h2 := Heap (S (h_next h1)) (h_live h1) (h_oracle h1)).
  assert (owns (ps_heap s) h2 (nodes_blks [root])) as Ho2 by (destruct Ho; split; cbn; [lia|done|done| |done];
    eapply Forall_impl; [done|cbn; lia]).
  destruct (wp_run _ _ _ (owns_delete _ _ _ Hwf Ho2)) as ([] & h3 & Ed & _).
  assert (cacher_ruleset_parse (Some json) (Some 256) (ps_heap s) = Some ((None, None), h3)) as E.
  { unfold cacher_ruleset_parse, parse_ruleset, mbind, M_bind. rewrite Hp. unfold mret, M_ret. cbv zeta. rewrite Ha. cbn [negb].
    unfold malloc. rewrite Hoom. fold h2. by rewrite Ed. }
  split; [by exists h3|]. unfold parse_or_log. rewrite exec_bind. pose proof (parse_in_process_alone json w s) as Halone.
  rewrite E in Halone. by destruct Halone as [e ->].
Qed.
End inline_rules.

Definition sample_inline_conf : cacher_dir_conf :=
  set_rules_json (cacher_create_dir_config (Some (str "/srv/site"))) (Some sample_rules).

Lemma inline_rules_released_witness :
  exists rs cleanups s' h,
    exec (cacher_config_get_ruleset (Some sample_inline_conf)) sample_disk sample_state
      = Some ((rs, cleanups), sample_disk, s') /\
    rs ≫= view_ruleset = Some
      [ARule (Some (str "/admin/*")) None None 0 0 (Some [200%Z]) None None None;
       ARule None None None 1 10 (Some [200%Z]) None (Some [str "sid"]) None] /\
    ps_cache s' = ps_cache sample_state /\
    cleanup_rulesets cleanups (ps_heap s') = Some (tt, h) /\
    h_live h = h_live (ps_heap sample_state).
Proof.
  refine (inline_rules_released (AF := ref_files) sample_inline_conf sample_rules _ sample_disk
            sample_state _ _ _ _ _ _);
    [reflexivity|reflexivity|apply fresh_heap_wf|done|reflexivity|vm_compute; reflexivity].
Defined.

(** The memory that a parse of the document takes is there, and no more. *)
Definition tight_state : pstate :=
  let needed := match cJSON_Parse_alloc sample_rules fresh_heap with Some (_, h) => h_next h | None => 0 end in
  PState (Heap 0 ∅ (fun n => n <? needed)%nat) true [] (Error None 0) 0.

Lemma rules_oom_logs_garbage_witness :
  (exists h2, cacher_ruleset_parse (Some sample_rules) (Some 256) (ps_heap tight_state) = Some ((None, None), h2)) /\
  exec (parse_or_log sample_rules) sample_disk tight_state = None.
Proof.
  eapply (rules_oom_logs_garbage sample_rules); [intros b H; cbn in H; set_solver|vm_compute; reflexivity..].
Defined.
