(* ===== verification/Meta.v ===== *)
(** * Cache keys and the text of .header files (cacher_cache.c)

    How a request is turned into the two paths of its entry, how the metadata
    and the headers of a response are written, and how they are read back. *)

From S2P Require Import Prelude CNum CHeap Glob Rules RulesParse RulesMatch Apr AprFile AprRef Util.
From Stdlib Require Import Lia.
Local Open Scope cstr_scope.

(** ** Keys *)

Definition hex_digits : cstr := str "0123456789abcdef".

Definition hex_of (n : Z) : ascii := nth (Z.to_nat n) hex_digits NUL.

Fixpoint hex_encode_md5 (digest : list Z) : cstr :=
  match digest with
  | [] => []
  | b :: digest' =>
      hex_of (Z.land (Z.shiftr b 4) 15) :: hex_of (Z.land b 15) :: hex_encode_md5 digest'
  end.

Definition opt_text (s : option cstr) : cstr := default [] s.

(** [args ? "?" : ""] *)
Definition query_mark (args : option cstr) : cstr :=
  match args with Some _ => str "?" | None => [] end.

Section keys.
Context {AS : AprStrings} {AT : AprTables} {AM : AprMd5}.

(** The value one entry of [vary] contributes to the key. *)
Definition vary_value (r : request) (entry : cstr) : option cstr :=
  if strncmp_eq entry (str "cookie:") 7 then cacher_get_cookie r (drop 7 entry)
  else apr_table_get (r_headers_in r) entry.

Definition build_cache_key_string (r : request) (rule : cacher_rule) : cstr :=
  let orig := cacher_original_request r in
  let key_method := if r_header_only r then str "GET" else r_method r in
  let key := apr_pstrcat
    [key_method; [LF]; opt_text (r_hostname r); [LF];
     r_uri orig; query_mark (r_args orig); opt_text (r_args orig)] in
  match vary rule with
  | None => key
  | Some a =>
      fold_left (fun key entry =>
                   apr_pstrcat [key; [LF]; entry; str "="; opt_text (vary_value r entry)])
        (arr_vals a) key
  end.

Definition cache_key_paths (r : request) (cache_root : option cstr) (rule : cacher_rule)
    : option (cstr * cstr) :=
  match cache_root with
  | None => None
  | Some cache_root =>
      let key_str := build_cache_key_string r rule in
      let hex := hex_encode_md5 (apr_md5 key_str) in
      let shard_dir := apr_psprintf [FStr cache_root; FLit (str "/"); FStrN 2 hex; FLit (str "/");
                                     FStrN 2 (drop 2 hex)] in
      Some (apr_psprintf [FStr shard_dir; FLit (str "/"); FStr hex; FLit (str ".header")],
            apr_psprintf [FStr shard_dir; FLit (str "/"); FStr hex; FLit (str ".body")])
  end.
End keys.

(** ** Metadata *)

Definition CACHER_HEADER_VERSION : cstr := str "CACHER/2".

Record cacher_entry_meta := EntryMeta {
  em_created : Z;
  em_expires : Z;
  em_status : Z;
  em_method : cstr;
  em_host : cstr;
  em_url : cstr;
}.

Definition no_meta : cacher_entry_meta := EntryMeta 0 0 0 (str "-") (str "-") (str "-").

Section meta.
Context {AS : AprStrings} {AT : AprTables}.

(** "url METHOD host path[?query]", behind its keyword. *)
Definition parse_url_line (m : cacher_entry_meta) (line : cstr) : cacher_entry_meta :=
  match apr_strtok line [SP] with
  | None => m
  | Some (method, last1) =>
      match apr_strtok last1 [SP] with
      | None => m
      | Some (host, last2) =>
          match apr_strtok last2 [] with
          | None => m
          | Some (url, _) =>
              EntryMeta (em_created m) (em_expires m) (em_status m) method host url
          end
      end
  end.

Definition parse_meta_line (m : cacher_entry_meta) (line : cstr) : cacher_entry_meta :=
  if strncmp_eq line (str "created ") 8 then
    EntryMeta (apr_atoi64 (drop 8 line)) (em_expires m) (em_status m)
      (em_method m) (em_host m) (em_url m)
  else if strncmp_eq line (str "expires ") 8 then
    EntryMeta (em_created m) (apr_atoi64 (drop 8 line)) (em_status m)
      (em_method m) (em_host m) (em_url m)
  else if strncmp_eq line (str "status ") 7 then
    EntryMeta (em_created m) (em_expires m) (to_int32 (apr_atoi64 (drop 7 line)))
      (em_method m) (em_host m) (em_url m)
  else if strncmp_eq line (str "url ") 4 then parse_url_line m (drop 4 line)
  else m.

(** The text of a .header file: its metadata and the headers behind it. *)
Definition parse_header_file (text : cstr) : option (cacher_entry_meta * cstr) :=
  if negb (strncmp_eq text (CACHER_HEADER_VERSION ++ [LF]) (length CACHER_HEADER_VERSION + 1))
  then None
  else match strstr text [LF; LF] with
  | None => None
  | Some headers_at =>
      let meta := fold_left parse_meta_line (tokens (before text headers_at) [LF]) no_meta in
      if (em_status meta =? 0)%Z then None else Some (meta, drop 2 headers_at)
  end.

Definition cacher_cache_read_meta {S} (header_path : cstr)
    : prog S (option (cacher_entry_meta * cstr)) :=
  hf ← call (OpenRead header_path);
  match hf with
  | None => mret None
  | Some hf =>
      size ← call (InfoSize hf);
      match size with
      | None => _ ← call (Close hf); mret None
      | Some size =>
          if (size <=? 0)%Z then _ ← call (Close hf); mret None
          else
            text ← call (ReadFull hf (Z.to_nat size));
            match text with
            | None => _ ← call (Close hf); mret None
            | Some text => _ ← call (Close hf); mret (parse_header_file (c_str text))
            end
      end
  end.

(** ** Headers *)

Definition CACHER_STATUS_HEADER : cstr := str "X-Cacher".

Definition is_uncacheable_header (name : cstr) : bool :=
  cacher_streq_ci (Some name) (Some (str "Connection"))
  || cacher_streq_ci (Some name) (Some (str "Keep-Alive"))
  || cacher_streq_ci (Some name) (Some (str "Transfer-Encoding"))
  || cacher_streq_ci (Some name) (Some (str "Content-Length"))
  || cacher_streq_ci (Some name) (Some (str "Set-Cookie"))
  || cacher_streq_ci (Some name) (Some CACHER_STATUS_HEADER)
  || cacher_streq_ci (Some name) (Some (str "Age")).

Definition dump_header_cb (text : cstr) (e : cstr * cstr) : cstr :=
  if negb (is_uncacheable_header (fst e))
  then apr_pstrcat [text; fst e; str ": "; snd e; [CR; LF]] else text.

(** [apr_table_do] over the response headers: the callback returns 1, so
    every entry is visited. *)
Definition dump_headers (headers : table) : cstr :=
  fold_left dump_header_cb (table_elts headers) [].

(** What [finalize_cache_entry] writes to the header file. *)
Definition header_file_text (created expires status : Z) (method : cstr) (hostname : option cstr)
    (uri : cstr) (args : option cstr) (headers : cstr) : cstr :=
  apr_psprintf
    [FLit CACHER_HEADER_VERSION; FLit [LF];
     FLit (str "created "); FInt created; FLit [LF];
     FLit (str "expires "); FInt expires; FLit [LF];
     FLit (str "status "); FInt status; FLit [LF];
     FLit (str "url "); FStr method; FLit [SP]; FStr (default (str "-") hostname); FLit [SP];
     FStr uri; FStr (query_mark args); FStr (opt_text args); FLit [LF];
     FLit [LF]; FStr headers].
End meta.

(** ** Texts made of lines *)

Definition is_line (l : cstr) : Prop := l <> [] /\ LF ∉ l.

#[export] Instance is_line_dec l : Decision (is_line l).
Proof. unfold is_line. apply _. Defined.

Fixpoint join_lines (ls : list cstr) : cstr :=
  match ls with
  | [] => []
  | [l] => l
  | l :: ls' => l ++ LF :: join_lines ls'
  end.

Lemma join_lines_cons l l' ls : join_lines (l :: l' :: ls) = l ++ LF :: join_lines (l' :: ls).
Proof. done. Qed.

Lemma join_lines_head l ls : Forall is_line (l :: ls) -> exists c s, join_lines (l :: ls) = c :: s /\ c <> LF.
Proof.
  intros [[Hn Hl] _]%Forall_cons. destruct l as [|c l]; [done|].
  apply not_elem_of_cons in Hl as [Hc _].
  destruct ls as [|l' ls]; [exists c, l|exists c, (l ++ LF :: join_lines (l' :: ls))]; done.
Qed.

Lemma strstr_skip_line l s : LF ∉ l -> strstr (l ++ s) [LF; LF] = strstr s [LF; LF].
Proof.
  induction l as [|c l IH]; [done|]. intros Hl. cbn [app strstr length]. unfold strncmp_eq at 1.
  rewrite bool_decide_false by (cbn; set_solver). apply IH. set_solver.
Qed.

Lemma strstr_skip_newline c s : c <> LF -> strstr (LF :: c :: s) [LF; LF] = strstr s [LF; LF].
Proof.
  intros Hc. cbn [strstr length]. unfold strncmp_eq at 1.
  rewrite bool_decide_false by (cbn; congruence). unfold strncmp_eq at 1.
  rewrite bool_decide_false by (cbn; congruence). done.
Qed.

Lemma strstr_lines ls h :
  ls <> [] -> Forall is_line ls ->
  strstr (join_lines ls ++ LF :: LF :: h) [LF; LF] = Some (LF :: LF :: h).
Proof.
  induction ls as [|l [|l' ls] IH]; [done|..]; intros _ Hls;
    pose proof Hls as [[_ Hl] Hls']%Forall_cons.
  - cbn [join_lines]. by rewrite strstr_skip_line.
  - rewrite join_lines_cons, <- app_assoc, strstr_skip_line by done. cbn [app].
    destruct (join_lines_head l' ls Hls') as (c & s & E & Hc).
    rewrite <- (IH ltac:(done) Hls'), E. cbn [app].
    rewrite strstr_skip_newline by done. symmetry. apply (strstr_skip_line [c]). set_solver.
Qed.

Section texts.
Context {AS : AprStrings} {AT : AprTables} {AM : AprMd5}.

Lemma tokens_lines ls : Forall is_line ls -> tokens (join_lines ls) [LF] = ls.
Proof.
  induction ls as [|l [|l' ls] IH]; intros Hls.
  - by rewrite tokens_nil.
  - apply Forall_cons in Hls as [[Hn Hl] _]. cbn [join_lines].
    rewrite tokens_step, <- (app_nil_l l), apr_strtok_last, tokens_nil by auto with cacher. done.
  - apply Forall_cons in Hls as [[Hn Hl] Hls']. rewrite join_lines_cons, <- (app_nil_l l).
    rewrite <- app_assoc, tokens_cons by auto with cacher. by rewrite IH.
Qed.

(** A file made of lines is read line by line, up to the empty one. *)
Lemma parse_header_lines ls h :
  Forall is_line ls ->
  parse_header_file (join_lines (CACHER_HEADER_VERSION :: ls) ++ LF :: LF :: h) =
  let meta := fold_left parse_meta_line (CACHER_HEADER_VERSION :: ls) no_meta in
  if (em_status meta =? 0)%Z then None else Some (meta, h).
Proof.
  intros Hls. unfold parse_header_file.
  assert (Forall is_line (CACHER_HEADER_VERSION :: ls)) as Hls'
    by (constructor; [apply (bool_decide_unpack _); vm_compute; exact I|done]).
  assert (exists s, join_lines (CACHER_HEADER_VERSION :: ls) ++ LF :: LF :: h =
                      (CACHER_HEADER_VERSION ++ [LF]) ++ s) as [s Es].
  { destruct ls as [|l ls]; [by exists (LF :: h)|].
    by exists (join_lines (l :: ls) ++ LF :: LF :: h). }
  assert (strncmp_eq (join_lines (CACHER_HEADER_VERSION :: ls) ++ LF :: LF :: h)
            (CACHER_HEADER_VERSION ++ [LF]) (length CACHER_HEADER_VERSION + 1) = true) as ->.
  { rewrite Es. apply (strncmp_eq_app (CACHER_HEADER_VERSION ++ [LF])). }
  cbn [negb]. rewrite strstr_lines, before_app, tokens_lines by done. done.
Qed.

(** ** The lines of an entry *)

Lemma drop_prefix (p s : cstr) n : n = length p -> drop n (p ++ s) = s.
Proof. intros ->. apply drop_app_length. Qed.

Lemma parse_created m z :
  in_long z = true -> parse_meta_line m (str "created " ++ dec z) =
    EntryMeta z (em_expires m) (em_status m) (em_method m) (em_host m) (em_url m).
Proof.
  intros Hz. unfold parse_meta_line.
  rewrite (strncmp_eq_app (str "created ")), (drop_prefix (str "created ")) by done.
  by rewrite <- (app_nil_r (dec z)), apr_atoi64_dec.
Qed.

Lemma parse_expires m z :
  in_long z = true -> parse_meta_line m (str "expires " ++ dec z) =
    EntryMeta (em_created m) z (em_status m) (em_method m) (em_host m) (em_url m).
Proof.
  intros Hz. unfold parse_meta_line.
  change (strncmp_eq (str "expires " ++ dec z) (str "created ") 8) with false. cbv iota.
  rewrite (strncmp_eq_app (str "expires ")), (drop_prefix (str "expires ")) by done.
  by rewrite <- (app_nil_r (dec z)), apr_atoi64_dec.
Qed.

Lemma parse_status m z :
  in_int z = true -> parse_meta_line m (str "status " ++ dec z) =
    EntryMeta (em_created m) (em_expires m) z (em_method m) (em_host m) (em_url m).
Proof.
  intros Hz. assert (in_long z = true) as Hl.
  { unfold in_int, in_long, INT_MIN, INT_MAX, LONG_MIN, LONG_MAX in *. lia. }
  unfold parse_meta_line.
  change (strncmp_eq (str "status " ++ dec z) (str "created ") 8) with false.
  change (strncmp_eq (str "status " ++ dec z) (str "expires ") 8) with false. cbv iota.
  rewrite (strncmp_eq_app (str "status ")), (drop_prefix (str "status ")) by done.
  rewrite <- (app_nil_r (dec z)), apr_atoi64_dec by done. by rewrite to_int32_id.
Qed.

(** A word of the url line. *)
Definition is_word (w : cstr) : Prop := w <> [] /\ SP ∉ w /\ LF ∉ w.

#[export] Instance is_word_dec w : Decision (is_word w).
Proof. unfold is_word. apply _. Defined.

Lemma parse_url m method host url :
  is_word method -> is_word host -> url <> [] ->
  parse_meta_line m (str "url " ++ method ++ SP :: host ++ SP :: url) =
    EntryMeta (em_created m) (em_expires m) (em_status m) method host url.
Proof.
  intros (Hm1 & Hm2 & _) (Hh1 & Hh2 & _) Hu. unfold parse_meta_line.
  change (strncmp_eq (str "url " ++ method ++ SP :: host ++ SP :: url) (str "created ") 8) with false.
  change (strncmp_eq (str "url " ++ method ++ SP :: host ++ SP :: url) (str "expires ") 8) with false.
  change (strncmp_eq (str "url " ++ method ++ SP :: host ++ SP :: url) (str "status ") 7) with false.
  cbv iota. rewrite (strncmp_eq_app (str "url ")), (drop_prefix (str "url ")) by done.
  unfold parse_url_line.
  rewrite <- (app_nil_l (method ++ _)), apr_strtok_token by auto with cacher.
  rewrite <- (app_nil_l (host ++ _)), apr_strtok_token by auto with cacher.
  rewrite <- (app_nil_l url), apr_strtok_last by (done || (apply Forall_forall; set_solver)). done.
Qed.

(** The metadata lines of an entry. *)
Definition meta_lines (m : cacher_entry_meta) : list cstr :=
  [str "created " ++ dec (em_created m); str "expires " ++ dec (em_expires m);
   str "status " ++ dec (em_status m);
   str "url " ++ em_method m ++ SP :: em_host m ++ SP :: em_url m].

Definition meta_wf (m : cacher_entry_meta) : Prop :=
  in_long (em_created m) = true /\ in_long (em_expires m) = true /\ in_int (em_status m) = true /\
  em_status m <> 0%Z /\ is_word (em_method m) /\ is_word (em_host m) /\ is_line (em_url m).

#[export] Instance meta_wf_dec m : Decision (meta_wf m).
Proof. unfold meta_wf. apply _. Defined.

Lemma dec_is_line (keyword : cstr) z : is_line keyword -> is_line (keyword ++ dec z).
Proof.
  intros [Hn Hl]. split; [by destruct keyword|]. rewrite elem_of_app. intros [?|H]; [done|].
  by apply dec_no_char in H.
Qed.

Lemma meta_lines_ok m : meta_wf m -> Forall is_line (meta_lines m).
Proof.
  intros (_ & _ & _ & _ & (_ & _ & Hm) & (_ & _ & Hh) & (_ & Hu)). unfold meta_lines.
  repeat (apply Forall_cons; split); try apply dec_is_line;
    try (apply (bool_decide_unpack _); vm_compute; exact I).
  split; [done|]. rewrite !elem_of_app, !elem_of_cons, elem_of_app, elem_of_cons.
  assert (LF ∉ str "url ") by (apply (bool_decide_unpack _); vm_compute; exact I).
  assert (LF <> SP) by done. tauto.
Qed.

Lemma parse_meta_text m h :
  meta_wf m ->
  parse_header_file (join_lines (CACHER_HEADER_VERSION :: meta_lines m) ++ LF :: LF :: h) = Some (m, h).
Proof.
  intros Hm. rewrite parse_header_lines by by apply meta_lines_ok.
  destruct Hm as (Hc & He & Hs & Hs0 & Hmt & Hh & (Hu & _)).
  unfold meta_lines. cbn [fold_left]. change (parse_meta_line no_meta CACHER_HEADER_VERSION) with no_meta.
  rewrite parse_created, parse_expires, parse_status, parse_url by done. cbn.
  rewrite (proj2 (Z.eqb_neq _ _)) by done. by destruct m.
Qed.

(** The text the program writes is made of these lines. *)
Lemma header_file_text_lines created expires status method hostname uri args headers :
  header_file_text created expires status method hostname uri args headers =
  join_lines (CACHER_HEADER_VERSION ::
    meta_lines (EntryMeta created expires status method (default (str "-") hostname)
                  (uri ++ query_mark args ++ opt_text args))) ++ LF :: LF :: headers.
Proof.
  unfold header_file_text. rewrite apr_psprintf_spec. cbn [fmap list_fmap render concat].
  unfold meta_lines. cbn [join_lines em_created em_expires em_status em_method em_host em_url].
  by repeat (rewrite <- !app_assoc || rewrite app_nil_r || (progress (cbn [app]))).
Qed.
End texts.

(** ** Keys, spelled out *)

Section key_facts.
Context {AS : AprStrings} {AT : AprTables} {AM : AprMd5}.

Definition key_method (r : request) : cstr := if r_header_only r then str "GET" else r_method r.

(** The URL the client asked for. *)
Definition request_url (r : request) : cstr :=
  let orig := cacher_original_request r in
  r_uri orig ++ query_mark (r_args orig) ++ opt_text (r_args orig).

Definition rule_vary (rule : cacher_rule) : list cstr := default [] (arr_vals <$> vary rule).

Definition vary_text (r : request) (entries : list cstr) : cstr :=
  concat ((fun e => LF :: e ++ str "=" ++ opt_text (vary_value r e)) <$> entries).

Lemma fold_vary r entries key :
  fold_left (fun key entry =>
      apr_pstrcat [key; [LF]; entry; str "="; opt_text (vary_value r entry)]) entries key =
  key ++ vary_text r entries.
Proof.
  unfold vary_text. revert key. induction entries as [|e entries IH]; intros key.
  - cbn. by rewrite app_nil_r.
  - cbn [fold_left fmap list_fmap concat]. rewrite IH, apr_pstrcat_spec. cbn [concat].
    rewrite app_nil_r. by repeat (rewrite <- !app_assoc || (progress (cbn [app]))).
Qed.

Lemma build_cache_key_string_text r rule :
  build_cache_key_string r rule =
  key_method r ++ LF :: opt_text (r_hostname r) ++ LF :: request_url r ++ vary_text r (rule_vary rule).
Proof.
  unfold build_cache_key_string, rule_vary, request_url, key_method.
  assert (forall k, match vary rule with
    | None => k
    | Some a => fold_left (fun key entry =>
        apr_pstrcat [key; [LF]; entry; str "="; opt_text (vary_value r entry)]) (arr_vals a) k
    end = k ++ vary_text r (default [] (arr_vals <$> vary rule))) as ->.
  { intros k. destruct (vary rule) as [a|]; cbn; [apply fold_vary|by rewrite app_nil_r]. }
  rewrite apr_pstrcat_spec. cbn [concat].
  by repeat (rewrite <- !app_assoc || rewrite app_nil_r || (progress (cbn [app]))).
Qed.

(** A key is taken apart at its newlines. *)
Lemma app_newline_inj (a b s t : cstr) :
  LF ∉ a -> LF ∉ b ->
  match s with [] => True | c :: _ => c = LF end -> match t with [] => True | c :: _ => c = LF end ->
  a ++ s = b ++ t -> a = b /\ s = t.
Proof.
  revert b. induction a as [|c a IH]; intros [|d b] Ha Hb Hs Ht; cbn.
  - done.
  - intros ->. subst. set_solver.
  - intros <-. subst. set_solver.
  - intros [= -> E]. destruct (IH b) as [-> ->]; [set_solver|set_solver|done..].
Qed.

Lemma vary_text_head r entries : match vary_text r entries with [] => True | c :: _ => c = LF end.
Proof. by destruct entries. Qed.

Lemma vary_text_inj r1 r2 entries :
  Forall (fun e => LF ∉ opt_text (vary_value r1 e)) entries ->
  Forall (fun e => LF ∉ opt_text (vary_value r2 e)) entries ->
  vary_text r1 entries = vary_text r2 entries <->
  Forall (fun e => opt_text (vary_value r1 e) = opt_text (vary_value r2 e)) entries.
Proof.
  induction entries as [|e entries IH]; intros H1 H2; [by split|].
  apply Forall_cons in H1 as [H1 H1']. apply Forall_cons in H2 as [H2 H2'].
  rewrite Forall_cons, <- IH by done. unfold vary_text. cbn [fmap list_fmap concat app].
  fold (vary_text r1 entries) (vary_text r2 entries). rewrite <- !app_assoc. split.
  - intros [= E]. apply app_inv_head in E. cbn [app] in E. injection E as E.
    apply app_newline_inj in E; [done|done|done|apply vary_text_head..].
  - by intros [-> ->].
Qed.

(** A request whose key has no stray newline: the method and the host never
    do, and neither do header values; a decoded "%0A" in the path would. *)
Record key_wf (r : request) (rule : cacher_rule) : Prop := {
  kw_method : LF ∉ key_method r;
  kw_host : LF ∉ opt_text (r_hostname r);
  kw_url : LF ∉ request_url r;
  kw_vary : Forall (fun e => LF ∉ opt_text (vary_value r e)) (rule_vary rule);
}.

(** C24: two requests, whose methods, hosts, URLs and varied values hold no newline,
    share a cache entry key under a rule exactly when they agree on the method
    (HEAD counting as GET), the host, the text of the decoded path joined with
    the query by a question mark, and every header and cookie the rule varies
    on. *)
Theorem cache_key_injective r1 r2 rule :
  key_wf r1 rule -> key_wf r2 rule ->
  build_cache_key_string r1 rule = build_cache_key_string r2 rule <->
  key_method r1 = key_method r2 /\ opt_text (r_hostname r1) = opt_text (r_hostname r2) /\
  request_url r1 = request_url r2 /\
  Forall (fun e => opt_text (vary_value r1 e) = opt_text (vary_value r2 e)) (rule_vary rule).
Proof.
  intros [] []. rewrite !build_cache_key_string_text. split.
  - intros E. apply app_newline_inj in E as [-> E]; [|done..].
    injection E as E. apply app_newline_inj in E as [-> E]; [|done..].
    injection E as E. apply app_newline_inj in E as [-> E]; [|done|done|apply vary_text_head..].
    split_and!; try done. by apply vary_text_inj.
  - intros (-> & -> & -> & H%vary_text_inj); [by rewrite H|done..].
Qed.

(** ** Paths *)

Lemma hex_of_inj a b : (0 <= a < 16)%Z -> (0 <= b < 16)%Z -> hex_of a = hex_of b -> a = b.
Proof.
  intros Ha Hb E. assert (forall z, (0 <= z < 16)%Z -> z ∈ [0;1;2;3;4;5;6;7;8;9;10;11;12;13;14;15]%Z)
    as Hall by (intros z Hz; rewrite !elem_of_cons; lia).
  assert (forallb (fun x => forallb (fun y => implb (hex_of x =? hex_of y) (x =? y)%Z)
    [0;1;2;3;4;5;6;7;8;9;10;11;12;13;14;15]%Z) [0;1;2;3;4;5;6;7;8;9;10;11;12;13;14;15]%Z = true) as H
    by (vm_compute; reflexivity).
  rewrite forallb_forall in H. specialize (H a). rewrite forallb_forall in H.
  specialize (H (proj1 (list_elem_of_In _ _) (Hall a Ha)) b (proj1 (list_elem_of_In _ _) (Hall b Hb))).
  rewrite E, Ascii.eqb_refl in H. cbn in H. by apply Z.eqb_eq.
Qed.

Lemma nibbles b : (0 <= b < 256)%Z ->
  (0 <= Z.land (Z.shiftr b 4) 15 < 16)%Z /\ (0 <= Z.land b 15 < 16)%Z /\
  b = (16 * Z.land (Z.shiftr b 4) 15 + Z.land b 15)%Z.
Proof.
  intros H. change 15%Z with (Z.ones 4). rewrite !Z.land_ones, Z.shiftr_div_pow2 by lia.
  change (2 ^ 4)%Z with 16%Z. pose proof (Z.div_mod b 16 ltac:(lia)).
  assert (0 <= b / 16 < 16)%Z by (split; [apply Z.div_pos; lia|apply Z.div_lt_upper_bound; lia]).
  rewrite (Z.mod_small (b / 16)) by lia. pose proof (Z.mod_pos_bound b 16 ltac:(lia)). lia.
Qed.

Lemma hex_encode_inj d1 d2 :
  Forall (fun b => (0 <= b < 256)%Z) d1 -> Forall (fun b => (0 <= b < 256)%Z) d2 ->
  hex_encode_md5 d1 = hex_encode_md5 d2 -> d1 = d2.
Proof.
  intros H1. revert d2. induction H1 as [|b d1 Hb _ IH]; intros [|c d2] H2 E; try done.
  apply Forall_cons in H2 as [Hc H2]. cbn in E. injection E as E1 E2 E3.
  destruct (nibbles b Hb) as (? & ? & Eb), (nibbles c Hc) as (? & ? & Ec).
  apply hex_of_inj in E1, E2; [|lia..]. rewrite Eb, Ec, E1, E2. f_equal. by apply IH.
Qed.

Definition is_hex (c : ascii) : Prop := c ∈ hex_digits.

Lemma hex_no_slash hex : Forall is_hex hex -> SLASH ∉ hex.
Proof.
  intros H Hs. rewrite Forall_forall in H. apply H in Hs. revert Hs.
  apply (bool_decide_unpack _). vm_compute. exact I.
Qed.

Lemma hex_encode_hex d :
  Forall (fun b => (0 <= b < 256)%Z) d ->
  Forall is_hex (hex_encode_md5 d) /\ length (hex_encode_md5 d) = 2 * length d.
Proof.
  assert (forall z, (0 <= z < 16)%Z -> is_hex (hex_of z)) as Hh.
  { intros z Hz. unfold is_hex, hex_of. apply list_elem_of_In, nth_In.
    change (length hex_digits) with 16. lia. }
  induction 1 as [|b d Hb _ [IH1 IH2]]; [done|]. cbn [hex_encode_md5 length].
  destruct (nibbles b Hb) as (? & ? & _). split; [|lia].
  constructor; [by apply Hh|]. constructor; [by apply Hh|done].
Qed.
End key_facts.

Section entry_facts.
Context {AS : AprStrings} {AT : AprTables} {AM : AprMd5}.

(** The name of an entry, and its path without the suffix. *)
Definition entry_hex (r : request) (rule : cacher_rule) : cstr :=
  hex_encode_md5 (apr_md5 (build_cache_key_string r rule)).

Definition shard_of (root hex : cstr) : cstr := child (child root (take 2 hex)) (take 2 (drop 2 hex)).

Lemma cache_key_paths_shard r root rule :
  cache_key_paths r (Some root) rule =
  Some (child (shard_of root (entry_hex r rule)) (entry_hex r rule ++ str ".header"),
        child (shard_of root (entry_hex r rule)) (entry_hex r rule ++ str ".body")).
Proof.
  unfold cache_key_paths, shard_of, child. fold (entry_hex r rule).
  rewrite !apr_psprintf_spec. cbn [fmap list_fmap render concat].
  by repeat (rewrite <- !app_assoc || rewrite app_nil_r || (progress (cbn [app]))).
Qed.

Lemma entry_hex_spec r rule : Forall is_hex (entry_hex r rule) /\ length (entry_hex r rule) = 32.
Proof.
  destruct (hex_encode_hex (apr_md5 (build_cache_key_string r rule))) as [H1 H2];
    [apply apr_md5_bytes|]. split; [done|]. unfold entry_hex. by rewrite H2, apr_md5_length.
Qed.

(** C25: whatever the request, its entry is a pair of files two directories below
    the cache root whose names are hexadecimal digits, so no request reaches a
    path outside of the root; and two requests share the pair exactly when the
    digests of their keys are equal. *)
Theorem cache_paths_confined r1 r2 root rule1 rule2 :
  (exists hex, cache_key_paths r1 (Some root) rule1 =
     Some (child (child (child root (take 2 hex)) (take 2 (drop 2 hex))) (hex ++ str ".header"),
           child (child (child root (take 2 hex)) (take 2 (drop 2 hex))) (hex ++ str ".body")) /\
     length hex = 32 /\ Forall is_hex hex) /\
  (cache_key_paths r1 (Some root) rule1 = cache_key_paths r2 (Some root) rule2 <->
   apr_md5 (build_cache_key_string r1 rule1) = apr_md5 (build_cache_key_string r2 rule2)).
Proof.
  destruct (entry_hex_spec r1 rule1) as [H1 L1], (entry_hex_spec r2 rule2) as [H2 L2]. split.
  - exists (entry_hex r1 rule1). by rewrite cache_key_paths_shard.
  - rewrite !cache_key_paths_shard. unfold shard_of, child. split.
    + intros [= E _]. rewrite <- !app_assoc in E. apply app_inv_head in E. cbn [app] in E.
      injection E as E. apply app_inj_1 in E as [_ E]; [|rewrite !length_take; lia].
      injection E as E. apply app_inj_1 in E as [_ E]; [|rewrite !length_take, !length_drop; lia].
      injection E as E. apply app_inj_1 in E as [E _]; [|lia].
      apply hex_encode_inj in E; [done|apply apr_md5_bytes..].
    + unfold entry_hex. by intros ->.
Qed.

(** C23: the metadata written to a .header file is read back unchanged, and the
    headers behind it too, when the URL holds no newline and method and host
    are single words. *)
Theorem meta_roundtrip created expires status method hostname uri args headers :
  meta_wf (EntryMeta created expires status method (default (str "-") hostname)
             (uri ++ query_mark args ++ opt_text args)) ->
  parse_header_file (header_file_text created expires status method hostname uri args headers) =
  Some (EntryMeta created expires status method (default (str "-") hostname)
          (uri ++ query_mark args ++ opt_text args), headers).
Proof. intros H. rewrite header_file_text_lines. by apply parse_meta_text. Qed.

(** C38: a newline in the path lets a request write metadata of its own: it
    chooses when its entry expires. *)
Theorem newline_forges_expiry created expires status method hostname path headers z :
  meta_wf (EntryMeta created expires status method (default (str "-") hostname) path) ->
  in_long z = true ->
  parse_header_file (header_file_text created expires status method hostname
                       (path ++ LF :: str "expires " ++ dec z) None headers) =
  Some (EntryMeta created z status method (default (str "-") hostname) path, headers).
Proof.
  intros Hm Hz. rewrite header_file_text_lines. set (m := EntryMeta created expires _ _ _ path) in *.
  replace (join_lines _) with
    (join_lines (CACHER_HEADER_VERSION :: meta_lines m ++ [str "expires " ++ dec z])).
  2: { unfold meta_lines. cbn.
       by repeat (rewrite <- !app_assoc || rewrite app_nil_r || (progress (cbn [app]))). }
  rewrite parse_header_lines.
  2: { apply Forall_app. split; [by apply meta_lines_ok|]. apply Forall_singleton, dec_is_line.
       apply (bool_decide_unpack _). vm_compute. exact I. }
  destruct Hm as (Hc & He & Hs & Hs0 & Hmt & Hh & (Hu & _)). subst m.
  cbn [em_created em_expires em_status em_method em_host em_url] in *.
  unfold meta_lines. cbn [fold_left app em_created em_expires em_status em_method em_host em_url].
  change (parse_meta_line no_meta CACHER_HEADER_VERSION) with no_meta.
  rewrite parse_created, parse_expires, parse_status, parse_url, parse_expires by done.
  cbn [em_created em_expires em_status em_method em_host em_url no_meta].
  by rewrite (proj2 (Z.eqb_neq _ _)) by done.
Qed.

(** ** Stored headers *)

Definition stored_headers (t : table) : list (cstr * cstr) :=
  filter (fun e => is_uncacheable_header (fst e) = false) (table_elts t).

Definition header_line (e : cstr * cstr) : cstr := fst e ++ str ": " ++ snd e ++ [CR; LF].

Lemma dump_headers_text t : dump_headers t = concat (header_line <$> stored_headers t).
Proof.
  unfold dump_headers, stored_headers. generalize (table_elts t). intros l.
  enough (forall text, fold_left dump_header_cb l text = text ++
    concat (header_line <$> filter (fun e => is_uncacheable_header (fst e) = false) l)) as H by apply H.
  induction l as [|e l IH]; intros text; cbn [fold_left].
  - by rewrite app_nil_r.
  - rewrite IH, filter_cons. unfold dump_header_cb. destruct (is_uncacheable_header (fst e)) eqn:E.
    + rewrite decide_False by done. done.
    + rewrite decide_True by done. cbn [negb]. rewrite apr_pstrcat_spec. cbn [concat fmap list_fmap].
      unfold header_line at 2. by rewrite app_nil_r, <- !app_assoc.
Qed.
End entry_facts.

(** ** Instances *)

Definition sample_vary_rule : cacher_rule :=
  CacherRule 0 None None None 1 60 (Some (MArr 1 [200%Z])) None None
    (Some (MArr 2 [MStr 3 (str "Accept-Encoding"); MStr 4 (str "cookie:theme")])).

Definition sample_gzip_request : request :=
  sample_request "/blog/" [(str "Accept-Encoding", str "gzip"); (str "Cookie", str "theme=dark")].

Lemma sample_gzip_key_wf : key_wf sample_gzip_request sample_vary_rule.
Proof. split; apply (bool_decide_unpack _); vm_compute; exact I. Defined.

Lemma sample_plain_key_wf : key_wf sample_cookie_request sample_vary_rule.
Proof. split; apply (bool_decide_unpack _); vm_compute; exact I. Defined.

Lemma cache_key_injective_witness :
  build_cache_key_string sample_gzip_request sample_vary_rule =
  build_cache_key_string sample_cookie_request sample_vary_rule <->
  key_method sample_gzip_request = key_method sample_cookie_request /\
  opt_text (r_hostname sample_gzip_request) = opt_text (r_hostname sample_cookie_request) /\
  request_url sample_gzip_request = request_url sample_cookie_request /\
  Forall (fun e => opt_text (vary_value sample_gzip_request e) =
                   opt_text (vary_value sample_cookie_request e)) (rule_vary sample_vary_rule).
Proof. apply cache_key_injective; [apply sample_gzip_key_wf|apply sample_plain_key_wf]. Defined.

Lemma meta_roundtrip_witness :
  parse_header_file (header_file_text 1000 1060 200 (str "GET") None (str "/a b") (Some (str "x=1"))
                       (str "ETag: 7")) =
  Some (EntryMeta 1000 1060 200 (str "GET") (default (str "-") None)
          (str "/a b" ++ query_mark (Some (str "x=1")) ++ opt_text (Some (str "x=1"))), str "ETag: 7").
Proof.
  apply (meta_roundtrip 1000 1060 200 (str "GET") None (str "/a b") (Some (str "x=1"))).
  apply (bool_decide_unpack _). vm_compute. exact I.
Defined.

Lemma newline_forges_expiry_witness :
  parse_header_file (header_file_text 1000 1060 200 (str "GET") None
                       (str "/a" ++ LF :: str "expires " ++ dec 99999999999) None []) =
  Some (EntryMeta 1000 99999999999 200 (str "GET") (default (str "-") None) (str "/a"), []).
Proof.
  apply (newline_forges_expiry 1000 1060 200 (str "GET") None (str "/a") []); [|reflexivity].
  apply (bool_decide_unpack _). vm_compute. exact I.
Defined.
