(* ===== verification/Cache.v ===== *)
(** * Storing and looking up responses (cacher_cache.c)

    The output filter that captures a response to a temporary file, the
    publication of an entry, and the lookup that replays one. *)

From S2P Require Import Prelude CNum CHeap Glob Rules RulesParse RulesMatch Apr AprFile AprRef Util Meta.
From Stdlib Require Import Lia.
Local Open Scope cstr_scope.

(** The two httpd calls that change a response. *)
Class Httpd {AT : AprTables} := {
  ap_set_content_type : request -> cstr -> request;
  ap_set_content_length : request -> Z -> request;
  ap_set_content_type_spec r ct : ap_set_content_type r ct = set_ctype r (Some ct);
  ap_set_content_length_spec r n :
    ap_set_content_length r n =
    set_headers_out r (apr_table_setn (r_headers_out r) (str "Content-Length") (dec n));
}.

#[export] Instance ref_httpd : Httpd := {|
  ap_set_content_type := fun r ct => set_ctype r (Some ct);
  ap_set_content_length := fun r n =>
    set_headers_out r (apr_table_setn (r_headers_out r) (str "Content-Length") (dec n));
  ap_set_content_type_spec := fun _ _ => eq_refl;
  ap_set_content_length_spec := fun _ _ => eq_refl;
|}.

(** ** Buckets *)

(** A data bucket with the bytes [apr_bucket_read] gives, or one whose read
    fails; then [len] is what the call leaves in its length argument, [None]
    when it leaves it unset. *)
Inductive bucket :=
  | EOS
  | METADATA
  | DATA (data : list ascii)
  | BROKEN (len : option nat).

Record cacher_out_ctx := OutCtx {
  oc_rule : cacher_rule;
  oc_header_path : cstr;
  oc_body_path : cstr;
  oc_tmp_body_path : option cstr;
  oc_tmp_body_file : option nat;
  oc_body_len : Z;
  oc_started : bool;
  oc_cacheable : bool;
}.

Definition start_ctx (c : cacher_out_ctx) (cacheable : bool) (tmp : option cstr) (file : option nat)
    : cacher_out_ctx :=
  OutCtx (oc_rule c) (oc_header_path c) (oc_body_path c) tmp file (oc_body_len c) true cacheable.
Definition add_len (c : cacher_out_ctx) (n : nat) : cacher_out_ctx :=
  OutCtx (oc_rule c) (oc_header_path c) (oc_body_path c) (oc_tmp_body_path c) (oc_tmp_body_file c)
    (oc_body_len c + Z.of_nat n) (oc_started c) (oc_cacheable c).
Definition stop_caching (c : cacher_out_ctx) : cacher_out_ctx :=
  OutCtx (oc_rule c) (oc_header_path c) (oc_body_path c) (oc_tmp_body_path c) (oc_tmp_body_file c)
    (oc_body_len c) (oc_started c) false.

Section cache.
Context {AS : AprStrings} {AT : AprTables} {AM : AprMd5} {HT : Httpd} {S : Type}.

Definition cacher_cache_insert_filter (r : request) (cache_root : option cstr) (rule : cacher_rule)
    : option cacher_out_ctx :=
  match cache_root with
  | None => None
  | Some _ =>
      if (ttl_seconds rule <=? 0)%Z then None
      else if r_header_only r then None
      else match cache_key_paths r cache_root rule with
      | None => None
      | Some (header_path, body_path) =>
          Some (OutCtx rule header_path body_path None None 0 false false)
      end
  end.

(** The response declared a length other than the one captured. *)
Definition wrong_length (r : request) (ctx : cacher_out_ctx) : bool :=
  match apr_table_get (r_headers_out r) (str "Content-Length") with
  | None => false
  | Some declared => negb (apr_atoi64 declared =? oc_body_len ctx)%Z
  end.

Definition remove {B} (path : cstr) (k : prog S B) : prog S B := _ ← call (Remove path); k.

(** The two renames: the body first. *)
Definition publish (ctx : cacher_out_ctx) (tmp_body tmp_header : cstr) : prog S unit :=
  ok ← call (Rename tmp_body (oc_body_path ctx));
  ok ← (if ok : bool then call (Rename tmp_header (oc_header_path ctx)) else mret false);
  if ok : bool then mret tt
  else remove tmp_body (remove tmp_header (remove (oc_body_path ctx) (mret tt))).

Definition write_header (ctx : cacher_out_ctx) (tmp_body file_text : cstr) : prog S unit :=
  hf ← call (Mktemp (apr_pstrcat [oc_header_path ctx; str ".XXXXXX"]));
  match hf with
  | None => remove tmp_body (mret tt)
  | Some (tmp_header, hf) =>
      ok ← call (WriteFull hf file_text);
      if ok : bool then _ ← call (Close hf); publish ctx tmp_body tmp_header
      else _ ← call (Close hf); remove tmp_header (remove tmp_body (mret tt))
  end.

(** The expiry time is computed in 64 bits; an overflow is undefined. *)
Definition finalize_cache_entry (r : request) (ctx : cacher_out_ctx) : prog S unit :=
  let orig := cacher_original_request r in
  match oc_tmp_body_file ctx, oc_tmp_body_path ctx with
  | Some tmp_body_file, Some tmp_body =>
      _ ← call (Close tmp_body_file);
      if r_aborted r then remove tmp_body (mret tt)
      else if wrong_length r ctx then remove tmp_body (mret tt)
      else
        let text := dump_headers (r_headers_out r) in
        created ← call Now;
        now ← call Now;
        match add_int64 now (ttl_seconds (oc_rule ctx)) with
        | None => Undef
        | Some expires =>
            write_header ctx tmp_body
              (header_file_text created expires (r_status r) (r_method r) (r_hostname r)
                 (r_uri orig) (r_args orig) text)
        end
  | _, _ => Undef
  end.

(** What the first call of the filter decides on. *)
Definition response_cacheable (r : request) (rule : cacher_rule) : bool :=
  let ctype := match r_content_type r with
               | Some t => Some t
               | None => apr_table_get (r_headers_out r) (str "Content-Type")
               end in
  cacher_rule_allows_status (Some rule) (r_status r)
  && cacher_rule_allows_content_type (Some rule) ctype
  && negb (r_main r)
  && match apr_table_get (r_headers_in r) (str "Authorization") with
     | Some _ => false
     | None => true
     end.

Definition filter_start (r : request) (ctx : cacher_out_ctx) : prog S cacher_out_ctx :=
  if negb (response_cacheable r (oc_rule ctx))
  then mret (start_ctx ctx false (oc_tmp_body_path ctx) (oc_tmp_body_file ctx))
  else match strrchr (oc_body_path ctx) SLASH with
  | None => Undef
  | Some slash =>
      let shard_dir := apr_pstrndup (oc_body_path ctx) (length (oc_body_path ctx) - length slash) in
      ok ← call (Mkdirs shard_dir);
      if ok : bool then
        let template := apr_pstrcat [oc_body_path ctx; str ".XXXXXX"] in
        tmp ← call (Mktemp template);
        match tmp with
        | Some (tmp_body, file) => mret (start_ctx ctx true (Some tmp_body) (Some file))
        | None => mret (start_ctx ctx false (Some template) (oc_tmp_body_file ctx))
        end
      else mret (start_ctx ctx false (oc_tmp_body_path ctx) (oc_tmp_body_file ctx))
  end.

(** Abandon the entry: the filter removes itself. *)
Definition abandon (ctx : cacher_out_ctx) : prog S (cacher_out_ctx * bool) :=
  match oc_tmp_body_file ctx, oc_tmp_body_path ctx with
  | Some file, Some tmp_body =>
      _ ← call (Close file); remove tmp_body (mret (stop_caching ctx, true))
  | _, _ => Undef
  end.

(** A data bucket of a cacheable response; [true] when the filter was
    removed. *)
Definition capture (ctx : cacher_out_ctx) (e : bucket) : prog S (cacher_out_ctx * bool) :=
  match e with
  | DATA [] | BROKEN (Some O) => mret (ctx, false)
  | DATA data =>
      match oc_tmp_body_file ctx with
      | None => Undef
      | Some file =>
          ok ← call (WriteFull file data);
          if ok : bool then mret (add_len ctx (length data), false) else abandon ctx
      end
  | BROKEN (Some _) => abandon ctx
  | BROKEN None => Undef
  | EOS | METADATA => mret (ctx, false)
  end.

Fixpoint filter_loop (r : request) (ctx : cacher_out_ctx) (bb : list bucket)
    : prog S (cacher_out_ctx * bool) :=
  match bb with
  | [] => mret (ctx, false)
  | e :: bb' =>
      if oc_cacheable ctx then
        match e with
        | EOS => _ ← finalize_cache_entry r ctx; filter_loop r ctx bb'
        | _ =>
            '(ctx, removed) ← capture ctx e;
            '(ctx, removed') ← filter_loop r ctx bb';
            mret (ctx, removed || removed')
        end
      else filter_loop r ctx bb'
  end.

(** The new context, whether the filter removed itself, and the brigade it
    passed on. *)
Definition cacher_output_filter (r : request) (ctx : cacher_out_ctx) (bb : list bucket)
    : prog S (cacher_out_ctx * bool * list bucket) :=
  '(ctx, removed) ←
    (if oc_started ctx then mret (ctx, false)
     else ctx ← filter_start r ctx; mret (ctx, negb (oc_cacheable ctx)));
  '(ctx, removed') ← filter_loop r ctx bb;
  mret (ctx, removed || removed', bb).

(** ** Lookup *)

Record cache_hit := CacheHit {
  ch_file : nat;
  ch_status : Z;     (* *out_status *)
  ch_length : Z;     (* *out_length *)
  ch_age : Z;        (* *out_age *)
}.

(** One line of the stored headers. *)
Definition replay_line (r : request) (line : cstr) : request :=
  match strchr line ":"%char with
  | None => r
  | Some colon =>
      let name := before line colon in
      let value := skip_while (fun c => c =? SP) (tail colon) in
      if cacher_streq_ci (Some name) (Some (str "Content-Type")) then ap_set_content_type r value
      else if negb (is_uncacheable_header name)
      then set_headers_out r (apr_table_setn (r_headers_out r) name value)
      else r
  end.

(** The request with the headers replayed so far, and the hit. *)
Definition cacher_cache_lookup (r : request) (cache_root : option cstr) (rule : cacher_rule)
    : prog S (request * option cache_hit) :=
  match cache_key_paths r cache_root rule with
  | None => mret (r, None)
  | Some (header_path, body_path) =>
      meta ← cacher_cache_read_meta header_path;
      match meta with
      | None => mret (r, None)
      | Some (meta, headers_at) =>
          now ← call Now;
          if (em_expires meta <=? now)%Z then mret (r, None)
          else
            let r := fold_left replay_line (tokens headers_at [CR; LF]) r in
            bf ← call (OpenRead body_path);
            match bf with
            | None => mret (r, None)
            | Some bf =>
                size ← call (InfoSize bf);
                match size with
                | None => _ ← call (Close bf); mret (r, None)
                | Some size =>
                    if (0 <? em_created meta)%Z then
                      now ← call Now;
                      mret (r, Some (CacheHit bf (em_status meta) size (now - em_created meta)))
                    else mret (r, Some (CacheHit bf (em_status meta) size (-1)))
                end
            end
      end
  end.

(** ** Cache roots *)

(** [cacher_cache_ensure_root] over the configurations of the servers; the
    result is whether every configured root could be created. *)
Fixpoint cacher_cache_ensure_root (servers : list (option cacher_svr_conf)) : prog S bool :=
  match servers with
  | [] => mret true
  | conf :: servers' =>
      match conf ≫= sc_cache_root with
      | None => cacher_cache_ensure_root servers'
      | Some root =>
          ok ← call (Mkdirs root);
          ok' ← cacher_cache_ensure_root servers';
          mret (ok && ok')
      end
  end.
End cache.
