(* ===== verification/Publish.v ===== *)
(** * Publication of an entry

    What happens on disk when [finalize_cache_entry] publishes a captured
    response, for every pattern of failing calls: the header file changes in
    one step, and only when the body it describes is in place. *)

From S2P Require Import Prelude CNum CHeap Glob Rules RulesParse RulesMatch Apr AprFile AprRef Util Meta Cache.
From Stdlib Require Import Lia.
Local Open Scope cstr_scope.

(** ** The paths of an entry *)

Definition entry_paths (header body : cstr) : Prop :=
  exists stem, header = stem ++ str ".header" /\ body = stem ++ str ".body".

Definition temp_of (path p : cstr) : Prop := fills_template (path ++ str ".XXXXXX") p.

Lemma temp_of_inv path p : temp_of path p -> exists s, p = path ++ str "." ++ s /\ length s = 6.
Proof.
  intros (base & s & E & -> & Hl & _). exists s. split; [|done].
  change (str ".XXXXXX") with (str "." ++ TEMPLATE) in E. rewrite app_assoc in E.
  apply app_inj_2 in E as [<- _]; [|done]. by rewrite <- app_assoc.
Qed.

Lemma temp_of_intro path s :
  length s = 6 -> SLASH ∉ s -> NUL ∉ s -> temp_of path (path ++ str "." ++ s).
Proof.
  intros Hl H1 H2. exists (path ++ str "."), s.
  change (str ".XXXXXX") with (str "." ++ TEMPLATE). rewrite <- !app_assoc. done.
Qed.

Section paths.
Context (header body : cstr) (Hep : entry_paths header body).

Lemma header_ne_body : header <> body.
Proof. destruct Hep as (stem & -> & ->). intros E%app_inv_head. discriminate E. Qed.

Lemma longer_ne (a b : cstr) : b <> [] -> a ++ b <> a.
Proof. intros Hb E. apply (f_equal length) in E. rewrite length_app in E. destruct b; [done|cbn in E; lia]. Qed.

Lemma temp_header_ne p : temp_of header p -> p <> header /\ p <> body.
Proof.
  intros (s & -> & _)%temp_of_inv. split; [by apply longer_ne|].
  destruct Hep as (stem & -> & ->). rewrite <- app_assoc. intros E%app_inv_head. discriminate E.
Qed.

Lemma temp_body_ne p : temp_of body p -> p <> header /\ p <> body /\ ~ temp_of header p.
Proof.
  intros (s & -> & _)%temp_of_inv. split_and!; [|by apply longer_ne|].
  - destruct Hep as (stem & -> & ->). rewrite <- app_assoc. intros E%app_inv_head. discriminate E.
  - intros (s' & E & _)%temp_of_inv. destruct Hep as (stem & -> & ->).
    rewrite <- !app_assoc in E. apply app_inv_head in E. discriminate E.
Qed.

Lemma temp_prefix_disjoint x : ~ temp_of body (header ++ str "." ++ x).
Proof.
  intros (y & E & _)%temp_of_inv. destruct Hep as (stem & -> & ->).
  rewrite <- !app_assoc in E. apply app_inv_head in E. discriminate E.
Qed.

Lemma not_temp_self : ~ temp_of header header /\ ~ temp_of header body.
Proof. split; intros H%temp_header_ne; naive_solver. Qed.
End paths.

Lemma in_dir_suffix d p : in_dir d p -> in_dir d (p ++ str ".XXXXXX").
Proof.
  intros (dir & name & -> & Hn & Hdir). exists dir, (name ++ str ".XXXXXX"). unfold child.
  rewrite <- !app_assoc. split_and!; [done| |done]. apply not_elem_of_app. split; [done|].
  apply (bool_decide_unpack _). vm_compute. exact I.
Qed.

(** ** Publication *)

Section publish.
Context {AS : AprStrings} {AT : AprTables} {AM : AprMd5} {HT : Httpd} {AF : AprFiles} {S : Type}.
Context (ctx : cacher_out_ctx) (tmp : cstr) (i : nat) (bytes : list ascii).

Abbreviation header := (oc_header_path ctx).
Abbreviation body := (oc_body_path ctx).

(** The captured body is the file [i] at [tmp]. *)
Record held (d : disk) : Prop := {
  hd_name : d_names d !! tmp = Some i;
  hd_data : d_data d !! i = Some bytes;
  hd_other : d_names d !! header <> Some i;
  hd_ok : file_ok d header;
}.

Definition published (text : cstr) (d : disk) : Prop :=
  file_at d header = Some text /\ file_at d body = Some bytes.

(** Both names can be renamed to. *)
Record room (d : disk) : Prop := {
  rm_header : in_dir d header;
  rm_body : in_dir d body;
  rm_header_dir : header ∉ d_dirs d;
  rm_body_dir : body ∉ d_dirs d;
}.

Lemma room_dirs d d' : d_dirs d' = d_dirs d -> room d -> room d'.
Proof. unfold in_dir. intros E [H1 H2 H3 H4]. split; unfold in_dir in *; rewrite E; done. Qed.

Lemma held_step d o a d' :
  fs_spec d o a d' -> spares d o tmp -> spares d o header -> held d ->
  held d' /\ keep header d d'.
Proof.
  intros Hs Ht Hh [H1 H2 H3 H4].
  assert (file_ok d tmp) as Hok by (intros j Hj; rewrite H1 in Hj; injection Hj as <-; eauto).
  pose proof (fs_spec_keep _ _ _ _ _ Hs Hok Ht) as [K1 K2].
  pose proof (fs_spec_keep _ _ _ _ _ Hs H4 Hh) as Kh. split; [|done]. split.
  - congruence.
  - rewrite K2; done.
  - destruct Kh as [-> _]. done.
  - by eapply keep_ok.
Qed.

Context (Hep : entry_paths header body) (Htmp : temp_of body tmp).

(** The invariant: the header is the one of [d0], or the entry is complete. *)
Definition safe_entry (d0 : disk) (text : cstr) (d : disk) : Prop :=
  keep header d0 d \/ published text d.

Lemma keep_remove p d d' r : fs_spec d (Remove p) r d' -> header <> p -> file_ok d header -> keep header d d'.
Proof. intros H Hn Hok. by eapply fs_spec_keep. Qed.

(** Removing files other than the header is harmless. *)
Lemma wpa_remove {B} d0 (I : disk -> Prop) p (k : prog S B) (Q : B -> world -> S -> Prop) w s :
  (forall d, keep header d0 d -> I d) ->
  header <> p -> keep header d0 (view w) -> file_ok (view w) header ->
  (forall w', keep header d0 (view w') -> file_ok (view w') header ->
     d_fds (view w') = d_fds (view w) -> wpa I k Q w' s) ->
  wpa I (remove p k) Q w s.
Proof.
  intros HI Hp Hk Hok H. unfold remove. wpa_call; [by apply HI|done|]. intros a w1 Hs _.
  assert (keep header d0 (view w1)) as Hk1 by (etrans; [done|by eapply keep_remove]).
  split; [by apply HI|]. apply H; [done| |].
  - eapply keep_ok; [by eapply keep_remove|done].
  - apply (fs_spec_fds _ _ _ _ Hs).
Qed.

(** Giving up: three names that are not the header's are removed. *)
Lemma wpa_cleanup d0 text p q w (s : S) :
  header <> p -> header <> q -> keep header d0 (view w) -> file_ok (view w) header ->
  wpa (safe_entry d0 text) (remove p (remove q (remove body (mret tt))))
    (fun _ w' s' => s' = s /\ d_fds (view w') = d_fds (view w)) w s.
Proof.
  intros Np Nq Hk Hok. pose proof (header_ne_body _ _ Hep) as Nhb.
  apply (wpa_remove d0); [by left|done..|]. intros w3 K3 O3 F3.
  apply (wpa_remove d0); [by left|done..|]. intros w4 K4 O4 F4.
  apply (wpa_remove d0); [by left|done..|]. intros w5 K5 O5 F5. apply wpa_ret; [by left|].
  split; [done|congruence].
Qed.

Lemma publish_wpa d0 text tmp_header j w (s : S) :
  keep header d0 (view w) -> held (view w) -> temp_of header tmp_header ->
  d_names (view w) !! tmp_header = Some j -> d_data (view w) !! j = Some text ->
  wpa (safe_entry d0 text) (publish ctx tmp tmp_header)
    (fun _ w' s' => s' = s /\ d_fds (view w') = d_fds (view w) /\
       (healthy w -> room (view w) -> healthy w' /\ published text (view w'))) w s.
Proof.
  intros Hk Hh Hth Hj Hd. pose proof (hd_ok _ Hh) as Hok.
  destruct (temp_body_ne _ _ Hep _ Htmp) as (Nt1 & Nt2 & Nt3).
  destruct (temp_header_ne _ _ Hep _ Hth) as (Nh1 & Nh2).
  pose proof (header_ne_body _ _ Hep) as Nhb.
  assert (tmp_header <> tmp) as Ntt by (by intros ->).
  unfold publish. wpa_call; [by left|done|]. intros ok w1 Hs1 Hh1.
  assert (keep header (view w) (view w1)) as K1 by (eapply fs_spec_keep; [exact Hs1|exact Hok|by split]).
  assert (keep header d0 (view w1)) as K01 by (by etrans).
  assert (file_ok (view w1) header) as Hok1 by (by apply (keep_ok _ _ _ K1)).
  assert (d_fds (view w1) = d_fds (view w)) as F1 by apply (fs_spec_fds _ _ _ _ Hs1).
  pose proof (fs_spec_dirs _ _ _ _ Hs1) as D1. cbn in D1.
  split; [by left|]. destruct ok.
  - (* the body is in place *)
    cbn in Hs1. destruct Hs1 as (i' & Hi' & t1 & _ & V1). rewrite (hd_name _ Hh) in Hi'. injection Hi' as <-.
    assert (d_names (view w1) !! tmp_header = Some j) as Hj1.
    { rewrite V1. cbn. by rewrite lookup_insert_ne, lookup_delete_ne by done. }
    wpa_call; [by left|done|]. intros ok w2 Hs2 Hh2. destruct ok.
    + (* published *)
      cbn in Hs2. destruct Hs2 as (j' & Hj' & t2 & _ & V2). rewrite Hj1 in Hj'. injection Hj' as <-.
      assert (published text (view w2)) as Hpub.
      { unfold published, file_at. rewrite V2. cbn. rewrite lookup_insert_eq, V1. cbn.
        rewrite Hd, (lookup_insert_ne _ header), lookup_delete_ne, lookup_insert_eq by done. cbn.
        by rewrite (hd_data _ Hh). }
      split; [by right|]. apply wpa_ret; [by right|]. split_and!; [done| |].
      * rewrite V2. by rewrite V1.
      * intros Hw _. split; [|done]. apply Hh2. by apply Hh1.
    + assert (keep header (view w1) (view w2)) as K2 by by apply later_keep.
      assert (keep header d0 (view w2)) as K02 by (by etrans).
      assert (file_ok (view w2) header) as Hok2 by (by apply (keep_ok _ _ _ K2)).
      split; [by left|]. eapply wpa_mono; [by apply (wpa_cleanup d0 text)|]. intros _ w5 s5 [-> F5].
      split_and!; [done| |].
      * rewrite F5, <- F1. apply (fs_spec_fds _ _ _ _ Hs2).
      * intros Hw Hroom. destruct (Hh1 Hw) as [_ Hw1], (Hh2 Hw1) as [Hf _].
        destruct (room_dirs _ _ D1 Hroom).
        by discriminate (Hf (ex_intro _ j Hj1) rm_header0 rm_header_dir0).
  - apply wpa_bind. apply wpa_ret; [by left|].
    eapply wpa_mono; [by apply (wpa_cleanup d0 text)|]. intros _ w5 s5 [-> F5].
    split_and!; [done|congruence|]. intros Hw Hroom. destruct (Hh1 Hw) as [Hf _]. destruct Hroom.
    by discriminate (Hf (ex_intro _ i (hd_name _ Hh)) rm_body0 rm_body_dir0).
Qed.

(** No temporary file of the header is left over. *)
Definition no_temp (path : cstr) (d : disk) : Prop :=
  forall s, d_names d !! (path ++ str "." ++ s) = None.

(** A call that neither holds the body nor the header, on the way. *)
Lemma wpa_step {B} d0 (I : disk -> Prop) o (k : answer o -> prog S B) (Q : B -> world -> S -> Prop) w s :
  (forall d, keep header d0 d -> I d) ->
  keep header d0 (view w) -> held (view w) -> op_defined (view w) o = true ->
  spares (view w) o tmp -> spares (view w) o header ->
  (forall a w', fs_spec (view w) o a (view w') ->
     (healthy w -> fs_succeeds (view w) o a /\ healthy w') ->
     keep header d0 (view w') -> held (view w') -> wpa I (k a) Q w' s) ->
  wpa I (call o ≫= k) Q w s.
Proof.
  intros HI Hk Hh Hd Ht Hhd H. wpa_call; [by apply HI|done|]. intros a w' Hs Hw.
  destruct (held_step _ _ _ _ Hs Ht Hhd Hh) as [Hh' Hk'].
  assert (keep header d0 (view w')) as Hk2 by (by etrans).
  split; [by apply HI|]. by apply H.
Qed.

Lemma write_header_wpa d0 text w (s : S) :
  keep header d0 (view w) -> held (view w) ->
  wpa (safe_entry d0 text) (write_header ctx tmp text)
    (fun _ w' s' => s' = s /\ d_fds (view w') = d_fds (view w) /\
       (healthy w -> room (view w) -> no_temp header (view w) ->
        healthy w' /\ published text (view w'))) w s.
Proof.
  intros Hk Hh. destruct (temp_body_ne _ _ Hep _ Htmp) as (Nt1 & Nt2 & Nt3).
  destruct (not_temp_self _ _ Hep) as [Nself _].
  unfold write_header. rewrite apr_pstrcat_spec. cbn [concat]. rewrite app_nil_r.
  apply (wpa_step d0); [by left|done|done|done|done|done|]. intros [[tmp_header hf]|] w1 Hs1 Hh1 Hk1 Hd1.
  2: { apply (wpa_remove d0); [by left|done..|by apply hd_ok|]. intros w2 K2 O2 F2. apply wpa_ret; [by left|].
       cbn in Hs1. destruct Hs1 as (t & _ & V1). split_and!; [done|by rewrite F2, V1|].
       intros Hw Hroom Hno. destruct (Hh1 Hw) as [Hf _].
       destruct (Hf (header ++ str ".")) as [? [=]]; [by rewrite <- app_assoc| |].
       - by apply in_dir_suffix, Hroom.
       - intros s'. rewrite <- app_assoc. apply Hno. }
  cbn in Hs1. destruct Hs1 as (j & t1 & Hth & Hnew & Hjd & Hhf & t & _ & V1).
  assert (j <> i) as Hji by (intros ->; pose proof (hd_data _ Hh); congruence).
  assert (d_fds (view w1) !! hf = Some (j, 0)) as Ff by (rewrite V1; cbn; by rewrite lookup_insert_eq).
  assert (d_names (view w1) !! tmp_header = Some j) as Nj by (rewrite V1; cbn; by rewrite lookup_insert_eq).
  assert (d_data (view w1) !! j = Some []) as Dj by (rewrite V1; cbn; by rewrite lookup_insert_eq).
  assert (d_names (view w1) !! header <> Some j) as Hjh.
  { destruct Hk1 as [E _]. destruct Hk as [E0 _]. rewrite E, <- E0. intros Hj.
    destruct (hd_ok _ Hh j Hj). congruence. }
  destruct (temp_header_ne _ _ Hep _ Hth) as (Nh1 & Nh2).
  assert (tmp_header <> tmp) as Ntt by (by intros ->).
  assert (delete hf (d_fds (view w1)) = d_fds (view w)) as Fdel.
  { rewrite V1. cbn. by rewrite delete_insert_id. }
  apply (wpa_step d0); [by left|done|done|apply bool_decide_eq_true; by rewrite Ff| | |].
  { cbn. intros j' off E. rewrite Ff in E. injection E as <- <-. rewrite (hd_name _ Hd1). congruence. }
  { cbn. intros j' off E. rewrite Ff in E. by injection E as <- <-. }
  intros ok w2 Hs2 Hh2 Hk2 Hd2. pose proof (fs_spec_dirs _ _ _ _ Hs2) as D2. cbn in Hs2, D2.
  destruct Hs2 as (j' & off & b & t2 & Ff' & Db & n & Hn & Hok & t2' & _ & V2).
  rewrite Ff in Ff'. injection Ff' as <- <-. rewrite Dj in Db. cbn in Db. subst b.
  rewrite take_nil, drop_nil, app_nil_r in V2. cbn [app] in V2.
  assert (d_names (view w2) !! tmp_header = Some j) as Nj2 by (by rewrite V2).
  assert (op_defined (view w2) (Close hf) = true) as Hdef.
  { apply bool_decide_eq_true. rewrite V2. cbn. by rewrite lookup_insert_eq. }
  destruct ok.
  - rewrite (Hok eq_refl), firstn_all in V2.
    apply (wpa_step d0); [by left|done|done|done|done|done|]. intros [] w3 Hs3 Hh3 Hk3 Hd3.
    pose proof (fs_spec_dirs _ _ _ _ Hs3) as D3. cbn in Hs3, D3. destruct Hs3 as (t3 & _ & V3).
    eapply wpa_mono; [eapply (publish_wpa d0 text tmp_header j); try done|].
    + by rewrite V3.
    + rewrite V3, V2. cbn. by rewrite lookup_insert_eq.
    + intros [] w4 s4 (-> & F4 & P4). split_and!; [done| |].
      * rewrite F4, V3, V2. cbn. by rewrite delete_insert_eq.
      * intros Hw Hroom _. apply P4; [by apply Hh3, Hh2, Hh1|].
        eapply room_dirs; [|exact Hroom]. rewrite D3, D2, V1. done.
  - apply (wpa_step d0); [by left|done|done|done|done|done|]. intros [] w3 Hs3 Hh3 Hk3 Hd3. cbn in Hs3.
    destruct Hs3 as (t3 & _ & V3).
    apply (wpa_remove d0); [by left|done..|by apply hd_ok|]. intros w4 K4 O4 F4.
    apply (wpa_remove d0); [by left|done..|]. intros w5 K5 O5 F5. apply wpa_ret; [by left|].
    split_and!; [done| |].
    + rewrite F5, F4, V3, V2. cbn. by rewrite delete_insert_eq.
    + intros Hw _ _. destruct (Hh1 Hw) as [_ Hw1], (Hh2 Hw1) as [Hf _].
      discriminate Hf. unfold fd_data. rewrite Ff. cbn. by rewrite Dj.
Qed.

(** ** The whole of [finalize_cache_entry] *)

(** The header file for a response finished at [created]. *)
Definition entry_text (r : request) (created expires : Z) : cstr :=
  header_file_text created expires (r_status r) (r_method r) (r_hostname r)
    (r_uri (cacher_original_request r)) (r_args (cacher_original_request r))
    (dump_headers (r_headers_out r)).

(** A complete entry of the response [r], published after [t0]. *)
Definition entry_of (r : request) (t0 : Z) (d : disk) : Prop :=
  exists created now, (t0 <= created <= now)%Z /\ in_time now /\
    published (entry_text r created (now + ttl_seconds (oc_rule ctx))) d.

(** The rule's lifetime can be added to any time. *)
Definition ttl_ok (rule : cacher_rule) : Prop := (0 <= ttl_seconds rule <= 9223362813482738952)%Z.

Lemma add_ttl now : in_time now -> ttl_ok (oc_rule ctx) ->
  add_int64 now (ttl_seconds (oc_rule ctx)) = Some (now + ttl_seconds (oc_rule ctx))%Z.
Proof.
  unfold in_time, ttl_ok, add_int64, in_long, LONG_MIN, LONG_MAX. intros H1 H2.
  destruct (_ && _) eqn:E; [done|]. apply andb_false_iff in E as [E%Z.leb_gt|E%Z.leb_gt]; lia.
Qed.

Lemma fs_spec_now d o a d' : fs_spec d o a d' -> tick (d_now d) (d_now d').
Proof.
  destruct o; cbn.
  - destruct a; [intros (? & _ & _ & t & H & ->)|intros (t & H & ->)]; done.
  - by intros [(t & H & ->) _].
  - destruct a; [intros (? & ? & ? & _ & _ & _ & _ & t & H & ->)|intros (? & ? & ? & _ & t & H & ->)]; done.
  - by intros (t & H & ->).
  - destruct a as [[p fd]|]; [intros (? & ? & _ & _ & _ & _ & t & H & ->)|intros (t & H & ->)]; done.
  - intros (? & ? & ? & ? & _ & _ & n & _ & _ & t & H & ->). done.
  - destruct a; [intros (? & _ & t & H & ->)|intros (t & H & ->)]; done.
  - destruct a; intros (t & H & ->); done.
  - destruct a; [intros (? & (t & H & ->) & _)|intros (t & H & ->)]; done.
  - by intros [(t & H & ->) _].
  - destruct a; [intros (? & _ & _ & _ & _ & t & H & ->)|intros (t & H & ->)]; done.
  - destruct a; [intros (? & ? & _ & t & H & ->)|intros (t & H & ->)]; done.
  - by intros (t & H & ->).
  - by intros [H ->].
Qed.

(** The invariant with the times of this run. *)
Definition safe_response (d0 : disk) (r : request) (d : disk) : Prop :=
  keep header d0 d \/ entry_of r (d_now d0) d.

Lemma finalize_wpa r fd off w (s : S) :
  oc_tmp_body_file ctx = Some fd -> oc_tmp_body_path ctx = Some tmp ->
  d_fds (view w) !! fd = Some (i, off) -> held (view w) ->
  in_time (d_now (view w)) -> ttl_ok (oc_rule ctx) ->
  wpa (safe_response (view w) r) (finalize_cache_entry r ctx)
    (fun _ w' s' => s' = s /\ d_fds (view w') = delete fd (d_fds (view w)) /\
       (r_aborted r = true \/ wrong_length r ctx = true -> keep header (view w) (view w')) /\
       (healthy w -> room (view w) -> no_temp header (view w) ->
        r_aborted r = false -> wrong_length r ctx = false ->
        healthy w' /\ entry_of r (d_now (view w)) (view w'))) w s.
Proof.
  intros Hf Ht Hfd Hheld Htime Httl. set (d0 := view w).
  destruct (temp_body_ne _ _ Hep _ Htmp) as (Nt1 & Nt2 & Nt3).
  assert (keep header d0 (view w)) as Hk by done.
  unfold finalize_cache_entry. rewrite Hf, Ht.
  apply (wpa_step d0); [by left|done|done|apply bool_decide_eq_true; by rewrite Hfd|done|done|].
  intros [] w1 Hs1 Hh1 Hk1 Hd1. cbn in Hs1. destruct Hs1 as (t1 & [Ht1 Ht1'] & V1).
  assert (d_fds (view w1) = delete fd (d_fds d0)) as F1 by by rewrite V1.
  destruct (r_aborted r) eqn:Eab; [|destruct (wrong_length r ctx) eqn:Ewl].
  1, 2: apply (wpa_remove d0); [by left|done..|by apply hd_ok|]; intros w2 K2 O2 F2;
    apply wpa_ret; [by left|]; split_and!; [done|by rewrite F2|done|done].
  apply (wpa_step d0); [by left|done|done|done|done|done|]. intros created w2 Hs2 Hh2 Hk2 Hd2.
  cbn in Hs2. destruct Hs2 as [[Ht2 Ht2'] V2].
  apply (wpa_step d0); [by left|done|done|done|done|done|]. intros now w3 Hs3 Hh3 Hk3 Hd3.
  cbn in Hs3. destruct Hs3 as [[Ht3 Ht3'] V3].
  assert (d_now (view w1) = t1) as N1 by by rewrite V1.
  assert (d_now (view w2) = created) as N2 by by rewrite V2.
  rewrite N1 in Ht2, Ht2'. rewrite N2 in Ht3, Ht3'.
  assert (in_time now) as Hnow by auto.
  assert (d_now d0 <= created <= now)%Z as Hle by (split; [exact (Z.le_trans _ _ _ Ht1 Ht2)|exact Ht3]).
  rewrite add_ttl by done.
  eapply wpa_weaken; [|eapply wpa_mono;
    [apply (write_header_wpa d0 (entry_text r created (now + ttl_seconds (oc_rule ctx))) w3 s);
     [exact Hk3|exact Hd3]|]].
  - intros d [H|H]; [by left|]. right. exists created, now. split; [exact Hle|by split].
  - intros [] w4 s4 (-> & F4 & P4). split_and!; [done| |by intros [?|?]|].
    + by rewrite F4, V3, V2.
    + intros Hw Hroom Hno _ _. destruct P4 as [Hw4 Hp].
      * by apply Hh3, Hh2, Hh1.
      * eapply room_dirs; [|exact Hroom]. by rewrite V3, V2, V1.
      * intros x. rewrite V3, V2, V1. apply Hno.
      * split; [done|]. exists created, now. split; [exact Hle|by split].
Qed.
End publish.

(** ** Properties *)

Section properties.
Context {AS : AprStrings} {AT : AprTables} {AM : AprMd5} {HT : Httpd} {AF : AprFiles} {S : Type}.

(** A captured response, about to be published. *)
Record capture_done (ctx : cacher_out_ctx) (tmp : cstr) (fd i off : nat) (bytes : list ascii)
    (w : world) : Prop := {
  cd_paths : entry_paths (oc_header_path ctx) (oc_body_path ctx);
  cd_temp : temp_of (oc_body_path ctx) tmp;
  cd_file : oc_tmp_body_file ctx = Some fd;
  cd_path : oc_tmp_body_path ctx = Some tmp;
  cd_fd : d_fds (view w) !! fd = Some (i, off);
  cd_held : held ctx tmp i bytes (view w);
  cd_time : in_time (d_now (view w));
  cd_ttl : ttl_ok (oc_rule ctx);
}.

(** C8: whichever calls fail and wherever the process stops, the header file of
    an entry is at every moment the one it was before, or the complete header
    of this response with its complete body in place: a reader that trusts an
    entry by its header never sees one without the body it describes. *)
Theorem publish_header_last ctx r tmp fd i off bytes w (s : S) :
  capture_done ctx tmp fd i off bytes w ->
  always (fun d => keep (oc_header_path ctx) (view w) d \/
                   entry_of ctx bytes r (d_now (view w)) d)
    (finalize_cache_entry r ctx) w s.
Proof. intros []. eapply (finalize_wpa ctx tmp i bytes); done. Qed.

(** The response of a client that went away, or one whose length is not the
    declared one, is never published, and on every path the captured file is
    closed and no other file stays open. *)
Theorem truncated_not_published ctx r tmp fd i off bytes w (s : S) :
  capture_done ctx tmp fd i off bytes w ->
  exists w', exec (finalize_cache_entry r ctx) w s = Some (tt, w', s) /\
    d_fds (view w') = delete fd (d_fds (view w)) /\
    (r_aborted r = true \/ wrong_length r ctx = true -> keep (oc_header_path ctx) (view w) (view w')).
Proof.
  intros [].
  destruct (wpp_run _ _ _ _ (wpa_wpp _ _ _ _ _ (finalize_wpa ctx tmp i bytes cd_paths0 cd_temp0
    r fd off w s cd_file0 cd_path0 cd_fd0 cd_held0 cd_time0 cd_ttl0)))
    as ([] & w' & s' & E & -> & F & K & _). by exists w'.
Qed.
End properties.

(** ** A captured response *)

Definition sample_ctx : cacher_out_ctx :=
  OutCtx sample_vary_rule (str "/c/e.header") (str "/c/e.body") (Some (str "/c/e.body.aaaaaa")) (Some 3)
    5 true true.

Definition sample_capture : disk :=
  Disk {[str "/c/e.body.aaaaaa" := 1]} {[1 := str "hello"]} {[1 := 7%Z]} {[str "/c"]} {[3 := (1, 5)]} ∅ 1000.

Lemma sample_capture_done :
  capture_done sample_ctx (str "/c/e.body.aaaaaa") 3 1 5 (str "hello") sample_capture.
Proof.
  split; try reflexivity.
  - exists (str "/c/e"). done.
  - apply (temp_of_intro (str "/c/e.body") (str "aaaaaa"));
      [done|apply (bool_decide_unpack _); vm_compute; exact I..].
  - split; [reflexivity|reflexivity|by vm_compute|]. intros j Hj. by vm_compute in Hj.
  - split; by vm_compute.
  - split; by vm_compute.
Defined.

Lemma publish_header_last_witness :
  always (fun d => keep (oc_header_path sample_ctx) sample_capture d \/
                   entry_of sample_ctx (str "hello") sample_gzip_request 1000 d)
    (finalize_cache_entry sample_gzip_request sample_ctx) sample_capture tt.
Proof. exact (publish_header_last _ _ _ _ _ _ _ sample_capture tt sample_capture_done). Defined.

Lemma truncated_not_published_witness :
  exists w', exec (finalize_cache_entry sample_gzip_request sample_ctx) sample_capture tt = Some (tt, w', tt) /\
    d_fds (view w') = delete 3 (d_fds (view sample_capture)) /\
    (r_aborted sample_gzip_request = true \/ wrong_length sample_gzip_request sample_ctx = true ->
     keep (oc_header_path sample_ctx) (view sample_capture) (view w')).
Proof. exact (truncated_not_published _ _ _ _ _ _ _ sample_capture tt sample_capture_done). Defined.
