(* ===== verification/Lookup.v ===== *)
(** * What a lookup returns

    [cacher_cache_lookup] against the files on disk: it changes nothing, opens
    at most the body it returns, hits exactly on a complete entry that has not
    expired, and replays only headers that may be shared. *)

From S2P Require Import Prelude CNum CHeap Glob Rules RulesParse RulesMatch Apr AprFile AprRef Util Meta.
From S2P Require Import Cache Publish.
From Stdlib Require Import Lia.
Local Open Scope cstr_scope.

(** ** Opening and reading a file *)

(** Only the clock and the open files may differ. *)
Definition same_store (d d' : disk) : Prop :=
  d_names d' = d_names d /\ d_data d' = d_data d /\ d_mtime d' = d_mtime d /\ d_dirs d' = d_dirs d /\
  d_streams d' = d_streams d.

#[export] Instance same_store_preorder : PreOrder same_store.
Proof. split; unfold same_store; [done|]. intros ??? (->&->&->&->&->). done. Qed.

Lemma same_store_file_at d d' p : same_store d d' -> file_at d' p = file_at d p.
Proof. unfold file_at. by intros (-> & -> & _). Qed.

Lemma later_same_store d d' : later d d' -> same_store d d' /\ d_fds d' = d_fds d /\ tick (d_now d) (d_now d').
Proof. intros (t & Ht & ->). done. Qed.

Lemma tick_trans a b c : tick a b -> tick b c -> tick a c.
Proof. intros [] []. split; [lia|auto]. Qed.

Section reading.
Context {AF : AprFiles} {S : Type}.

(** [fd] is the file [i] from its start, on top of the open files of [d0]. *)
Definition opened (d0 : disk) (path : cstr) (fd : nat) (d : disk) : Prop :=
  same_store d0 d /\ tick (d_now d0) (d_now d) /\ d_fds d0 !! fd = None /\
  exists i, d_names d0 !! path = Some i /\ d_fds d = <[fd := (i, 0)]> (d_fds d0).

(** The state of [d0] with the time gone by. *)
Definition waited (d0 d : disk) : Prop :=
  same_store d0 d /\ tick (d_now d0) (d_now d) /\ d_fds d = d_fds d0.

Lemma waited_refl d : waited d d.
Proof. split_and!; [done..|apply tick_refl|done]. Qed.

Lemma waited_trans d1 d2 d3 : waited d1 d2 -> waited d2 d3 -> waited d1 d3.
Proof.
  intros (H1 & T1 & F1) (H2 & T2 & F2). split_and!; [by etrans|by eapply tick_trans|congruence].
Qed.

Lemma wpp_open {B} path (k : option nat -> prog S B) (Q : B -> world -> S -> Prop) w s :
  (forall w', waited (view w) (view w') ->
     (healthy w -> healthy w' /\ file_at (view w) path = None) -> wpp (k None) Q w' s) ->
  (forall fd w', opened (view w) path fd (view w') -> (healthy w -> healthy w') ->
     wpp (k (Some fd)) Q w' s) ->
  wpp (call (OpenRead path) ≫= k) Q w s.
Proof.
  intros Hn Hs. wp_call; [done|]. intros a w' Hsp Hh. cbn in Hsp, Hh. destruct a as [fd|].
  - apply Hs; [|intros Hw; by apply Hh]. destruct Hsp as (i & Hi & Hf & t & Ht & V).
    split_and!; [by rewrite V|by rewrite V|done|]. exists i. by rewrite V.
  - apply Hn; [by apply later_same_store in Hsp as (? & ? & ?)|]. intros Hw.
    destruct (Hh Hw) as [Hf Hw']. split; [done|]. destruct (file_at _ _); [|done].
    by destruct Hf as [? [=]].
Qed.

Lemma wpp_now {B} (k : Z -> prog S B) (Q : B -> world -> S -> Prop) w s :
  (forall t w', waited (view w) (view w') -> (d_now (view w) <= t)%Z -> d_now (view w') = t ->
     (healthy w -> healthy w') -> wpp (k t) Q w' s) ->
  wpp (call Now ≫= k) Q w s.
Proof.
  intros H. wp_call; [done|]. intros t w' [Ht V] Hh. cbn in Ht. apply H; [| |by rewrite V|].
  - split_and!; [by rewrite V|by rewrite V; destruct Ht|by rewrite V].
  - apply Ht.
  - intros Hw. by apply Hh.
Qed.

Lemma wpp_close {B} d0 path fd (k : unit -> prog S B) (Q : B -> world -> S -> Prop) w s off :
  same_store d0 (view w) -> tick (d_now d0) (d_now (view w)) -> d_fds d0 !! fd = None ->
  (exists i, d_names d0 !! path = Some i /\ d_fds (view w) = <[fd := (i, off)]> (d_fds d0)) ->
  (forall w', waited d0 (view w') -> (healthy w -> healthy w') -> wpp (k tt) Q w' s) ->
  wpp (call (Close fd) ≫= k) Q w s.
Proof.
  intros Hsame Ht Hf (i & Hi & Hfds) H. wp_call.
  { apply bool_decide_eq_true. rewrite Hfds, lookup_insert_eq. eauto. }
  intros [] w' (t & Ht' & V) Hh. apply H; [|intros Hw; by apply Hh]. cbn in Ht'.
  split_and!.
  - etrans; [exact Hsame|]. by rewrite V.
  - rewrite V. by eapply tick_trans.
  - rewrite V. cbn. by rewrite Hfds, delete_insert_id.
Qed.

(** The size of an open file. *)
Lemma wpp_size {B} d0 path fd (k : option Z -> prog S B) (Q : B -> world -> S -> Prop) w s :
  opened d0 path fd (view w) ->
  (forall w', opened d0 path fd (view w') ->
     (healthy w -> healthy w' /\ file_at d0 path = None) -> wpp (k None) Q w' s) ->
  (forall data w', opened d0 path fd (view w') -> file_at d0 path = Some data ->
     (healthy w -> healthy w') -> wpp (k (Some (Z.of_nat (length data)))) Q w' s) ->
  wpp (call (InfoSize fd) ≫= k) Q w s.
Proof.
  intros (Hsame & Ht & Hf & i & Hi & Hfds) Hn Hs. wp_call.
  { apply bool_decide_eq_true. rewrite Hfds, lookup_insert_eq. eauto. }
  assert (fd_data (view w) fd = file_at d0 path) as Efd.
  { unfold fd_data. rewrite Hfds, lookup_insert_eq. cbn. unfold file_at. rewrite Hi. cbn.
    by destruct Hsame as (_ & -> & _). }
  intros a w' [Hlat Ha] Hh. cbn in Ha, Hh. rewrite Efd in Ha, Hh.
  apply later_same_store in Hlat as (Hsame' & F' & Ht').
  assert (opened d0 path fd (view w')) as Hop.
  { split_and!; [by etrans|by eapply tick_trans|done|]. exists i. by rewrite F'. }
  destruct a as [n|].
  - specialize (Ha n eq_refl). apply fmap_Some in Ha as (data & Hdata & ->).
    apply Hs; [done|done|]. intros Hw. by apply Hh.
  - apply Hn; [done|]. intros Hw. destruct (Hh Hw) as [Hx Hw']. split; [done|].
    destruct (file_at d0 path); [|done]. by destruct Hx as [? [=]].
Qed.

Context {AS : AprStrings} {AT : AprTables}.

(** Reading a header file: nothing, or what the bytes of the file say. *)
Lemma wpp_read_meta {B} path (k : _ -> prog S B) (Q : B -> world -> S -> Prop) w s :
  (forall w', waited (view w) (view w') ->
     (healthy w -> healthy w' /\ (file_at (view w) path = None \/ file_at (view w) path = Some [])) ->
     wpp (k None) Q w' s) ->
  (forall text w', waited (view w) (view w') -> file_at (view w) path = Some text ->
     (healthy w -> healthy w') -> wpp (k (parse_header_file (c_str text))) Q w' s) ->
  wpp (cacher_cache_read_meta path ≫= k) Q w s.
Proof.
  intros Hn Hs. apply wpp_bind. unfold cacher_cache_read_meta.
  apply wpp_open; [intros w' Hw' Hh; apply wpp_ret; apply Hn; naive_solver|].
  intros fd w1 Hop1 Hh1. eapply wpp_size; [exact Hop1| |].
  { intros w2 (Hsame & Ht & Hf & i & Hi & Hfds) Hh2.
    eapply wpp_close; [done..|by exists i|]. intros w3 Hw3 Hh3. apply wpp_ret. apply Hn; naive_solver. }
  intros data w2 (Hsame & Ht & Hf & i & Hi & Hfds) Hdata Hh2.
  destruct (Z.leb_spec (Z.of_nat (length data)) 0) as [Hz|Hz].
  { eapply wpp_close; [done..|by exists i|]. intros w3 Hw3 Hh3. apply wpp_ret. apply Hn; [done|].
    destruct data; [|cbn in Hz; lia]. naive_solver. }
  rewrite Nat2Z.id. wp_call.
  { apply bool_decide_eq_true. rewrite Hfds, lookup_insert_eq. eauto. }
  intros bytes w3 Hrd Hh3. cbn in Hrd, Hh3. rewrite Hfds, lookup_insert_eq in Hrd, Hh3.
  assert (d_data (view w2) !! i = Some data) as Hd.
  { unfold file_at in Hdata. rewrite Hi in Hdata. cbn in Hdata. by destruct Hsame as (_ & -> & _). }
  assert (same_store (view w2) (view w3) /\ tick (d_now (view w2)) (d_now (view w3)) /\
          exists off, d_fds (view w3) = <[fd := (i, off)]> (d_fds (view w))) as (Hsame3 & Ht3 & off & Hfds3).
  { destruct bytes as [b|].
    - destruct Hrd as (j & off & data' & Hj & _ & _ & _ & t & Hti & V). injection Hj as <- <-.
      rewrite V. split_and!; [done..|]. eexists. cbn. by rewrite insert_insert_eq.
    - destruct Hrd as (off & j & off0 & Hj & t & Hti & V). injection Hj as <- <-.
      rewrite V. split_and!; [done..|]. eexists. cbn. by rewrite insert_insert_eq. }
  assert (same_store (view w) (view w3)) as Hs03 by by etrans.
  assert (tick (d_now (view w)) (d_now (view w3))) as Ht03 by by eapply tick_trans.
  destruct bytes as [b|].
  - destruct Hrd as (j & off' & data' & Hj & Hd' & _ & -> & _). injection Hj as <- <-.
    rewrite Hd in Hd'. injection Hd' as <-. rewrite drop_0, firstn_all.
    eapply wpp_close; [done..|by exists i|]. intros w4 Hw4 Hh4. apply wpp_ret. apply Hs; [done|done|].
    intros Hw. by apply Hh4, Hh3, Hh2, Hh1.
  - eapply wpp_close; [done..|by exists i|]. intros w4 Hw4 Hh4. apply wpp_ret. apply Hn; [done|].
    intros Hw. destruct (Hh3 (Hh2 (Hh1 Hw))) as [Hx _].
    destruct (Hx i 0 data) as [? [=]]; [done|done|lia].
Qed.
End reading.

(** ** Headers that may be shared *)

Section replay.
Context {AS : AprStrings} {AT : AprTables} {AM : AprMd5} {HT : Httpd}.

Definition replay_text (r : request) (headers : cstr) : request :=
  fold_left replay_line (tokens headers [CR; LF]) r.

Lemma is_uncacheable_ci a b : ci_eq a b -> is_uncacheable_header a = is_uncacheable_header b.
Proof.
  intros H. unfold is_uncacheable_header.
  assert (forall c, cacher_streq_ci (Some a) (Some c) = cacher_streq_ci (Some b) (Some c)) as E.
  { intros c. apply eq_true_iff_eq. rewrite !cacher_streq_ci_spec. by rewrite H. }
  by rewrite !E.
Qed.

(** Replaying changes the response headers and the content type only. *)
Definition same_request (r r' : request) : Prop :=
  exists ct t, r' = set_ctype (set_headers_out r t) ct.

Lemma replay_line_same r line : same_request r (replay_line r line).
Proof.
  unfold replay_line, same_request.
  assert (exists ct t, r = set_ctype (set_headers_out r t) ct) as H0
    by (exists (r_content_type r), (r_headers_out r); by destruct r).
  destruct (strchr line _) as [colon|]; [|done]. destruct (cacher_streq_ci _ _).
  - rewrite ap_set_content_type_spec. eexists _, (r_headers_out r). by destruct r.
  - destruct (negb _); [|done].
    eexists (r_content_type r), (apr_table_setn (r_headers_out r) _ _). by destruct r.
Qed.

Lemma replay_line_headers r line e :
  e ∈ table_elts (r_headers_out (replay_line r line)) ->
  e ∈ table_elts (r_headers_out r) \/ is_uncacheable_header (fst e) = false.
Proof.
  unfold replay_line. destruct (strchr line _) as [colon|]; [|by left].
  destruct (cacher_streq_ci _ _); [rewrite ap_set_content_type_spec; by left|].
  destruct (is_uncacheable_header (before line colon)) eqn:E; cbn [negb]; [by left|].
  intros [H|H]%apr_table_setn_elts; [by left|right]. by rewrite (is_uncacheable_ci _ _ H).
Qed.

Lemma replay_text_same r headers : same_request r (replay_text r headers).
Proof.
  unfold replay_text. generalize (tokens headers [CR; LF]). intros l.
  assert (same_request r r) as H0 by (exists (r_content_type r), (r_headers_out r); by destruct r).
  revert H0. generalize r at 2 4. induction l as [|line l IH]; intros r0 H0; cbn [fold_left]; [done|].
  apply IH. destruct H0 as (ct & t & ->), (replay_line_same (set_ctype (set_headers_out r t) ct) line)
    as (ct' & t' & ->). by exists ct', t'.
Qed.

Lemma replay_text_headers r headers e :
  e ∈ table_elts (r_headers_out (replay_text r headers)) ->
  e ∈ table_elts (r_headers_out r) \/ is_uncacheable_header (fst e) = false.
Proof.
  unfold replay_text. generalize (tokens headers [CR; LF]). intros l. revert r.
  induction l as [|line l IH]; intros r; cbn [fold_left]; [by left|].
  intros [H|H]%IH; [|by right]. by apply replay_line_headers in H.
Qed.

(** A header that a line of the stored block can carry. *)
Definition header_ok (e : cstr * cstr) : Prop :=
  ":"%char ∉ fst e /\ CR ∉ fst e /\ LF ∉ fst e /\ CR ∉ snd e /\ LF ∉ snd e /\
  match snd e with c :: _ => c <> SP | [] => True end.

#[export] Instance header_ok_dec e : Decision (header_ok e).
Proof. unfold header_ok. destruct (snd e); apply _. Defined.

(** The effect of one stored header on the response. *)
Definition replay_header (r : request) (e : cstr * cstr) : request :=
  if decide (ci_eq (fst e) (str "Content-Type")) then set_ctype r (Some (snd e))
  else set_headers_out r (apr_table_setn (r_headers_out r) (fst e) (snd e)).

Definition line_of (e : cstr * cstr) : cstr := fst e ++ str ": " ++ snd e.

Lemma replay_line_of r e :
  header_ok e -> is_uncacheable_header (fst e) = false -> replay_line r (line_of e) = replay_header r e.
Proof.
  destruct e as [n v]. intros (Hn & _ & _ & _ & _ & Hv) Hu. cbn in *. unfold replay_line, line_of.
  cbn [fst snd]. change (str ": " ++ v) with (":"%char :: [SP] ++ v). rewrite strchr_app by done.
  rewrite before_app. cbn [tail].
  assert (skip_while (fun c => c =? SP) (" "%char :: v) = v) as ->.
  { apply (skip_while_replicate SP (fun c => c =? SP) 1 v); [done|]. destruct v as [|c v]; [done|].
    by apply Ascii.eqb_neq. }
  unfold replay_header. cbn [fst snd].
  destruct (decide (ci_eq n (str "Content-Type"))) as [Hc|Hc].
  - apply cacher_streq_ci_spec in Hc. by rewrite Hc, ap_set_content_type_spec.
  - destruct (cacher_streq_ci _ _) eqn:E; [by apply cacher_streq_ci_spec in E|]. by rewrite Hu.
Qed.

Lemma tokens_header_lines l :
  Forall header_ok l -> tokens (concat (header_line <$> l)) [CR; LF] = line_of <$> l.
Proof.
  enough (forall pre, Forall (fun c => c ∈ [CR; LF]) pre -> Forall header_ok l ->
    tokens (pre ++ concat (header_line <$> l)) [CR; LF] = line_of <$> l) as H by (apply (H []); constructor).
  induction l as [|e l IH]; intros pre Hpre Hl.
  - cbn. rewrite app_nil_r, tokens_step. by rewrite apr_strtok_end.
  - apply Forall_cons in Hl as [He Hl]. destruct e as [n v].
    destruct He as (Hc & Hn1 & Hn2 & Hv1 & Hv2 & _). cbn in *.
    unfold header_line at 1. cbn [fst snd].
    replace (pre ++ (n ++ str ": " ++ v ++ [CR; LF]) ++ concat (header_line <$> l))
      with (pre ++ line_of (n, v) ++ CR :: [LF] ++ concat (header_line <$> l)).
    2: { unfold line_of. cbn [fst snd]. by repeat (rewrite <- !app_assoc || (progress (cbn [app]))). }
    rewrite tokens_cons.
    + f_equal. apply IH; [by repeat constructor|done].
    + done.
    + unfold line_of. cbn [fst snd]. rewrite !Forall_app, !Forall_forall.
      split_and!; intros c Hin; rewrite !elem_of_cons.
      * intros [->|[->|?%elem_of_nil]]; done.
      * cbn in Hin. rewrite !elem_of_cons in Hin. intros [->|[->|?%elem_of_nil]]; [| |done];
          destruct Hin as [?|[?|?%elem_of_nil]]; done.
      * intros [->|[->|?%elem_of_nil]]; done.
    + unfold line_of. cbn. by destruct n.
    + by left.
Qed.

Lemma replay_dump r t :
  Forall header_ok (stored_headers t) ->
  replay_text r (dump_headers t) = fold_left replay_header (stored_headers t) r.
Proof.
  intros Hok. unfold replay_text. rewrite dump_headers_text, tokens_header_lines by done.
  assert (Forall (fun e => is_uncacheable_header (fst e) = false) (stored_headers t)) as Hu.
  { apply Forall_forall. intros e [He _]%list_elem_of_filter. done. }
  revert r Hok Hu. generalize (stored_headers t). intros l.
  induction l as [|e l IH]; intros r Hok Hu; [done|]. apply Forall_cons in Hok as [? ?].
  apply Forall_cons in Hu as [? ?]. cbn [fold_left fmap list_fmap].
  rewrite replay_line_of by done. by apply IH.
Qed.
End replay.

(** ** Lookup *)

Section lookup.
Context {AS : AprStrings} {AT : AprTables} {AM : AprMd5} {HT : Httpd} {AF : AprFiles} {S : Type}.

(** The entry of the paths: its metadata, headers and body. *)
Definition entry_at (d : disk) (header body : cstr) (meta : cacher_entry_meta) (headers : cstr)
    (data : list ascii) : Prop :=
  exists text, file_at d header = Some text /\ parse_header_file (c_str text) = Some (meta, headers) /\
    file_at d body = Some data.

(** What the request becomes when the lookup of [header] and [body] in [d] ends
    in [d'] with a hit. *)
Definition hit_of (d d' : disk) (header body : cstr) (r r' : request) (hit : cache_hit) : Prop :=
  exists meta headers data, entry_at d header body meta headers data /\
    (d_now d < em_expires meta)%Z /\ r' = replay_text r headers /\
    opened d body (ch_file hit) d' /\ ch_status hit = em_status meta /\
    ch_length hit = Z.of_nat (length data) /\
    ch_age hit = (if 0 <? em_created meta then d_now d' - em_created meta else -1)%Z.

(** A miss leaves nothing open; on a healthy file system there is a reason. *)
Definition miss_of (hlt : Prop) (d d' : disk) (header body : cstr) (r r' : request) : Prop :=
  waited d d' /\
  (r' = r \/ exists headers, r' = replay_text r headers /\
     (hlt -> is_Some (file_at d header) /\ file_at d body = None)) /\
  (hlt -> forall meta headers data, entry_at d header body meta headers data ->
     (em_expires meta <= d_now d')%Z).

Lemma wpp_lookup r root rule header body w (s : S) :
  cache_key_paths r root rule = Some (header, body) ->
  wpp (cacher_cache_lookup r root rule) (fun '(r', res) w' s' =>
    s' = s /\ (healthy w -> healthy w') /\
    match res with
    | None => miss_of (healthy w) (view w) (view w') header body r r'
    | Some hit => hit_of (view w) (view w') header body r r' hit
    end) w s.
Proof.
  intros Hp. unfold cacher_cache_lookup. rewrite Hp. apply wpp_read_meta.
  { intros w1 Hw1 Hh1. apply wpp_ret. unfold miss_of. split_and!; [done|naive_solver|done|by left|].
    intros Hw meta headers data (text & Ht & Hps & _).
    destruct (Hh1 Hw) as [_ [E|E]]; rewrite Ht in E; [done|]. injection E as ->. done. }
  intros text w1 Hw1 Htext Hh1. destruct (parse_header_file (c_str text)) as [[meta headers]|] eqn:Eps.
  2: { apply wpp_ret. unfold miss_of. split_and!; [done|done|done|by left|].
       intros _ meta headers data (text' & Ht & Hps & _). congruence. }
  assert (forall meta' headers' data', entry_at (view w) header body meta' headers' data' ->
            meta' = meta /\ headers' = headers /\ file_at (view w) body = Some data') as Huniq
    by (intros ??? (? & ? & ? & ?); naive_solver).
  apply wpp_now. intros now w2 Hw2 Hnow1 Hnow Hh2.
  assert (waited (view w) (view w2)) as Hw02 by by eapply waited_trans.
  destruct (Z.leb_spec (em_expires meta) now) as [Hexp|Hexp].
  { apply wpp_ret. unfold miss_of. split_and!; [done|auto|done|by left|].
    intros _ meta' headers' data' (-> & _ & _)%Huniq. lia. }
  fold (replay_text r headers). set (r' := replay_text r headers).
  apply wpp_open.
  { intros w3 Hw3 Hh3. apply wpp_ret. unfold miss_of. split_and!; [done|naive_solver|by eapply waited_trans| |].
    { right. exists headers. split; [done|]. intros Hw. split; [by eexists|].
      destruct (Hh3 (Hh2 (Hh1 Hw))) as [_ E]. by rewrite (same_store_file_at _ _ _ (proj1 Hw02)) in E. }
    intros Hw meta' headers' data' (_ & _ & Hb)%Huniq. destruct (Hh3 (Hh2 (Hh1 Hw))) as [_ E].
    rewrite (same_store_file_at _ _ _ (proj1 Hw02)) in E. congruence. }
  intros bf w3 Hop Hh3.
  assert (opened (view w) body bf (view w3)) as Hop0.
  { destruct Hw02 as (S02 & T02 & F02), Hop as (S3 & T3 & N3 & i & Hi & F3).
    split_and!; [by etrans|by eapply tick_trans|by rewrite <- F02|]. exists i.
    destruct S02 as (E & _). by rewrite <- E, F3, F02. }
  clear Hop. eapply wpp_size; [exact Hop0| |].
  { intros w4 (S4 & T4 & N4 & i & Hi & F4) Hh4. eapply wpp_close; [done..|by exists i|].
    intros w5 Hw5 Hh5. apply wpp_ret. unfold miss_of. split_and!; [done|naive_solver|done| |].
    { right. exists headers. split; [done|]. intros Hw. split; [by eexists|].
      by destruct (Hh4 (Hh3 (Hh2 (Hh1 Hw)))) as [_ E]. }
    intros Hw meta' headers' data' (_ & _ & Hb)%Huniq. destruct (Hh4 (Hh3 (Hh2 (Hh1 Hw)))) as [_ E].
    congruence. }
  intros data w4 Hop4 Hdata Hh4.
  assert (entry_at (view w) header body meta headers data) as Hentry by by exists text.
  assert (d_now (view w) < em_expires meta)%Z as Hfresh.
  { destruct Hw1 as (_ & [T1 _] & _). lia. }
  destruct (Z.ltb_spec 0 (em_created meta)) as [Hc|Hc].
  - apply wpp_now. intros now2 w5 Hw5 _ Hnow2 Hh5. apply wpp_ret. split_and!; [done|auto 10|].
    exists meta, headers, data. split; [done|]. split; [done|]. split; [done|]. split; [|split; [done|split; [done|]]].
    + destruct Hop4 as (S4 & T4 & N4 & i & Hi & F4), Hw5 as (S5 & T5 & F5).
      split_and!; [by etrans|by eapply tick_trans|done|]. exists i. by rewrite F5.
    + cbn. rewrite (proj2 (Z.ltb_lt _ _)) by done. by rewrite Hnow2.
  - apply wpp_ret. split_and!; [done|auto 10|]. exists meta, headers, data. repeat (split; [done|]).
    cbn. by rewrite (proj2 (Z.ltb_ge _ _)) by done.
Qed.

(** A lookup never fails to return, whatever calls fail; it changes no file,
    and leaves exactly the file of the body it returns open, so nothing leaks
    on a miss. *)
Theorem lookup_read_only r root rule w (s : S) :
  exists r' res w', exec (cacher_cache_lookup r root rule) w s = Some ((r', res), w', s) /\
    same_store (view w) (view w') /\
    match res with
    | None => d_fds (view w') = d_fds (view w)
    | Some hit => exists i, d_fds (view w') = <[ch_file hit := (i, 0)]> (d_fds (view w))
    end.
Proof.
  destruct (cache_key_paths r root rule) as [[header body]|] eqn:E.
  - destruct (wpp_run _ _ _ _ (wpp_lookup r root rule header body w s E))
      as ([r' res] & w' & s' & Ex & -> & _ & H). exists r', res, w'. split; [done|]. destruct res.
    + destruct H as (meta & headers & data & _ & _ & _ & (Hs & _ & _ & i & _ & Hf) & _). eauto.
    + by destruct H as ((? & _ & ?) & _).
  - exists r, None, w. unfold cacher_cache_lookup. by rewrite E.
Qed.

(** C16: a hit is an entry on disk that has not expired, with its status, its
    whole body from the start, its stored headers replayed, and its age; and on
    a healthy file system an entry that does not expire before the lookup ends
    is a hit. *)
Theorem lookup_hit_iff r root rule header body w (s : S) :
  cache_key_paths r root rule = Some (header, body) ->
  exists r' res w', exec (cacher_cache_lookup r root rule) w s = Some ((r', res), w', s) /\
    (forall hit, res = Some hit -> hit_of (view w) (view w') header body r r' hit) /\
    (healthy w -> forall meta headers data, entry_at (view w) header body meta headers data ->
       (d_now (view w') < em_expires meta)%Z -> is_Some res).
Proof.
  intros Hp. destruct (wpp_run _ _ _ _ (wpp_lookup r root rule header body w s Hp))
    as ([r' res] & w' & s' & E & -> & _ & H). exists r', res, w'. split_and!; [done| |].
  - by intros hit ->.
  - intros Hw meta headers data He Hexp. destruct res as [hit|]; [by eexists|].
    destruct H as (_ & _ & H). specialize (H Hw _ _ _ He). lia.
Qed.

(** The headers that describe a connection or belong to one visitor. *)
Definition private_headers : list cstr :=
  [str "Connection"; str "Keep-Alive"; str "Transfer-Encoding"; str "Content-Length"; str "Set-Cookie";
   str "X-Cacher"; str "Age"].

Lemma private_uncacheable name n : n ∈ private_headers -> ci_eq name n -> is_uncacheable_header name = true.
Proof.
  intros Hn E. rewrite (is_uncacheable_ci _ _ E). clear E. revert n Hn. apply Forall_forall.
  apply (bool_decide_unpack _). vm_compute. exact I.
Qed.

(** C29: whatever the file holds, a lookup adds no header to the response that
    describes a connection or belongs to one visitor: none that is called, in
    any case of letters, Connection, Keep-Alive, Transfer-Encoding,
    Content-Length, Set-Cookie, X-Cacher or Age. *)
Theorem lookup_no_private_headers r root rule w (s : S) :
  exists r' res w', exec (cacher_cache_lookup r root rule) w s = Some ((r', res), w', s) /\
    forall name value n, (name, value) ∈ table_elts (r_headers_out r') ->
      n ∈ [str "Connection"; str "Keep-Alive"; str "Transfer-Encoding"; str "Content-Length"; str "Set-Cookie";
           str "X-Cacher"; str "Age"] ->
      ci_eq name n -> (name, value) ∈ table_elts (r_headers_out r).
Proof.
  assert (exists r' res w', exec (cacher_cache_lookup r root rule) w s = Some ((r', res), w', s) /\
    forall e, e ∈ table_elts (r_headers_out r') ->
      e ∈ table_elts (r_headers_out r) \/ is_uncacheable_header (fst e) = false) as (r' & res & w' & Ex & Hall).
  { destruct (cache_key_paths r root rule) as [[header body]|] eqn:E.
    - destruct (wpp_run _ _ _ _ (wpp_lookup r root rule header body w s E))
        as ([r' res] & w' & s' & Ex & -> & _ & H). exists r', res, w'. split; [done|].
      intros e He. destruct res as [hit|].
      + destruct H as (meta & headers & data & _ & _ & -> & _). by apply replay_text_headers in He.
      + destruct H as (_ & [->|(headers & -> & _)] & _); [by left|]. by apply replay_text_headers in He.
    - exists r, None, w. unfold cacher_cache_lookup. rewrite E. split; [done|]. by left. }
  exists r', res, w'. split; [done|]. intros name value n He Hn Hci.
  destruct (Hall _ He) as [|H]; [done|]. cbn in H. by rewrite (private_uncacheable name n) in H.
Qed.
End lookup.

(** ** A stored page *)

Definition sample_root : option cstr := Some (str "/var/cache").

Definition sample_header_path : cstr :=
  default [] (fst <$> cache_key_paths sample_gzip_request sample_root sample_vary_rule).
Definition sample_body_path : cstr :=
  default [] (snd <$> cache_key_paths sample_gzip_request sample_root sample_vary_rule).

(** The entry claims a cookie: the lookup must not believe it. *)
Definition sample_stored_headers : cstr :=
  str "Content-Type: text/html" ++ [CR; LF] ++ str "set-cookie: sid=1" ++ [CR; LF] ++
  str "ETag: 7" ++ [CR; LF].

Definition sample_entry_disk : @world ref_files :=
  Disk {[sample_header_path := 1; sample_body_path := 2]}
    {[1 := header_file_text 1000 1060 200 (str "GET") (Some (str "site.example")) (str "/blog/") None
             sample_stored_headers;
      2 := str "hello"]} {[1 := 1000%Z; 2 := 1000%Z]} ∅ ∅ ∅ 1010.

Lemma lookup_hit_iff_witness :
  exists r' res w',
    exec (cacher_cache_lookup sample_gzip_request sample_root sample_vary_rule) sample_entry_disk tt
      = Some ((r', res), w', tt) /\
    (forall hit, res = Some hit ->
       hit_of sample_entry_disk (view w') sample_header_path sample_body_path sample_gzip_request r' hit) /\
    (True -> forall meta headers data,
       entry_at sample_entry_disk sample_header_path sample_body_path meta headers data ->
       (d_now (view w') < em_expires meta)%Z -> is_Some res).
Proof.
  apply (lookup_hit_iff (AF := ref_files) sample_gzip_request sample_root sample_vary_rule
           sample_header_path sample_body_path sample_entry_disk tt).
  vm_compute. reflexivity.
Defined.

(** The hit on the stored page: status, length and age. *)
Example sample_hit :
  match exec (cacher_cache_lookup sample_gzip_request sample_root sample_vary_rule) sample_entry_disk tt with
  | Some ((r', Some hit), _, _) =>
      Some (ch_status hit, ch_length hit, ch_age hit, r_content_type r', r_headers_out r')
  | _ => None
  end = Some (200, 5, 10, Some (str "text/html"), [(str "ETag", str "7")])%Z.
Proof. vm_compute. reflexivity. Qed.

(** The cookie of the stored page is not replayed. *)
Lemma lookup_no_private_headers_witness :
  exists r' res w',
    exec (cacher_cache_lookup sample_gzip_request sample_root sample_vary_rule) sample_entry_disk tt
      = Some ((r', res), w', tt) /\
    forall name value, (name, value) ∈ table_elts (r_headers_out r') -> ~ ci_eq name (str "Set-Cookie").
Proof.
  destruct (lookup_no_private_headers (AF := ref_files) sample_gzip_request sample_root sample_vary_rule
    sample_entry_disk tt) as (r' & res & w' & E & H).
  exists r', res, w'. split; [exact E|]. intros name value He Hci.
  apply (H name value (str "Set-Cookie") He) in Hci; [by apply elem_of_nil in Hci|].
  apply (bool_decide_unpack _). vm_compute. exact I.
Defined.
