(* ===== verification/RoundTrip.v ===== *)
(** * A stored response is found again

    The output filter over a whole response, on a healthy file system, and the
    lookup that follows: what a later request for the same entry gets is the
    status, the bytes and the headers of the response, until it expires. *)

From S2P Require Import Prelude CNum CHeap Glob Rules RulesParse RulesMatch Apr AprFile AprRef Util Meta.
From S2P Require Import Cache Publish Lookup.
From Stdlib Require Import Lia.
Local Open Scope cstr_scope.

(** ** The filter over the brigades of a response *)

(** httpd calls the filter for each brigade until it has removed itself. *)
Fixpoint run_filter {AS : AprStrings} {AT : AprTables} {AM : AprMd5} {S} (r : request)
    (ctx : cacher_out_ctx) (bbs : list (list bucket)) : prog S cacher_out_ctx :=
  match bbs with
  | [] => mret ctx
  | bb :: bbs' =>
      '(ctx, removed, _) ← cacher_output_filter r ctx bb;
      if removed : bool then mret ctx else run_filter r ctx bbs'
  end.

(** The bytes of data buckets. *)
Definition bucket_bytes (e : bucket) : list ascii := match e with DATA d => d | _ => [] end.
Definition payload (bb : list bucket) : list ascii := concat (bucket_bytes <$> bb).

(** Content that can be read. *)
Definition is_content (e : bucket) : Prop := match e with DATA _ | METADATA => True | _ => False end.

#[export] Instance is_content_dec e : Decision (is_content e).
Proof. destruct e; cbn; apply _. Defined.

(** ** Paths *)

Section shards.
Context {AS : AprStrings} {AT : AprTables} {AM : AprMd5}.

Lemma entry_paths_of r root rule header body :
  cache_key_paths r (Some root) rule = Some (header, body) -> entry_paths header body.
Proof.
  rewrite cache_key_paths_shard. intros [= <- <-]. eexists. unfold child.
  rewrite !app_assoc. done.
Qed.

(** The place of an entry: its names are free to be written. *)
Record slot_ready (d : disk) (root hex header body : cstr) : Prop := {
  sl_dirs : forall q, on_path q (shard_of root hex) -> d_names d !! q = None;
  sl_header_dir : header ∉ d_dirs d;
  sl_body_dir : body ∉ d_dirs d;
  sl_header_temp : no_temp header d;
  sl_body_temp : no_temp body d;
  sl_header_ok : file_ok d header;
}.
End shards.

(** The directories on the way to [path] were made, and no other. *)
Definition grown (path : cstr) (d0 d : disk) : Prop :=
  exists dir name, path = child dir name /\ SLASH ∉ name /\ d_dirs d0 ⊆ d_dirs d /\
    (forall q, q ∈ d_dirs d -> q ∈ d_dirs d0 \/ on_path q dir) /\
    (forall q, on_path q dir -> q <> [] -> q ∈ d_dirs d).

Lemma grown_dirs path d0 d d' : d_dirs d' = d_dirs d -> grown path d0 d -> grown path d0 d'.
Proof. unfold grown. by intros ->. Qed.

(** ** Capturing *)

Section capturing.
Context {AS : AprStrings} {AT : AprTables} {AM : AprMd5} {HT : Httpd} {AF : AprFiles} {S : Type}.
Context (rule : cacher_rule) (header body tmp : cstr) (fd i : nat) (d0 : disk).

(** The context after capturing [bytes]. *)
Definition capture_ctx (bytes : list ascii) : cacher_out_ctx :=
  OutCtx rule header body (Some tmp) (Some fd) (Z.of_nat (length bytes)) true true.

(** The disk then: one more file, open for writing at its end. *)
Record capturing (bytes : list ascii) (d : disk) : Prop := {
  cp_names : d_names d = <[tmp := i]> (d_names d0);
  cp_data : d_data d = <[i := bytes]> (d_data d0);
  cp_fds : d_fds d = <[fd := (i, length bytes)]> (d_fds d0);
  cp_room : room (capture_ctx bytes) d;
  cp_tick : tick (d_now d0) (d_now d);
  cp_dirs : grown header d0 d;
  cp_streams : d_streams d = d_streams d0;
}.

Lemma wpp_capture e bytes w (s : S) :
  is_content e -> healthy w -> capturing bytes (view w) ->
  wpp (capture (capture_ctx bytes) e) (fun '(ctx', removed) w' s' =>
    ctx' = capture_ctx (bytes ++ bucket_bytes e) /\ removed = false /\ s' = s /\
    healthy w' /\ capturing (bytes ++ bucket_bytes e) (view w')) w s.
Proof.
  intros He Hw Hc. unfold capture.
  destruct e as [| |[|c data]|]; try done; cbn [bucket_bytes];
    try (apply wpp_ret; by rewrite app_nil_r).
  destruct Hc as [Hn Hd Hf Hr Ht Hg Hss]. cbn [oc_tmp_body_file capture_ctx].
  eapply (wpp_write_ok _ _ _ Hw fd i bytes); [by rewrite Hf, lookup_insert_eq|by rewrite Hd, lookup_insert_eq|].
  intros t w1 Hw1 (t' & Htick & V).
  apply wpp_ret. split_and!; [|done|done|done|].
  - unfold add_len, capture_ctx. cbn [oc_rule oc_header_path oc_body_path oc_tmp_body_path
      oc_tmp_body_file oc_body_len oc_started oc_cacheable]. f_equal. rewrite length_app. lia.
  - split.
    + by rewrite V.
    + rewrite V. cbn. by rewrite Hd, insert_insert_eq.
    + rewrite V. cbn. by rewrite Hf, insert_insert_eq.
    + destruct Hr as [H1 H2 H3 H4]. by split; unfold in_dir; rewrite V.
    + rewrite V. by eapply tick_trans.
    + eapply grown_dirs; [|done]. by rewrite V.
    + by rewrite V.
Qed.

Lemma wpp_filter_loop r bs bytes w (s : S) (rest : list bucket)
    (Q : cacher_out_ctx * bool -> world -> S -> Prop) :
  Forall is_content bs -> healthy w -> capturing bytes (view w) ->
  (forall w', healthy w' -> capturing (bytes ++ payload bs) (view w') ->
     wpp (filter_loop r (capture_ctx (bytes ++ payload bs)) rest) Q w' s) ->
  wpp (filter_loop r (capture_ctx bytes) (bs ++ rest)) Q w s.
Proof.
  intros Hbs. revert bytes w Q. induction Hbs as [|e bs He Hbs IH]; intros bytes w Q Hw Hc HQ.
  - cbn in HQ. rewrite app_nil_r in HQ. by apply HQ.
  - cbn [app filter_loop capture_ctx oc_cacheable].
    assert (wpp ('(ctx, removed) ← capture (capture_ctx bytes) e;
                 '(ctx, removed') ← filter_loop r ctx (bs ++ rest);
                 mret (ctx, removed || removed')) Q w s) as H.
    { apply wpp_bind. eapply wpp_mono; [by apply wpp_capture|].
      intros [ctx' removed] w' s' (-> & -> & -> & Hw' & Hc'). apply wpp_bind.
      eapply wpp_mono; [apply (IH _ _ Q); [done|done|]|].
      - intros w2 Hw2 Hc2. rewrite <- app_assoc in Hc2 |- *. by apply HQ.
      - intros [ctx' removed] w2 s2 H2. by apply wpp_ret. }
    by destruct e.
Qed.

Lemma wpp_filter_content r bs bytes w (s : S) (Q : cacher_out_ctx * bool -> world -> S -> Prop) :
  Forall is_content bs -> healthy w -> capturing bytes (view w) ->
  (forall w', healthy w' -> capturing (bytes ++ payload bs) (view w') ->
     Q (capture_ctx (bytes ++ payload bs), false) w' s) ->
  wpp (filter_loop r (capture_ctx bytes) bs) Q w s.
Proof.
  intros Hbs Hw Hc HQ. rewrite <- (app_nil_r bs). apply wpp_filter_loop; [done..|].
  intros w' Hw' Hc'. apply wpp_ret. by apply HQ.
Qed.
End capturing.

Section storing.
Context {AS : AprStrings} {AT : AprTables} {AM : AprMd5} {HT : Httpd} {AF : AprFiles} {S : Type}.

(** The file chosen for the body is new. *)
Record new_file (body tmp : cstr) (fd i : nat) (d0 : disk) : Prop := {
  nf_temp : temp_of body tmp;
  nf_name : d_names d0 !! tmp = None;
  nf_data : d_data d0 !! i = None;
  nf_fd : d_fds d0 !! fd = None;
}.

Lemma in_dir_child dir name d : SLASH ∉ name -> dir ∈ d_dirs d -> in_dir d (child dir name).
Proof. intros. by exists dir, name. Qed.

Lemma wpp_filter_start r rule root hex header body w (s : S) :
  header = child (shard_of root hex) (hex ++ str ".header") ->
  body = child (shard_of root hex) (hex ++ str ".body") -> Forall is_hex hex ->
  response_cacheable r rule = true -> healthy w -> slot_ready (view w) root hex header body ->
  wpp (filter_start r (OutCtx rule header body None None 0 false false)) (fun ctx w' s' =>
    exists tmp fd i, ctx = capture_ctx rule header body tmp fd [] /\ s' = s /\ healthy w' /\
      new_file body tmp fd i (view w) /\ capturing rule header body tmp fd i (view w) [] (view w')) w s.
Proof.
  intros Eh Eb Hhex Hc Hw Hslot. pose proof (hex_no_slash _ Hhex) as Hns.
  assert (SLASH ∉ hex ++ str ".body" /\ SLASH ∉ hex ++ str ".header" /\
          SLASH ∉ (hex ++ str ".body") ++ str ".XXXXXX") as (Nb & Nh & Nt).
  { rewrite !not_elem_of_app. split_and!; try done; apply (bool_decide_unpack _); vm_compute; exact I. }
  unfold filter_start. cbn [oc_rule oc_body_path]. rewrite Hc. cbn [negb].
  assert (strrchr body SLASH = Some (SLASH :: hex ++ str ".body")) as Estr.
  { rewrite Eb. unfold child. cbn [app]. by apply strrchr_app. }
  rewrite Estr. rewrite apr_pstrndup_spec, apr_pstrcat_spec. cbn [concat]. rewrite app_nil_r.
  assert (take (length body - length (SLASH :: hex ++ str ".body")) body = shard_of root hex) as ->.
  { rewrite Eb. unfold child. cbn [app]. apply before_app. }
  wp_call; [done|]. intros ok w1 Hs1 Hh1. destruct (Hh1 Hw) as [Hok Hw1]. cbn in Hs1, Hok.
  assert (ok = true) as -> by (apply Hok; apply (sl_dirs _ _ _ _ _ Hslot)).
  destruct Hs1 as (ds & (t1 & Ht1 & V1) & Hpre & Hin).
  assert (forall p, p ∉ d_dirs (view w) -> length (shard_of root hex) < length p -> p ∉ d_dirs (view w1)) as Hdirs.
  { intros p Hp Hlen. rewrite V1. cbn. rewrite elem_of_union. intros [H|H]; [|done].
    apply Hpre in H as [E|[x E]]; rewrite E, ?length_app in Hlen; lia. }
  assert (shard_of root hex ∈ ds ∪ d_dirs (view w)) as Hshard by (apply Hin; [by left|unfold shard_of, child; by destruct root]).
  change (str ".XXXXXX") with (str "." ++ TEMPLATE). rewrite app_assoc. apply wpp_mktemp_ok; [done| | |].
  { rewrite Eb. unfold child. rewrite <- !app_assoc. apply (in_dir_child _ (hex ++ str ".body" ++ str ".XXXXXX")).
    - by rewrite app_assoc.
    - rewrite V1. exact Hshard. }
  { intros x. rewrite V1. cbn [d_names set_now set_dirs]. rewrite <- app_assoc. apply (sl_body_temp _ _ _ _ _ Hslot). }
  intros tmp fd i t w2 Htmp Hnew Hi Hfd Hw2 (t2 & Ht2 & V2). rewrite <- app_assoc in Htmp.
  assert (d_dirs (view w2) = d_dirs (view w1)) as D2 by by rewrite V2.
  rewrite V1 in Hnew, Hi, Hfd. cbn in Hnew, Hi, Hfd.
  apply wpp_ret. exists tmp, fd, i. split_and!; [done|done|done| |].
  - by split.
  - split.
    + by rewrite V2, V1.
    + by rewrite V2, V1.
    + by rewrite V2, V1.
    + split; unfold in_dir; rewrite D2; cbn [oc_header_path oc_body_path capture_ctx].
      * rewrite Eh. apply (in_dir_child _ _ (view w1)); [done|rewrite V1; exact Hshard].
      * rewrite Eb. apply (in_dir_child _ _ (view w1)); [done|rewrite V1; exact Hshard].
      * apply Hdirs; [apply Hslot|]. rewrite Eh. unfold child. rewrite !length_app. cbn. lia.
      * apply Hdirs; [apply Hslot|]. rewrite Eb. unfold child. rewrite !length_app. cbn. lia.
    + rewrite V2. cbn. eapply tick_trans; [exact Ht1|]. by rewrite V1 in Ht2.
    + exists (shard_of root hex), (hex ++ str ".header"). rewrite D2, V1. cbn [d_dirs set_now set_dirs].
      split_and!; [done|done|set_solver| |done]. intros q [Hq|Hq]%elem_of_union; [right; by apply Hpre|by left].
    + by rewrite V2, V1.
Qed.

(** What the run leaves behind: two new files, and nothing else but
    directories. *)
Record stored_at (header body : cstr) (text bytes : list ascii) (i j : nat) (d0 d : disk) : Prop := {
  st_new_body : d_data d0 !! i = None;
  st_new_text : d_data d0 !! j = None;
  st_differ : i <> j;
  st_names : d_names d = <[header := j]> (<[body := i]> (d_names d0));
  st_data : d_data d = <[j := text]> (<[i := bytes]> (d_data d0));
  st_fds : d_fds d = d_fds d0;
  st_streams : d_streams d = d_streams d0;
  st_dirs : grown header d0 d;
}.

Lemma stored_files header body text bytes i j d0 d :
  stored_at header body text bytes i j d0 d -> header <> body ->
  file_at d header = Some text /\ file_at d body = Some bytes.
Proof.
  intros [_ _ Hij Hn Hd _ _ _] Hne. unfold file_at. rewrite Hn, Hd. split.
  - by rewrite lookup_insert_eq; cbn; rewrite lookup_insert_eq.
  - rewrite lookup_insert_ne, lookup_insert_eq by done. cbn. by rewrite lookup_insert_ne, lookup_insert_eq.
Qed.

Definition stored (rule : cacher_rule) (header body : cstr) (r : request) (bytes : list ascii)
    (d0 d : disk) : Prop :=
  exists i j created now, (d_now d0 <= created <= now)%Z /\ (now <= d_now d)%Z /\ in_time (d_now d) /\
    stored_at header body (entry_text r created (now + ttl_seconds rule)) bytes i j d0 d.

Lemma in_time_between t t' t'' : in_time t -> in_time t'' -> (t <= t' <= t'')%Z -> in_time t'.
Proof. unfold in_time. lia. Qed.

(** Publication on a healthy file system: the two renames. *)
Lemma wpp_publish_ok ctx tmp tmph i j w (s : S) :
  entry_paths (oc_header_path ctx) (oc_body_path ctx) -> temp_of (oc_body_path ctx) tmp ->
  temp_of (oc_header_path ctx) tmph -> d_names (view w) !! tmp = Some i -> d_names (view w) !! tmph = Some j ->
  room ctx (view w) -> healthy w ->
  wpp (publish ctx tmp tmph) (fun _ w' s' => s' = s /\ healthy w' /\
    later (set_names (view w) (<[oc_header_path ctx := j]> (<[oc_body_path ctx := i]>
             (delete tmph (delete tmp (d_names (view w))))))) (view w')) w s.
Proof.
  intros Hep Ht Hth Hi Hj [R1 R2 R3 R4] Hw.
  destruct (temp_body_ne _ _ Hep _ Ht) as (_ & _ & Nt). destruct (temp_header_ne _ _ Hep _ Hth) as (_ & Nh).
  assert (tmp <> tmph) as Ntt by (by intros ->).
  unfold publish. eapply wpp_rename_ok; [done..|]. intros w1 Hw1 (t1 & T1 & V1).
  eapply wpp_rename_ok; [done| | | |].
  - rewrite V1. cbn. by rewrite lookup_insert_ne, lookup_delete_ne by done.
  - by rewrite V1.
  - by rewrite V1.
  - intros w2 Hw2 (t2 & T2 & V2). apply wpp_ret. split; [done|]. split; [done|].
    exists t2. split; [rewrite V1 in T2; by eapply tick_trans|]. rewrite V2, V1.
    unfold set_names, set_now. cbn. by rewrite delete_insert_ne by done.
Qed.

Lemma wpp_write_header rule header body tmp fd i d0 d1 bytes text w (s : S) :
  entry_paths header body -> new_file body tmp fd i d0 ->
  capturing rule header body tmp fd i d0 bytes d1 -> no_temp header d0 ->
  healthy w -> later (set_fds d1 (delete fd (d_fds d1))) (view w) ->
  wpp (write_header (capture_ctx rule header body tmp fd bytes) tmp text) (fun _ w' s' => s' = s /\ healthy w' /\
    tick (d_now (view w)) (d_now (view w')) /\
    exists j, stored_at header body text bytes i j d0 (view w')) w s.
Proof.
  intros Hep [Htemp Hname Hdata Hfd] [Hn Hd Hf Hr Ht Hg Hss] Hno Hw (t0 & Ht0 & V0).
  destruct (temp_body_ne _ _ Hep _ Htemp) as (Nt1 & Nt2 & Nt3). pose proof (header_ne_body _ _ Hep) as Nhb.
  unfold write_header. cbn [capture_ctx oc_header_path].
  rewrite apr_pstrcat_spec. cbn [concat]. rewrite app_nil_r.
  change (str ".XXXXXX") with (str "." ++ TEMPLATE). rewrite app_assoc.
  assert (d_fds (view w) = d_fds d0) as F0 by (rewrite V0; cbn; rewrite Hf; by apply delete_insert_id).
  assert (d_data (view w) = <[i := bytes]> (d_data d0)) as E0 by by rewrite V0.
  assert (d_names (view w) = <[tmp := i]> (d_names d0)) as N0 by by rewrite V0.
  apply wpp_mktemp_ok; [done| | |].
  { rewrite <- app_assoc. apply in_dir_suffix. pose proof (rm_header _ _ Hr) as Hd1. unfold in_dir in *. by rewrite V0. }
  { intros x. rewrite N0, <- app_assoc, lookup_insert_ne; [apply Hno|]. intros ->.
    by apply (temp_prefix_disjoint _ _ Hep) in Htemp. }
  intros tmph hf j t1 w1 Hth Hnew Hj Hhf Hw1 (t1' & T1 & V1). rewrite <- app_assoc in Hth.
  destruct (temp_header_ne _ _ Hep _ Hth) as (Nh1 & Nh2). assert (tmph <> tmp) as Ntt by (by intros ->).
  rewrite E0 in Hj. rewrite N0, lookup_insert_ne in Hnew by done.
  assert (i <> j) as Nij by (intros ->; by rewrite lookup_insert_eq in Hj). rewrite lookup_insert_ne in Hj by done.
  eapply (wpp_write_ok _ _ _ Hw1 hf j []); [by rewrite V1; cbn; rewrite lookup_insert_eq..|].
  intros t2 w2 Hw2 (t2' & T2 & V2). eapply wpp_close_ok; [done|by rewrite V2; cbn; rewrite lookup_insert_eq|].
  intros w3 Hw3 (t3 & T3 & V3).
  unfold set_fds, set_file, set_names, set_now in V1, V2, V3. cbn in V1.
  rewrite V1 in V2, T2. cbn in V2. rewrite V2 in V3, T3. cbn in V3. clear V2.
  rewrite !insert_insert_eq, delete_insert_id, F0, E0, N0 in V3 by done.
  eapply wpp_mono; [eapply (wpp_publish_ok (capture_ctx rule header body tmp fd bytes) tmp tmph i j); try done|].
  - rewrite V3. cbn. by rewrite lookup_insert_ne, lookup_insert_eq.
  - rewrite V3. cbn. by rewrite lookup_insert_eq.
  - eapply room_dirs; [|exact Hr]. by rewrite V3, V0.
  - intros _ w4 s4 (-> & Hw4 & t4 & T4 & V4). split; [done|]. split; [done|]. rewrite V3 in V4, T4. split.
    + rewrite V4. cbn in *. by repeat (eapply tick_trans; [eassumption|]).
    + exists j. split; try done; rewrite V4; cbn.
      * by rewrite (delete_insert_ne _ tmp tmph), (delete_insert_id (d_names d0)), delete_insert_id by done.
      * done.
      * done.
      * by rewrite V0.
      * eapply grown_dirs; [|exact Hg]. cbn. by rewrite V0.
Qed.

(** The end of a response: the entry is published. *)
Lemma wpp_eos r rule header body tmp fd i d0 bytes w (s : S)
    (Q : cacher_out_ctx * bool -> world -> S -> Prop) :
  entry_paths header body -> new_file body tmp fd i d0 ->
  capturing rule header body tmp fd i d0 bytes (view w) -> healthy w ->
  no_temp header d0 -> in_time (d_now d0) -> ttl_ok rule ->
  r_aborted r = false -> wrong_length r (capture_ctx rule header body tmp fd bytes) = false ->
  (forall w', healthy w' -> stored rule header body r bytes d0 (view w') ->
     Q (capture_ctx rule header body tmp fd bytes, false) w' s) ->
  wpp (filter_loop r (capture_ctx rule header body tmp fd bytes) [EOS]) Q w s.
Proof.
  intros Hep Hnew Hc Hw Hno Htime Httl Hab Hwl HQ.
  cbn [filter_loop capture_ctx oc_cacheable]. apply wpp_bind. unfold finalize_cache_entry.
  cbn [capture_ctx oc_tmp_body_file oc_tmp_body_path oc_rule]. pose proof (cp_tick _ _ _ _ _ _ _ _ _ Hc) as [Ht0 Ht0'].
  wp_call; [apply bool_decide_eq_true; by rewrite (cp_fds _ _ _ _ _ _ _ _ _ Hc), lookup_insert_eq|].
  intros [] w1 (t1 & [T1 T1'] & V1) Hh1. destruct (Hh1 Hw) as [_ Hw1]. cbn in T1, T1'.
  rewrite Hab. fold (capture_ctx rule header body tmp fd bytes). rewrite Hwl. cbv zeta.
  wp_call; [done|]. intros created w2 [[T2 T2'] V2] Hh2. destruct (Hh2 Hw1) as [_ Hw2].
  wp_call; [done|]. intros now w3 [[T3 T3'] V3] Hh3. destruct (Hh3 Hw2) as [_ Hw3].
  assert (d_now (view w1) = t1) as N1 by by rewrite V1.
  assert (d_now (view w2) = created) as N2 by by rewrite V2.
  rewrite N1 in T2, T2'. rewrite N2 in T3, T3'.
  assert (in_time now) as Hnow by auto. rewrite (add_ttl (capture_ctx rule header body tmp fd bytes) now Hnow Httl : add_int64 now (ttl_seconds rule) = _).
  eapply wpp_mono; [apply (wpp_write_header rule header body tmp fd i d0 (view w) bytes); try done|].
  - exists now. split; [split; [|done]|by rewrite V3, V2, V1]. cbn. lia.
  - intros [] w4 s4 (-> & Hw4 & [T4 T4'] & j & Hj). apply wpp_ret. apply HQ; [done|].
    assert (d_now (view w3) = now) as N3 by by rewrite V3. rewrite N3 in T4, T4'.
    exists i, j, created, now. split_and!; [lia..|by apply T4'|done].
Qed.

(** Brigades that end in one EOS bucket. *)
Lemma concat_snoc {A} (bb : list A) rest bs e :
  bb ++ rest = bs ++ [e] ->
  (bb = bs ++ [e] /\ rest = []) \/ exists bs2, bs = bb ++ bs2 /\ rest = bs2 ++ [e].
Proof.
  destruct rest as [|x rest _] using rev_ind; [rewrite app_nil_r; by left|].
  rewrite app_assoc. intros E. apply app_inj_tail in E as [<- <-]. right. by exists rest.
Qed.

Lemma wpp_filter_started r ctx bb w (s : S)
    (Q : cacher_out_ctx * bool * list bucket -> world -> S -> Prop) :
  oc_started ctx = true ->
  wpp (filter_loop r ctx bb) (fun '(ctx', removed) w' s' => Q (ctx', removed, bb) w' s') w s ->
  wpp (cacher_output_filter r ctx bb) Q w s.
Proof.
  intros Hs H. unfold cacher_output_filter. rewrite Hs. apply wpp_bind, wpp_ret.
  apply wpp_bind. eapply wpp_mono; [exact H|]. intros [ctx' removed] w' s' HQ. by apply wpp_ret.
Qed.

(** The first brigade: the decision, then the brigade itself. *)
Lemma wpp_filter_unstarted r ctx0 bb w (s : S)
    (Q : cacher_out_ctx * bool * list bucket -> world -> S -> Prop) :
  oc_started ctx0 = false ->
  wpp (filter_start r ctx0) (fun ctx w' s' => oc_started ctx = true /\ oc_cacheable ctx = true /\
         wpp (cacher_output_filter r ctx bb) Q w' s') w s ->
  wpp (cacher_output_filter r ctx0 bb) Q w s.
Proof.
  intros Hs H. unfold cacher_output_filter. rewrite Hs. apply wpp_bind, wpp_bind.
  eapply wpp_mono; [exact H|]. intros ctx w' s' (Hst & Hca & HQ). apply wpp_ret. rewrite Hca.
  unfold cacher_output_filter in HQ. rewrite Hst in HQ. exact HQ.
Qed.

Lemma wpp_run_empty r ctx bbs w (s : S) (Q : cacher_out_ctx -> world -> S -> Prop) :
  oc_started ctx = true -> concat bbs = [] -> Q ctx w s -> wpp (run_filter r ctx bbs) Q w s.
Proof.
  intros Hs. induction bbs as [|bb bbs IH]; intros E HQ; [by apply wpp_ret|].
  cbn in E. apply app_eq_nil in E as [-> E]. cbn [run_filter]. apply wpp_bind.
  apply wpp_filter_started; [done|]. apply wpp_ret. by apply IH.
Qed.

Lemma wpp_run_capturing r rule header body tmp fd i d0 bytes bbs bs w (s : S) :
  entry_paths header body -> new_file body tmp fd i d0 -> no_temp header d0 ->
  in_time (d_now d0) -> ttl_ok rule -> r_aborted r = false ->
  concat bbs = bs ++ [EOS] -> Forall is_content bs ->
  wrong_length r (capture_ctx rule header body tmp fd (bytes ++ payload bs)) = false ->
  healthy w -> capturing rule header body tmp fd i d0 bytes (view w) ->
  wpp (run_filter r (capture_ctx rule header body tmp fd bytes) bbs)
    (fun _ w' s' => s' = s /\ healthy w' /\ stored rule header body r (bytes ++ payload bs) d0 (view w')) w s.
Proof.
  intros Hep Hnew Hno Htime Httl Hab. revert bytes bs w.
  induction bbs as [|bb bbs IH]; intros bytes bs w E Hbs Hwl Hw Hc; [by destruct bs|].
  cbn [run_filter]. apply wpp_bind. apply wpp_filter_started; [done|].
  apply concat_snoc in E as [[-> E]|(bs2 & -> & E)].
  - eapply wpp_filter_loop; [done..|]. intros w1 Hw1 Hc1. eapply wpp_eos; [done..|].
    intros w2 Hw2 Hst. by apply wpp_run_empty.
  - apply Forall_app in Hbs as [Hb1 Hb2].
    eapply wpp_filter_content; [done..|]. intros w1 Hw1 Hc1.
    assert (payload (bb ++ bs2) = payload bb ++ payload bs2) as Ep.
    { unfold payload. by rewrite fmap_app, concat_app. }
    rewrite Ep, app_assoc in *. exact (IH (bytes ++ payload bb) bs2 w1 E Hb2 Hwl Hw1 Hc1).
Qed.

(** A response that can be stored. *)
Record storable (r : request) (rule : cacher_rule) (root : cstr) (ctx : cacher_out_ctx)
    (bbs : list (list bucket)) (bs : list bucket) (d : disk) : Prop := {
  so_filter : cacher_cache_insert_filter r (Some root) rule = Some ctx;
  so_cacheable : response_cacheable r rule = true;
  so_alive : r_aborted r = false;
  so_brigades : concat bbs = bs ++ [EOS];
  so_content : Forall is_content bs;
  so_length : match apr_table_get (r_headers_out r) (str "Content-Length") with
              | Some n => apr_atoi64 n = Z.of_nat (length (payload bs))
              | None => True
              end;
  so_ttl : ttl_ok rule;
  so_time : in_time (d_now d);
  so_slot : slot_ready d root (entry_hex r rule) (oc_header_path ctx) (oc_body_path ctx);
}.

Lemma insert_filter_paths r root rule ctx :
  cacher_cache_insert_filter r (Some root) rule = Some ctx ->
  cache_key_paths r (Some root) rule = Some (oc_header_path ctx, oc_body_path ctx).
Proof.
  unfold cacher_cache_insert_filter. destruct (_ <=? _)%Z; [done|]. destruct (r_header_only r); [done|].
  rewrite cache_key_paths_shard. by intros [= <-].
Qed.

Lemma storable_paths_ne r rule root ctx bbs bs d :
  storable r rule root ctx bbs bs d -> oc_header_path ctx <> oc_body_path ctx.
Proof. intros H. eapply header_ne_body, entry_paths_of, insert_filter_paths, H. Qed.

Lemma wpp_run_filter r rule root ctx bbs bs w (s : S) :
  healthy w -> storable r rule root ctx bbs bs (view w) ->
  wpp (run_filter r ctx bbs) (fun _ w' s' => s' = s /\ healthy w' /\
    stored rule (oc_header_path ctx) (oc_body_path ctx) r (payload bs) (view w) (view w')) w s.
Proof.
  intros Hw [Hf Hc Hab Hb Hbs Hlen Httl Htime Hslot]. unfold cacher_cache_insert_filter in Hf.
  destruct (_ <=? _)%Z; [done|]. destruct (r_header_only r); [done|].
  pose proof (cache_key_paths_shard r root rule) as Ep. rewrite Ep in Hf. injection Hf as <-.
  cbn [oc_header_path oc_body_path] in *. set (header := child _ (_ ++ str ".header")) in *.
  set (body := child _ (_ ++ str ".body")) in *.
  destruct bbs as [|bb bbs]; [by destruct bs|].
  cbn [run_filter]. apply wpp_bind, wpp_filter_unstarted; [done|].
  eapply wpp_mono; [eapply (wpp_filter_start r rule root (entry_hex r rule)); try done; apply entry_hex_spec|].
  intros ctx1 w1 s1 (tmp & fd & i & -> & -> & Hw1 & Hnew & Hcap).
  split; [done|]. split; [done|]. apply wpp_bind_inv.
  refine (wpp_run_capturing r rule header body tmp fd i (view w) [] (bb :: bbs) bs w1 s _ _ _ _ _ _ _ _ _ _ _);
    try done; [by eapply entry_paths_of|apply (sl_header_temp _ _ _ _ _ Hslot)|].
  unfold wrong_length. destruct (apr_table_get _ _) as [n|]; [|done].
  cbn [oc_body_len capture_ctx app]. by rewrite Hlen, Z.eqb_refl.
Qed.

(** ** Finding it again *)

(** A response whose metadata and headers fit the line-based format. *)
Record response_ok (r : request) : Prop := {
  ro_status : in_int (r_status r) = true /\ r_status r <> 0%Z;
  ro_method : is_word (r_method r);
  ro_host : is_word (default (str "-") (r_hostname r));
  ro_url : is_line (request_url r);
  ro_headers : Forall header_ok (stored_headers (r_headers_out r));
  ro_text : no_nul (r_method r ++ default (str "-") (r_hostname r) ++ request_url r ++
                    dump_headers (r_headers_out r));
}.

Definition entry_meta (r : request) (created expires : Z) : cacher_entry_meta :=
  EntryMeta created expires (r_status r) (r_method r) (default (str "-") (r_hostname r)) (request_url r).

Lemma entry_text_no_nul r created expires : response_ok r -> no_nul (entry_text r created expires).
Proof.
  intros [_ _ _ _ _ H]. unfold no_nul, request_url in *. rewrite !not_elem_of_app in H.
  destruct H as (H1 & H2 & (H3 & H4 & H5) & H6).
  unfold entry_text, header_file_text. rewrite apr_psprintf_spec. cbn [fmap list_fmap render concat].
  rewrite !not_elem_of_app.
  split_and!; try done; try (by apply dec_no_char);
    apply (bool_decide_unpack _); vm_compute; exact I.
Qed.

Lemma parse_entry_text r created now rule :
  response_ok r -> in_time created -> in_time now -> ttl_ok rule ->
  parse_header_file (c_str (entry_text r created (now + ttl_seconds rule))) =
  Some (entry_meta r created (now + ttl_seconds rule), dump_headers (r_headers_out r)).
Proof.
  intros Hr Hc Hn Ht. rewrite c_str_id by by apply entry_text_no_nul.
  destruct Hr. unfold in_time, ttl_ok in *. apply meta_roundtrip.
  unfold meta_wf, in_long, LONG_MIN, LONG_MAX. cbn [em_created em_expires em_status em_method em_host em_url].
  split_and!; try apply ro_status0; try done; apply andb_true_iff; split; apply Z.leb_le; lia.
Qed.

(** On a healthy file system a response that may be stored is stored by the
    filter, however its body is cut into brigades and buckets, no file stays
    open, and every later request with the same key that comes before the entry
    expires hits: it gets the status, all the bytes of the body and the headers
    of the response that may be shared. *)
Theorem stored_then_found r rule root ctx bbs bs r2 rule2 w (s : S) :
  healthy w -> storable r rule root ctx bbs bs (view w) -> response_ok r ->
  apr_md5 (build_cache_key_string r2 rule2) = apr_md5 (build_cache_key_string r rule) ->
  exists ctx' w1 r2' res w2,
    exec (run_filter r ctx bbs) w s = Some (ctx', w1, s) /\
    d_fds (view w1) = d_fds (view w) /\
    exec (cacher_cache_lookup r2 (Some root) rule2) w1 s = Some ((r2', res), w2, s) /\
    ((d_now (view w2) < d_now (view w) + ttl_seconds rule)%Z ->
     exists hit, res = Some hit /\ ch_status hit = r_status r /\
       ch_length hit = Z.of_nat (length (payload bs)) /\
       fd_data (view w2) (ch_file hit) = Some (payload bs) /\
       r2' = fold_left replay_header (stored_headers (r_headers_out r)) r2).
Proof.
  intros Hw Hst Hr Hkey.
  destruct (wpp_run _ _ _ _ (wpp_run_filter r rule root ctx bbs bs w s Hw Hst))
    as (ctx' & w1 & s1 & E1 & -> & Hw1 & i & j & created & now & Hle & Hnow1 & Hnow2 & Hat).
  pose proof (in_time_between _ _ _ (so_time _ _ _ _ _ _ _ Hst) Hnow2 ltac:(split; [|exact Hnow1]; lia)) as Hnow.
  pose proof (st_fds _ _ _ _ _ _ _ _ Hat) as Hfds. destruct (stored_files _ _ _ _ _ _ _ _ Hat) as [Hh Hb];
    [by eapply storable_paths_ne|].
  assert (cache_key_paths r2 (Some root) rule2 = Some (oc_header_path ctx, oc_body_path ctx)) as Hp.
  { rewrite <- (insert_filter_paths _ _ _ _ (so_filter _ _ _ _ _ _ _ Hst)).
    rewrite !cache_key_paths_shard. unfold entry_hex. by rewrite Hkey. }
  destruct (wpp_run _ _ _ _ (wpp_lookup r2 (Some root) rule2 _ _ w1 s Hp))
    as ([r2' res] & w2 & s2 & E2 & -> & _ & H).
  exists ctx', w1, r2', res, w2. split_and!; [done..|]. intros Hfresh.
  assert (in_time created) as Hcr.
  { pose proof (so_time _ _ _ _ _ _ _ Hst) as Ht. unfold in_time in *. lia. }
  pose proof (parse_entry_text r created now rule Hr Hcr Hnow (so_ttl _ _ _ _ _ _ _ Hst)) as Hparse.
  assert (forall meta headers data,
    entry_at (view w1) (oc_header_path ctx) (oc_body_path ctx) meta headers data ->
    meta = entry_meta r created (now + ttl_seconds rule) /\ headers = dump_headers (r_headers_out r) /\
    data = payload bs) as Huniq.
  { intros meta headers data (text & Ht & Hps & Hd). rewrite Hh in Ht. injection Ht as <-.
    rewrite Hparse in Hps. rewrite Hb in Hd. naive_solver. }
  destruct res as [hit|].
  - destruct H as (meta & headers & data & (-> & -> & ->)%Huniq & _ & -> & Hop & Hs & Hl & _).
    exists hit. split_and!; [done|done|done| |].
    + destruct Hop as ((_ & Ed & _) & _ & _ & i0 & Hi & Hf). unfold fd_data.
      rewrite Hf, lookup_insert_eq. cbn. rewrite Ed. unfold file_at in Hb. by rewrite Hi in Hb.
    + apply replay_dump, Hr.
  - exfalso. destruct H as (_ & _ & H). specialize (H Hw1 _ _ _ (ex_intro _ _ (conj Hh (conj Hparse Hb)))).
    cbn in H. lia.
Qed.
End storing.

(** ** Responses that must not be stored *)

Section refused.
Context {AS : AprStrings} {AT : AprTables} {AM : AprMd5} {HT : Httpd} {AF : AprFiles} {S : Type}.

(** The response is not for everyone, or not of a kind the rule caches. *)
Definition refused (r : request) (rule : cacher_rule) : Prop :=
  is_Some (apr_table_get (r_headers_in r) (str "Authorization")) \/ r_main r = true \/
  cacher_rule_allows_status (Some rule) (r_status r) = false \/
  cacher_rule_allows_content_type (Some rule)
    (match r_content_type r with
     | Some t => Some t
     | None => apr_table_get (r_headers_out r) (str "Content-Type")
     end) = false.

Lemma refused_not_cacheable r rule : refused r rule -> response_cacheable r rule = false.
Proof.
  unfold response_cacheable. intros [[v ->]|[->|[->| ->]]]; cbn; rewrite ?andb_false_r; done.
Qed.

Lemma filter_loop_idle r ctx bb : oc_cacheable ctx = false -> filter_loop (S := S) r ctx bb = mret (ctx, false).
Proof. intros H. induction bb as [|e bb IH]; [done|]. cbn [filter_loop]. by rewrite H. Qed.

Lemma filter_uncacheable r ctx bb :
  oc_started ctx = false -> response_cacheable r (oc_rule ctx) = false ->
  cacher_output_filter (S := S) r ctx bb =
  mret (start_ctx ctx false (oc_tmp_body_path ctx) (oc_tmp_body_file ctx), true, bb).
Proof.
  intros Hs Hr. unfold cacher_output_filter, filter_start. rewrite Hs, Hr. cbn [negb].
  cbn. by rewrite filter_loop_idle.
Qed.

Lemma run_uncacheable r ctx bbs w (s : S) :
  oc_started ctx = false -> response_cacheable r (oc_rule ctx) = false ->
  exists ctx', exec (run_filter r ctx bbs) w s = Some (ctx', w, s).
Proof.
  intros Hs Hr. destruct bbs as [|bb bbs]; [by exists ctx|].
  cbn [run_filter]. rewrite filter_uncacheable by done. eexists. reflexivity.
Qed.

(** C28: a response to a request with credentials, or with a status or content
    type the rule does not allow, is never stored: the filter makes no call at
    all, and passes every brigade on as it came. *)
Theorem uncacheable_not_stored r ctx bbs w (s : S) :
  oc_started ctx = false -> refused r (oc_rule ctx) ->
  (exists ctx', exec (run_filter r ctx bbs) w s = Some (ctx', w, s)) /\
  (forall bb, exec (cacher_output_filter r ctx bb) w s =
     Some ((start_ctx ctx false (oc_tmp_body_path ctx) (oc_tmp_body_file ctx), true, bb), w, s)).
Proof.
  intros Hs Hr. apply refused_not_cacheable in Hr.
  split; [by apply run_uncacheable|]. intros bb. by rewrite filter_uncacheable.
Qed.
End refused.

(** ** A page in two brigades *)

Definition sample_response : request :=
  set_ctype (set_headers_out sample_gzip_request
    [(str "Content-Type", str "text/html"); (str "Set-Cookie", str "sid=1"); (str "ETag", str "7")])
    (Some (str "text/html")).

Definition sample_insert_ctx : cacher_out_ctx :=
  default sample_ctx (cacher_cache_insert_filter sample_response sample_root sample_vary_rule).

Definition sample_content : list bucket := [DATA (str "hel"); METADATA; DATA (str "lo")].

Definition sample_brigades : list (list bucket) :=
  [[DATA (str "hel"); METADATA]; []; [DATA (str "lo"); EOS]].

Definition empty_cache : @world ref_files := Disk ∅ ∅ ∅ {[str "/var"; str "/var/cache"]} ∅ ∅ 1000.

Lemma sample_storable :
  storable sample_response sample_vary_rule (str "/var/cache") sample_insert_ctx sample_brigades
    sample_content empty_cache.
Proof.
  split; try (vm_compute; reflexivity).
  - repeat constructor.
  - split; vm_compute; discriminate.
  - split; vm_compute; discriminate.
  - split.
    + intros q _. apply lookup_empty.
    + apply (bool_decide_unpack _). vm_compute. exact I.
    + apply (bool_decide_unpack _). vm_compute. exact I.
    + intros s. apply lookup_empty.
    + intros s. apply lookup_empty.
    + intros i Hi. vm_compute in Hi. discriminate Hi.
Defined.

Lemma sample_response_ok : response_ok sample_response.
Proof.
  split; [split; [reflexivity|done]|..]; apply (bool_decide_unpack _); vm_compute; exact I.
Defined.

Lemma stored_then_found_witness :
  exists ctx' w1 r2' res w2,
    exec (run_filter sample_response sample_insert_ctx sample_brigades) empty_cache tt
      = Some (ctx', w1, tt) /\
    d_fds (view w1) = d_fds (view empty_cache) /\
    exec (cacher_cache_lookup sample_gzip_request (Some (str "/var/cache")) sample_vary_rule) w1 tt
      = Some ((r2', res), w2, tt) /\
    ((d_now (view w2) < d_now (view empty_cache) + ttl_seconds sample_vary_rule)%Z ->
     exists hit, res = Some hit /\ ch_status hit = r_status sample_response /\
       ch_length hit = Z.of_nat (length (payload sample_content)) /\
       fd_data (view w2) (ch_file hit) = Some (payload sample_content) /\
       r2' = fold_left replay_header (stored_headers (r_headers_out sample_response)) sample_gzip_request).
Proof.
  exact (stored_then_found (AF := ref_files) sample_response sample_vary_rule (str "/var/cache")
    sample_insert_ctx sample_brigades sample_content sample_gzip_request sample_vary_rule empty_cache tt
    I sample_storable sample_response_ok eq_refl).
Defined.

Definition sample_private : request :=
  Request false None (str "/blog/") (Some (str "/blog/")) None (str "GET") false
    (Some (str "site.example")) (Some (str "bob")) 200 None [(str "authorization", str "Basic Ym9iOjE=")] []
    false (Some sample_dir_conf) (Some (SvrConf sample_root)).

Lemma uncacheable_not_stored_witness :
  (exists ctx', exec (run_filter sample_private sample_insert_ctx sample_brigades) empty_cache tt
     = Some (ctx', empty_cache, tt)) /\
  (forall bb, exec (cacher_output_filter sample_private sample_insert_ctx bb) empty_cache tt =
     Some ((start_ctx sample_insert_ctx false (oc_tmp_body_path sample_insert_ctx)
              (oc_tmp_body_file sample_insert_ctx), true, bb), empty_cache, tt)).
Proof.
  apply (uncacheable_not_stored (AF := ref_files)); [vm_compute; reflexivity|].
  left. apply (bool_decide_unpack _). vm_compute. exact I.
Defined.
