(* ===== verification/Admin.v ===== *)
(** * Cache administration (cacher_admin.c)

    Listing and purging entries over HTTP: the walk over the cache tree, the
    visit of one header file, and the four actions.  The text the program
    prints with [ap_rprintf] is collected; the bounds of the walk (its fuel)
    are parameters, and [Purge.v] shows which are enough. *)

From S2P Require Import Prelude CNum CHeap Glob Rules RulesParse RulesMatch Apr AprFile AprRef Util Meta Cache.
From Stdlib Require Import Lia.
Local Open Scope cstr_scope.

(** ** Status codes of a handler (httpd.h) *)

Definition OK : Z := 0.
Definition DECLINED : Z := -1.
Definition HTTP_BAD_REQUEST : Z := 400.
Definition HTTP_FORBIDDEN : Z := 403.
Definition HTTP_NOT_FOUND : Z := 404.

(** ** The context of a walk *)

Section admin.
Context {AS : AprStrings} {AT : AprTables} {AM : AprMd5} {HT : Httpd} {S : Type}.

Record admin_ctx := AdminCtx {
  ac_r : request;
  ac_pattern : option cstr;
  ac_matched : Z;
  ac_bytes : Z;
  ac_delete_matches : bool;
  ac_print_rows : bool;
  ac_out : cstr;                       (* what was printed so far *)
}.

Definition count_match (c : admin_ctx) (matched bytes : Z) : admin_ctx :=
  AdminCtx (ac_r c) (ac_pattern c) matched bytes (ac_delete_matches c) (ac_print_rows c) (ac_out c).
Definition ap_rprintf (c : admin_ctx) (args : list fmt_arg) : admin_ctx :=
  AdminCtx (ac_r c) (ac_pattern c) (ac_matched c) (ac_bytes c) (ac_delete_matches c) (ac_print_rows c)
    (ac_out c ++ apr_psprintf args).

(** ** One entry *)

(** The last seven characters replaced; a header path has at least seven. *)
Definition body_of (header_path : cstr) : cstr :=
  apr_pstrcat [apr_pstrndup header_path (length header_path - length (str ".header")); str ".body"].

Definition delete_entry (header_path : cstr) : prog S unit :=
  remove (body_of header_path) (remove header_path (mret tt)).

Definition body_size (header_path : cstr) : prog S Z :=
  finfo ← call (Stat (body_of header_path));
  match finfo with
  | None => mret 0%Z
  | Some (_, size) => mret size
  end.

(** The entry belongs to the requesting host and matches the pattern. *)
Definition selects (r : request) (pattern : option cstr) (meta : cacher_entry_meta) : bool :=
  cacher_streq_ci (Some (em_host meta)) (Some (default [] (r_hostname r)))
  && match pattern with
     | None => true
     | Some _ =>
         cacher_glob_match pattern (Some (em_url meta)) false
         || cacher_glob_match pattern (Some (apr_pstrcat [em_host meta; em_url meta])) false
     end.

(** A row of the listing. *)
Definition row_args (meta : cacher_entry_meta) (size time_left : Z) : list fmt_arg :=
  [FWidth true 6 (FStr (em_method meta)); FLit (str " "); FWidth false 3 (FInt (em_status meta));
   FLit (str " "); FWidth false 10 (FInt size); FLit (str "  ");
   FWidth false 8 (FStr (if (0 <? time_left)%Z then apr_psprintf [FInt time_left; FLit (str "s")]
                         else str "STALE"));
   FLit (str "  "); FStr (em_host meta); FStr (em_url meta); FLit [LF]].

(** The difference of times is computed in 64 bits. *)
Definition print_row (ctx : admin_ctx) (meta : cacher_entry_meta) (header_path : cstr)
    : prog S admin_ctx :=
  now ← call Now;
  match sub_int64 (em_expires meta) now with
  | None => Undef
  | Some time_left =>
      size ← body_size header_path;
      mret (ap_rprintf ctx (row_args meta size time_left))
  end.

(** The count is an [int], the sum of sizes an [apr_off_t]. *)
Definition visit_entry (ctx : admin_ctx) (header_path : cstr) : prog S admin_ctx :=
  meta ← cacher_cache_read_meta header_path;
  match meta with
  | None => mret ctx
  | Some (meta, _) =>
      if negb (selects (ac_r ctx) (ac_pattern ctx) meta) then mret ctx
      else match add_int (ac_matched ctx) 1 with
      | None => Undef
      | Some matched =>
          size ← body_size header_path;
          match add_int64 (ac_bytes ctx) size with
          | None => Undef
          | Some bytes =>
              let ctx := count_match ctx matched bytes in
              ctx ← (if ac_print_rows ctx then print_row ctx meta header_path else mret ctx);
              _ ← (if ac_delete_matches ctx then delete_entry header_path else mret tt);
              mret ctx
          end
      end
  end.

(** ** The tree *)

(** What is done with an entry of a directory that has a name. *)
Definition visit_name (walk : admin_ctx -> cstr -> prog S admin_ctx) (ctx : admin_ctx) (dir name : cstr)
    (is_dir : bool) : prog S admin_ctx :=
  if (match name with c :: _ => c =? "."%char | [] => false end) then mret ctx
  else
    let child := apr_pstrcat [dir; str "/"; name] in
    if is_dir then walk ctx child
    else if bool_decide (is_Some (strstr name (str ".header")))
            && negb (bool_decide (is_Some (strstr name (str ".XXXXXX"))))
    then visit_entry ctx child else mret ctx.

(** The loop over the entries of an open directory. *)
Fixpoint read_entries (walk : admin_ctx -> cstr -> prog S admin_ctx) (fuel : nat) (ctx : admin_ctx)
    (dir : cstr) (d : nat) : prog S admin_ctx :=
  match fuel with
  | O => Undef
  | Datatypes.S fuel' =>
      finfo ← call (DirRead d);
      match finfo with
      | None => mret ctx
      | Some (Dirent None _) => read_entries walk fuel' ctx dir d
      | Some (Dirent (Some name) is_dir) =>
          ctx ← visit_name walk ctx dir name is_dir;
          read_entries walk fuel' ctx dir d
      end
  end.

(** [depth] bounds the recursion, [width] the entries of a directory. *)
Fixpoint walk_cache (depth width : nat) (ctx : admin_ctx) (dir : cstr) : prog S admin_ctx :=
  match depth with
  | O => Undef
  | Datatypes.S depth' =>
      d ← call (DirOpen dir);
      match d with
      | None => mret ctx
      | Some d =>
          ctx ← read_entries (walk_cache depth' width) width ctx dir d;
          _ ← call (DirClose d);
          mret ctx
      end
  end.

(** ** The actions *)

Definition text_plain : cstr := str "text/plain; charset=utf-8".

Definition usage (ctx : admin_ctx) (base : cstr) : request * cstr * Z :=
  let r := ap_set_content_type (ac_r ctx) text_plain in
  let ctx := ap_rprintf ctx
    [FLit (str "Cacher admin"); FLit [LF; LF];
     FLit (str "  GET "); FStr base; FLit (str "/list                 list every cached entry"); FLit [LF];
     FLit (str "  GET "); FStr base; FLit (str "/purge/<path-glob>    purge entries matching a glob"); FLit [LF];
     FLit (str "  GET "); FStr base; FLit (str "/full-reset           purge everything"); FLit [LF; LF];
     FLit (str "Examples:"); FLit [LF];
     FLit (str "  "); FStr base; FLit (str "/purge/blog/*"); FLit [LF];
     FLit (str "  "); FStr base; FLit (str "/purge/about/"); FLit [LF]] in
  (r, ac_out ctx, OK).

(** "y" or "ies" *)
Definition plural (matched : Z) : fmt_arg := FStr (if (matched =? 1)%Z then str "y" else str "ies").

Definition new_ctx (r : request) (pattern : option cstr) (delete_matches print_rows : bool) : admin_ctx :=
  AdminCtx r pattern 0 0 delete_matches print_rows [].

Definition admin_list (depth width : nat) (r : request) (cache_root : cstr) : prog S (request * cstr * Z) :=
  let r := ap_set_content_type r text_plain in
  let ctx := ap_rprintf (new_ctx r None false true)
    [FWidth true 6 (FStr (str "METHOD")); FLit (str " "); FWidth false 3 (FStr (str "ST")); FLit (str " ");
     FWidth false 10 (FStr (str "SIZE")); FLit (str "  "); FWidth false 8 (FStr (str "EXPIRES"));
     FLit (str "  "); FStr (str "URL"); FLit [LF]] in
  ctx ← walk_cache depth width ctx cache_root;
  let ctx := ap_rprintf ctx
    [FLit [LF]; FInt (ac_matched ctx); FLit (str " entr"); plural (ac_matched ctx); FLit (str ", ");
     FInt (ac_bytes ctx); FLit (str " bytes"); FLit [LF]] in
  mret (r, ac_out ctx, OK).

Definition admin_full_reset (depth width : nat) (r : request) (cache_root : cstr)
    : prog S (request * cstr * Z) :=
  ctx ← walk_cache depth width (new_ctx r None true false) cache_root;
  let r := ap_set_content_type r text_plain in
  let ctx := ap_rprintf ctx
    [FLit (str "full-reset: removed "); FInt (ac_matched ctx); FLit (str " entr"); plural (ac_matched ctx);
     FLit [LF]] in
  mret (r, ac_out ctx, OK).

Definition admin_purge (depth width : nat) (r : request) (cache_root pattern : cstr)
    : prog S (request * cstr * Z) :=
  if bool_decide (pattern = []) || strcmp_eq pattern (str "/")
  then mret (ap_set_content_type r text_plain,
             str "purge: no pattern given, e.g. /purge/blog/*" ++ [LF], HTTP_BAD_REQUEST)
  else
    ctx ← walk_cache depth width (new_ctx r (Some pattern) true false) cache_root;
    let r := ap_set_content_type r text_plain in
    let ctx := ap_rprintf ctx
      [FLit (str "purge "); FStr pattern; FLit (str ": removed "); FInt (ac_matched ctx);
       FLit (str " entr"); plural (ac_matched ctx); FLit [LF]] in
    mret (r, ac_out ctx, if (ac_matched ctx =? 0)%Z then HTTP_NOT_FOUND else OK).

(** The request with its content type, the text printed, and the status. *)
Definition cacher_admin_handle (depth width : nat) (r : request) (cache_root : option cstr)
    (action : option cstr) : prog S (request * cstr * Z) :=
  match cache_root with
  | None =>
      mret (ap_set_content_type r text_plain,
            str "CacherCacheRoot is not configured - nothing to manage." ++ [LF], OK)
  | Some cache_root =>
      let base := usage (new_ctx r None false false) (r_uri r) in
      match action with
      | None => mret base
      | Some action =>
          if bool_decide (action = []) || strcmp_eq action (str "/") then mret base
          else if strcmp_eq action (str "/list") then admin_list depth width r cache_root
          else if strcmp_eq action (str "/full-reset") then admin_full_reset depth width r cache_root
          else if strncmp_eq action (str "/purge") 6
          then admin_purge depth width r cache_root (drop 6 action)
          else mret base
      end
  end.
End admin.
