(* ===== verification/Purge.v ===== *)
(** * What listing and purging do to the cache

    The walk of [Admin.v] against the files on disk: which entries it counts
    and removes, that it touches nothing else, and that it ends. *)

From S2P Require Import Prelude CNum CHeap Glob Rules RulesParse RulesMatch Apr AprFile AprRef Util Meta Cache.
From S2P Require Import Publish Lookup Admin.
From Stdlib Require Import Lia.
Local Open Scope cstr_scope.

(** ** Names *)

Definition header_suffix : cstr := str ".header".
Definition body_suffix : cstr := str ".body".

(** The names the walk visits. *)
Definition header_name (name : cstr) : bool :=
  bool_decide (is_Some (strstr name (str ".header")))
  && negb (bool_decide (is_Some (strstr name (str ".XXXXXX")))).

(** Paths [dir/...]. *)
Definition under (dir p : cstr) : Prop := exists s, p = child dir s.

(** The files the walk visits, by their name. *)
Definition header_file (p : cstr) : Prop :=
  exists dir name, p = child dir name /\ SLASH ∉ name /\ header_name name = true.

Definition visible (dir p : cstr) : Prop := under dir p /\ header_file p.

(** The files to visit an entry of a directory stands for. *)
Definition covers (dir : cstr) (e : dirent) (p : cstr) : Prop :=
  exists name, de_name e = Some name /\ file_name name /\ header_file p /\
    if de_dir e then under (child dir name) p else p = child dir name.

Lemma covers_visible dir e p : covers dir e p -> visible dir p.
Proof.
  intros (name & _ & _ & Hf & H). split; [|done]. destruct (de_dir e).
  - destruct H as [s ->]. exists (name ++ [SLASH] ++ s). unfold child. by rewrite <- !app_assoc.
  - by exists name.
Qed.

Lemma child_inj dir a b : child dir a = child dir b -> a = b.
Proof. unfold child. intros E%app_inv_head. by injection E. Qed.

Lemma slash_head_inj (a b s t : cstr) :
  SLASH ∉ a -> SLASH ∉ b -> a ++ SLASH :: s = b ++ SLASH :: t -> a = b.
Proof.
  revert b. induction a as [|c a IH]; intros [|d b] Ha Hb E; cbn in E; try done.
  - injection E as <- _. set_solver.
  - injection E as -> _. set_solver.
  - apply not_elem_of_cons in Ha as [_ Ha]. apply not_elem_of_cons in Hb as [_ Hb].
    injection E as -> E. f_equal. by apply (IH b).
Qed.

(** Two entries of a directory stand for different files. *)
Lemma covers_disjoint dir e e' p : covers dir e p -> covers dir e' p -> e = e'.
Proof.
  destruct e as [n isd], e' as [n' isd']. unfold covers. cbn.
  intros (m & -> & [Hm _] & _ & H) (m' & -> & [Hm' _] & _ & H').
  destruct isd, isd'.
  - destruct H as [s ->], H' as [t E]. unfold child in E. rewrite <- !app_assoc in E.
    apply app_inv_head in E. cbn [app] in E. injection E as E. by apply slash_head_inj in E as <-.
  - destruct H as [s ->]. unfold child in H'. rewrite <- !app_assoc in H'.
    apply app_inv_head in H'. cbn [app] in H'. injection H' as <-. set_solver.
  - destruct H' as [s ->]. unfold child in H. rewrite <- !app_assoc in H.
    apply app_inv_head in H. cbn [app] in H. injection H as <-. set_solver.
  - rewrite H in H'. by apply child_inj in H' as <-.
Qed.

(** The header files in the tree below [dir] that the walk comes to. *)
Inductive in_tree (d : disk) : cstr -> cstr -> Prop :=
  | in_tree_here dir name :
      plain_name name -> header_name name = true -> is_Some (d_names d !! child dir name) ->
      in_tree d dir (child dir name)
  | in_tree_below dir name p :
      plain_name name -> child dir name ∈ d_dirs d -> in_tree d (child dir name) p ->
      in_tree d dir p.

(** The directories below [dir] in length only: an upper bound of the depth. *)
Definition longer_dirs (d : disk) (dir : cstr) : gset cstr :=
  filter (fun q => length dir < length q) (d_dirs d).

Lemma longer_dirs_child d dir name :
  child dir name ∈ d_dirs d -> size (longer_dirs d (child dir name)) < size (longer_dirs d dir).
Proof.
  intros Hin. apply subset_size. split.
  - intros q [Hl Hq]%elem_of_filter. apply elem_of_filter. split; [|done].
    unfold child in Hl. rewrite !length_app in Hl. lia.
  - intros H. assert (child dir name ∈ longer_dirs d dir) as Hd.
    { apply elem_of_filter. split; [|done]. unfold child. rewrite !length_app. cbn. lia. }
    apply H, elem_of_filter in Hd as [Hd _]. lia.
Qed.

(** A listing is no longer than the tree is large. *)
Definition tree_size (d : disk) : nat := 6 + (size (d_dirs d) + size (d_names d)).

Lemma listing_length d dir es : Forall (listed d dir) es -> NoDup es -> length es <= tree_size d.
Proof.
  intros Hl Hd.
  set (dots := [Dirent None true; Dirent None false; Dirent (Some (str ".")) true;
                Dirent (Some (str ".")) false; Dirent (Some (str "..")) true; Dirent (Some (str "..")) false]).
  set (f := fun b q => Dirent (Some (drop (length dir + 1) q)) b).
  assert (forall name, drop (length dir + 1) (child dir name) = name) as Hdrop.
  { intros name. unfold child. rewrite app_assoc. apply drop_prefix. by rewrite length_app. }
  assert (length es <= length (dots ++ (f true <$> elements (d_dirs d)) ++
                               (f false <$> elements (dom (d_names d))))) as H.
  { apply submseteq_length, NoDup_submseteq; [done|]. intros [[name|] b] He.
    2: { apply elem_of_app. left. unfold dots. destruct b; rewrite !elem_of_cons; tauto. }
    rewrite Forall_forall in Hl. destruct (Hl _ He) as [->|[->|[_ Hex]]].
    - apply elem_of_app. left. unfold dots. destruct b; rewrite !elem_of_cons; tauto.
    - apply elem_of_app. left. unfold dots. destruct b; rewrite !elem_of_cons; tauto.
    - cbn in Hex. apply elem_of_app. right. apply elem_of_app. destruct b.
      + left. apply list_elem_of_fmap. exists (child dir name). unfold f. by rewrite Hdrop, elem_of_elements.
      + right. apply list_elem_of_fmap. exists (child dir name). unfold f.
        by rewrite Hdrop, elem_of_elements, elem_of_dom. }
  rewrite !length_app, !length_fmap in H. unfold tree_size.
  change (length (elements (d_dirs d))) with (size (d_dirs d)) in H.
  change (length (elements (dom (d_names d)))) with (size (dom (d_names d))) in H.
  rewrite size_dom in H. cbn in H. lia.
Qed.

(** ** The specification

    What an action is about, said without the program's own tests. *)

Section specification.
Context {AS : AprStrings} {AT : AprTables} {AM : AprMd5} {HT : Httpd}.

(** The entry is the requesting host's, up to case. *)
Definition same_host (r : request) (meta : cacher_entry_meta) : Prop :=
  ci_eq (em_host meta) (default [] (r_hostname r)).

(** The language of the glob has the URL of the entry, or its host and URL. *)
Definition covered (pat : option cstr) (meta : cacher_entry_meta) : Prop :=
  match pat with
  | None => True
  | Some p => glob_lang false p (em_url meta) \/ glob_lang false p (em_host meta ++ em_url meta)
  end.

(** There is no glob, or no star in what it is held against. *)
Definition starless (pat : option cstr) (meta : cacher_entry_meta) : Prop :=
  pat = None \/ STAR ∉ em_host meta ++ em_url meta.

(** The file holds an entry with these metadata. *)
Definition holds (d : disk) (h : cstr) (meta : cacher_entry_meta) : Prop :=
  exists text headers, file_at d h = Some text /\ parse_header_file (c_str text) = Some (meta, headers).

Definition pad_left (n : nat) (s : cstr) : cstr := replicate (n - length s) " "%char ++ s.
Definition pad_right (n : nat) (s : cstr) : cstr := s ++ replicate (n - length s) " "%char.

(** A line of the listing. *)
Definition list_row (meta : cacher_entry_meta) (size time_left : Z) : cstr :=
  pad_right 6 (em_method meta) ++ str " " ++ pad_left 3 (dec (em_status meta)) ++ str " " ++
  pad_left 10 (dec size) ++ str "  " ++
  pad_left 8 (if decide (0 < time_left)%Z then dec time_left ++ str "s" else str "STALE") ++ str "  " ++
  em_host meta ++ em_url meta ++ [LF].

Definition zsum (l : list Z) : Z := foldr Z.add 0%Z l.
End specification.

(** ** The effect of a walk *)

Section walk.
Context {AS : AprStrings} {AT : AprTables} {AM : AprMd5} {HT : Httpd} {AF : AprFiles} {S : Type}.
Context (r : request) (pat : option cstr) (del pr : bool).

(** The header file holds an entry the action is about. *)
Definition picked (d : disk) (h : cstr) : Prop :=
  exists text meta headers, file_at d h = Some text /\
    parse_header_file (c_str text) = Some (meta, headers) /\ selects r pat meta = true.

Lemma selects_sound meta : selects r pat meta = true -> same_host r meta /\ covered pat meta.
Proof.
  unfold selects. rewrite andb_true_iff, cacher_streq_ci_spec. intros [Hh Hp]. split; [done|].
  destruct pat as [p|]; [|done]. rewrite apr_pstrcat_spec in Hp. cbn [concat] in Hp. rewrite app_nil_r in Hp.
  apply orb_true_iff in Hp as [H|H]; [left|right]; by apply glob_match_sound_aux.
Qed.

Lemma selects_complete meta :
  starless pat meta -> same_host r meta -> covered pat meta -> selects r pat meta = true.
Proof.
  intros Hd Hh Hc. unfold selects. apply andb_true_iff. split; [by apply cacher_streq_ci_spec|].
  destruct pat as [p|]; [|done]. destruct Hd as [|Hd]; [done|]. pose proof Hd as Hd'.
  apply not_elem_of_app in Hd' as [_ Hu]. rewrite apr_pstrcat_spec. cbn [concat]. rewrite app_nil_r.
  apply orb_true_iff. destruct Hc as [H|H]; [left|right]; by apply glob_match_iff.
Qed.

(** Of the files, only those of the entries [sel] may be gone. *)
Record pruned (sel : list cstr) (d0 d : disk) : Prop := {
  pn_data : d_data d = d_data d0;
  pn_mtime : d_mtime d = d_mtime d0;
  pn_dirs : d_dirs d = d_dirs d0;
  pn_fds : d_fds d = d_fds d0;
  pn_tick : tick (d_now d0) (d_now d);
  pn_names p : d_names d !! p = d_names d0 !! p \/
    del = true /\ d_names d !! p = None /\ exists h, h ∈ sel /\ (p = h \/ p = body_of h);
}.

Lemma pruned_refl d : pruned [] d d.
Proof. split; first [done|apply tick_refl|intros p; by left]. Qed.

Lemma pruned_waited sel d0 d d' : pruned sel d0 d -> waited d d' -> pruned sel d0 d'.
Proof.
  intros [] ((E1 & E2 & E3 & E4 & _) & Ht & E5). split; try congruence.
  - by eapply tick_trans.
  - intros p. rewrite E1. apply pn_names0.
Qed.

Lemma pruned_mono sel sel' d0 d : sel ⊆ sel' -> pruned sel d0 d -> pruned sel' d0 d.
Proof. intros Hs []. split; try done. intros p. destruct (pn_names0 p) as [|(? & ? & h & ? & ?)]; naive_solver. Qed.

(** Files of a pruned disk were there before. *)
Lemma pruned_file_at sel d0 d p data : pruned sel d0 d -> file_at d p = Some data -> file_at d0 p = Some data.
Proof.
  intros [] H. unfold file_at in *. rewrite <- pn_data0. destruct (pn_names0 p) as [E|(_ & E & _)].
  - by rewrite <- E.
  - by rewrite E in H.
Qed.

Lemma pruned_size sel d0 d : pruned sel d0 d -> size (d_names d) <= size (d_names d0).
Proof.
  intros []. rewrite <- !size_dom. apply subseteq_size. intros p. rewrite !elem_of_dom.
  destruct (pn_names0 p) as [->|(_ & -> & _)]; [done|]. by intros [? [=]].
Qed.

(** Nothing is left of the entries [sel]. *)
Definition swept (sel : list cstr) (d : disk) : Prop :=
  del = true -> forall h, h ∈ sel -> d_names d !! h = None /\ d_names d !! body_of h = None.

(** Bounds under which the counters do not overflow: an [int] counts the
    files, an [off_t] their bytes; and expiry times are not negative. *)
Record walk_ok (d : disk) (bound : Z) : Prop := {
  wo_count : (Z.of_nat (size (d_names d)) <= INT_MAX)%Z;
  wo_bound : (0 <= bound)%Z;
  wo_bytes : (Z.of_nat (size (d_names d)) * bound <= LONG_MAX)%Z;
  wo_file p data : file_at d p = Some data -> (Z.of_nat (length data) <= bound)%Z;
  wo_now : in_time (d_now d);
  wo_expires p text meta headers : pr = true -> file_at d p = Some text ->
    parse_header_file (c_str text) = Some (meta, headers) -> (0 <= em_expires meta <= LONG_MAX)%Z;
}.

(** The size the program takes for the body of the entry [h]: that of the file,
    or none when [apr_stat] fails. *)
Definition body_bytes (d : disk) (exact : Prop) (h : cstr) (n : Z) : Prop :=
  (n = 0%Z \/ exists data, file_at d (body_of h) = Some data /\ n = Z.of_nat (length data)) /\
  (exact -> forall i data, d_names d !! body_of h = Some i -> is_Some (d_mtime d !! i) ->
     d_data d !! i = Some data -> n = Z.of_nat (length data)).

(** The row of the entry [h], in a listing until [t]. *)
Definition row_of (d : disk) (exact : Prop) (t : Z) (h row : cstr) : Prop :=
  exists meta size now, holds d h meta /\ body_bytes d exact h size /\ (d_now d <= now <= t)%Z /\
    row = list_row meta size (em_expires meta - now).

Lemma row_of_later d exact t t' h row : (t <= t')%Z -> row_of d exact t h row -> row_of d exact t' h row.
Proof. intros Hle (meta & size & now & Hh & Hs & Hn & ->). exists meta, size, now. split_and!; [done|done|lia..|done]. Qed.

Lemma list_row_spec meta size time_left : apr_psprintf (row_args meta size time_left) = list_row meta size time_left.
Proof.
  rewrite apr_psprintf_spec. unfold list_row, row_args. cbn [fmap list_fmap concat render].
  destruct (Z.ltb_spec 0 time_left), (decide (0 < time_left)%Z); try lia; rewrite ?apr_psprintf_spec; cbn [fmap list_fmap concat render];
    by rewrite ?app_nil_r.
Qed.

Context (d0 : disk) (bound : Z) (Hok : walk_ok d0 bound) (hlt : Prop) (out0 : cstr).

(** Nothing fails and nothing is removed. *)
Definition exact : Prop := hlt /\ del = false.

Definition rows_out (t : Z) (sel : list cstr) (out : cstr) : Prop :=
  if pr then exists rows, Forall2 (row_of d0 exact t) sel rows /\ out = out0 ++ concat (rev rows) else out = out0.

Lemma rows_out_later t t' sel out : (t <= t')%Z -> rows_out t sel out -> rows_out t' sel out.
Proof.
  unfold rows_out. destruct pr; [|done]. intros Hle (rows & Hrows & ->). exists rows. split; [|done].
  eapply Forall2_impl; [exact Hrows|]. intros h row. by apply row_of_later.
Qed.

(** The walk so far: the entries [sel] were counted. *)
Record progress (sel : list cstr) (ctx : admin_ctx) (w : world) : Prop := {
  pg_ctx : ac_r ctx = r /\ ac_pattern ctx = pat /\ ac_delete_matches ctx = del /\ ac_print_rows ctx = pr;
  pg_out : rows_out (d_now (view w)) sel (ac_out ctx);
  pg_nodup : NoDup sel;
  pg_picked : Forall (picked d0) sel;
  pg_matched : ac_matched ctx = Z.of_nat (length sel);
  pg_bytes : (0 <= ac_bytes ctx <= Z.of_nat (length sel) * bound)%Z;
  pg_total : exists sizes, Forall2 (body_bytes d0 exact) sel sizes /\ ac_bytes ctx = zsum sizes;
  pg_pruned : pruned sel d0 (view w);
  pg_healthy : hlt -> healthy w /\ swept sel (view w);
}.

Lemma progress_waited sel ctx w w' :
  progress sel ctx w -> waited (view w) (view w') -> (healthy w -> healthy w') -> progress sel ctx w'.
Proof.
  intros [] Hw Hh. split; try done.
  - eapply rows_out_later; [|done]. apply Hw.
  - by eapply pruned_waited.
  - intros H. destruct (pg_healthy0 H) as [H1 H2]. split; [auto|].
    intros Hd h Hin. destruct Hw as ((E & _) & _). rewrite E. by apply H2.
Qed.

(** Every entry counted is a file, so there are not more than files. *)
Lemma picked_length sel : NoDup sel -> Forall (picked d0) sel -> length sel <= size (d_names d0).
Proof.
  intros Hn Hp. rewrite <- size_dom. transitivity (length (elements (dom (d_names d0)))); [|done].
  apply submseteq_length, NoDup_submseteq; [done|]. intros h Hh.
  rewrite Forall_forall in Hp. destruct (Hp h Hh) as (text & _ & _ & E & _).
  apply elem_of_elements, elem_of_dom. unfold file_at in E. destruct (d_names d0 !! h); [by eexists|done].
Qed.

Lemma count_fits sel h :
  NoDup (h :: sel) -> Forall (picked d0) (h :: sel) ->
  add_int (Z.of_nat (length sel)) 1 = Some (Z.of_nat (length (h :: sel))).
Proof.
  intros Hn Hp. pose proof (picked_length _ Hn Hp) as Hl. pose proof (wo_count _ _ Hok) as Hc.
  replace (Z.of_nat (length (h :: sel))) with (Z.of_nat (length sel) + 1)%Z by (cbn; lia).
  apply add_int_ok. cbn [length] in Hl. unfold INT_MIN, INT_MAX in *. lia.
Qed.

Lemma bytes_fit sel h total n :
  NoDup (h :: sel) -> Forall (picked d0) (h :: sel) ->
  (0 <= total <= Z.of_nat (length sel) * bound)%Z -> (0 <= n <= bound)%Z ->
  add_int64 total n = Some (total + n)%Z /\ (0 <= total + n <= Z.of_nat (length (h :: sel)) * bound)%Z.
Proof.
  intros Hn Hp Ht Hb. pose proof (picked_length _ Hn Hp) as Hl. destruct Hok.
  assert (0 <= total + n <= Z.of_nat (length (h :: sel)) * bound)%Z as H.
  { cbn [length]. rewrite Nat2Z.inj_succ, Z.mul_succ_l. lia. }
  split; [|done]. apply add_int64_ok.
  assert (Z.of_nat (length (h :: sel)) * bound <= Z.of_nat (size (d_names d0)) * bound)%Z
    by (apply Z.mul_le_mono_nonneg_r; lia).
  unfold LONG_MIN, LONG_MAX in *. lia.
Qed.

(** ** Visiting one entry *)

Lemma body_of_spec h : body_of h = take (length h - 7) h ++ body_suffix.
Proof. unfold body_of. rewrite apr_pstrcat_spec, apr_pstrndup_spec. cbn [concat]. by rewrite app_nil_r. Qed.

(** A header file as the program names it; it is no entry's body. *)
Definition well_named (h : cstr) : Prop := exists stem, h = stem ++ header_suffix.

Lemma well_named_not_body h h' : well_named h -> h <> body_of h'.
Proof.
  intros [stem ->] E. rewrite body_of_spec in E.
  apply (f_equal (fun l => last l)) in E. rewrite !last_app in E. discriminate E.
Qed.

(** One file may be gone. *)
Record removed (p : cstr) (d d' : disk) : Prop := {
  rm_same : d_data d' = d_data d /\ d_mtime d' = d_mtime d /\ d_dirs d' = d_dirs d /\
            d_fds d' = d_fds d /\ d_streams d' = d_streams d;
  rm_tick : tick (d_now d) (d_now d');
  rm_names q : d_names d' !! q = d_names d !! q \/ q = p /\ d_names d' !! q = None;
}.

Lemma removed_None p d d' q : removed p d d' -> d_names d !! q = None -> d_names d' !! q = None.
Proof. intros [_ _ H] E. destruct (H q) as [->|[_ ?]]; done. Qed.

Lemma pruned_removed sel d1 p d d' :
  pruned sel d1 d -> removed p d d' -> del = true -> (exists h, h ∈ sel /\ (p = h \/ p = body_of h)) ->
  pruned sel d1 d'.
Proof.
  intros [] [(E1 & E2 & E3 & E4 & _) Ht Hn] Hdel Hp. split; try congruence; [by eapply tick_trans|].
  intros q. destruct (Hn q) as [E|[-> E]]; [|naive_solver].
  rewrite E. apply pn_names0.
Qed.

Lemma wpp_remove {B} p (k : prog S B) (Q : B -> world -> S -> Prop) w s :
  (forall w', removed p (view w) (view w') ->
     (healthy w -> healthy w' /\ d_names (view w') !! p = None) -> wpp k Q w' s) ->
  wpp (remove p k) Q w s.
Proof.
  intros H. unfold remove. wp_call; [done|]. intros ok w' Hs Hh. cbn in Hs, Hh. apply H.
  - destruct ok; destruct Hs as (t & Ht & V); rewrite V; split; try done; intros q; [|by left].
    cbn. destruct (decide (q = p)) as [->|Hq]; [right; by rewrite lookup_delete_eq|left].
    by rewrite lookup_delete_ne.
  - intros Hw. destruct (Hh Hw) as [Hf Hw']. split; [done|]. destruct ok.
    + destruct Hs as (t & _ & V). rewrite V. cbn. apply lookup_delete_eq.
    + destruct Hs as (t & _ & V). rewrite V. cbn. destruct (d_names (view w) !! p); [|done].
      by discriminate Hf.
Qed.

Lemma wpp_delete {B} h sel (k : unit -> prog S B) (Q : B -> world -> S -> Prop) w s :
  del = true -> h ∈ sel -> pruned sel d0 (view w) ->
  (forall w', pruned sel d0 (view w') -> (d_now (view w) <= d_now (view w'))%Z ->
     d_streams (view w') = d_streams (view w) ->
     (forall q, d_names (view w) !! q = None -> d_names (view w') !! q = None) ->
     (healthy w -> healthy w' /\ d_names (view w') !! h = None /\ d_names (view w') !! body_of h = None) ->
     wpp (k tt) Q w' s) ->
  wpp (delete_entry h ≫= k) Q w s.
Proof.
  intros Hdel Hh Hp H. apply wpp_bind. unfold delete_entry.
  apply wpp_remove. intros w1 R1 H1. apply wpp_remove. intros w2 R2 H2. apply wpp_ret. apply H.
  - eapply pruned_removed; [eapply pruned_removed; [exact Hp|exact R1|..]|exact R2|..]; naive_solver.
  - destruct (rm_tick _ _ _ R1), (rm_tick _ _ _ R2). lia.
  - destruct (rm_same _ _ _ R1) as (_ & _ & _ & _ & <-). by destruct (rm_same _ _ _ R2) as (_ & _ & _ & _ & <-).
  - intros q Hq. by eapply removed_None, removed_None.
  - intros Hw. destruct (H1 Hw) as [Hw1 E1], (H2 Hw1) as [Hw2 E2]. split_and!; [done..|].
    by eapply removed_None.
Qed.

Lemma wpp_body_size {B} h (k : Z -> prog S B) (Q : B -> world -> S -> Prop) w s :
  (forall n w', waited (view w) (view w') -> (healthy w -> healthy w') ->
     body_bytes (view w) (healthy w) h n -> wpp (k n) Q w' s) ->
  wpp (body_size h ≫= k) Q w s.
Proof.
  intros H. apply wpp_bind. unfold body_size. wp_call; [done|]. intros a w' [Hl Ha] Hh.
  assert (waited (view w) (view w')) as Hw by (destruct Hl as (t & Ht & V); rewrite V; done).
  destruct a as [[m n]|]; apply wpp_ret.
  - destruct (Ha m n eq_refl) as (i & data & Hi & _ & Hd & ->). apply H; [done|naive_solver|]. split.
    + right. exists data. unfold file_at. by rewrite Hi.
    + intros _ j data' Hj _ Hd'. congruence.
  - apply H; [done|naive_solver|]. split; [by left|]. intros Hhw j data Hj Hm Hd.
    destruct (Hh Hhw) as [Hf _]. by destruct (Hf j Hj Hm) as [? [=]].
Qed.

(** What is measured while the walk is on was so before it. *)
Lemma body_bytes_before sel w h n :
  pruned sel d0 (view w) -> (hlt -> healthy w) -> body_bytes (view w) (healthy w) h n -> body_bytes d0 exact h n.
Proof.
  intros Hp Hh [H1 H2]. split.
  - destruct H1 as [->|(data & Hd & ->)]; [by left|right]. exists data. split; [|done]. by eapply pruned_file_at.
  - intros [Hx Hdel] i data Hi Hm Hd. destruct Hp. apply (H2 (Hh Hx) i); [|congruence..].
    destruct (pn_names0 (body_of h)) as [->|[E _]]; [done|congruence].
Qed.

(** Printing adds a row. *)
Lemma wpp_print ctx meta h (Q : admin_ctx -> world -> S -> Prop) w s :
  in_time (d_now (view w)) -> (0 <= em_expires meta <= LONG_MAX)%Z ->
  (forall size now w1 w', waited (view w) (view w1) -> waited (view w1) (view w') ->
     (healthy w -> healthy w1 /\ healthy w') -> (d_now (view w) <= now <= d_now (view w'))%Z ->
     body_bytes (view w1) (healthy w1) h size ->
     Q (ap_rprintf ctx (row_args meta size (em_expires meta - now))) w' s) ->
  wpp (print_row ctx meta h) Q w s.
Proof.
  intros Ht He H. unfold print_row. apply wpp_now. intros now w1 Hw1 _ Hnow Hh1.
  assert (in_time now) as Hin by (rewrite <- Hnow; by apply (proj1 (proj2 Hw1))).
  unfold sub_int64. rewrite (proj2 (in_long_spec _)).
  2: { unfold in_time, LONG_MIN, LONG_MAX in *. lia. }
  apply wpp_body_size. intros n w2 Hw2 Hh2 Hn. apply wpp_ret. apply (H n now w1); [done|done|auto| |done].
  destruct Hw1 as (_ & [Ht1 _] & _), Hw2 as (_ & [Ht2 _] & _). lia.
Qed.

Lemma progress_in_time sel ctx w : progress sel ctx w -> in_time (d_now (view w)).
Proof. intros []. apply (pn_tick _ _ _ pg_pruned0), Hok. Qed.

(** The walk after [h] was considered. *)
Definition visited (sel : list cstr) (h : cstr) (ctx : admin_ctx) (w : world) : Prop :=
  exists sel', (sel' = sel \/ sel' = h :: sel) /\ progress sel' ctx w /\
    (hlt -> well_named h -> picked d0 h -> h ∈ sel').

Lemma visited_skip sel h ctx w w' :
  progress sel ctx w -> waited (view w) (view w') -> (healthy w -> healthy w') ->
  (hlt -> file_at (view w) h = None \/ ~ picked (view w) h) -> visited sel h ctx w'.
Proof.
  intros Hp Hw Hh Hn. exists sel. split; [by left|]. split; [by eapply progress_waited|].
  intros H Hwn (text & meta & headers & Ht & Hpar & Hsel).
  destruct (pn_names _ _ _ (pg_pruned _ _ _ Hp) h) as [E|(_ & _ & h' & Hin & [->|E])].
  - assert (file_at (view w) h = Some text) as Ht'.
    { unfold file_at in *. by rewrite E, (pn_data _ _ _ (pg_pruned _ _ _ Hp)). }
    exfalso. destruct (Hn H) as [F|F]; [congruence|]. apply F. by exists text, meta, headers.
  - done.
  - by apply well_named_not_body in E.
Qed.

(** The context after a match was counted and its row printed, if rows are
    asked for. *)
Definition match_ctx (sel : list cstr) (bytes : Z) (out : cstr) : admin_ctx :=
  AdminCtx r pat (Z.of_nat (length sel)) bytes del pr out.

Lemma wpp_visit_row sel ctx h text meta hs bytes w w2 (s : S) :
  progress sel ctx w -> waited (view w) (view w2) -> (healthy w -> healthy w2) ->
  file_at d0 h = Some text -> parse_header_file (c_str text) = Some (meta, hs) -> picked d0 h ->
  wpp (if pr then print_row (count_match ctx (Z.of_nat (length (h :: sel))) bytes) meta h
       else mret (count_match ctx (Z.of_nat (length (h :: sel))) bytes))
    (fun c w3 s3 => s3 = s /\ waited (view w) (view w3) /\ (healthy w -> healthy w3) /\
       exists out, rows_out (d_now (view w3)) (h :: sel) out /\ c = match_ctx (h :: sel) bytes out) w2 s.
Proof.
  intros Hp Hw02 Hh2 Htext Eps Hpk. destruct (pg_ctx _ _ _ Hp) as (Er & Epat & Edel & Epr).
  pose proof (pg_out _ _ _ Hp) as Hout. unfold rows_out, match_ctx in *. destruct pr eqn:Ep.
  - apply wpp_print; [by apply Hw02, (progress_in_time _ _ _ Hp)|
      by apply (wo_expires _ _ Hok h text meta hs)|].
    intros size now w1 w3 Hw1 Hw3 Hh3 Hnow Hsize. pose proof (waited_trans _ _ _ Hw1 Hw3) as Hw23.
    split_and!; [done|by eapply waited_trans|intros Hx; by apply Hh3, Hh2|].
    destruct Hout as (rows & Hrows & Hout). eexists. split.
    + exists (apr_psprintf (row_args meta size (em_expires meta - now)) :: rows).
      pose proof (pg_pruned _ _ _ Hp) as Hpr. split.
      * constructor.
        -- exists meta, size, now. split; [by exists text, hs|]. split; [|split; [|apply list_row_spec]].
           ++ apply (body_bytes_before sel w1); [eapply pruned_waited; [|exact Hw1]; by eapply pruned_waited| |done].
              intros H. apply Hh3, Hh2. apply (pg_healthy _ _ _ Hp H).
           ++ destruct (pn_tick _ _ _ Hpr) as [? _], Hw02 as (_ & [? _] & _). lia.
        -- eapply Forall2_impl; [exact Hrows|]. intros h' row. apply row_of_later.
           destruct Hw02 as (_ & [? _] & _), Hw23 as (_ & [? _] & _). lia.
      * cbn [rev]. rewrite concat_app. cbn [concat]. rewrite app_nil_r, app_assoc. reflexivity.
    + unfold ap_rprintf, count_match. cbn. congruence.
  - apply wpp_ret. split_and!; [done..|auto|]. exists (ac_out ctx). split; [done|].
    unfold count_match. congruence.
Qed.

(** Then its files are removed, if they are to be. *)
Lemma wpp_visit_sweep sel ctx h bytes out w w3 (s : S) :
  progress sel ctx w -> NoDup (h :: sel) -> Forall (picked d0) (h :: sel) ->
  (0 <= bytes <= Z.of_nat (length (h :: sel)) * bound)%Z ->
  (exists sizes, Forall2 (body_bytes d0 exact) (h :: sel) sizes /\ bytes = zsum sizes) ->
  rows_out (d_now (view w3)) (h :: sel) out -> waited (view w) (view w3) -> (healthy w -> healthy w3) ->
  wpp (_ ← (if del then delete_entry h else mret tt); mret (match_ctx (h :: sel) bytes out))
    (fun ctx' w' s' => s' = s /\ d_streams (view w') = d_streams (view w) /\ visited sel h ctx' w') w3 s.
Proof.
  intros Hp Hnd Hpk Hbytes Htotal Hout Hw3 Hh3.
  assert (pruned sel d0 (view w3)) as Hp3 by (eapply pruned_waited; [apply Hp|done]).
  assert (pruned (h :: sel) d0 (view w3)) as Hp3' by (by eapply pruned_mono; [|exact Hp3]; set_solver).
  assert (forall w4, pruned (h :: sel) d0 (view w4) -> (d_now (view w3) <= d_now (view w4))%Z ->
    (hlt -> healthy w4 /\ swept (h :: sel) (view w4)) ->
    visited sel h (match_ctx (h :: sel) bytes out) w4) as Hv.
  { intros w4 Hp4 Ht4 Hs4. exists (h :: sel). split; [by right|]. split; [|intros; by left].
    split; [done|by eapply rows_out_later|done..]. }
  destruct (Bool.bool_dec del true) as [Ed|Ed].
  - rewrite Ed at 1. apply (wpp_delete h (h :: sel)); [done|by left|done|].
    intros w4 Hp4 Ht4 Hs4 Hn4 Hh4. apply wpp_ret. split; [done|].
    split; [rewrite Hs4; apply Hw3|]. apply Hv; [done..|]. intros H.
    destruct (pg_healthy _ _ _ Hp H) as [Hhw Hsw]. destruct (Hh4 (Hh3 Hhw)) as (H4 & N1 & N2).
    split; [done|]. intros _ h' [->|Hin]%elem_of_cons; [done|]. destruct (Hsw Ed h' Hin) as [M1 M2].
    destruct Hw3 as ((E3 & _) & _). split; apply Hn4; rewrite E3; done.
  - apply not_true_is_false in Ed. rewrite Ed at 1. apply wpp_bind, wpp_ret, wpp_ret. split; [done|].
    split; [apply Hw3|]. apply Hv; [done|lia|]. intros H. destruct (pg_healthy _ _ _ Hp H) as [Hhw _].
    split; [auto|]. unfold swept. by rewrite Ed.
Qed.

Lemma wpp_visit_entry sel ctx h w (s : S) :
  progress sel ctx w -> h ∉ sel ->
  wpp (visit_entry ctx h) (fun ctx' w' s' =>
    s' = s /\ d_streams (view w') = d_streams (view w) /\ visited sel h ctx' w') w s.
Proof.
  intros Hp Hh. destruct (pg_ctx _ _ _ Hp) as (Er & Epat & Edel & Epr).
  unfold visit_entry. apply wpp_read_meta.
  { intros w1 Hw1 Hh1. apply wpp_ret. split; [done|]. split; [apply Hw1|].
    eapply visited_skip; [done..|naive_solver|]. intros H. destruct (pg_healthy _ _ _ Hp H) as [Hw _].
    destruct (Hh1 Hw) as [_ [E|E]]; [by left|right]. intros (text & meta & hs & Et & Eps & _).
    rewrite E in Et. by injection Et as <-. }
  intros text w1 Hw1 Htext Hh1. destruct (parse_header_file (c_str text)) as [[meta hs]|] eqn:Eps.
  2: { apply wpp_ret. split; [done|]. split; [apply Hw1|]. eapply visited_skip; [done..|].
       intros _. right. intros (? & ? & ? & Et & Eps' & _). congruence. }
  rewrite Er, Epat. destruct (selects r pat meta) eqn:Esel; cbn [negb].
  2: { apply wpp_ret. split; [done|]. split; [apply Hw1|]. eapply visited_skip; [done..|].
       intros _. right. intros (? & ? & ? & Et & Eps' & ?). congruence. }
  pose proof (pruned_file_at _ _ _ _ _ (pg_pruned _ _ _ Hp) Htext) as Htext0.
  assert (NoDup (h :: sel)) as Hnd by (constructor; [done|apply Hp]).
  assert (Forall (picked d0) (h :: sel)) as Hpk.
  { constructor; [by exists text, meta, hs|apply Hp]. }
  rewrite (pg_matched _ _ _ Hp), (count_fits sel h) by done.
  apply wpp_body_size. intros n w2 Hw2 Hh2 Hn.
  assert (waited (view w) (view w2)) as Hw02 by by eapply waited_trans.
  assert (0 <= n <= bound)%Z as Hnb.
  { destruct Hn as [[->|(data & Hd & ->)] _]; [split; [done|apply Hok]|]. split; [lia|].
    apply (wo_file _ _ Hok (body_of h)). apply (pruned_file_at sel _ _ _ _ (pg_pruned _ _ _ Hp)).
    by rewrite <- (same_store_file_at _ _ _ (proj1 Hw1)). }
  destruct (bytes_fit _ _ _ _ Hnd Hpk (pg_bytes _ _ _ Hp) Hnb) as [-> Hbytes].
  cbn [count_match ac_print_rows ac_delete_matches]. rewrite Epr. apply wpp_bind.
  eapply wpp_mono; [eapply (wpp_visit_row sel ctx h text meta hs _ w); [done|done|by auto|done|done|by inversion Hpk]|].
  intros c w3 s3 (-> & Hw3 & Hh3 & out & Hout & ->).
  cbn [match_ctx ac_delete_matches]. fold (match_ctx (h :: sel) (ac_bytes ctx + n) out).
  eapply (wpp_visit_sweep sel ctx); [done..| |done|done|done].
  destruct (pg_total _ _ _ Hp) as (sizes & Hsizes & ->). exists (n :: sizes). split; [|unfold zsum; cbn; lia].
  constructor; [|done]. apply (body_bytes_before sel w1); [|intros H; apply Hh1, (pg_healthy _ _ _ Hp H)|done].
  eapply pruned_waited; [apply Hp|done].
Qed.

(** ** The loop over a directory *)

(** The header files the entry [e] of [dir] leads to. *)
Definition leads_to (dir : cstr) (e : dirent) (h : cstr) : Prop :=
  exists name, de_name e = Some name /\ plain_name name /\
    if de_dir e then in_tree d0 (child dir name) h else header_name name = true /\ h = child dir name.

(** The walk reached [todo], adding entries that satisfy [from]. *)
Definition extended (sel : list cstr) (from todo : cstr -> Prop) (ctx : admin_ctx) (w : world) : Prop :=
  exists new, progress (new ++ sel) ctx w /\ Forall from new /\
    (hlt -> forall h, todo h -> well_named h -> picked d0 h -> h ∈ new ++ sel).

Lemma extended_none sel (from todo : cstr -> Prop) ctx w :
  progress sel ctx w -> (hlt -> forall h, ~ todo h) -> extended sel from todo ctx w.
Proof. intros Hp Ht. exists []. split_and!; [done|constructor|]. intros H h Hh. by apply Ht in Hh. Qed.

Lemma extended_mono sel (from from' todo todo' : cstr -> Prop) ctx w :
  extended sel from todo ctx w -> (forall h, from h -> from' h) ->
  (hlt -> forall h, todo' h -> todo h) -> extended sel from' todo' ctx w.
Proof.
  intros (new & Hp & Hf & Ht) Hff Htt. exists new. split_and!; [done|by eapply Forall_impl|].
  intros H h Hh. apply Ht; [done|]. by apply Htt.
Qed.

Lemma extended_trans sel from1 todo1 from2 todo2 ctx w :
  forall new, Forall from1 new ->
  (hlt -> forall h, todo1 h -> well_named h -> picked d0 h -> h ∈ new ++ sel) ->
  extended (new ++ sel) from2 todo2 ctx w ->
  extended sel (fun h => from1 h \/ from2 h) (fun h => todo1 h \/ todo2 h) ctx w.
Proof.
  intros new Hf Ht (new2 & Hp & Hf2 & Ht2). exists (new2 ++ new). rewrite <- app_assoc.
  split_and!; [done| |].
  - apply Forall_app. split; eapply Forall_impl; [exact Hf2|naive_solver|exact Hf|naive_solver].
  - intros H h [Hh|Hh] Hw Hpk; [|by apply Ht2]. apply elem_of_app. right. by apply Ht.
Qed.

(** What a walk from [dir] must do. *)
Definition walk_spec (walk : admin_ctx -> cstr -> prog S admin_ctx) (dir : cstr) : Prop :=
  forall sel ctx w (s : S), progress sel ctx w -> (forall h, h ∈ sel -> ~ visible dir h) ->
  wpp (walk ctx dir) (fun ctx' w' s' => s' = s /\ d_streams (view w') = d_streams (view w) /\
    extended sel (visible dir) (in_tree d0 dir) ctx' w') w s.

(** An entry of a listing of [dir], when the directories are those of [d0]. *)
Definition known (dir : cstr) (e : dirent) : Prop :=
  match de_name e with
  | None => True
  | Some name => name = str "." \/ name = str ".." \/
      file_name name /\ (de_dir e = true -> child dir name ∈ d_dirs d0)
  end.

Lemma visit_name_wpp walk dir name is_dir sel ctx w (s : S) :
  (child dir name ∈ d_dirs d0 -> walk_spec walk (child dir name)) ->
  known dir (Dirent (Some name) is_dir) -> progress sel ctx w ->
  (forall h, h ∈ sel -> ~ covers dir (Dirent (Some name) is_dir) h) ->
  wpp (visit_name walk ctx dir name is_dir) (fun ctx' w' s' =>
    s' = s /\ d_streams (view w') = d_streams (view w) /\
    extended sel (covers dir (Dirent (Some name) is_dir)) (leads_to dir (Dirent (Some name) is_dir)) ctx' w')
    w s.
Proof.
  intros Hwalk Hk Hp Hsel. unfold visit_name. rewrite apr_pstrcat_spec. cbn [concat].
  rewrite app_nil_r. change (dir ++ str "/" ++ name) with (child dir name).
  destruct (match name with c :: _ => c =? "."%char | [] => false end) eqn:Edot.
  { apply wpp_ret. split_and!; [done..|]. apply extended_none; [done|].
    intros _ h (n & [= <-] & [_ Hn] & _). destruct name as [|c name]; [done|].
    by apply Ascii.eqb_eq in Edot. }
  assert (file_name name /\ (is_dir = true -> child dir name ∈ d_dirs d0)) as [Hfn Hdir].
  { destruct Hk as [->|[->|Hk]]; [discriminate Edot..|exact Hk]. }
  destruct is_dir.
  - eapply wpp_mono; [apply Hwalk; [by apply Hdir|done|]|].
    + intros h Hh [Hu Hf]. apply (Hsel h Hh). by exists name.
    + intros ctx' w' s' (-> & Hs & He). split_and!; [done..|]. eapply extended_mono; [exact He| |].
      * intros h [Hu Hf]. by exists name.
      * intros _ h (n & [= <-] & _ & Hh). done.
  - destruct (header_name name) eqn:Ehn.
    1: assert (header_file (child dir name)) as Hfile by (exists dir, name; by destruct Hfn).
    + unfold header_name in Ehn. rewrite Ehn.
      eapply wpp_mono; [apply (wpp_visit_entry sel); [done|]|].
      * intros Hin. apply (Hsel _ Hin). by exists name.
      * intros ctx' w' s' (-> & Hs & sel' & Hsel' & Hp' & Hin). split_and!; [done..|].
        destruct Hsel' as [->| ->].
        -- exists []. split_and!; [done|constructor|]. intros H h (n & [= <-] & _ & _ & ->) Hwn Hpk. auto.
        -- exists [child dir name]. split_and!; [done|repeat constructor; by exists name|].
           intros H h (n & [= <-] & _ & _ & ->) Hwn Hpk. auto.
    + pose proof Ehn as Ehn'. unfold header_name in Ehn'. rewrite Ehn'.
      apply wpp_ret. split_and!; [done..|]. apply extended_none; [done|].
      intros _ h (n & [= <-] & _ & H & _). congruence.
Qed.

Lemma progress_later sel ctx w w' ss :
  progress sel ctx w -> later (set_streams (view w) ss) (view w') -> (healthy w -> healthy w') ->
  progress sel ctx w'.
Proof.
  intros [] (t & Ht & V) Hh. split; try done.
  - eapply rows_out_later; [|done]. rewrite V. apply Ht.
  - destruct pg_pruned0. split; rewrite V; try done. by eapply tick_trans.
  - intros H. destruct (pg_healthy0 H) as [H1 H2]. split; [auto|]. rewrite V. exact H2.
Qed.

Definition via (es : list dirent) (P : dirent -> cstr -> Prop) (h : cstr) : Prop :=
  exists e, e ∈ es /\ P e h.

Lemma read_entries_wpp walk width dir d es sel ctx w (s : S) :
  (forall name, child dir name ∈ d_dirs d0 -> walk_spec walk (child dir name)) ->
  length es < width -> NoDup es -> Forall (known dir) es ->
  d_streams (view w) !! d = Some es -> progress sel ctx w ->
  (forall e h, e ∈ es -> h ∈ sel -> ~ covers dir e h) ->
  wpp (read_entries walk width ctx dir d) (fun ctx' w' s' => s' = s /\
    (exists es', d_streams (view w') = <[d := es']> (d_streams (view w))) /\
    extended sel (via es (covers dir)) (via es (leads_to dir)) ctx' w') w s.
Proof.
  intros Hwalk. revert es sel ctx w. induction width as [|width IH]; intros es sel ctx w Hlen Hnd Hkn Hst Hp Hsel;
    [lia|]. cbn [read_entries]. wp_call; [apply bool_decide_eq_true; by rewrite Hst|].
  intros a w1 Hs Hh. cbn in Hs, Hh. destruct a as [e|].
  2: { apply wpp_ret. split; [done|]. pose proof Hs as (t & Ht & V). split.
       - exists es. rewrite V. cbn. by rewrite insert_id.
       - apply extended_none.
         + apply (progress_later _ _ w _ (d_streams (view w)) Hp); [by destruct (view w)|naive_solver].
         + intros H h (e & He & _). destruct (pg_healthy _ _ _ Hp H) as [Hw _].
           destruct (Hh Hw) as [Hf _]. destruct (Hf es Hst) as (? & ? & [=] & _). by intros ->; set_solver. }
  destruct Hs as (sk & es' & Hst' & Hlat). rewrite Hst in Hst'. injection Hst' as ->.
  assert (progress sel ctx w1) as Hp1 by (eapply progress_later; [exact Hp|exact Hlat|naive_solver]).
  pose proof Hlat as (t & _ & V). assert (d_streams (view w1) = <[d := es']> (d_streams (view w))) as V1 by by rewrite V.
  apply NoDup_app in Hnd as (_ & Hsk & [He Hnd]%NoDup_cons).
  apply Forall_app in Hkn as [_ [Hke Hkn]%Forall_cons].
  assert (hlt -> sk = []) as Hskip.
  { intros H. destruct (pg_healthy _ _ _ Hp H) as [Hw _]. destruct (Hh Hw) as [Hf _].
    destruct (Hf _ Hst) as (e1 & es1 & [= <-] & E); [by destruct sk|]. destruct sk as [|e2 sk]; [done|].
    injection E as -> E. exfalso. apply (Hsk e); by left. }
  rewrite length_app in Hlen. cbn in Hlen.
  assert (forall new sel' ctx' w', sel' = new ++ sel -> Forall (covers dir e) new ->
    (hlt -> forall h, leads_to dir e h -> well_named h -> picked d0 h -> h ∈ sel') ->
    d_streams (view w') = d_streams (view w1) -> progress sel' ctx' w' ->
    wpp (read_entries walk width ctx' dir d) (fun ctx' w' s' => s' = s /\
      (exists es0, d_streams (view w') = <[d := es0]> (d_streams (view w))) /\
      extended sel (via (sk ++ e :: es') (covers dir)) (via (sk ++ e :: es') (leads_to dir)) ctx' w') w' s)
    as Hrest.
  { intros new sel' ctx' w' -> Hnew Hin Hstr Hp'.
    eapply wpp_mono; [apply (IH es' (new ++ sel) ctx' w'); [lia|done|done| |done|]|].
    - rewrite Hstr, V1. apply lookup_insert_eq.
    - intros e' h He' [Hh'|Hh']%elem_of_app Hc.
      + rewrite Forall_forall in Hnew. by rewrite (covers_disjoint _ _ _ _ (Hnew h Hh') Hc) in He.
      + apply (Hsel e' h); [apply elem_of_app; right; by right|done|done].
    - intros c w2 s2 (-> & [es2 Hes2] & Hext). split; [done|]. split.
      + exists es2. rewrite Hes2, Hstr, V1. apply insert_insert_eq.
      + eapply extended_mono; [apply (extended_trans sel (covers dir e) (leads_to dir e) _ _ _ _ new Hnew Hin Hext)| |].
        * intros h [Hc|(e' & He' & Hc)]; [exists e|exists e']; (split; [|done]); set_solver.
        * intros H h (e' & He' & Hc). rewrite (Hskip H) in He'. apply elem_of_cons in He' as [->|He'];
            [by left|right; by exists e']. }
  destruct e as [[name|] is_dir].
  - apply wpp_bind. eapply wpp_mono; [apply (visit_name_wpp walk dir name is_dir sel ctx w1 s); [auto|done|done|]|].
    + intros h Hh'. apply Hsel; [|done]. set_solver.
    + intros ctx' w2 s2 (-> & Hstr & new & Hp2 & Hf & Hin). by apply (Hrest new (new ++ sel)).
  - apply (Hrest [] sel); try done. intros _ h (? & [=] & _).
Qed.

Lemma in_tree_entry dir h :
  in_tree d0 dir h -> exists e, entry_exists d0 dir e /\ leads_to dir e h /\
    exists name is_dir, e = Dirent (Some name) is_dir /\ plain_name name.
Proof.
  intros H. inversion H as [dir' name Hn Hh He|dir' name p Hn Hd Hr]; subst.
  - exists (Dirent (Some name) false). split_and!; [done|by exists name|by exists name, false].
  - exists (Dirent (Some name) true). split_and!; [done|by exists name|by exists name, true].
Qed.

Lemma walk_cache_wpp depth width dir :
  dir ∈ d_dirs d0 -> size (longer_dirs d0 dir) < depth -> tree_size d0 < width ->
  walk_spec (walk_cache depth width) dir.
Proof.
  intros Hdir Hdepth Hwidth. revert dir Hdir Hdepth.
  induction depth as [|depth IH]; intros dir Hdir Hdepth; [lia|].
  intros sel ctx w s Hp Hsel. cbn [walk_cache]. wp_call; [done|]. intros a w1 Hs Hh. cbn in Hs, Hh.
  pose proof (pn_dirs _ _ _ (pg_pruned _ _ _ Hp)) as Edirs. destruct a as [d|].
  2: { apply wpp_ret. split; [done|]. pose proof Hs as (t & _ & V). split; [by rewrite V|].
       apply extended_none.
       - apply (progress_later _ _ w _ (d_streams (view w)) Hp); [by destruct (view w)|naive_solver].
       - intros H h _. destruct (pg_healthy _ _ _ Hp H) as [Hw _].
         destruct (Hh Hw) as [Hf _]. rewrite Edirs in Hf. destruct (Hf Hdir) as [? [=]]. }
  destruct Hs as (es & Hfresh & Hlisted & Hall & Hnd & Hlat).
  assert (progress sel ctx w1) as Hp1 by (eapply progress_later; [exact Hp|exact Hlat|naive_solver]).
  pose proof Hlat as (t & _ & V).
  assert (d_streams (view w1) = <[d := es]> (d_streams (view w))) as V1 by by rewrite V.
  assert (length es < width) as Hlen.
  { pose proof (listing_length _ _ _ Hlisted Hnd) as Hl. unfold tree_size in *.
    rewrite Edirs in Hl. pose proof (pruned_size _ _ _ (pg_pruned _ _ _ Hp)). lia. }
  apply wpp_bind. eapply wpp_mono; [apply (read_entries_wpp _ width dir d es sel ctx w1 s)|].
  - intros name Hn. apply IH; [done|]. pose proof (longer_dirs_child _ _ _ Hn). lia.
  - done.
  - done.
  - eapply Forall_impl; [exact Hlisted|]. intros [[name|] b]; [|done]. unfold listed, known. cbn.
    intros [->|[->|[Hfn He]]]; [by left|by right; left|]. right; right. split; [done|].
    intros ->. by rewrite <- Edirs.
  - rewrite V1. apply lookup_insert_eq.
  - done.
  - intros e h _ Hin Hc. by apply (Hsel h Hin), (covers_visible _ e).
  - intros ctx' w2 s2 (-> & [es' Hes'] & Hext). wp_call.
    { apply bool_decide_eq_true. rewrite Hes', lookup_insert_eq. by eexists. }
    intros [] w3 Hs3 Hh3. cbn in Hs3, Hh3. apply wpp_ret. split; [done|]. pose proof Hs3 as (t3 & _ & V3).
    split; [rewrite V3; cbn; rewrite Hes', V1, insert_insert_eq; by apply delete_insert_id|].
    destruct Hext as (new & Hp2 & Hf & Hin). exists new. split_and!.
    + eapply progress_later; [exact Hp2|exact Hs3|naive_solver].
    + eapply Forall_impl; [exact Hf|]. intros h (e & _ & Hc). by eapply covers_visible.
    + intros H h Htree Hwn Hpk. destruct (in_tree_entry _ _ Htree) as ([n b] & He & Hl & name & b' & [= -> ->] & Hpl).
      destruct (decide (Dirent (Some name) b' ∈ es)) as [Hes|Hes].
      { apply Hin; [done| |done|done]. by exists (Dirent (Some name) b'). }
      destruct b'.
      { exfalso. apply Hes, Hall; [done|]. unfold entry_exists in *. cbn in *. by rewrite Edirs. }
      destruct Hl as (name' & [= <-] & _ & _ & ->).
      destruct (pn_names _ _ _ (pg_pruned _ _ _ Hp) (child dir name)) as [E|(_ & _ & h' & Hh' & [->|E])].
      * exfalso. apply Hes, Hall; [done|]. unfold entry_exists in *. cbn in *. by rewrite E.
      * apply elem_of_app. by right.
      * by apply well_named_not_body in E.
Qed.
End walk.

(** ** The actions *)

Section actions.
Context {AS : AprStrings} {AT : AprTables} {AM : AprMd5} {HT : Httpd} {AF : AprFiles} {S : Type}.

(** The entries [sel] were counted, and removed when [del] is set. *)
Record outcome (r : request) (pat : option cstr) (del : bool) (root : cstr) (d d' : disk) (hlt : Prop)
    (sel : list cstr) : Prop := {
  oc_nodup : NoDup sel;
  oc_sound h : h ∈ sel -> picked r pat d h /\ visible root h;
  oc_pruned : pruned del sel d d';
  oc_streams : d_streams d' = d_streams d;
  oc_swept : hlt -> swept del sel d';
  oc_complete : hlt -> forall h, in_tree d root h -> well_named h -> picked r pat d h -> h ∈ sel;
}.

(** What an action on the entries of a host that the glob covers comes to: the
    entries [sel] are among those, and, when they are to be removed, only their
    files may be gone; when nothing fails, [sel] are all of them, but that a
    star in the host or the URL can hide one from a glob, and their files are
    gone. *)
Record settled (r : request) (pat : option cstr) (del : bool) (root : cstr) (d d' : disk) (hlt : Prop)
    (sel : list cstr) : Prop := {
  sd_nodup : NoDup sel;
  sd_sound h : h ∈ sel -> visible root h /\ exists meta, holds d h meta /\ same_host r meta /\ covered pat meta;
  sd_pruned : pruned del sel d d';
  sd_streams : d_streams d' = d_streams d;
  sd_swept : hlt -> swept del sel d';
  sd_complete h meta : hlt -> in_tree d root h -> well_named h -> holds d h meta ->
    same_host r meta -> covered pat meta -> starless pat meta -> h ∈ sel;
}.

Lemma outcome_settled r pat del root d d' hlt sel :
  outcome r pat del root d d' hlt sel -> settled r pat del root d d' hlt sel.
Proof.
  intros []. split; try done.
  - intros h Hh. destruct (oc_sound0 h Hh) as [(text & meta & headers & Ht & Hp & Hs) Hv]. split; [done|].
    exists meta. split; [by exists text, headers|]. by apply selects_sound.
  - intros h meta H Htree Hwn (text & headers & Ht & Hp) Hhost Hcov Hstar. apply (oc_complete0 H); [done..|].
    exists text, meta, headers. split_and!; [done..|]. by apply selects_complete.
Qed.

Lemma row_of_weaken d (P P' : Prop) t h row : (P' -> P) -> row_of d P t h row -> row_of d P' t h row.
Proof.
  intros HP (meta & size & now & Hh & [H1 H2] & Hn & ->). exists meta, size, now. split_and!; [done| |lia..|done].
  split; [done|]. intros H. by apply H2, HP.
Qed.

Lemma body_bytes_weaken d (P P' : Prop) h n : (P' -> P) -> body_bytes d P h n -> body_bytes d P' h n.
Proof. intros HP [H1 H2]. split; [done|]. intros H. by apply H2, HP. Qed.

(** Fuel for a tree: more than the directories, for the depth, and more than
    any directory has entries, for the width. *)
Definition walk_fuel (d : disk) : nat := Datatypes.S (tree_size d).

Lemma wpp_walk {B} r pat del pr root bound depth width out (k : admin_ctx -> prog S B)
    (Q : B -> world -> S -> Prop) w s :
  walk_ok pr (view w) bound -> root ∈ d_dirs (view w) ->
  walk_fuel (view w) <= depth -> walk_fuel (view w) <= width ->
  (forall sel ctx' w', outcome r pat del root (view w) (view w') (healthy w) sel ->
     ac_matched ctx' = Z.of_nat (length sel) ->
     rows_out del pr (view w) (healthy w) out (d_now (view w')) sel (ac_out ctx') ->
     (exists sizes, Forall2 (body_bytes (view w) (exact del (healthy w))) sel sizes /\ ac_bytes ctx' = zsum sizes) ->
     (healthy w -> healthy w') -> wpp (k ctx') Q w' s) ->
  wpp (walk_cache depth width (AdminCtx r pat 0 0 del pr out) root ≫= k) Q w s.
Proof.
  intros Hok Hroot Hd Hw Hk. unfold walk_fuel in *. apply wpp_bind.
  eapply wpp_mono; [apply (walk_cache_wpp r pat del pr (view w) bound Hok (healthy w) out depth width root)
    with (sel := [])|].
  - done.
  - eapply Nat.le_lt_trans; [apply subseteq_size; intros q Hq; by apply elem_of_filter in Hq as [_ Hq]|].
    unfold tree_size in Hd. lia.
  - lia.
  - split; [done| |constructor|constructor|done|cbn; lia|by exists []|apply pruned_refl|].
    { unfold rows_out. destruct pr; [|done]. exists []. split; [constructor|]. cbn. by rewrite app_nil_r. }
    intros H. split; [done|]. by intros _ h ?%elem_of_nil.
  - by intros h ?%elem_of_nil.
  - intros ctx' w' s' (-> & Hs & new & Hp & Hv & Hc). rewrite app_nil_r in *. apply (Hk new); [|apply Hp|apply Hp|apply Hp|intros H; by apply Hp].
    destruct Hp. split; try done.
    + intros h Hh. rewrite Forall_forall in pg_picked0, Hv. auto.
    + intros H. by apply pg_healthy0.
Qed.

(** "<what>: removed <n> entries" *)
Definition removed_text (what : cstr) (n : nat) : cstr :=
  what ++ str ": removed " ++ dec (Z.of_nat n) ++ str " entr" ++
  (if decide (n = 1) then str "y" else str "ies") ++ [LF].

Lemma render_plural n : render (plural (Z.of_nat n)) = if decide (n = 1) then str "y" else str "ies".
Proof. unfold plural. cbn [render]. destruct (decide (n = 1)), (Z.eqb_spec (Z.of_nat n) 1); done || lia. Qed.

Lemma wpp_exec {A} (p : prog S A) (P : A -> world -> Prop) w s :
  wpp p (fun a w' s' => s' = s /\ P a w') w s -> exists a w', exec p w s = Some (a, w', s) /\ P a w'.
Proof. intros H. destruct (wpp_run _ _ _ _ H) as (a & w' & s' & E & -> & HP). eauto. Qed.

Lemma wpp_full_reset r root bound depth width w (s : S) :
  walk_ok false (view w) bound -> root ∈ d_dirs (view w) ->
  walk_fuel (view w) <= depth -> walk_fuel (view w) <= width ->
  wpp (cacher_admin_handle depth width r (Some root) (Some (str "/full-reset"))) (fun res w' s' => s' = s /\
    exists sel, res = (set_ctype r (Some text_plain), removed_text (str "full-reset") (length sel), OK) /\
      outcome r None true root (view w) (view w') (healthy w) sel /\ (healthy w -> healthy w')) w s.
Proof.
  intros Hok Hroot Hd Hw.
  change (cacher_admin_handle depth width r (Some root) (Some (str "/full-reset")))
    with (@admin_full_reset _ _ _ S depth width r root). unfold admin_full_reset.
  apply (wpp_walk r None true false root bound); [done..|]. intros sel ctx' w' Ho Hm Hout _ Hh.
  unfold rows_out in Hout. apply wpp_ret. split; [done|]. exists sel. split; [|done]. cbn [ap_rprintf ac_out].
  rewrite Hout, Hm, ap_set_content_type_spec, apr_psprintf_spec by done. cbn [fmap list_fmap concat].
  rewrite render_plural. done.
Qed.

(** C19: a full reset of a tree with enough fuel ends, whatever calls fail. It
    reports how many entries it removed; the host each of them stores is the
    requesting host, up to case, and each was in the tree; no other file and no
    directory is touched and nothing is left open.  On a healthy file system all
    entries of the tree that store this host are gone, header and body. *)
Theorem full_reset_removes_host r root bound depth width w (s : S) :
  walk_ok false (view w) bound -> root ∈ d_dirs (view w) ->
  walk_fuel (view w) <= depth -> walk_fuel (view w) <= width ->
  exists res w', exec (cacher_admin_handle depth width r (Some root) (Some (str "/full-reset"))) w s =
      Some (res, w', s) /\
    exists sel, res = (set_ctype r (Some text_plain), removed_text (str "full-reset") (length sel), OK) /\
      settled r None true root (view w) (view w') (healthy w) sel.
Proof.
  intros Hok Hroot Hd Hw. apply wpp_exec. eapply wpp_mono; [by apply (wpp_full_reset r root bound)|].
  intros res w' s' (-> & sel & -> & Ho & _). split; [done|]. exists sel. split; [done|]. by apply outcome_settled.
Qed.

Lemma handle_purge depth width r root pattern :
  cacher_admin_handle (S := S) depth width r (Some root) (Some (str "/purge" ++ pattern)) =
  admin_purge depth width r root pattern.
Proof.
  unfold cacher_admin_handle, strcmp_eq.
  rewrite !(bool_decide_false _) by (intros E; discriminate E). cbn [orb].
  by rewrite (strncmp_eq_app (str "/purge")), (drop_prefix (str "/purge")).
Qed.

Lemma wpp_purge r root pattern bound depth width w (s : S) :
  pattern <> [] -> pattern <> str "/" ->
  walk_ok false (view w) bound -> root ∈ d_dirs (view w) ->
  walk_fuel (view w) <= depth -> walk_fuel (view w) <= width ->
  wpp (cacher_admin_handle depth width r (Some root) (Some (str "/purge" ++ pattern))) (fun res w' s' => s' = s /\
    exists sel, res = (set_ctype r (Some text_plain), removed_text (str "purge " ++ pattern) (length sel),
                       if decide (sel = []) then HTTP_NOT_FOUND else OK) /\
      outcome r (Some pattern) true root (view w) (view w') (healthy w) sel /\ (healthy w -> healthy w')) w s.
Proof.
  intros Hne Hns Hok Hroot Hd Hw. rewrite handle_purge. unfold admin_purge, strcmp_eq.
  rewrite !bool_decide_false by done. cbn [orb].
  apply (wpp_walk r (Some pattern) true false root bound); [done..|]. intros sel ctx' w' Ho Hm Hout _ Hh.
  unfold rows_out in Hout. apply wpp_ret. split; [done|]. exists sel. split; [|done]. cbn [ap_rprintf ac_out ac_matched].
  rewrite Hout, Hm, ap_set_content_type_spec, apr_psprintf_spec. cbn [fmap list_fmap concat].
  rewrite render_plural. f_equal.
  destruct sel; [done|]. cbn [length]. rewrite decide_False by done.
  by rewrite (proj2 (Z.eqb_neq _ _)) by lia.
Qed.

(** C15: a purge removes only entries that store the requesting host, up to
    case, and whose URL, or host and URL, is in the language of the glob; it
    counts them in its answer, and answers 404 when there is none; nothing else
    is touched.  On a healthy file system no such entry is left in the tree, but
    that one whose host or URL has a star in it may be missed. *)
Theorem purge_removes_matching r root pattern bound depth width w (s : S) :
  pattern <> [] -> pattern <> str "/" ->
  walk_ok false (view w) bound -> root ∈ d_dirs (view w) ->
  walk_fuel (view w) <= depth -> walk_fuel (view w) <= width ->
  exists res w', exec (cacher_admin_handle depth width r (Some root) (Some (str "/purge" ++ pattern))) w s =
      Some (res, w', s) /\
    exists sel, res = (set_ctype r (Some text_plain), removed_text (str "purge " ++ pattern) (length sel),
                       if decide (sel = []) then HTTP_NOT_FOUND else OK) /\
      settled r (Some pattern) true root (view w) (view w') (healthy w) sel.
Proof.
  intros Hne Hns Hok Hroot Hd Hw. apply wpp_exec. eapply wpp_mono; [by apply (wpp_purge r root pattern bound)|].
  intros res w' s' (-> & sel & -> & Ho & _). split; [done|]. exists sel. split; [done|]. by apply outcome_settled.
Qed.

(** The answer to /list. *)
Definition list_text (n : nat) (rows : list cstr) (total : Z) : cstr :=
  str "METHOD  ST       SIZE   EXPIRES  URL" ++ [LF] ++ concat rows ++ [LF] ++
  dec (Z.of_nat n) ++ str " entr" ++ (if decide (n = 1) then str "y" else str "ies") ++ str ", " ++ dec total ++
  str " bytes" ++ [LF].

Lemma wpp_list r root bound depth width w (s : S) :
  walk_ok true (view w) bound -> root ∈ d_dirs (view w) ->
  walk_fuel (view w) <= depth -> walk_fuel (view w) <= width ->
  wpp (cacher_admin_handle depth width r (Some root) (Some (str "/list"))) (fun res w' s' => s' = s /\
    same_store (view w) (view w') /\ d_fds (view w') = d_fds (view w) /\ (healthy w -> healthy w') /\
    exists sel rows sizes,
      res = (set_ctype r (Some text_plain), list_text (length sel) rows (zsum sizes), OK) /\
      Forall2 (row_of (view w) (healthy w) (d_now (view w'))) sel (rev rows) /\
      Forall2 (body_bytes (view w) (healthy w)) sel sizes /\
      outcome (set_ctype r (Some text_plain)) None false root (view w) (view w') (healthy w) sel) w s.
Proof.
  intros Hok Hroot Hd Hw.
  change (cacher_admin_handle depth width r (Some root) (Some (str "/list")))
    with (@admin_list _ _ _ S depth width r root). unfold admin_list. rewrite ap_set_content_type_spec.
  eapply (wpp_walk _ None false true root bound); [done..|].
  intros sel ctx' w' Ho Hm (rows & Hrows & Hout) (sizes & Hsizes & Hbytes) Hh.
  apply wpp_ret. split; [done|]. destruct Ho as [Ho1 Ho2 Ho3 Ho4 Ho5 Ho6]. pose proof Ho3 as [].
  assert (d_names (view w') = d_names (view w)) as En.
  { apply map_eq. intros q. by destruct (pn_names0 q) as [|[? _]]. }
  split; [done|]. split; [done|]. split; [done|]. exists sel, (rev rows), sizes.
  rewrite rev_involutive. split.
  - cbn [ap_rprintf ac_out]. rewrite Hout, Hm, Hbytes, !apr_psprintf_spec.
    cbn [fmap list_fmap concat]. rewrite render_plural. reflexivity.
  - split_and!; [| |done].
    + eapply Forall2_impl; [exact Hrows|]. intros h row. by apply row_of_weaken.
    + eapply Forall2_impl; [exact Hsizes|]. intros h n. by apply body_bytes_weaken.
Qed.

(** C31: the listing shows one line for each entry of the requesting host it
    found, all of them when nothing fails: the entry's own method, status, host
    and URL, the size of its body, and the seconds until it expires, counted
    from a moment of the listing, or STALE when it has expired; then their
    number and the sum of the sizes.  A size is 0 when the body cannot be asked
    for it.  The listing changes no file and leaves nothing open. *)
Theorem list_shows_host r root bound depth width w (s : S) :
  walk_ok true (view w) bound -> root ∈ d_dirs (view w) ->
  walk_fuel (view w) <= depth -> walk_fuel (view w) <= width ->
  exists res w', exec (cacher_admin_handle depth width r (Some root) (Some (str "/list"))) w s =
      Some (res, w', s) /\
    same_store (view w) (view w') /\ d_fds (view w') = d_fds (view w) /\
    exists sel rows sizes,
      res = (set_ctype r (Some text_plain), list_text (length sel) rows (zsum sizes), OK) /\
      Forall2 (row_of (view w) (healthy w) (d_now (view w'))) sel (rev rows) /\
      Forall2 (body_bytes (view w) (healthy w)) sel sizes /\
      settled r None false root (view w) (view w') (healthy w) sel.
Proof.
  intros Hok Hroot Hd Hw. apply wpp_exec. eapply wpp_mono; [by apply (wpp_list r root bound)|].
  intros res w' s' (-> & Hs & Hf & _ & sel & rows & sizes & -> & Hrows & Hsizes & Ho). split; [done|].
  split; [done|]. split; [done|]. exists sel, rows, sizes. split_and!; [done..|].
  apply outcome_settled in Ho as []. by split.
Qed.

(** ** Entries of other hosts *)

Lemma strstr_skip (l s n : cstr) c : c ∉ l -> strstr (l ++ s) (c :: n) = strstr s (c :: n).
Proof.
  induction l as [|d l IH]; [done|]. intros [Hd Hl]%not_elem_of_cons. cbn [app strstr length].
  unfold strncmp_eq at 1. rewrite bool_decide_false by (cbn; congruence). by apply IH.
Qed.

Lemma strstr_length (s n : cstr) :
  is_Some (strstr s n) -> length n <= length s /\ (length s = length n -> s = n).
Proof.
  induction s as [|c s IH]; cbn [strstr]; destruct (strncmp_eq _ n (length n)) eqn:E.
  - apply bool_decide_eq_true in E. rewrite take_nil, firstn_all in E. by subst.
  - intros [? [=]].
  - intros _. apply strncmp_eq_prefix in E as [t E]; [|done]. rewrite E, length_app. split; [lia|].
    intros Hl. destruct t; [by rewrite app_nil_r|cbn in Hl; lia].
  - intros H. apply IH in H as [H _]. cbn. split; [lia|]. intros Hl. exfalso. lia.
Qed.

Lemma hex_no_dot l : Forall is_hex l -> "."%char ∉ l.
Proof.
  intros H Hin. rewrite Forall_forall in H. apply H in Hin. revert Hin. unfold is_hex.
  apply (bool_decide_unpack _). vm_compute. exact I.
Qed.

(** The last component of a path. *)
Lemma child_name_inj d1 n1 d2 n2 :
  SLASH ∉ n1 -> SLASH ∉ n2 -> child d1 n1 = child d2 n2 -> n1 = n2.
Proof.
  intros H1 H2 E. apply (f_equal (@rev _)) in E. unfold child in E. cbn in E.
  rewrite !rev_app_distr in E. cbn in E. rewrite <- !app_assoc in E. cbn in E.
  apply slash_head_inj in E; [by apply (f_equal (@rev _)) in E; rewrite !rev_involutive in E|..].
  - intros H. apply H1. apply list_elem_of_In. rewrite <- in_rev in H || apply in_rev; by apply list_elem_of_In.
  - intros H. apply H2. apply list_elem_of_In. rewrite <- in_rev in H || apply in_rev; by apply list_elem_of_In.
Qed.

(** Of the files the walk may remove, only its own header can be the body or the
    header of an entry with a hexadecimal name. *)
Lemma entry_files_only dir hex h' p :
  Forall is_hex hex -> header_file h' ->
  p = child dir (hex ++ header_suffix) \/ p = child dir (hex ++ body_suffix) ->
  p = h' \/ p = body_of h' -> h' = child dir (hex ++ header_suffix).
Proof.
  intros Hhex (d & name & -> & Hn & Hh) Hp He.
  assert (forall t, is_Some (strstr (hex ++ t) header_suffix) -> is_Some (strstr t header_suffix))
    as Hskip by (intros t; change header_suffix with ("."%char :: str "header") in *;
      rewrite strstr_skip by (by apply hex_no_dot); done).
  apply andb_true_iff in Hh as [Hh%bool_decide_eq_true _].
  assert (SLASH ∉ hex ++ header_suffix /\ SLASH ∉ hex ++ body_suffix) as [Hs1 Hs2].
  { split; apply not_elem_of_app; (split; [by apply hex_no_slash|]);
      apply (bool_decide_unpack _); vm_compute; exact I. }
  destruct Hp as [->| ->], He as [E|E].
  - done.
  - exfalso. eapply (well_named_not_body (child dir (hex ++ header_suffix))); [|exact E].
    exists (child dir hex). unfold child. by rewrite <- !app_assoc.
  - apply child_name_inj in E; [|done..]. subst name. apply Hskip in Hh.
    apply strstr_length in Hh as [Hl _]. cbn in Hl. lia.
  - rewrite body_of_spec in E. unfold child in E at 1. rewrite !app_assoc in E.
    apply app_inv_tail in E. destruct (strstr_length _ _ Hh) as [Hl _]. cbn in Hl.
    assert (length (child d name) - 7 = length (d ++ [SLASH]) + (length name - 7)) as El.
    { unfold child. rewrite !length_app. cbn. lia. }
    assert (child d name = child dir (hex ++ drop (length name - 7) name)) as Eh.
    { rewrite <- (take_drop (length (child d name) - 7) (child d name)). rewrite <- E at 1. rewrite El.
      unfold child at 1. rewrite (app_assoc d), drop_app_add. unfold child. by rewrite <- !app_assoc. }
    rewrite Eh. do 2 f_equal. apply child_name_inj in Eh; [|done|].
    + rewrite Eh in Hh. apply Hskip, strstr_length in Hh as [_ Hh]. apply Hh. rewrite length_drop. cbn. lia.
    + apply not_elem_of_app. split; [by apply hex_no_slash|]. intros Hin. apply Hn.
      rewrite <- (take_drop (length name - 7) name). apply elem_of_app. by right.
Qed.

Lemma walk_ok_false pr d bound : walk_ok pr d bound -> walk_ok false d bound.
Proof. intros []. by split. Qed.

(** What any action may do to the files. *)
Definition only_selected (r : request) (root : cstr) (w w' : world) : Prop :=
  d_streams (view w') = d_streams (view w) /\
  exists del pat sel, pruned del sel (view w) (view w') /\
    forall h, h ∈ sel -> picked r pat (view w) h /\ visible root h.

Lemma only_selected_refl r root w : only_selected r root w w.
Proof. split; [done|]. exists false, None, []. split; [apply pruned_refl|]. by intros h ?%elem_of_nil. Qed.

Lemma handle_wpp depth width r root action bound w (s : S) :
  walk_ok true (view w) bound -> root ∈ d_dirs (view w) ->
  walk_fuel (view w) <= depth -> walk_fuel (view w) <= width ->
  wpp (cacher_admin_handle depth width r (Some root) action)
    (fun _ w' s' => s' = s /\ only_selected r root w w') w s.
Proof.
  intros Hok Hroot Hd Hw.
  assert (forall A (a : A), wpp (S := S) (mret a) (fun _ w' s' => s' = s /\ only_selected r root w w') w s)
    as Hret by (intros A a; apply wpp_ret; split; [done|apply only_selected_refl]).
  assert (forall r' A pat del pr out (k : _ -> A), r_hostname r' = r_hostname r -> wpp (S := S)
    (ctx ← walk_cache depth width (AdminCtx r' pat 0 0 del pr out) root; mret (k ctx))
    (fun _ w' s' => s' = s /\ only_selected r root w w') w s) as Hwalk.
  { intros r' A pat del pr out k Er. apply (wpp_walk r' pat del pr root bound); [|done..|].
    - destruct pr; [done|by eapply walk_ok_false].
    - intros sel ctx' w' Ho _ _ _ _. apply wpp_ret. destruct Ho as [_ Hs Hp Hst _ _]. split; [done|]. split; [done|].
      exists del, pat, sel. split; [done|]. intros h Hh. destruct (Hs h Hh) as [Hpk Hv]. split; [|done].
      revert Hpk. unfold picked, selects. by rewrite Er. }
  unfold cacher_admin_handle. destruct action as [action|]; [|apply Hret].
  destruct (_ || _); [apply Hret|]. destruct (strcmp_eq action _); [|destruct (strcmp_eq action _);
    [by apply Hwalk|destruct (strncmp_eq action _ _); [|apply Hret]]].
  - apply Hwalk. by rewrite ap_set_content_type_spec.
  - unfold admin_purge. destruct (_ || _); [apply Hret|]. by apply Hwalk.
Qed.

(** C14: no action that a site's administration performs touches an entry of
    another host: whatever the action and whatever calls fail, the header and
    the body of an entry stored for a host other than the requesting one keep
    their names and their bytes. *)
Theorem admin_isolates_hosts r root action r2 rule2 h b text meta headers bound depth width w (s : S) :
  walk_ok true (view w) bound -> root ∈ d_dirs (view w) ->
  walk_fuel (view w) <= depth -> walk_fuel (view w) <= width ->
  cache_key_paths r2 (Some root) rule2 = Some (h, b) ->
  file_at (view w) h = Some text -> parse_header_file (c_str text) = Some (meta, headers) ->
  ~ ci_eq (em_host meta) (default [] (r_hostname r)) ->
  exists res w', exec (cacher_admin_handle depth width r (Some root) action) w s = Some (res, w', s) /\
    keep h (view w) (view w') /\ keep b (view w) (view w').
Proof.
  intros Hok Hroot Hd Hw Hkey Htext Hparse Hhost. apply wpp_exec.
  eapply wpp_mono; [by eapply handle_wpp|]. intros res w' s' (-> & _ & del & pat & sel & Hp & Hsel). split; [done|].
  rewrite cache_key_paths_shard in Hkey. injection Hkey as Eh Eb.
  destruct (entry_hex_spec r2 rule2) as [Hhex _].
  assert (forall p, p = h \/ p = b -> keep p (view w) (view w')) as H; [|by split; apply H; [left|right]].
  intros p Hpp. split; [|by rewrite (pn_data _ _ _ _ Hp)].
  destruct (pn_names _ _ _ _ Hp p) as [E|(_ & _ & h' & Hin & He)]; [done|]. exfalso.
  destruct (Hsel h' Hin) as [(text' & meta' & headers' & Ht' & Hp' & Hs') [_ Hf]].
  assert (h' = h) as ->.
  { rewrite <- Eh. eapply entry_files_only; [done|done| |exact He].
    by destruct Hpp as [->| ->]; [left|right]. }
  rewrite Htext in Ht'. injection Ht' as <-. rewrite Hparse in Hp'. injection Hp' as <- _.
  apply Hhost. unfold selects in Hs'. apply andb_true_iff in Hs' as [Hs' _]. by apply cacher_streq_ci_spec.
Qed.
End actions.

(** ** A tree with the pages of two sites *)

Definition text_ok (bound : Z) (text : list ascii) : Prop :=
  (Z.of_nat (length text) <= bound)%Z /\
  match parse_header_file (c_str text) with
  | Some (meta, _) => (0 <= em_expires meta <= LONG_MAX)%Z
  | None => True
  end.

#[export] Instance text_ok_dec bound text : Decision (text_ok bound text).
Proof. unfold text_ok. destruct (parse_header_file _) as [[? ?]|]; apply _. Defined.

Lemma walk_ok_intro pr d bound :
  (Z.of_nat (size (d_names d)) <= INT_MAX)%Z -> (0 <= bound)%Z ->
  (Z.of_nat (size (d_names d)) * bound <= LONG_MAX)%Z -> in_time (d_now d) ->
  Forall (fun e => text_ok bound (snd e)) (map_to_list (d_data d)) -> walk_ok pr d bound.
Proof.
  intros H1 H2 H3 H4 Hall.
  assert (forall p data, file_at d p = Some data -> text_ok bound data) as Hf.
  { intros p data E. unfold file_at in E. destruct (d_names d !! p) as [i|]; [|done]. cbn in E.
    apply elem_of_map_to_list in E. rewrite Forall_forall in Hall. apply (Hall (i, data) E). }
  split; try done.
  - intros p data E. apply (Hf p data E).
  - intros p text meta headers _ E Hp. destruct (Hf p text E) as [_ H]. by rewrite Hp in H.
Qed.

(** A request of an administrator of [host]. *)
Definition admin_request (host uri : string) : request :=
  Request false None (str uri) (Some (str uri)) None (str "GET") false
    (Some (str host)) (Some (str "admin")) 200 None [] [] false (Some sample_dir_conf)
    (Some (SvrConf sample_root)).

Definition other_page : request := admin_request "other.example" "/blog/".

Definition other_header_path : cstr :=
  default [] (fst <$> cache_key_paths other_page sample_root sample_vary_rule).
Definition other_body_path : cstr :=
  default [] (snd <$> cache_key_paths other_page sample_root sample_vary_rule).

Definition shard_dirs (r : request) : list cstr :=
  let hex := entry_hex r sample_vary_rule in
  [child (str "/var/cache") (take 2 hex); shard_of (str "/var/cache") hex].

Definition other_text : cstr :=
  header_file_text 1000 1060 200 (str "GET") (Some (str "other.example")) (str "/blog/") None [].

Definition sample_tree : @world ref_files :=
  Disk {[sample_header_path := 1; sample_body_path := 2; other_header_path := 3; other_body_path := 4]}
    {[1 := header_file_text 1000 1060 200 (str "GET") (Some (str "site.example")) (str "/blog/") None
             sample_stored_headers;
      2 := str "hello"; 3 := other_text; 4 := str "bye"]}
    {[1 := 1000%Z; 2 := 1000%Z; 3 := 1000%Z; 4 := 1000%Z]}
    (list_to_set (str "/var/cache" :: shard_dirs sample_gzip_request ++ shard_dirs other_page)) ∅ ∅ 1010.

Lemma sample_tree_ok pr : walk_ok pr sample_tree 1000.
Proof.
  apply walk_ok_intro; [by vm_compute|done|by vm_compute|by vm_compute|].
  apply (bool_decide_unpack _). vm_compute. exact I.
Defined.

Lemma sample_tree_root : str "/var/cache" ∈ d_dirs sample_tree.
Proof. apply (bool_decide_unpack _). vm_compute. exact I. Defined.

Definition sample_fuel : nat := walk_fuel sample_tree.

(** The site resets its cache: one entry, and the other site's stays. *)
Example sample_reset :
  match exec (cacher_admin_handle sample_fuel sample_fuel (admin_request "site.example" "/admin/full-reset")
                sample_root (Some (str "/full-reset"))) sample_tree tt with
  | Some ((_, out, status), w', _) =>
      Some (bool_decide (out = str "full-reset: removed 1 entry" ++ [LF]), status,
            bool_decide (d_names w' = {[other_header_path := 3; other_body_path := 4]}))
  | None => None
  end = Some (true, OK, true).
Proof. vm_compute. reflexivity. Qed.

Lemma full_reset_removes_host_witness :
  exists res w', exec (cacher_admin_handle sample_fuel sample_fuel (admin_request "site.example" "/admin")
                         (Some (str "/var/cache")) (Some (str "/full-reset"))) sample_tree tt =
      Some (res, w', tt) /\
    exists sel, res = (set_ctype (admin_request "site.example" "/admin") (Some text_plain),
                       removed_text (str "full-reset") (length sel), OK) /\
      settled (admin_request "site.example" "/admin") None true (str "/var/cache") (view sample_tree)
        (view w') (healthy sample_tree) sel.
Proof.
  apply (full_reset_removes_host (AF := ref_files) _ (str "/var/cache") 1000);
    [apply sample_tree_ok|apply sample_tree_root|reflexivity|reflexivity].
Defined.

Lemma purge_removes_matching_witness :
  exists res w', exec (cacher_admin_handle sample_fuel sample_fuel (admin_request "site.example" "/admin")
                         (Some (str "/var/cache")) (Some (str "/purge" ++ str "/blog/*"))) sample_tree tt =
      Some (res, w', tt) /\
    exists sel, res = (set_ctype (admin_request "site.example" "/admin") (Some text_plain),
                       removed_text (str "purge " ++ str "/blog/*") (length sel),
                       if decide (sel = []) then HTTP_NOT_FOUND else OK) /\
      settled (admin_request "site.example" "/admin") (Some (str "/blog/*")) true (str "/var/cache")
        (view sample_tree) (view w') (healthy sample_tree) sel.
Proof.
  apply (purge_removes_matching (AF := ref_files) _ (str "/var/cache") (str "/blog/*") 1000);
    [discriminate|discriminate|apply sample_tree_ok|apply sample_tree_root|reflexivity|reflexivity].
Defined.

Lemma list_shows_host_witness :
  exists res w', exec (cacher_admin_handle sample_fuel sample_fuel (admin_request "site.example" "/admin")
                         (Some (str "/var/cache")) (Some (str "/list"))) sample_tree tt = Some (res, w', tt) /\
    same_store (view sample_tree) (view w') /\ d_fds (view w') = d_fds (view sample_tree) /\
    exists sel rows sizes,
      res = (set_ctype (admin_request "site.example" "/admin") (Some text_plain),
             list_text (length sel) rows (zsum sizes), OK) /\
      Forall2 (row_of (view sample_tree) (healthy sample_tree) (d_now (view w'))) sel (rev rows) /\
      Forall2 (body_bytes (view sample_tree) (healthy sample_tree)) sel sizes /\
      settled (admin_request "site.example" "/admin") None false
        (str "/var/cache") (view sample_tree) (view w') (healthy sample_tree) sel.
Proof.
  apply (list_shows_host (AF := ref_files) _ (str "/var/cache") 1000);
    [apply sample_tree_ok|apply sample_tree_root|reflexivity|reflexivity].
Defined.

(** The listing of the site: its page, not the other site's. *)
Example sample_listing :
  match exec (cacher_admin_handle sample_fuel sample_fuel (admin_request "site.example" "/admin/list")
                sample_root (Some (str "/list"))) sample_tree tt with
  | Some ((_, out, status), w', _) =>
      bool_decide (out = list_text 1
        [list_row (EntryMeta 1000 1060 200 (str "GET") (str "site.example") (str "/blog/")) 5 50] 5)
  | None => false
  end = true.
Proof. vm_compute. reflexivity. Qed.

Lemma admin_isolates_hosts_witness :
  exists res w', exec (cacher_admin_handle sample_fuel sample_fuel (admin_request "site.example" "/admin")
                         (Some (str "/var/cache")) (Some (str "/full-reset"))) sample_tree tt =
      Some (res, w', tt) /\
    keep other_header_path (view sample_tree) (view w') /\ keep other_body_path (view sample_tree) (view w').
Proof.
  apply (admin_isolates_hosts (AF := ref_files) _ (str "/var/cache") _ other_page sample_vary_rule
    other_header_path other_body_path other_text
    (EntryMeta 1000 1060 200 (str "GET") (str "other.example") (str "/blog/")) [] 1000);
    [apply sample_tree_ok|apply sample_tree_root|reflexivity|reflexivity|vm_compute; reflexivity..|].
  apply (bool_decide_unpack _). vm_compute. exact I.
Defined.
