(* ===== verification/Handler.v ===== *)
(** * Request handling (mod_cacher.c)

    [cacher_handler] composes the other parts: the administration gate, the
    rule set in force, the rules, the lookup and the capture filter.  Its
    effects beside files and process memory are values: the status, the
    response so far, what was sent, the filter it installed, and the rule sets
    the pool of the request will free. *)

From S2P Require Import Prelude CNum CJson CHeap Glob Rules RulesParse RulesMatch Apr AprFile AprRef Util.
From S2P Require Import Config Meta Cache Publish Lookup Admin Purge.
From Stdlib Require Import Lia.
Local Open Scope cstr_scope.

(** ** Definitions *)

Inductive sent :=
  | SentText (text : cstr)                (* an administration page *)
  | SentFile (fd : nat) (length : Z).     (* the body of an entry, and EOS *)

Section handler.
Context {AS : AprStrings} {AT : AprTables} {AM : AprMd5} {HT : Httpd} {AP : AprPaths}.

Record handled := Handled {
  hd_status : Z;
  hd_request : request;
  hd_sent : option sent;
  hd_filter : option cacher_out_ctx;
  hd_cleanups : list cacher_ruleset;
}.

Definition set_status (r : request) (dconf : cacher_dir_conf) (status : string) : request :=
  if negb (dc_status_header dconf =? 0)%Z
  then set_headers_out r (apr_table_setn (r_headers_out r) CACHER_STATUS_HEADER (str status))
  else r.

(** The handler returns without having done anything. *)
Definition pass (status : Z) (r : request) : handled := Handled status r None None [].

(** [uri] is the administration path or below it. *)
Definition at_admin_path (uri admin_path : cstr) : bool :=
  strncmp_eq uri admin_path (length admin_path)
  && match drop (length admin_path) uri with
     | [] => true
     | c :: _ => c =? SLASH
     end.

Definition cache_root_of (r : request) : option cstr := r_svr_conf r ≫= sc_cache_root.

(** The request was redirected internally: [top != r]. *)
Definition redirected (r : request) : bool := bool_decide (is_Some (r_prev r)).

(** The checks of the administration path; [None] when they do not end the
    request. *)
Definition admin_gate (depth width : nat) (r : request) (dconf : cacher_dir_conf)
    : option (prog pstate handled) :=
  match dc_admin_path dconf with
  | None => None
  | Some admin_path =>
      if at_admin_path (r_uri r) admin_path then
        if negb (dc_admin_require_user dconf =? 0)%Z && negb (bool_decide (is_Some (r_user r)))
        then Some (mret (pass HTTP_FORBIDDEN r))
        else Some (
          '(r, out, status) ← cacher_admin_handle depth width r (cache_root_of r)
                                (Some (drop (length admin_path) (r_uri r)));
          mret (Handled status r (Some (SentText out)) None []))
      else if redirected r && at_admin_path (r_uri (cacher_original_request r)) admin_path
      then Some (mret (pass DECLINED r))
      else None
  end.

(** The response for a hit. *)
Definition hit_response (r : request) (dconf : cacher_dir_conf) (hit : cache_hit) : request :=
  let r := set_status_code r (ch_status hit) in
  let r := ap_set_content_length r (ch_length hit) in
  let r := set_status r dconf "HIT" in
  if (0 <=? ch_age hit)%Z
  then set_headers_out r (apr_table_setn (r_headers_out r) (str "Age") (apr_psprintf [FInt (ch_age hit)]))
  else r.

(** A cacheable request: from the cache, or past the capture filter. *)
Definition serve_or_capture (r : request) (dconf : cacher_dir_conf) (rule : cacher_rule)
    (cleanups : list cacher_ruleset) : prog pstate handled :=
  '(r, body) ← cacher_cache_lookup r (cache_root_of r) rule;
  match body with
  | Some hit =>
      mret (Handled OK (hit_response r dconf hit) (Some (SentFile (ch_file hit) (ch_length hit))) None cleanups)
  | None =>
      let r := set_status r dconf "MISS" in
      mret (Handled DECLINED r None (cacher_cache_insert_filter r (cache_root_of r) rule) cleanups)
  end.

(** What the rules are matched against. *)
Definition match_path (r : request) : cstr :=
  let orig := cacher_original_request r in default (r_uri orig) (r_path orig).

Definition apply_rules (r : request) (dconf : cacher_dir_conf) (rs : cacher_ruleset)
    (cleanups : list cacher_ruleset) : prog pstate handled :=
  match cacher_ruleset_match (Some rs) (Some (match_path r)) (r_args (cacher_original_request r))
          (Some (r_method r)) with
  | None => mret (Handled DECLINED (set_status r dconf "DYNAMIC") None None cleanups)
  | Some rule =>
      if (enabled rule =? 0)%Z
      then mret (Handled DECLINED (set_status r dconf "EXCLUDED") None None cleanups)
      else if cacher_request_bypasses r (Some rule)
      then mret (Handled DECLINED (set_status r dconf "BYPASS") None None cleanups)
      else serve_or_capture r dconf rule cleanups
  end.

Definition cacher_handler (depth width : nat) (r : request) : prog pstate handled :=
  if r_main r then mret (pass DECLINED r)
  else
    let dconf := r_dir_conf r in
    match dconf ≫= admin_gate depth width r with
    | Some p => p
    | None =>
        match dconf with
        | None => mret (pass DECLINED r)
        | Some dconf =>
            if negb (dc_enabled dconf =? 1)%Z then mret (pass DECLINED r)
            else
              '(rs, cleanups) ← cacher_config_get_ruleset (Some dconf);
              match rs with
              | None => mret (Handled DECLINED r None None cleanups)
              | Some rs => apply_rules r dconf rs cleanups
              end
        end
    end.

(** At startup, and when a child starts. *)
Definition cacher_post_config {S} (servers : list (option cacher_svr_conf)) : prog S Z :=
  _ ← cacher_cache_ensure_root servers; mret OK.
End handler.

(** ** Programs that only read *)

Definition is_read (o : op) : bool :=
  match o with
  | OpenRead _ | InfoSize _ | ReadFull _ _ | Close _ | Stat _ | Now => true
  | _ => false
  end.

Definition reads_only {S A} (p : prog S A) : Prop := all_ops (fun o => is_read o = true) p.

Lemma reads_only_bind {S A B} (p : prog S A) (k : A -> prog S B) :
  reads_only p -> (forall a, reads_only (k a)) -> reads_only (p ≫= k).
Proof. apply all_ops_bind. Qed.

Lemma is_read_store d o a d' : is_read o = true -> fs_spec d o a d' -> same_store d d'.
Proof.
  destruct o; cbn; try done; intros _.
  - destruct a; [intros (? & _ & _ & t & _ & ->)|intros (t & _ & ->)]; done.
  - by intros [(t & _ & ->) _].
  - destruct a; [intros (? & ? & ? & _ & _ & _ & _ & t & _ & ->)|intros (? & ? & ? & _ & t & _ & ->)]; done.
  - intros (t & _ & ->). done.
  - by intros [(t & _ & ->) _].
  - by intros [_ ->].
Qed.

Section reads.
Context {AF : AprFiles} {S : Type}.

Lemma exec_reads_only {A} (p : prog S A) w s a w' s' :
  reads_only p -> exec p w s = Some (a, w', s') -> same_store (view w) (view w').
Proof.
  unfold reads_only. revert w s. induction p as [b| |o k IH|X m k IH]; intros w s; cbn [exec all_ops].
  - by intros _ [= <- <- <-].
  - done.
  - intros [Ho Hk]. destruct (op_defined _ _) eqn:Hd; [|done]. pose proof (run_spec w o Hd) as Hs.
    destruct (run o w) as [b w1]. cbn in Hs. intros E. transitivity (view w1).
    + by apply (is_read_store _ o b).
    + eapply (IH b); [apply Hk|exact E].
  - intros Hk. destruct (m s) as [[x s1]|]; [|done]. apply IH, Hk.
Qed.
End reads.

Create HintDb reads.
#[export] Hint Extern 0 (reads_only (mret _)) => exact I : reads.
#[export] Hint Extern 0 (reads_only Undef) => exact I : reads.
#[export] Hint Extern 1 (reads_only (_ ≫= _)) => (apply reads_only_bind) : reads.
#[export] Hint Extern 1 (reads_only (call _)) => (split; [reflexivity|intros; exact I]) : reads.
#[export] Hint Extern 1 (reads_only (mem _)) => (intros ?; exact I) : reads.
#[export] Hint Extern 1 (reads_only (on_heap _)) => (intros ?; exact I) : reads.
#[export] Hint Extern 2 (forall _, reads_only _) => intros ? : reads.
#[export] Hint Extern 3 (reads_only (match ?x with _ => _ end)) => (destruct x) : reads.

Section reading_parts.
Context {AS : AprStrings} {AT : AprTables} {AM : AprMd5} {HT : Httpd} {AP : AprPaths}.

Lemma read_meta_reads {S} path : reads_only (S := S) (cacher_cache_read_meta path).
Proof. unfold cacher_cache_read_meta. auto 20 with reads. Qed.

Lemma parse_or_log_reads json : reads_only (parse_or_log json).
Proof. unfold parse_or_log, parse_in_process, cJSON_GetErrorPtr, log_errbuf. auto 30 with reads. Qed.
#[local] Hint Resolve read_meta_reads parse_or_log_reads : reads.

Lemma load_ruleset_reads path mtime size : reads_only (load_ruleset path mtime size).
Proof. unfold load_ruleset. auto 20 with reads. Qed.
#[local] Hint Resolve load_ruleset_reads : reads.

Lemma get_ruleset_reads dconf : reads_only (cacher_config_get_ruleset dconf).
Proof. unfold cacher_config_get_ruleset, get_ruleset_from_file. auto 30 with reads. Qed.

Lemma lookup_reads {S} r root rule : reads_only (S := S) (cacher_cache_lookup r root rule).
Proof. unfold cacher_cache_lookup. auto 40 with reads. Qed.
End reading_parts.

(** ** Who may administer, who is cached *)

(** [uri] is [p] or a path below it. *)
Definition under_path (p uri : cstr) : Prop :=
  exists rest, uri = p ++ rest /\ (rest = [] \/ exists rest', rest = SLASH :: rest').

Lemma at_admin_path_spec uri p : at_admin_path uri p = true <-> under_path p uri.
Proof.
  unfold at_admin_path, under_path. rewrite andb_true_iff, strncmp_eq_prefix by done. split.
  - intros [[rest ->] H]. exists rest. split; [done|]. rewrite drop_app_length in H.
    destruct rest as [|c rest]; [by left|right]. apply Ascii.eqb_eq in H as ->. by exists rest.
  - intros (rest & -> & H). split; [by exists rest|]. rewrite drop_app_length.
    destruct H as [->|[rest' ->]]; [done|]. apply Ascii.eqb_refl.
Qed.

Lemma exec_bind_inv {AF : AprFiles} {S A B} (p : prog S A) (k : A -> prog S B) w s b w' s' :
  exec (p ≫= k) w s = Some (b, w', s') ->
  exists a w1 s1, exec p w s = Some (a, w1, s1) /\ exec (k a) w1 s1 = Some (b, w', s').
Proof. rewrite exec_bind. destruct (exec p w s) as [[[a w1] s1]|]; naive_solver. Qed.

Section handler_facts.
Context {AS : AprStrings} {AT : AprTables} {AM : AprMd5} {HT : Httpd} {AP : AprPaths} {AF : AprFiles}.

(** The request may run the administration of its site. *)
Definition may_administer (r : request) : Prop :=
  r_main r = false /\ exists dconf p, r_dir_conf r = Some dconf /\ dc_admin_path dconf = Some p /\
    under_path p (r_uri r) /\ (dc_admin_require_user dconf = 0%Z \/ is_Some (r_user r)).

(** The cases of the gate. *)
Lemma admin_gate_cases depth width r dconf p :
  r_dir_conf r = Some dconf -> r_main r = false -> admin_gate depth width r dconf = Some p ->
  (p = mret (pass HTTP_FORBIDDEN r) \/ p = mret (pass DECLINED r)) \/
  (may_administer r /\ exists action,
   p = ('(r, out, status) ← cacher_admin_handle depth width r (cache_root_of r) (Some action);
        mret (Handled status r (Some (SentText out)) None []))).
Proof.
  intros Hc Hm. unfold admin_gate. destruct (dc_admin_path dconf) as [path|] eqn:Ep; [|done].
  destruct (at_admin_path (r_uri r) path) eqn:Ea.
  - destruct (negb _ && negb _) eqn:Eu; intros [= <-]; [by left; left|right].
    split; [|by eexists]. split; [done|]. exists dconf, path. split_and!; [done..|by apply at_admin_path_spec|].
    apply andb_false_iff in Eu as [Eu|Eu]; apply negb_false_iff in Eu.
    + left. by apply Z.eqb_eq.
    + right. by apply bool_decide_eq_true in Eu.
  - destruct (_ && _); [|done]. intros [= <-]. by left; right.
Qed.

Lemma insert_filter_rule r root rule ctx : cacher_cache_insert_filter r root rule = Some ctx -> oc_rule ctx = rule.
Proof.
  unfold cacher_cache_insert_filter. destruct root as [root|]; [|done].
  destruct (ttl_seconds rule <=? 0)%Z; [done|]. destruct (r_header_only r); [done|].
  destruct (cache_key_paths _ _ _) as [[header body]|]; [|done]. by intros [= <-].
Qed.

Lemma serve_or_capture_reads r dconf rule cleanups : reads_only (serve_or_capture r dconf rule cleanups).
Proof.
  unfold serve_or_capture. apply reads_only_bind; [apply lookup_reads|]. intros [r' [hit|]]; exact I.
Qed.

Lemma apply_rules_reads r dconf rs cleanups : reads_only (apply_rules r dconf rs cleanups).
Proof.
  unfold apply_rules. destruct (cacher_ruleset_match _ _ _ _) as [rule|]; [|exact I].
  destruct (enabled rule =? 0)%Z; [exact I|]. destruct (cacher_request_bypasses _ _); [exact I|].
  apply serve_or_capture_reads.
Qed.

Lemma apply_rules_sent r dconf rs cleanups w s res w' s' text :
  exec (apply_rules r dconf rs cleanups) w s = Some (res, w', s') -> hd_sent res <> Some (SentText text).
Proof.
  unfold apply_rules. destruct (cacher_ruleset_match _ _ _ _) as [rule|]; [|by intros [= <- _ _]].
  destruct (enabled rule =? 0)%Z; [by intros [= <- _ _]|].
  destruct (cacher_request_bypasses _ _); [by intros [= <- _ _]|].
  intros ([r' [hit|]] & w1 & s1 & _ & E)%exec_bind_inv; injection E as <- _ _; done.
Qed.

(** C12: the handler's own run changes files, or answers with an administration page,
    only when the request is a main request for the administration path as it
    stands after rewriting, and, unless the site turned that off, of an
    authenticated user.  (What the output filter stores later, when the response
    of a visitor passes it, is no part of this run.) *)
Theorem admin_needs_permission depth width r w s res w' s' :
  exec (cacher_handler depth width r) w s = Some (res, w', s') ->
  ~ same_store (view w) (view w') \/ (exists text, hd_sent res = Some (SentText text)) ->
  may_administer r.
Proof.
  intros E H. unfold cacher_handler in E.
  assert (forall st, exec (mret (pass st r)) w s = Some (res, w', s') -> may_administer r) as Hpass.
  { intros st [= <- <- <-]. destruct H as [H|[text H]]; done. }
  destruct (r_main r) eqn:Em; [by apply Hpass in E|].
  destruct (r_dir_conf r) as [dconf|] eqn:Ec; cbn [mbind option_bind] in E; [|by apply Hpass in E].
  destruct (admin_gate depth width r dconf) as [p|] eqn:Eg.
  { destruct (admin_gate_cases _ _ _ _ _ Ec Em Eg) as [[->| ->]|[Hm _]]; [by apply Hpass in E..|done]. }
  destruct (negb _); [by apply Hpass in E|].
  exfalso. apply exec_bind_inv in E as ([rs cleanups] & w1 & s1 & E1 & E2).
  pose proof (exec_reads_only _ _ _ _ _ _ (get_ruleset_reads _) E1) as S1.
  destruct rs as [rs|].
  - pose proof (exec_reads_only _ _ _ _ _ _ (apply_rules_reads r dconf rs cleanups) E2) as S2.
    destruct H as [H|[text H]]; [apply H; by etrans|by apply apply_rules_sent with (text := text) in E2].
  - injection E2 as <- <- <-. destruct H as [H|[text H]]; done.
Qed.

(** C11: a response is taken from the cache, or captured for it, only for a main
    request of a directory where caching is on, that is no administration
    request, when the first matching rule of the rule set in force is enabled
    and no cookie of the request bypasses it. *)
Theorem cache_used_only_when_allowed depth width r w s res w' s' :
  exec (cacher_handler depth width r) w s = Some (res, w', s') ->
  (exists fd n, hd_sent res = Some (SentFile fd n)) \/ is_Some (hd_filter res) ->
  r_main r = false /\ exists dconf rs cleanups w1 s1 rule,
    r_dir_conf r = Some dconf /\ dc_enabled dconf = 1%Z /\
    (forall p, dc_admin_path dconf = Some p -> ~ under_path p (r_uri r)) /\
    exec (cacher_config_get_ruleset (Some dconf)) w s = Some ((Some rs, cleanups), w1, s1) /\
    cacher_ruleset_match (Some rs) (Some (match_path r)) (r_args (cacher_original_request r))
      (Some (r_method r)) = Some rule /\
    enabled rule <> 0%Z /\ cacher_request_bypasses r (Some rule) = false /\
    (forall ctx, hd_filter res = Some ctx -> oc_rule ctx = rule).
Proof.
  intros E H. unfold cacher_handler in E.
  assert (forall A st, exec (mret (pass st r)) w s = Some (res, w', s') -> A) as Hpass.
  { intros A st [= <- <- <-]. exfalso. by destruct H as [(? & ? & [=])|[? [=]]]. }
  destruct (r_main r) eqn:Em; [by eapply Hpass|].
  destruct (r_dir_conf r) as [dconf|] eqn:Ec; cbn [mbind option_bind] in E; [|by eapply Hpass].
  destruct (admin_gate depth width r dconf) as [p|] eqn:Eg.
  { destruct (admin_gate_cases _ _ _ _ _ Ec Em Eg) as [[->| ->]|[Hm [action ->]]]; [by eapply Hpass..|].
    exfalso. apply exec_bind_inv in E as ([[r1 out] st] & w1 & s1 & _ & E2). injection E2 as <- <- <-.
    by destruct H as [(? & ? & [=])|[? [=]]]. }
  destruct (Z.eqb_spec (dc_enabled dconf) 1) as [Hen|]; cbn [negb] in E; [|by eapply Hpass].
  apply exec_bind_inv in E as ([rs cleanups] & w1 & s1 & E1 & E2).
  destruct rs as [rs|]; [|injection E2 as <- <- <-; by destruct H as [(? & ? & [=])|[? [=]]]].
  unfold apply_rules in E2. destruct (cacher_ruleset_match _ _ _ _) as [rule|] eqn:Er;
    [|injection E2 as <- <- <-; by destruct H as [(? & ? & [=])|[? [=]]]].
  destruct (Z.eqb_spec (enabled rule) 0) as [|Hrule];
    [injection E2 as <- <- <-; by destruct H as [(? & ? & [=])|[? [=]]]|].
  destruct (cacher_request_bypasses r (Some rule)) eqn:Eb;
    [injection E2 as <- <- <-; by destruct H as [(? & ? & [=])|[? [=]]]|].
  split; [done|]. exists dconf, rs, cleanups, w1, s1, rule. split_and!; try done.
  - intros p Hp Hu%at_admin_path_spec. unfold admin_gate in Eg. rewrite Hp, Hu in Eg.
    by destruct (negb _ && negb _) in Eg.
  - intros ctx Hctx. apply exec_bind_inv in E2 as ([r1 [hit|]] & w2 & s2 & _ & E3); injection E3 as <- _ _;
      cbn [hd_filter] in Hctx; [done|]. by eapply insert_filter_rule.
Qed.
End handler_facts.
