(* ===== verification/Serve.v ===== *)
(** * What a request gets

    The handler against the rules as written: whatever the source of the rule
    set, a request is decided by the first rule of the document that matches
    it. *)

From S2P Require Import Prelude CNum CJson CHeap Glob Rules RulesParse RulesMatch Apr AprFile AprRef Util.
From S2P Require Import Config Meta Cache Publish Lookup Admin Purge Handler.
From Stdlib Require Import Lia.
Local Open Scope cstr_scope.

(** A rule set seen through [view_ruleset] is matched like its rules. *)
Lemma ruleset_match_view rs json vs p q m :
  rules_of_document json = Some (Some vs) -> view_ruleset rs = Some vs ->
  STAR ∉ default [] p -> STAR ∉ default [] q -> no_nul (default [] m) ->
  view_rule <$> cacher_ruleset_match (Some rs) p q m = first_match vs p q m.
Proof.
  intros Hvs Hv Hp Hq Hm. rewrite cacher_ruleset_match_loop. unfold ruleset_rules.
  destruct rs as [b [a|]]; [|done]. cbn in *. injection Hv as Hv. rewrite <- Hv.
  apply match_loop_view; [|done..]. apply rules_of_document_wf in Hvs.
  by rewrite <- Hv, Forall_fmap in Hvs.
Qed.

Section serve.
Context {AS : AprStrings} {AT : AprTables} {AM : AprMd5} {HT : Httpd} {AP : AprPaths} {AF : AprFiles}.

(** The rules [vs] are in force: inline, or from a rules file; every
    allocation succeeds. *)
Inductive rules_in_force (dconf : cacher_dir_conf) (vs : list arule) (w : world) (s : pstate) : Prop :=
  | in_force_inline json :
      dc_rules_file dconf = None -> dc_rules_json dconf = Some json ->
      heap_wf (ps_heap s) -> reliable (ps_heap s) -> (Z.of_nat (length json) < INT_MAX)%Z ->
      rules_of_document json = Some (Some vs) -> rules_in_force dconf vs w s
  | in_force_file content f path mtime data :
      dc_rules_file dconf = Some f ->
      rules_file_ready content dconf f path mtime data (Some vs) w s -> rules_in_force dconf vs w s.

(** Both sources give the same promise. *)
Lemma wpp_get_ruleset dconf vs w s :
  rules_in_force dconf vs w s ->
  exists json, rules_of_document json = Some (Some vs) /\
  wpp (cacher_config_get_ruleset (Some dconf)) (fun '(rs, cleanups) w' s' =>
    exists rs', rs = Some rs' /\ view_ruleset rs' = Some vs) w s.
Proof.
  intros [json Hf Hj Hwf Hr Hl Hvs|content f path mtime data Hf Hready].
  - exists json. split; [done|]. unfold cacher_config_get_ruleset. rewrite Hf, Hj. apply wpp_bind.
    eapply wpp_parse_or_log; [done..|]. intros rs h' e Hrs _. apply wpp_ret.
    destruct rs as [rs|]; [by exists rs|done].
  - exists (c_str data). split; [apply Hready|]. unfold cacher_config_get_ruleset. rewrite Hf. apply wpp_bind.
    eapply wpp_mono; [by eapply wpp_ruleset_from_file|]. intros rs w' s' (Hrs & _ & _). apply wpp_ret.
    destruct rs as [rs|]; [by exists rs|done].
Qed.

(** ** Answers *)

(** The request goes on to the content generator. *)
Definition passes (res : handled) (r' : request) (filter : option cacher_out_ctx) : Prop :=
  hd_status res = DECLINED /\ hd_request res = r' /\ hd_sent res = None /\ hd_filter res = filter.

(** The response is the entry found at the request's paths. *)
Definition served (dconf : cacher_dir_conf) (r : request) (rule : cacher_rule) (w1 w' : world)
    (res : handled) : Prop :=
  exists header body r' hit, cache_key_paths r (cache_root_of r) rule = Some (header, body) /\
    hit_of (view w1) (view w') header body r r' hit /\
    hd_status res = OK /\ hd_request res = hit_response r' dconf hit /\
    hd_sent res = Some (SentFile (ch_file hit) (ch_length hit)) /\ hd_filter res = None.

(** No entry was found; the response will be captured when the rule wants it. *)
Definition missed (dconf : cacher_dir_conf) (r : request) (rule : cacher_rule) (w' : world) (res : handled)
    : Prop :=
  exists r', (r' = r \/ exists headers, r' = replay_text r headers) /\
    passes res (set_status r' dconf "MISS")
      (cacher_cache_insert_filter (set_status r' dconf "MISS") (cache_root_of r) rule).

Lemma cache_root_of_same r r' : same_request r r' -> cache_root_of r' = cache_root_of r.
Proof. intros (ct & t & ->). done. Qed.

Lemma wpp_serve r dconf rule cleanups w s :
  wpp (serve_or_capture r dconf rule cleanups) (fun res w' s' =>
    served dconf r rule w w' res \/ missed dconf r rule w' res) w s.
Proof.
  unfold serve_or_capture. apply wpp_bind.
  destruct (cache_key_paths r (cache_root_of r) rule) as [[header body]|] eqn:Ek.
  - eapply wpp_mono; [by apply wpp_lookup|]. intros [r' [hit|]] w' s' (-> & _ & H); apply wpp_ret.
    + left. exists header, body, r', hit. by split_and!.
    + right. destruct H as (_ & Hr & _). exists r'. split; [naive_solver|].
      assert (cache_root_of r' = cache_root_of r) as Er.
      { destruct Hr as [->|(headers & -> & _)]; [done|]. apply cache_root_of_same, replay_text_same. }
      rewrite <- Er. split_and!; try done. cbn [hd_filter]. f_equal. unfold set_status. by destruct (negb _).
  - unfold cacher_cache_lookup. rewrite Ek. apply wpp_ret, wpp_ret. right. exists r. split; [by left|].
    split_and!; try done. cbn [hd_filter]. f_equal. unfold set_status. by destruct (negb _).
Qed.

(** A cookie of the request has a name the rule's patterns cover. *)
Definition carries_bypass_cookie (r : request) (v : arule) : Prop :=
  exists n val pats pat, (n, val) ∈ request_cookies r /\ a_bypass v = Some pats /\ pat ∈ pats /\
    glob_lang false pat n.

Lemma bypasses_view r rule :
  Forall (fun nv => STAR ∉ fst nv) (request_cookies r) ->
  cacher_request_bypasses r (Some rule) = true <-> carries_bypass_cookie r (view_rule rule).
Proof.
  intros Hs. rewrite cacher_request_bypasses_iff. rewrite Forall_forall in Hs. split.
  - intros (n & v & Hin & H). pose proof (Hs _ Hin) as Hn. apply bypasses_cookie_iff in H as (pats & pat & H); [|done].
    exists n, v, pats, pat. naive_solver.
  - intros (n & v & pats & pat & Hin & H). exists n, v. split; [done|]. apply bypasses_cookie_iff; [by apply (Hs (n, v))|].
    exists pats, pat. naive_solver.
Qed.

(** ** The decision *)

(** A request for the cache: of a directory where it is on, and none of the
    administration's. *)
Record cache_request (r : request) (dconf : cacher_dir_conf) : Prop := {
  cr_main : r_main r = false;
  cr_conf : r_dir_conf r = Some dconf;
  cr_enabled : dc_enabled dconf = 1%Z;
  cr_admin p : dc_admin_path dconf = Some p ->
    ~ under_path p (r_uri r) /\ (is_Some (r_prev r) -> ~ under_path p (r_uri (cacher_original_request r)));
}.

(** Characters the matching is specified for. *)
Record plain_request (r : request) : Prop := {
  pr_path : STAR ∉ match_path r;
  pr_args : STAR ∉ default [] (r_args (cacher_original_request r));
  pr_method : no_nul (r_method r);
  pr_cookies : Forall (fun nv => STAR ∉ fst nv) (request_cookies r);
}.

Lemma gate_open depth width r dconf : cache_request r dconf -> admin_gate depth width r dconf = None.
Proof.
  intros [_ _ _ Ha]. unfold admin_gate. destruct (dc_admin_path dconf) as [p|]; [|done].
  destruct (Ha p eq_refl) as [H1 H2]. rewrite <- at_admin_path_spec in H1. apply not_true_is_false in H1.
  rewrite H1. destruct (redirected r) eqn:Er; [|done]. apply bool_decide_eq_true in Er. specialize (H2 Er).
  rewrite <- at_admin_path_spec in H2. apply not_true_is_false in H2. by rewrite H2.
Qed.

(** The rule that decides, in the model of the rules. *)
Definition deciding_rule (vs : list arule) (r : request) : option arule :=
  first_match vs (Some (match_path r)) (r_args (cacher_original_request r)) (Some (r_method r)).

(** The handler gets the rule set and applies it. *)
Lemma handler_decision depth width r dconf vs w s :
  cache_request r dconf -> plain_request r -> rules_in_force dconf vs w s ->
  exists rs cleanups w1 s1,
    exec (cacher_config_get_ruleset (Some dconf)) w s = Some ((Some rs, cleanups), w1, s1) /\
    exec (cacher_handler depth width r) w s = exec (apply_rules r dconf rs cleanups) w1 s1 /\
    view_rule <$> cacher_ruleset_match (Some rs) (Some (match_path r)) (r_args (cacher_original_request r))
      (Some (r_method r)) = deciding_rule vs r.
Proof.
  intros Hc [Hp Hq Hm Hck] Hf. destruct (wpp_get_ruleset _ _ _ _ Hf) as (json & Hvs & Hget).
  destruct (wpp_run _ _ _ _ Hget) as ([rs cleanups] & w1 & s1 & E1 & rs' & -> & Hv).
  exists rs', cleanups, w1, s1. split; [done|]. split.
  - assert (cacher_handler depth width r =
      ('(rs, cleanups) ← cacher_config_get_ruleset (Some dconf);
       match rs with
       | None => mret (Handled DECLINED r None None cleanups)
       | Some rs => apply_rules r dconf rs cleanups
       end)) as ->.
    { unfold cacher_handler. rewrite (cr_main _ _ Hc), (cr_conf _ _ Hc). cbn [mbind option_bind].
      by rewrite (gate_open _ _ _ _ Hc), (cr_enabled _ _ Hc). }
    by rewrite exec_bind, E1.
  - by apply (ruleset_match_view rs' json vs).
Qed.

(** C5: a request of a directory where caching is on, whose path, query and cookie
    names have no star in them, is decided, when memory does not run out, by the
    first rule of the document that matches its original path, query and method:
    without one it is passed on as DYNAMIC, with a disabled one as EXCLUDED,
    with a matching cookie as BYPASS; and otherwise it is served from the entry
    of its key, or passed on as a MISS behind the filter that will store the
    response.  No file is changed.  ([exclusion_evaded_by_star] is what a star
    can do.) *)
Theorem handler_follows_rules depth width r dconf vs w s :
  cache_request r dconf -> plain_request r -> rules_in_force dconf vs w s ->
  exists res w' s', exec (cacher_handler depth width r) w s = Some (res, w', s') /\
    same_store (view w) (view w') /\
    match first_match vs (Some (match_path r)) (r_args (cacher_original_request r)) (Some (r_method r)) with
    | None => passes res (set_status r dconf "DYNAMIC") None
    | Some v =>
        (a_enabled v = 0%Z -> passes res (set_status r dconf "EXCLUDED") None) /\
        (a_enabled v <> 0%Z -> carries_bypass_cookie r v -> passes res (set_status r dconf "BYPASS") None) /\
        (a_enabled v <> 0%Z -> ~ carries_bypass_cookie r v ->
         exists rule w1, view_rule rule = v /\ same_store (view w) (view w1) /\
           (served dconf r rule w1 w' res \/ missed dconf r rule w' res))
    end.
Proof.
  intros Hc Hpl Hf. pose proof (pr_cookies _ Hpl) as Hck.
  destruct (handler_decision depth width r dconf vs w s Hc Hpl Hf) as (rs' & cleanups & w1 & s1 & E1 & -> & Hmatch).
  pose proof (exec_reads_only _ _ _ _ _ _ (get_ruleset_reads _) E1) as S1. fold (deciding_rule vs r).
  unfold apply_rules. destruct (cacher_ruleset_match _ _ _ _) as [rule|]; cbn [fmap option_fmap option_map] in Hmatch;
    rewrite <- Hmatch.
  2: { eexists _, w1, s1. split; [reflexivity|]. by split. }
  assert (a_enabled (view_rule rule) = enabled rule) as He by done. rewrite He.
  destruct (Z.eqb_spec (enabled rule) 0) as [H0|H0].
  { eexists _, w1, s1. split; [reflexivity|]. split; [done|]. split_and!; [done|done|done]. }
  destruct (cacher_request_bypasses r (Some rule)) eqn:Eb.
  { apply bypasses_view in Eb; [|done]. eexists _, w1, s1. split; [reflexivity|]. split; [done|].
    split_and!; [done|done|]. intros _ Hn. by destruct Hn. }
  assert (~ carries_bypass_cookie r (view_rule rule)) as Hnb.
  { intros Hb. apply bypasses_view in Hb; [|done]. congruence. }
  destruct (wpp_run _ _ _ _ (wpp_serve r dconf rule cleanups w1 s1)) as (res & w2 & s2 & E2 & Hres).
  exists res, w2, s2. split; [done|]. split.
  - etrans; [exact S1|]. eapply exec_reads_only; [apply serve_or_capture_reads|exact E2].
  - split_and!; [done|done|]. intros _ _. by exists rule, w1.
Qed.
End serve.

(** ** A site with inline rules *)

Definition sample_site_conf : cacher_dir_conf :=
  set_enabled (set_admin_path sample_inline_conf (Some (str "/cacher"))) 1.

(** A request for [uri], of [user], with the given headers. *)
Definition site_request (uri : string) (user : option cstr) (headers_in : list (cstr * cstr)) : request :=
  Request false None (str uri) (Some (str uri)) None (str "GET") false
    (Some (str "site.example")) user 200 None headers_in [] false (Some sample_site_conf)
    (Some (SvrConf sample_root)).

Definition sample_site_vs : list arule :=
  [ARule (Some (str "/admin/*")) None None 0 0 (Some [200%Z]) None None None;
   ARule None None None 1 10 (Some [200%Z]) None (Some [str "sid"]) None].

Definition sample_page : request := site_request "/about" None [(str "Cookie", str "theme=dark; lang=en")].

Lemma sample_cache_request : cache_request sample_page sample_site_conf.
Proof.
  split; [reflexivity..|]. intros p [= <-]. split; [|by intros [? [=]]].
  rewrite <- at_admin_path_spec. by vm_compute.
Defined.

Lemma sample_plain_request : plain_request sample_page.
Proof. split; apply (bool_decide_unpack _); vm_compute; exact I. Defined.

Lemma sample_in_force : rules_in_force (AF := ref_files) sample_site_conf sample_site_vs sample_tree sample_state.
Proof.
  apply (in_force_inline _ _ _ _ sample_rules);
    [reflexivity|reflexivity|apply fresh_heap_wf|done|reflexivity|vm_compute; reflexivity].
Defined.

Lemma handler_follows_rules_witness :
  exists res w' s', exec (cacher_handler sample_fuel sample_fuel sample_page) sample_tree sample_state
      = Some (res, w', s') /\
    same_store (view sample_tree) (view w') /\
    match first_match sample_site_vs (Some (match_path sample_page))
            (r_args (cacher_original_request sample_page)) (Some (r_method sample_page)) with
    | None => passes res (set_status sample_page sample_site_conf "DYNAMIC") None
    | Some v =>
        (a_enabled v = 0%Z -> passes res (set_status sample_page sample_site_conf "EXCLUDED") None) /\
        (a_enabled v <> 0%Z -> carries_bypass_cookie sample_page v ->
         passes res (set_status sample_page sample_site_conf "BYPASS") None) /\
        (a_enabled v <> 0%Z -> ~ carries_bypass_cookie sample_page v ->
         exists rule w1, view_rule rule = v /\ same_store (view sample_tree) (view w1) /\
           (served sample_site_conf sample_page rule w1 w' res \/
            missed sample_site_conf sample_page rule w' res))
    end.
Proof.
  apply (handler_follows_rules (AF := ref_files));
    [apply sample_cache_request|apply sample_plain_request|apply sample_in_force].
Defined.

(** The administrator of the site resets its cache. *)
Lemma admin_needs_permission_witness :
  may_administer (site_request "/cacher/full-reset" (Some (str "bob")) []).
Proof.
  assert (match exec (AF := ref_files) (cacher_handler sample_fuel sample_fuel
                        (site_request "/cacher/full-reset" (Some (str "bob")) [])) sample_tree sample_state with
          | Some (res, _, _) => match hd_sent res with Some (SentText _) => true | _ => false end
          | None => false
          end = true) as H by (vm_compute; reflexivity).
  destruct (exec _ _ _) as [[[res w'] s']|] eqn:E; [|discriminate H].
  apply (admin_needs_permission _ _ _ _ _ _ _ _ E). right.
  destruct (hd_sent res) as [[text|fd n]|]; [by exists text|discriminate H..].
Defined.

(** Without a user the same request is refused. *)
Example sample_refused :
  match exec (cacher_handler sample_fuel sample_fuel (site_request "/cacher/full-reset" None []))
          sample_tree sample_state with
  | Some (res, w', _) => Some (hd_status res, bool_decide (d_names w' = d_names sample_tree))
  | None => None
  end = Some (HTTP_FORBIDDEN, true).
Proof. vm_compute. reflexivity. Qed.

Lemma cache_used_only_when_allowed_witness :
  r_main sample_page = false /\ exists dconf rs cleanups w1 s1 rule,
    r_dir_conf sample_page = Some dconf /\ dc_enabled dconf = 1%Z /\
    (forall p, dc_admin_path dconf = Some p -> ~ under_path p (r_uri sample_page)) /\
    exec (AF := ref_files) (cacher_config_get_ruleset (Some dconf)) sample_tree sample_state
      = Some ((Some rs, cleanups), w1, s1) /\
    cacher_ruleset_match (Some rs) (Some (match_path sample_page))
      (r_args (cacher_original_request sample_page)) (Some (r_method sample_page)) = Some rule /\
    enabled rule <> 0%Z /\ cacher_request_bypasses sample_page (Some rule) = false /\
    exists ctx, oc_rule ctx = rule.
Proof.
  assert (match exec (AF := ref_files) (cacher_handler sample_fuel sample_fuel sample_page)
                  sample_tree sample_state with
          | Some (res, _, _) => bool_decide (is_Some (hd_filter res))
          | None => false
          end = true) as H by (vm_compute; reflexivity).
  destruct (exec _ _ _) as [[[res w'] s']|] eqn:E; [|discriminate H]. apply bool_decide_eq_true in H.
  destruct (cache_used_only_when_allowed _ _ _ _ _ _ _ _ E (or_intror H))
    as [Hm (dconf & rs & cl & w1 & s1 & rule & H1 & H2 & H3 & H4 & H5 & H6 & H7 & H8)].
  split; [exact Hm|]. exists dconf, rs, cl, w1, s1, rule. repeat (split; [assumption|]).
  destruct H as [ctx Hctx]. exists ctx. by apply H8.
Defined.
