(* ===== verification/Race.v ===== *)
(** * Workers that publish at the same time

    Several workers of the server run at once: an interleaving picks one of
    them for each call.  Every file of an entry is complete at every moment,
    but the header and the body of one entry can come from different
    responses. *)

From S2P Require Import Prelude CNum CHeap Glob Rules RulesParse RulesMatch Apr AprFile AprRef Util Meta Cache.
From S2P Require Import Config Publish Lookup Admin Purge Handler.
From Stdlib Require Import Lia.
Local Open Scope cstr_scope.

(** ** Interleavings *)

Section pool.
Context {AF : AprFiles} {S T : Type}.

(** One call, or one step on the memory, of a program. *)
Definition prog_step {A} (p : prog S A) (w : world) (s : S) : option (prog S A * world * S) :=
  match p with
  | Ret _ | Undef => None
  | Do o k => if op_defined (view w) o then let '(a, w') := run o w in Some (k a, w', s) else None
  | Mem m k => match m s with Some (x, s') => Some (k x, w, s') | None => None end
  end.

(** A program that runs alone does its steps one by one. *)
Lemma exec_step {A} (p : prog S A) w s p' w' s' :
  prog_step p w s = Some (p', w', s') -> exec p w s = exec p' w' s'.
Proof.
  destruct p as [a| |o k|X m k]; cbn; try done.
  - destruct (op_defined _ _); [|done]. destruct (run o w) as [a w1]. by intros [= -> -> ->].
  - destruct (m s) as [[x s1]|]; [|done]. by intros [= -> -> ->].
Qed.

Definition pool : Type := list (prog S T).

(** Some worker takes a step. *)
Inductive pool_step : pool * world * S -> pool * world * S -> Prop :=
  | worker_step ps i p p' w s w' s' :
      ps !! i = Some p -> prog_step p w s = Some (p', w', s') ->
      pool_step (ps, w, s) (<[i := p']> ps, w', s').

Inductive pool_steps : pool * world * S -> pool * world * S -> Prop :=
  | no_steps c : pool_steps c c
  | more_steps c1 c2 c3 : pool_steps c1 c2 -> pool_step c2 c3 -> pool_steps c1 c3.

(** The workers in the order [sched]. *)
Fixpoint run_pool (sched : list nat) (ps : pool) (w : world) (s : S) : option (pool * world * S) :=
  match sched with
  | [] => Some (ps, w, s)
  | i :: sched' =>
      p ← ps !! i; '(p', w', s') ← prog_step p w s; run_pool sched' (<[i := p']> ps) w' s'
  end.

Lemma pool_steps_trans c1 c2 c3 : pool_steps c1 c2 -> pool_steps c2 c3 -> pool_steps c1 c3.
Proof.
  intros H12 H23. revert H12. induction H23 as [|a b c _ IH Hs]; [done|]. intros H.
  eapply more_steps; [by apply IH|exact Hs].
Qed.

Lemma run_pool_steps sched ps w s c : run_pool sched ps w s = Some c -> pool_steps (ps, w, s) c.
Proof.
  revert ps w s. induction sched as [|i sched IH]; intros ps w s; cbn.
  - intros [= <-]. constructor.
  - destruct (ps !! i) as [p|] eqn:Ep; [|done]. cbn.
    destruct (prog_step p w s) as [[[p' w'] s']|] eqn:E; [|done]. cbn. intros H%IH.
    eapply pool_steps_trans; [eapply more_steps; [constructor|by econstructor]|done].
Qed.

Lemma all_ops_step {A} P (p : prog S A) w s p' w' s' :
  all_ops P p -> prog_step p w s = Some (p', w', s') ->
  all_ops P p' /\ (view w' = view w \/ exists o a, P o /\ fs_spec (view w) o a (view w')).
Proof.
  destruct p as [a| |o k|X m k]; cbn; try done.
  - intros [Ho Hk]. destruct (op_defined _ _) eqn:Hd; [|done]. pose proof (run_spec w o Hd) as Hs.
    destruct (run o w) as [a w1]. cbn in Hs. intros [= <- <- <-]. split; [done|]. right. by exists o, a.
  - intros Hk. destruct (m s) as [[x s1]|]; [|done]. intros [= <- <- <-]. split; [done|]. by left.
Qed.

(** An invariant of the calls of all workers is one of every interleaving. *)
Lemma pool_invariant (P : op -> Prop) (I : disk -> Prop) c c' :
  (forall d o a d', P o -> I d -> fs_spec d o a d' -> I d') ->
  pool_steps c c' -> Forall (all_ops P) (fst (fst c)) -> I (view (snd (fst c))) ->
  Forall (all_ops P) (fst (fst c')) /\ I (view (snd (fst c'))).
Proof.
  intros Hinv Hsteps Hp HI. induction Hsteps as [|c1 c2 c3 _ IH Hstep]; [done|].
  destruct (IH Hp HI) as [Hp2 HI2]. destruct Hstep as [ps i p p' w s w' s' Hi Hs]. cbn in *.
  assert (all_ops P p) as Hpi by (rewrite Forall_lookup in Hp2; by eapply Hp2).
  destruct (all_ops_step _ _ _ _ _ _ _ Hpi Hs) as [Hp' Hw]. split.
  - by apply Forall_insert.
  - destruct Hw as [->|(o & a & Ho & Hsp)]; [done|]. by eapply Hinv.
Qed.

End pool.

(** ** Writers of one entry *)

(** A worker that has written both temporary files and is about to publish. *)
Record writer := Writer {
  wr_ctx : cacher_out_ctx;
  wr_tmp_body : cstr;
  wr_tmp_header : cstr;
  wr_body : list ascii;
  wr_text : list ascii;
}.

Section race.
Context {AS : AprStrings} {AT : AprTables} {AM : AprMd5} {HT : Httpd} {AF : AprFiles} {S : Type}.
Context (header body : cstr) (Hep : entry_paths header body).

Definition writer_prog (x : writer) : prog S unit := publish (wr_ctx x) (wr_tmp_body x) (wr_tmp_header x).

(** The writer's files are at their temporary names. *)
Record prepared (d : disk) (x : writer) : Prop := {
  wp_header : oc_header_path (wr_ctx x) = header;
  wp_body : oc_body_path (wr_ctx x) = body;
  wp_tmp_body : temp_of body (wr_tmp_body x);
  wp_tmp_header : temp_of header (wr_tmp_header x);
  wp_body_data : file_at d (wr_tmp_body x) = Some (wr_body x);
  wp_text_data : file_at d (wr_tmp_header x) = Some (wr_text x);
}.

(** The calls of publications of this entry, and reads. *)
Definition race_op (xs : list writer) (o : op) : Prop :=
  is_read o = true \/
  match o with
  | Rename a b => exists x, x ∈ xs /\ (a = wr_tmp_body x /\ b = body \/ a = wr_tmp_header x /\ b = header)
  | Remove p => p <> header
  | _ => False
  end.

Lemma writer_ops xs d x : x ∈ xs -> prepared d x -> all_ops (race_op xs) (writer_prog x).
Proof.
  intros Hx [Hh Hb Htb Hth _ _]. unfold writer_prog, publish. rewrite Hh, Hb.
  destruct (temp_body_ne _ _ Hep _ Htb) as (Nb1 & _ & _). destruct (temp_header_ne _ _ Hep _ Hth) as (Nh1 & _).
  pose proof (header_ne_body _ _ Hep) as Nhb.
  split; [right; exists x; tauto|]. intros ok.
  assert (all_ops (S := S) (race_op xs)
    (remove (wr_tmp_body x) (remove (wr_tmp_header x) (remove body (mret tt))))) as Hrm.
  { split; [by right|]. intros ? . split; [by right|]. intros ? . split; [right; cbn; congruence|]. by intros ?. }
  destruct ok; [|exact Hrm]. split; [right; exists x; tauto|]. intros ok. by destruct ok.
Qed.

Context (xs : list writer) (d0 : disk) (Hprep : forall x, x ∈ xs -> prepared d0 x).

(** What the names of the entry can stand for. *)
Record race_inv (d : disk) : Prop := {
  ri_data : d_data d = d_data d0;
  ri_tmp_body x : x ∈ xs ->
    d_names d !! wr_tmp_body x = None \/ d_names d !! wr_tmp_body x = d_names d0 !! wr_tmp_body x;
  ri_tmp_header x : x ∈ xs ->
    d_names d !! wr_tmp_header x = None \/ d_names d !! wr_tmp_header x = d_names d0 !! wr_tmp_header x;
  ri_header : d_names d !! header = d_names d0 !! header \/
    exists x, x ∈ xs /\ d_names d !! header = d_names d0 !! wr_tmp_header x;
  ri_body : d_names d !! body = d_names d0 !! body \/ d_names d !! body = None \/
    exists x, x ∈ xs /\ d_names d !! body = d_names d0 !! wr_tmp_body x;
}.

Lemma race_inv_init : race_inv d0.
Proof. split; try done; [intros; by right|intros; by right|by left|by left]. Qed.

Lemma race_inv_store d d' : same_store d d' -> race_inv d -> race_inv d'.
Proof. intros (En & Ed & _) []. split; rewrite ?En, ?Ed; done. Qed.

(** The temporary names are none of the entry's. *)
Lemma tmp_names x : x ∈ xs ->
  wr_tmp_body x <> header /\ wr_tmp_body x <> body /\ wr_tmp_header x <> header /\ wr_tmp_header x <> body.
Proof.
  intros Hx. destruct (Hprep x Hx) as [_ _ Htb Hth _ _].
  destruct (temp_body_ne _ _ Hep _ Htb) as (? & ? & _). by destruct (temp_header_ne _ _ Hep _ Hth).
Qed.

Lemma race_inv_rename a b i d d' :
  race_inv d -> d_names d !! a = Some i -> later (set_names d (<[b := i]> (delete a (d_names d)))) d' ->
  (exists x, x ∈ xs /\ (a = wr_tmp_body x /\ b = body \/ a = wr_tmp_header x /\ b = header)) -> race_inv d'.
Proof.
  intros [] Ha (t & _ & ->) (x & Hx & Hab). pose proof (tmp_names x Hx) as (N1 & N2 & N3 & N4).
  pose proof (header_ne_body _ _ Hep) as Nhb.
  assert (forall q, q <> b -> (<[b:=i]> (delete a (d_names d))) !! q = None /\ q = a \/
                     (<[b:=i]> (delete a (d_names d))) !! q = d_names d !! q) as Hother.
  { intros q Hq. rewrite lookup_insert_ne by done. destruct (decide (q = a)) as [->|Hqa].
    - left. by rewrite lookup_delete_eq.
    - right. by rewrite lookup_delete_ne. }
  assert (forall y, y ∈ xs -> wr_tmp_body y <> b /\ wr_tmp_header y <> b) as Htmp.
  { intros y Hy. destruct (tmp_names y Hy) as (? & ? & ? & ?). destruct Hab as [[_ ->]|[_ ->]]; done. }
  split; cbn [d_data d_names set_names set_now].
  - done.
  - intros y Hy. destruct (Hother (wr_tmp_body y)) as [[-> _]| ->]; [by apply Htmp|by left|by apply ri_tmp_body0].
  - intros y Hy. destruct (Hother (wr_tmp_header y)) as [[-> _]| ->]; [by apply Htmp|by left|by apply ri_tmp_header0].
  - destruct Hab as [[-> ->]|[-> ->]].
    + destruct (Hother header) as [[_ E]| ->]; [done|by subst|done].
    + right. exists x. split; [done|]. rewrite lookup_insert_eq.
      destruct (ri_tmp_header0 x Hx) as [E|E]; congruence.
  - destruct Hab as [[-> ->]|[-> ->]].
    + right. right. exists x. split; [done|]. rewrite lookup_insert_eq.
      destruct (ri_tmp_body0 x Hx) as [E|E]; congruence.
    + destruct (Hother body) as [[_ E]| ->]; [done|by subst|done].
Qed.

Lemma race_inv_remove p d d' :
  race_inv d -> later (set_names d (delete p (d_names d))) d' -> p <> header -> race_inv d'.
Proof.
  intros [] (t & _ & ->) Hp.
  assert (forall q, delete p (d_names d) !! q = None \/ delete p (d_names d) !! q = d_names d !! q) as Hother.
  { intros q. destruct (decide (q = p)) as [->|Hq]; [left; by rewrite lookup_delete_eq|].
    right. by rewrite lookup_delete_ne. }
  split; cbn [d_data d_names set_names set_now].
  - done.
  - intros y Hy. destruct (Hother (wr_tmp_body y)) as [->| ->]; [by left|by apply ri_tmp_body0].
  - intros y Hy. destruct (Hother (wr_tmp_header y)) as [->| ->]; [by left|by apply ri_tmp_header0].
  - rewrite lookup_delete_ne by done. done.
  - destruct (Hother body) as [->| ->]; [by right; left|done].
Qed.

Lemma race_inv_step d o a d' : race_op xs o -> race_inv d -> fs_spec d o a d' -> race_inv d'.
Proof.
  intros [Hr|Ho] HI Hs; [eapply race_inv_store; [by eapply is_read_store|done]|].
  destruct o; try done; cbn in Hs.
  - destruct a; [|eapply race_inv_store; [|done]; by apply later_same_store in Hs as [? _]].
    destruct Hs as (i & Hi & Hl). by eapply race_inv_rename.
  - destruct a; [|eapply race_inv_store; [|done]; by apply later_same_store in Hs as [? _]].
    by eapply race_inv_remove.
Qed.
End race.

Section publications.
Context {AS : AprStrings} {AT : AprTables} {AM : AprMd5} {HT : Httpd} {AF : AprFiles} {S : Type}.

(** While any number of workers publish responses under one key, and others
    look entries up, whichever calls fail and however they interleave: at every
    moment the header file is the one of before or the complete header of one
    of the responses, and the body is the one of before, the complete body of
    one of them, or absent. *)
Theorem publications_atomic header body xs readers w (s : S) ps' w' s' :
  entry_paths header body -> (forall x, x ∈ xs -> prepared header body (view w) x) ->
  Forall reads_only readers ->
  pool_steps ((writer_prog <$> xs) ++ readers, w, s) (ps', w', s') ->
  (file_at (view w') header = file_at (view w) header \/
   exists x, x ∈ xs /\ file_at (view w') header = Some (wr_text x)) /\
  (file_at (view w') body = file_at (view w) body \/ file_at (view w') body = None \/
   exists x, x ∈ xs /\ file_at (view w') body = Some (wr_body x)).
Proof.
  intros Hep Hprep Hr Hsteps.
  destruct (pool_invariant (race_op header body xs) (race_inv header body xs (view w)) _ _
    (race_inv_step header body Hep xs (view w) Hprep) Hsteps) as [_ HI]; cbn [fst snd] in *.
  - apply Forall_app. split.
    + apply Forall_fmap, Forall_forall. intros x Hx. eapply writer_ops; [done|done|by apply Hprep].
    + eapply Forall_impl; [exact Hr|]. intros p. apply all_ops_mono. by left.
  - apply race_inv_init.
  - destruct HI as [Hd _ _ Hh Hb]. unfold file_at. rewrite Hd. split.
    + destruct Hh as [->|(x & Hx & ->)]; [by left|right]. exists x. split; [done|].
      apply (wp_text_data _ _ _ _ (Hprep x Hx)).
    + destruct Hb as [->|[->|(x & Hx & ->)]]; [by left|by right; left|right; right]. exists x. split; [done|].
      apply (wp_body_data _ _ _ _ (Hprep x Hx)).
Qed.

End publications.

(** ** Two responses for one key *)

Definition race_header : cstr := str "/var/cache/ab/cd/abcd.header".
Definition race_body : cstr := str "/var/cache/ab/cd/abcd.body".

Definition race_ctx : cacher_out_ctx := OutCtx sample_vary_rule race_header race_body None None 0 true true.

(** The writer with the suffix [x], of a response with the bytes [bytes]. *)
Definition race_writer (x : string) (etag bytes : string) : writer :=
  Writer race_ctx (race_body ++ str "." ++ str x) (race_header ++ str "." ++ str x) (str bytes)
    (header_file_text 1000 1060 200 (str "GET") (Some (str "site.example")) (str "/") None
       (str "ETag: " ++ str etag ++ [CR; LF])).

Definition writer_1 : writer := race_writer "aaaaaa" "1" "first".
Definition writer_2 : writer := race_writer "bbbbbb" "2" "second".

Definition race_disk : @world ref_files :=
  Disk {[wr_tmp_body writer_1 := 1; wr_tmp_header writer_1 := 2; wr_tmp_body writer_2 := 3; wr_tmp_header writer_2 := 4]}
    {[1 := wr_body writer_1; 2 := wr_text writer_1; 3 := wr_body writer_2; 4 := wr_text writer_2]}
    {[1 := 1000%Z; 2 := 1000%Z; 3 := 1000%Z; 4 := 1000%Z]}
    {[str "/var/cache"; str "/var/cache/ab"; str "/var/cache/ab/cd"]} ∅ ∅ 1000.

(** The workers take turns: the second one overtakes the first. *)
Definition race_run (sched : list nat) := run_pool sched (writer_prog <$> [writer_1; writer_2]) race_disk tt.

Lemma race_run_steps sched c :
  race_run sched = Some c -> pool_steps (writer_prog <$> [writer_1; writer_2], race_disk, tt) c.
Proof. apply run_pool_steps. Qed.

Lemma race_run_mixes :
  match race_run [0; 1; 1; 0] with
  | Some (ps', w', _) =>
      forallb (fun p => match p with Ret _ => true | _ => false end) ps'
      && bool_decide (file_at w' race_header = Some (wr_text writer_1))
      && bool_decide (file_at w' race_body = Some (wr_body writer_2))
  | None => false
  end = true.
Proof. vm_compute. reflexivity. Qed.

Lemma race_run_ends : bool_decide (is_Some (race_run [0; 1; 1])) = true.
Proof. vm_compute. reflexivity. Qed.

(** C39: the two files of an entry are published one after the other and nothing
    ties them together: two workers can leave the header of one response with
    the body of the other. *)
Theorem publications_mix :
  exists ps' w', pool_steps (writer_prog <$> [writer_1; writer_2], race_disk, tt) (ps', w', tt) /\
    Forall (fun p => p = Ret tt) ps' /\
    file_at (view w') race_header = Some (wr_text writer_1) /\
    file_at (view w') race_body = Some (wr_body writer_2) /\ wr_body writer_1 <> wr_body writer_2.
Proof.
  pose proof race_run_mixes as H. pose proof (race_run_steps [0; 1; 1; 0]) as Hsteps.
  destruct (race_run [0; 1; 1; 0]) as [[[ps' w'] []]|]; [|discriminate H].
  bool_hyps. exists ps', w'. split_and!; [by apply Hsteps| |done|done|vm_compute; discriminate].
  apply Forall_forall. intros p Hp. rewrite forallb_forall in H. apply list_elem_of_In, H in Hp.
  destruct p as [[]| | |]; done.
Qed.

Lemma race_prepared x : x ∈ [writer_1; writer_2] -> prepared race_header race_body (view race_disk) x.
Proof.
  intros [->|[->|?%elem_of_nil]%elem_of_cons]%elem_of_cons; [| |done];
    (split; [reflexivity|reflexivity| | |vm_compute; reflexivity|vm_compute; reflexivity]);
    (apply temp_of_intro; [reflexivity|apply (bool_decide_unpack _); vm_compute; exact I..]).
Defined.

Lemma publications_atomic_witness :
  exists ps' w', pool_steps (writer_prog <$> [writer_1; writer_2], race_disk, tt) (ps', w', tt) /\
  (file_at (view w') race_header = file_at (view race_disk) race_header \/
   exists x, x ∈ [writer_1; writer_2] /\ file_at (view w') race_header = Some (wr_text x)) /\
  (file_at (view w') race_body = file_at (view race_disk) race_body \/ file_at (view w') race_body = None \/
   exists x, x ∈ [writer_1; writer_2] /\ file_at (view w') race_body = Some (wr_body x)).
Proof.
  pose proof race_run_ends as H. pose proof (race_run_steps [0; 1; 1]) as Hsteps.
  destruct (race_run [0; 1; 1]) as [[[ps' w'] []]|]; [|discriminate H].
  specialize (Hsteps _ eq_refl). exists ps', w'. split; [exact Hsteps|].
  apply (publications_atomic (AF := ref_files) race_header race_body [writer_1; writer_2] [] race_disk tt ps' w' tt);
    [by exists (str "/var/cache/ab/cd/abcd")|apply race_prepared|constructor|exact Hsteps].
Defined.
