(* ===== verification/Reload.v ===== *)
(** * Rules files that are edited while requests run

    The cache of parsed rules files is shared by the threads of a process; an
    operator replaces the files at any time.  Every interleaving of requests,
    critical section by critical section and call by call, and of edits is
    covered: the cache stays coherent, a request decides by the rules in force
    while it ran, and no rule set that a request was handed is ever freed. *)

From S2P Require Import Prelude CNum CHeap CJson CJsonAlloc CJsonSafety Glob Rules RulesParse Apr AprFile AprRef Util Config.
From S2P Require Import Meta Cache Publish Lookup Admin Purge Handler Race.
From Stdlib Require Import Lia.
Local Open Scope cstr_scope.

(** ** Versions of a file *)

Record version := Version { v_mtime : Z; v_data : list ascii }.

(** What [apr_stat] says of a version. *)
Definition stamp (v : version) : Z * Z := (v_mtime v, Z.of_nat (length (v_data v))).

(** The versions of a file, the newest first: [v] is [u] or newer. *)
Definition at_least (l : list version) (u v : version) : Prop :=
  exists newer older, l = newer ++ u :: older /\ (v = u \/ v ∈ newer).

(** From the time of [l0] to the time of [l], [v] was the version of the file
    at some moment. *)
Definition in_force (l0 l : list version) (v : version) : Prop :=
  exists ext, l = ext ++ l0 /\ (v ∈ ext \/ head l0 = Some v).

Lemma at_least_app ext l u v : at_least l u v -> at_least (ext ++ l) u v.
Proof.
  intros (newer & older & -> & H). exists (ext ++ newer), older. rewrite <- app_assoc. set_solver.
Qed.

Lemma at_least_head v l u : u ∈ v :: l -> at_least (v :: l) u v.
Proof.
  intros [->|H]%elem_of_cons; [by exists [], l; auto|].
  apply list_elem_of_split in H as (l1 & l2 & ->). exists (v :: l1), l2. set_solver.
Qed.

Lemma at_least_elem l u v : at_least l u v -> u ∈ l.
Proof. intros (newer & older & -> & _). set_solver. Qed.

Lemma in_force_refl v l : in_force (v :: l) (v :: l) v.
Proof. exists []. auto. Qed.

Lemma in_force_now l0 l v : (exists ext, l = ext ++ l0) -> head l = Some v -> in_force l0 l v.
Proof. intros [ext ->] H. exists ext. split; [done|]. destruct ext; [by right|]. left. injection H as ->. set_solver. Qed.

Lemma in_force_app ext l0 l v : in_force l0 l v -> in_force l0 (ext ++ l) v.
Proof. intros (e & -> & H). exists (ext ++ e). rewrite <- app_assoc. set_solver. Qed.

Lemma in_force_same l v : in_force l l v -> exists l', l = v :: l'.
Proof.
  intros (ext & E & H). destruct ext; [|by apply (f_equal length) in E; cbn in E; rewrite length_app in E; lia].
  destruct H as [?%elem_of_nil|H]; [done|]. destruct l; [done|]. injection H as ->. by eexists.
Qed.

(** A version at least as new as one that was in force was in force later. *)
Lemma in_force_at_least l0 l u v : NoDup l -> in_force l0 l u -> at_least l u v -> in_force l0 l v.
Proof.
  intros Hnd (ext & -> & Hu) (newer & older & E & Hv). exists ext. split; [done|].
  destruct Hv as [->|Hv]; [done|].
  assert (newer `prefix_of` ext \/ exists x, newer = ext ++ x) as [[x ->]|[x ->]].
  { destruct (decide (length newer <= length ext)) as [Hle|Hgt]; apply (f_equal (take (length newer))) in E.
    - left. rewrite take_app_le, take_app_length in E by lia. exists (drop (length newer) ext).
      by rewrite <- E at 1; rewrite take_drop.
    - right. rewrite take_app_ge, take_app_length in E by lia. eauto. }
  - left. set_solver.
  - rewrite <- app_assoc in E. apply app_inv_head in E as ->. destruct x as [|y x].
    { left. by rewrite app_nil_r in Hv. }
    apply NoDup_app in Hnd as (_ & Hdis & Hnd). cbn in Hnd. apply NoDup_cons in Hnd as [Hy Hnd].
    exfalso. destruct Hu as [Hu|[= ->]]; [apply (Hdis u Hu)|apply Hy]; set_solver.
Qed.

(** Different stamps tell versions apart. *)
Lemma stamp_inj l u v : NoDup (stamp <$> l) -> u ∈ l -> v ∈ l -> stamp u = stamp v -> u = v.
Proof.
  intros Hnd [i Hi]%list_elem_of_lookup [j Hj]%list_elem_of_lookup E.
  assert (i = j) as ->; [|congruence].
  eapply NoDup_lookup; [exact Hnd|rewrite list_lookup_fmap, Hi; reflexivity|]. rewrite list_lookup_fmap, Hj. cbn. by rewrite E.
Qed.

(** ** The shared state *)

(** What happened so far: the versions of each file, and the blocks of the rule
    sets of files. *)
Record history := History {
  g_files : cstr -> list version;
  g_blocks : gset nat;
}.

Definition grows (g g' : history) : Prop :=
  (forall p, exists ext, g_files g' p = ext ++ g_files g p) /\ g_blocks g ⊆ g_blocks g'.

#[export] Instance grows_preorder : PreOrder grows.
Proof.
  split.
  - intros g. split; [|done]. intros p. by exists [].
  - intros g1 g2 g3 [H1 B1] [H2 B2]. split; [|set_solver]. intros p.
    destruct (H1 p) as [e1 E1], (H2 p) as [e2 E2]. exists (e2 ++ e1). by rewrite E2, E1, app_assoc.
Qed.

(** A version that can be parsed, also when only its beginning is read. *)
Definition readable (v : version) : Prop :=
  (Z.of_nat (length (v_data v)) < INT_MAX)%Z /\
  forall n, is_Some (rules_of_document (c_str (take n (v_data v)))).

Section reload.
Context {AP : AprPaths} {AF : AprFiles}.

(** The names of rules files. *)
Context (rules_file : cstr -> Prop).

(** Time stamps tell the versions of a file apart, and all can be parsed. *)
Record versions_ok (g : history) : Prop := {
  vo_stamps p : rules_file p -> NoDup (stamp <$> g_files g p);
  vo_readable p v : rules_file p -> v ∈ g_files g p -> readable v;
}.

(** The rules files on disk are the newest versions. *)
Record files_ok (g : history) (d : disk) : Prop := {
  fo_versions : versions_ok g;
  fo_current p i : rules_file p -> d_names d !! p = Some i -> exists v vs, g_files g p = v :: vs /\
    d_data d !! i = Some (v_data v) /\ d_mtime d !! i = Some (v_mtime v);
}.

(** [rs] is what parsing gives: of [v], as far as the size of [u] reaches. *)
Definition read_as (u v : version) (rs : option cacher_ruleset) : Prop :=
  parsed_from (take (length (v_data u)) (v_data v)) rs.

(** An entry of the cache, from when the file was [u]. *)
Definition entry_ok (g : history) (e : cacher_rules_cache_entry) : Prop :=
  rules_file (ce_path e) -> exists u v, at_least (g_files g (ce_path e)) u v /\
    stamp u = (ce_mtime e, ce_size e) /\ read_as u v (ce_ruleset e) /\
    list_to_set (opt_ruleset_blks (ce_ruleset e)) ⊆ g_blocks g.

(** The memory of the process. *)
Record memory_ok (g : history) (s : pstate) : Prop := {
  mo_versions : versions_ok g;
  mo_heap : heap_wf (ps_heap s);
  mo_reliable : reliable (ps_heap s);
  mo_entries : Forall (entry_ok g) (ps_cache s);
  mo_live : g_blocks g ⊆ h_live (ps_heap s);
}.

(** ** Threads

    What a thread has open, and the bytes of the files it has open. *)
Record local := Local { lc_fds : gmap nat (nat * nat); lc_known : gmap nat (list ascii) }.

Definition nothing_open : local := Local ∅ ∅.

Definition has (x : local) (d : disk) : Prop := lc_fds x ⊆ d_fds d /\ lc_known x ⊆ d_data d.

(** The thread is about to read the text of a syntax error, and cJSON's record of
    the last error is not what its own parse left there: some other parse has
    written to it since. *)
Definition error_lost {A} (p : prog pstate A) (s : pstate) : Prop :=
  exists own json b text k, p = mem (read_text own json text) ≫= k /\ cJSON_Parse json = PErr b /\
    (text, err_position (ps_error s)) <> (Some own, error_position b).

Lemma error_lost_bind {A B} (p : prog pstate A) (k : A -> prog pstate B) s :
  error_lost p s -> error_lost (p ≫= k) s.
Proof. intros (own & json & b & text & k' & -> & H). by exists own, json, b, text, (fun a => k' a ≫= k). Qed.

(** [rg p Q x g]: from the history [g] on, with any steps of others between its
    own, the thread [p] keeps the shared state in order, is never undefined
    unless it reads an error text that is lost, and ends in [Q]. *)
Fixpoint rg {A} (p : prog pstate A) (Q : history -> A -> Prop) (x : local) (g : history) : Prop :=
  match p with
  | Ret a => forall g', grows g g' -> Q g' a
  | Undef => False
  | Do o k => is_read o = true /\ forall g' d, grows g g' -> files_ok g' d -> has x d ->
      op_defined d o = true /\ forall a d', fs_spec d o a d' -> exists x', has x' d' /\
        (forall y, lc_fds x ##ₘ lc_fds y -> has y d -> has y d' /\ lc_fds x' ##ₘ lc_fds y) /\ rg (k a) Q x' g'
  | Mem m k => forall g' s, grows g g' -> memory_ok g' s ->
      (m s = None /\ error_lost p s) \/ exists a s' g'', m s = Some (a, s') /\
      grows g' g'' /\ g_files g'' = g_files g' /\ memory_ok g'' s' /\ rg (k a) Q x g''
  end.

Lemma rg_grows {A} (p : prog pstate A) Q x g g' : rg p Q x g -> grows g g' -> rg p Q x g'.
Proof.
  intros Hp Hg. destruct p as [a| |o k|X m k]; cbn in *; [|done| |].
  - intros g2 H2. apply Hp. by etrans.
  - destruct Hp as [Hr Hp]. split; [done|]. intros g2 d H2. apply Hp. by etrans.
  - intros g2 s H2. apply Hp. by etrans.
Qed.

Lemma rg_bind {A B} (p : prog pstate A) (k : A -> prog pstate B) P Q x g :
  rg p P x g -> (forall a y g', grows g g' -> P g' a -> rg (k a) Q y g') -> rg (p ≫= k) Q x g.
Proof.
  intros Hp Hk. revert x g Hp Hk. induction p as [a| |o k' IH|X m k' IH]; intros x g; cbn; try done.
  - intros Hp Hk. by apply Hk; [|apply Hp].
  - intros [Hr Hp] Hk. split; [done|]. intros g' d Hg Hf Hx. destruct (Hp g' d Hg Hf Hx) as [Hd Ha].
    split; [done|]. intros a d' Hs. destruct (Ha a d' Hs) as (x' & Hx' & Hfr & Hrg).
    exists x'. split; [done|]. split; [done|]. apply IH; [done|]. intros b y g2 H2. apply Hk. by etrans.
  - intros Hp Hk g' s Hg Hs. destruct (Hp g' s Hg Hs) as [[E Hlost]|(a & s' & g2 & E & Hg2 & Hf2 & Hm & Hrg)].
    { left. split; [done|]. by apply (error_lost_bind _ k) in Hlost. }
    right. exists a, s', g2. split_and!; [done..|]. apply IH; [done|]. intros b y g3 H3. apply Hk. etrans; [exact Hg|by etrans].
Qed.

(** *** Rules for the calls *)

Section calls.
Context {B : Type} (Q : history -> B -> Prop) (x : local) (g : history).

(** A call that leaves the files and what is open alone. *)
Lemma has_same d d' y : d_fds d' = d_fds d -> d_data d' = d_data d -> has y d -> has y d'.
Proof. unfold has. by intros -> ->. Qed.

Lemma rg_stat path (k : option (Z * Z) -> prog pstate B) :
  rules_file path -> (forall g', grows g g' -> rg (k None) Q x g') ->
  (forall g' u, grows g g' -> head (g_files g' path) = Some u -> rg (k (Some (stamp u))) Q x g') ->
  rg (call (Stat path) ≫= k) Q x g.
Proof.
  intros Hp Hn Hs. split; [done|]. intros g' d Hg Hf Hx. split; [done|].
  intros a d' [(t & _ & ->) Ha]. exists x. split; [by eapply has_same|]. split; [by intros y|].
  destruct a as [[m n]|]; [|by apply Hn]. destruct (Ha m n eq_refl) as (i & data & Hi & Hm & Hd & ->).
  destruct (fo_current _ _ Hf path i Hp Hi) as (v & vs & E & Ed & Em).
  assert (stamp v = (m, Z.of_nat (length data))) as <- by (unfold stamp; congruence).
  apply Hs; [done|]. by rewrite E.
Qed.

Lemma has_fd d U fd v : has x d -> lc_fds x !! fd = Some v -> U = d_fds d -> U !! fd = Some v.
Proof. intros [Hf _] H ->. by eapply lookup_weaken. Qed.

(** One open file more, moved on, or closed. *)
Lemma has_alter d d' fd v y :
  d_data d' = d_data d -> d_fds d' = partial_alter (fun _ => v) fd (d_fds d) ->
  (is_Some (lc_fds x !! fd) \/ d_fds d !! fd = None) -> has x d ->
  lc_fds x ##ₘ lc_fds y -> has y d ->
  has y d' /\ partial_alter (fun _ => v) fd (lc_fds x) ##ₘ lc_fds y.
Proof.
  intros Ed Ef Hfd [Hx _] Hdis [Hy Hk].
  assert (lc_fds y !! fd = None) as Hn.
  { destruct Hfd as [[u Hu]|Hn]; [by eapply map_disjoint_Some_l|by eapply lookup_weaken_None]. }
  split; [split; [|by rewrite Ed]|].
  - rewrite Ef. apply map_subseteq_spec. intros j u Hj. rewrite lookup_partial_alter_ne by congruence.
    by eapply lookup_weaken.
  - apply map_disjoint_spec. intros j u u' Hu Hu'. rewrite lookup_partial_alter_ne in Hu by congruence.
    by eapply (map_disjoint_spec (lc_fds x)).
Qed.

Lemma alter_mono d fd v : lc_fds x ⊆ d_fds d ->
  partial_alter (fun _ => v) fd (lc_fds x) ⊆ partial_alter (fun _ => v) fd (d_fds d).
Proof.
  intros H. apply map_subseteq_spec. intros j u. destruct (decide (j = fd)) as [->|Hne].
  - by rewrite !lookup_partial_alter_eq.
  - rewrite !lookup_partial_alter_ne by done. intros Hj. by eapply lookup_weaken.
Qed.

Lemma rg_open path (k : option nat -> prog pstate B) :
  rules_file path -> (forall g', grows g g' -> rg (k None) Q x g') ->
  (forall g' fd i v, grows g g' -> head (g_files g' path) = Some v -> readable v ->
     rg (k (Some fd)) Q (Local (<[fd := (i, 0)]> (lc_fds x)) (<[i := v_data v]> (lc_known x))) g') ->
  rg (call (OpenRead path) ≫= k) Q x g.
Proof.
  intros Hp Hn Hs. split; [done|]. intros g' d Hg Hf Hx. split; [done|]. intros [fd|] d' Hsp.
  - destruct Hsp as (i & Hi & Hfd & t & _ & ->). destruct (fo_current _ _ Hf path i Hp Hi) as (v & vs & E & Ed & Em).
    assert (readable v) as Hv by (apply (vo_readable _ (fo_versions _ _ Hf) path v Hp); rewrite E; set_solver).
    eexists. split; [|split; [|apply (Hs g' fd i v Hg); [by rewrite E|done]]].
    + destruct Hx as [Hx1 Hx2]. split; cbn; [by apply (alter_mono d fd (Some (i, 0)))|by apply insert_subseteq_l].
    + intros y Hdis Hy. apply (has_alter d _ fd (Some (i, 0)) y); eauto.
  - destruct Hsp as (t & _ & ->). exists x. split; [by eapply has_same|]. split; [by intros y|by apply Hn].
Qed.

Lemma rg_read fd n i b (k : option (list ascii) -> prog pstate B) :
  lc_fds x !! fd = Some (i, 0) -> lc_known x !! i = Some b ->
  (forall off g', grows g g' -> rg (k None) Q (Local (<[fd := (i, off)]> (lc_fds x)) (lc_known x)) g') ->
  (forall off g', grows g g' -> rg (k (Some (take n b))) Q (Local (<[fd := (i, off)]> (lc_fds x)) (lc_known x)) g') ->
  rg (call (ReadFull fd n) ≫= k) Q x g.
Proof.
  intros Hfd Hi Hn Hs. split; [done|]. intros g' d Hg Hf Hx. pose proof (has_fd d _ fd _ Hx Hfd eq_refl) as Hd.
  split; [cbn; apply bool_decide_eq_true; by rewrite Hd|].
  assert (forall off d', d_data d' = d_data d -> d_fds d' = <[fd := (i, off)]> (d_fds d) ->
    has (Local (<[fd := (i, off)]> (lc_fds x)) (lc_known x)) d' /\
    forall y, lc_fds x ##ₘ lc_fds y -> has y d -> has y d' /\ <[fd := (i, off)]> (lc_fds x) ##ₘ lc_fds y) as Hup.
  { intros off d' Ed Ef. split.
    - destruct Hx as [Hx1 Hx2]. split; cbn; [rewrite Ef; by apply (alter_mono d fd (Some (i, off)))|by rewrite Ed].
    - intros y Hdis Hy. apply (has_alter d d' fd (Some (i, off)) y); eauto. }
  intros [a|] d' Hsp.
  - destruct Hsp as (j & off & b' & Hj & Hb' & _ & -> & t & _ & ->). rewrite Hd in Hj. injection Hj as <- <-.
    rewrite (lookup_weaken _ _ _ _ Hi (proj2 Hx)) in Hb'. injection Hb' as <-. rewrite drop_0.
    destruct (Hup (0 + n) (set_now (set_fds d (<[fd := (i, 0 + n)]> (d_fds d))) t)) as [H1 H2]; [done..|].
    eexists. split; [exact H1|]. split; [exact H2|]. by apply Hs.
  - destruct Hsp as (off & j & off0 & Hj & t & _ & ->). rewrite Hd in Hj. injection Hj as <- _.
    destruct (Hup off (set_now (set_fds d (<[fd := (i, off)]> (d_fds d))) t)) as [H1 H2]; [done..|].
    eexists. split; [exact H1|]. split; [exact H2|]. by apply Hn.
Qed.

Lemma rg_close fd v (k : unit -> prog pstate B) :
  lc_fds x !! fd = Some v ->
  (forall g', grows g g' -> rg (k tt) Q (Local (delete fd (lc_fds x)) (lc_known x)) g') ->
  rg (call (Close fd) ≫= k) Q x g.
Proof.
  intros Hfd Hs. split; [done|]. intros g' d Hg Hf Hx. pose proof (has_fd d _ fd _ Hx Hfd eq_refl) as Hd.
  split; [cbn; apply bool_decide_eq_true; by rewrite Hd|]. intros [] d' (t & _ & ->).
  eexists. split; [|split; [|by apply Hs]].
  - destruct Hx as [Hx1 Hx2]. split; cbn; [by apply (alter_mono d fd None)|done].
  - intros y Hdis Hy. apply (has_alter d _ fd None y); eauto.
Qed.
End calls.

(** ** The rule set of a request *)

Lemma entry_ok_grows g g' e : grows g g' -> entry_ok g e -> entry_ok g' e.
Proof.
  intros [Hf Hb] He Hp. destruct (He Hp) as (u & v & Ha & Es & Hr & Hl). exists u, v. split_and!; [|done|done|set_solver].
  destruct (Hf (ce_path e)) as [ext ->]. by apply at_least_app.
Qed.

(** A step that changes cJSON's record of errors at most. *)
Lemma rg_error {X B} (m : pstate -> option (X * pstate)) (Q : history -> B -> Prop) x g (k : X -> prog pstate B) :
  (forall s, exists a s', m s = Some (a, s') /\ ps_heap s' = ps_heap s /\ ps_cache s' = ps_cache s) ->
  (forall a g', grows g g' -> rg (k a) Q x g') -> rg (mem m ≫= k) Q x g.
Proof.
  intros Hm Hk. cbn. intros g' s Hg [Hver Hwf Hr He Hl]. right. destruct (Hm s) as (a & s' & E & Eh & Ec).
  exists a, s', g'. split_and!; [done..| |by apply Hk]. split; [done|by rewrite ?Eh, ?Ec..].
Qed.

(** The text of the error is read: what was written, or what is lost. *)
Lemma rg_error_text {B} (Q : history -> B -> Prop) x g own json b (k : option cstr -> prog pstate B) :
  cJSON_Parse json = PErr b -> error_position b <= length json ->
  (forall ep g', grows g g' -> rg (k ep) Q x g') -> rg (cJSON_GetErrorPtr own json ≫= k) Q x g.
Proof.
  intros Hb Hle Hk. apply (rg_error read_json); [intros s; by eexists _, _|]. intros text g1 H1.
  intros g2 s H2 Hm.
  destruct (read_text own json text s) as [[ep s']|] eqn:E; [right|left].
  - assert (s' = s) as -> by (unfold read_text in E; by repeat case_match; simplify_eq).
    exists ep, s, g2. split_and!; [done..|apply Hk; by etrans].
  - split; [done|]. exists own, json, b, text, k. split; [done|]. split; [done|]. intros [= -> Ep].
    apply Nat.leb_le in Hle. unfold read_text in E. by rewrite Ep, Nat.eqb_refl, Hle in E.
Qed.

Lemma rg_parse {B} (Q : history -> B -> Prop) x g json vs (k : option cacher_ruleset -> prog pstate B) :
  (Z.of_nat (length json) < INT_MAX)%Z -> rules_of_document json = Some vs ->
  (forall g' rs, grows g g' -> rs ≫= view_ruleset = vs -> list_to_set (opt_ruleset_blks rs) ⊆ g_blocks g' ->
     rg (k rs) Q x g') ->
  rg (parse_or_log json ≫= k) Q x g.
Proof.
  intros Hl Hvs Hk. apply (rg_error reset_json); [intros s; by eexists _, _|]. intros own g0 H0.
  apply (rg_error (write_position 0)); [intros s; by eexists _, _|]. intros [] g1 H1.
  intros g' s Hg [Hver Hwf Hr He Hlive]. right.
  destruct (wp_run _ _ _ (parse_ruleset_builds json vs _ Hwf Hl Hvs))
    as ([rs e] & h' & E & Ho & Hv & Herr & Hmsg & Hb). specialize (Hv Hr).
  set (g2 := History (g_files g') (g_blocks g' ∪ list_to_set (opt_ruleset_blks rs))).
  assert (grows g' g2) as Hg2 by (split; [intros p; by exists []|set_solver]).
  assert (forall g'' rs', grows g2 g'' -> rs' = rs -> rg (k rs') Q x g'') as Hrg.
  { intros g'' rs' H2 ->. apply Hk; [by repeat (etrans; [eassumption|])|done|]. destruct H2 as [_ H2]. cbn in H2. set_solver. }
  eexists (rs, e), _, g2. split; [cbv beta; by rewrite E|]. split; [done|]. split; [done|]. split.
  - split; cbn; [by destruct Hver|by eapply owns_wf|by eapply owns_reliable| |].
    + eapply Forall_impl; [exact He|]. intros e'. by apply entry_ok_grows.
    + rewrite (own_live _ _ _ Ho). set_solver.
  - destruct e as [| |position|]; cbn [error_of] in Herr; [|done| |].
    + destruct rs as [rs|]; [by apply Hrg|]. cbn in Hv. by destruct (Hmsg (eq_sym Hv)).
    + destruct Herr as [-> Hpos], (Hb position Hr eq_refl) as (b & Eb & ->).
      apply (rg_error (write_json own)); [intros s'; by eexists _, _|]. intros [] g3 H3.
      apply (rg_error (write_position _)); [intros s'; by eexists _, _|]. intros [] g4 H4.
      apply (rg_error_text _ _ _ own json b); [done..|]. intros ep g5 H5. apply Hrg; [by repeat (etrans; [eassumption|])|done].
    + subst rs. by apply Hrg.
Qed.

(** The rule set a request that began at [g0] may be decided by: of a version
    that was in force since, as far as the size of one that was reaches. *)
Definition decided (g0 : history) (path : cstr) (g : history) (rs : option cacher_ruleset) : Prop :=
  list_to_set (opt_ruleset_blks rs) ⊆ g_blocks g /\
  (rs = None \/ exists u v, in_force (g_files g0 path) (g_files g path) u /\
     in_force (g_files g0 path) (g_files g path) v /\ read_as u v rs).

Lemma decided_grows g0 path g g' rs : grows g g' -> decided g0 path g rs -> decided g0 path g' rs.
Proof.
  intros [Hf Hb] [Hl H]. split; [set_solver|]. destruct H as [->|(u & v & Hu & Hv & Hr)]; [by left|right].
  destruct (Hf path) as [ext ->]. exists u, v. split_and!; [by apply in_force_app..|done].
Qed.

Lemma decided_none g0 path g x : rg (mret None) (decided g0 path) x g.
Proof. intros g' _. split; [done|by left]. Qed.

Lemma cache_replace_elem l e e' : e' ∈ cache_replace l e -> e' = e \/ e' ∈ l.
Proof. induction l as [|e2 l IH]; cbn; [auto|]. destruct (decide _); set_solver. Qed.

(** The second critical section keeps the cache in order. *)
Lemma rg_store {B} (Q : history -> B -> Prop) x g e (k : unit -> prog pstate B) :
  entry_ok g e -> rg (k tt) Q x g -> rg (mem (cache_store e) ≫= k) Q x g.
Proof.
  intros He Hk. cbn. intros g' s Hg [Hver Hwf Hr Hes Hlive]. right. eexists tt, _, g'. split; [done|]. split; [done|].
  split; [done|]. split; [|by eapply rg_grows]. split; cbn; [done|done|done| |done].
  apply (entry_ok_grows _ _ _ Hg) in He. rewrite Forall_forall in Hes |- *. intros e' He'.
  destruct (cache_lookup (ps_cache s) (ce_path e)).
  - apply cache_replace_elem in He' as [->|He']; auto.
  - apply elem_of_cons in He' as [->|He']; auto.
Qed.

Section path.
Context (path : cstr) (Hpath : rules_file path).

(** Loading the file after [apr_stat] found [u]. *)
Lemma rg_load g0 g x u :
  grows g0 g -> in_force (g_files g0 path) (g_files g path) u ->
  rg (load_ruleset path (v_mtime u) (Z.of_nat (length (v_data u)))) (decided g0 path) x g.
Proof.
  intros Hg Hu. unfold load_ruleset. apply rg_open; [done|intros; apply decided_none|].
  intros g1 fd i v H1 Hv Hread. rewrite Nat2Z.id.
  eapply rg_read; [apply lookup_insert_eq|apply lookup_insert_eq| |]; cbn [lc_fds lc_known]; intros off g2 H2.
  { eapply rg_close; [apply lookup_insert_eq|]. intros g3 H3. apply decided_none. }
  eapply rg_close; [apply lookup_insert_eq|]. cbn [lc_fds lc_known]. intros g3 H3.
  destruct Hread as [Hlen Hparse]. destruct (Hparse (length (v_data u))) as [vs Hvs].
  assert (in_force (g_files g0 path) (g_files g1 path) u) as Hu1.
  { destruct H1 as [Hf _], (Hf path) as [ext ->]. by apply in_force_app. }
  assert (at_least (g_files g1 path) u v) as Hat.
  { destruct (g_files g1 path) as [|v' l] eqn:E; [done|]. injection Hv as ->. apply at_least_head.
    destruct Hu1 as (ext & E1 & [Hin|Hh]); rewrite E1; [set_solver|]. destruct (g_files g0 path); [done|].
    injection Hh as ->. set_solver. }
  assert (in_force (g_files g0 path) (g_files g1 path) v) as Hv1.
  { apply in_force_now; [|done]. destruct Hg as [Hf _], H1 as [Hf1 _], (Hf path) as [e1 E1], (Hf1 path) as [e2 E2].
    exists (e2 ++ e1). by rewrite E2, E1, app_assoc. }
  eapply rg_parse; [|exact Hvs|].
  { pose proof (c_str_length (take (length (v_data u)) (v_data v))). rewrite length_take in *. lia. }
  intros g4 rs H4 Hrs Hblks. assert (grows g1 g4) as H14 by (etrans; [exact H2|by etrans]).
  assert (read_as u v rs) as Hr by by exists vs.
  apply rg_store.
  - intros _. exists u, v. cbn. split_and!; [|done..]. destruct H14 as [Hf _], (Hf path) as [ext ->]. by apply at_least_app.
  - intros g5 H5. apply (decided_grows _ _ g4); [done|]. apply (decided_grows _ _ (History (g_files g1) (g_blocks g4))).
    + split; [apply H14|done].
    + split; [done|]. right. by exists u, v.
Qed.

(** The first critical section: an entry with the stamp of [u]. *)
Lemma rg_hit {B} (Q : history -> B -> Prop) x g0 g u (k : option (option cacher_ruleset) -> prog pstate B) :
  in_force (g_files g0 path) (g_files g path) u ->
  (forall g' rs, grows g g' -> decided g0 path g' rs -> rg (k (Some rs)) Q x g') ->
  (forall g', grows g g' -> rg (k None) Q x g') ->
  rg (mem (Config.cache_hit path (v_mtime u) (Z.of_nat (length (v_data u)))) ≫= k) Q x g.
Proof.
  intros Hu Hhit Hmiss. cbn. intros g' s Hg Hm. right. eexists _, s, g'. split; [reflexivity|]. split; [done|].
  split; [done|]. split; [done|].
  destruct (cache_lookup (ps_cache s) path) as [e|] eqn:E; [|by apply Hmiss].
  destruct (Z.eqb_spec (ce_mtime e) (v_mtime u)) as [Em|]; [|by apply Hmiss].
  destruct (Z.eqb_spec (ce_size e) (Z.of_nat (length (v_data u)))) as [Es|]; [|by apply Hmiss].
  apply Hhit; [done|]. apply cache_lookup_Some in E as [He Ep].
  destruct Hm as [[Hnd _] _ _ Hes _]. rewrite Forall_forall in Hes. specialize (Hes e He). unfold entry_ok in Hes.
  rewrite Ep in Hes. destruct (Hes Hpath) as (u' & v & Hat & Hst & Hr & Hl). split; [done|]. right.
  assert (in_force (g_files g0 path) (g_files g' path) u) as Hu'.
  { destruct Hg as [Hf _], (Hf path) as [ext ->]. by apply in_force_app. }
  assert (u' = u) as ->.
  { apply (stamp_inj (g_files g' path)); [by apply Hnd|by eapply at_least_elem| |].
    - destruct Hu' as (ext & -> & [Hin|Hh]); [set_solver|]. destruct (g_files g0 path); [done|]. injection Hh as ->. set_solver.
    - rewrite Hst. unfold stamp. congruence. }
  exists u, v. split_and!; [done| |done].
  eapply in_force_at_least; [|exact Hu'|exact Hat]. by eapply NoDup_fmap_1, Hnd.
Qed.

Lemma rg_from_file dconf f g x :
  resolve_rules_file_path dconf f = Some path ->
  rg (get_ruleset_from_file dconf f) (decided g path) x g.
Proof.
  intros Hp. unfold get_ruleset_from_file. cbn [mem mbind prog_bind].
  intros g1 s H1 Hm. right. eexists _, s, g1. split; [reflexivity|]. split; [done|]. split; [done|]. split; [done|].
  rewrite Hp. destruct (negb (ps_mutex s)); [apply decided_none|].
  apply rg_stat; [done|intros; apply decided_none|]. intros g2 u H2 Hu. cbn [stamp].
  assert (grows g g2) as Hg by by etrans.
  assert (in_force (g_files g path) (g_files g2 path) u) as Hf by (apply in_force_now; [apply Hg|done]).
  apply rg_hit with g; [done| |].
  - intros g3 rs H3 Hrs g4 H4. by eapply decided_grows.
  - intros g3 H3. apply rg_load; [by etrans|]. destruct H3 as [Hf3 _], (Hf3 path) as [ext ->]. by apply in_force_app.
Qed.
End path.

Lemma rg_mono {A} (p : prog pstate A) (P Q : history -> A -> Prop) x g :
  rg p P x g -> (forall g' a, P g' a -> Q g' a) -> rg p Q x g.
Proof.
  intros Hp HPQ. revert x g Hp. induction p as [a| |o k IH|X m k IH]; intros x g; cbn; auto.
  - intros [Hr Hp]. split; [done|]. intros g' d Hg Hf Hx. destruct (Hp g' d Hg Hf Hx) as [Hd Ha]. split; [done|].
    intros a d' Hs. destruct (Ha a d' Hs) as (x' & Hx' & Hfr & Hrg). eauto 6.
  - intros Hp g' s Hg Hs. destruct (Hp g' s Hg Hs) as [Hlost|(a & s' & g2 & E & Hg2 & Hf2 & Hm & Hrg)]; [by left|right].
    exists a, s', g2. split_and!; auto.
Qed.

(** ** Threads and edits *)

Abbreviation threads := (list (prog pstate (option cacher_ruleset))).
Abbreviation state := ((cstr -> list version) * threads * world * pstate)%type.

Definition add_version (files : cstr -> list version) (p : cstr) (v : version) : cstr -> list version :=
  fun q => if decide (q = p) then v :: files p else files q.

(** The file at [p] is replaced: a new file is moved over it. *)
Definition edited (p : cstr) (v : version) (d d' : disk) : Prop :=
  exists j, d_data d !! j = None /\
    later (set_names (set_file d j (v_data v) (v_mtime v)) (<[p := j]> (d_names d))) d'.

(** Some thread takes a step, or a rules file is replaced by a version with a
    stamp it has not had before. *)
Inductive reload_step : state -> state -> Prop :=
  | thread_step files ps i p p' w s w' s' :
      ps !! i = Some p -> prog_step p w s = Some (p', w', s') ->
      reload_step (files, ps, w, s) (files, <[i := p']> ps, w', s')
  | edit_step files ps w w' s p v :
      rules_file p -> edited p v (view w) (view w') -> stamp v ∉ stamp <$> files p -> readable v ->
      reload_step (files, ps, w, s) (add_version files p v, ps, w', s).

Inductive reload_steps : state -> state -> Prop :=
  | reload_none c : reload_steps c c
  | reload_more c1 c2 c3 : reload_steps c1 c2 -> reload_step c2 c3 -> reload_steps c1 c3.

(** The threads [ps], with what they have open: nothing twice. *)
Record system_ok (Q : nat -> history -> option cacher_ruleset -> Prop) (g : history) (ps : threads)
    (xs : list local) (w : world) (s : pstate) : Prop := {
  so_files : files_ok g (view w);
  so_memory : memory_ok g s;
  so_thread i p : ps !! i = Some p -> exists x, xs !! i = Some x /\ has x (view w) /\ rg p (Q i) x g;
  so_disjoint i j x y : i <> j -> xs !! i = Some x -> xs !! j = Some y -> lc_fds x ##ₘ lc_fds y;
  so_number : length xs = length ps;
}.

Lemma files_ok_same g g' d d' : g_files g' = g_files g -> same_store d d' -> files_ok g d -> files_ok g' d'.
Proof.
  intros Eg (En & Ed & Em & _) [[H1 H2] H3]. split.
  - split; by rewrite Eg.
  - intros p i. rewrite Eg, En, Ed, Em. apply H3.
Qed.

Lemma system_call Q g ps xs w s i o k a w' :
  system_ok Q g ps xs w s -> ps !! i = Some (Do o k) -> run o w = (a, w') -> op_defined (view w) o = true ->
  exists xs', system_ok Q g (<[i := k a]> ps) xs' w' s.
Proof.
  intros [Hf Hm Ht Hd Hl] Hi Er Hdef. destruct (Ht i _ Hi) as (x & Hx & Hhas & Hread & Hp).
  pose proof (run_spec w o Hdef) as Hsp. rewrite Er in Hsp. cbn in Hsp.
  destruct (Hp g _ (reflexivity _) Hf Hhas) as [_ Hk]. destruct (Hk a _ Hsp) as (x' & Hhas' & Hfr & Hp').
  exists (<[i := x']> xs). assert (i < length xs) as Hlt by by eapply lookup_lt_Some.
  assert (forall j y, j <> i -> xs !! j = Some y -> has y (view w') /\ lc_fds x' ##ₘ lc_fds y) as Hfr'.
  { intros j y Hji Hy. assert (is_Some (ps !! j)) as [q Hq].
    { apply lookup_lt_is_Some. rewrite <- Hl. by eapply lookup_lt_Some. }
    destruct (Ht j q Hq) as (y' & Hy' & Hoy & _). rewrite Hy in Hy'. injection Hy' as <-.
    apply Hfr; [|done]. by eapply (Hd i j). }
  split; [|done| | |by rewrite !length_insert].
  - eapply files_ok_same; [done|by eapply is_read_store|done].
  - intros j q [(<- & <- & _)|[Hji Hq]]%list_lookup_insert_Some.
    + exists x'. by rewrite list_lookup_insert_eq.
    + destruct (Ht j q Hq) as (y & Hy & _ & Hqy). exists y. rewrite list_lookup_insert_ne by done.
      split; [done|]. split; [|done]. by eapply Hfr'.
  - intros j1 j2 y1 y2 Hne [(<- & <- & _)|[N1 H1]]%list_lookup_insert_Some
      [(<- & <- & _)|[N2 H2]]%list_lookup_insert_Some; [done| | |].
    + by eapply Hfr'.
    + symmetry. by eapply Hfr'.
    + by eapply (Hd j1 j2).
Qed.

Lemma system_thread Q g ps xs w s i p p' w' s' :
  system_ok Q g ps xs w s -> ps !! i = Some p -> prog_step p w s = Some (p', w', s') ->
  exists g' xs', system_ok Q g' (<[i := p']> ps) xs' w' s' /\ g_files g' = g_files g /\ grows g g'.
Proof.
  intros Hok Hi Hs. destruct p as [a| |o k|X m k]; cbn in Hs; try done.
  - destruct (op_defined _ _) eqn:Hd; [|done]. destruct (run o w) as [a w1] eqn:Er. injection Hs as <- <- <-.
    destruct (system_call Q g ps xs w s i o k a w1 Hok Hi Er Hd) as [xs' H]. by exists g, xs'.
  - destruct Hok as [Hf Hm Ht Hd Hl]. destruct (Ht i _ Hi) as (x & Hx & Hhas & Hp).
    destruct (Hp g s (reflexivity _) Hm) as [[E _]|(a & s1 & g' & E & Hg & Eg & Hm' & Hp')]; rewrite E in Hs; [done|].
    injection Hs as <- <- <-. exists g', xs. split; [|done].
    split; [by eapply files_ok_same|done| |done|by rewrite length_insert].
    intros j q [(<- & <- & _)|[Hji Hq]]%list_lookup_insert_Some; [by exists x|].
    destruct (Ht j q Hq) as (y & Hy & Hoy & Hqy). exists y. split_and!; [done..|]. by eapply rg_grows.
Qed.

Lemma system_edit Q g ps xs w s w' p v :
  system_ok Q g ps xs w s -> rules_file p -> edited p v (view w) (view w') ->
  stamp v ∉ stamp <$> g_files g p -> readable v ->
  system_ok Q (History (add_version (g_files g) p v) (g_blocks g)) ps xs w' s /\
  grows g (History (add_version (g_files g) p v) (g_blocks g)).
Proof.
  intros [Hf Hm Ht Hd Hl] Hp (j & Hj & t & _ & V) Hst Hread. set (g' := History _ _).
  assert (grows g g') as Hg.
  { split; [|done]. intros q. cbn. unfold add_version. destruct (decide _) as [->|]; [by exists [v]|by exists []]. }
  assert (versions_ok g') as Hver.
  { destruct Hf as [[H1 H2] _]. split; intros q; cbn; unfold add_version; destruct (decide _) as [->|]; auto.
    - intros Hq. cbn. constructor; auto.
    - intros u Hq [->|Hu]%elem_of_cons; [done|]. by apply (H2 p).
    - intros u Hq. by apply H2. }
  split; [|done]. split; [split; [done|]| | |done|done].
  - intros q i Hq. rewrite V. cbn. unfold add_version. intros [[<- <-]|[Hne Hi]]%lookup_insert_Some.
    + exists v, (g_files g p). rewrite decide_True by done. by rewrite !lookup_insert_eq.
    + destruct (fo_current _ _ Hf q i Hq Hi) as (u & us & Eu & Ed & Em). exists u, us.
      rewrite decide_False by done. rewrite !lookup_insert_ne by congruence. done.
  - destruct Hm as [_ H1 H2 H3 H4]. split; [done..| |done]. eapply Forall_impl; [exact H3|].
    intros e. by apply entry_ok_grows.
  - intros i q Hq. destruct (Ht i q Hq) as (x & Hx & [Hx1 Hx2] & Hrg). exists x. split; [done|].
    split; [|by eapply rg_grows]. split; rewrite V; cbn; [done|]. etrans; [exact Hx2|]. by apply insert_subseteq.
Qed.

Lemma system_steps Q g ps xs w s files' ps' w' s' :
  system_ok Q g ps xs w s -> reload_steps (g_files g, ps, w, s) (files', ps', w', s') ->
  exists g' xs', system_ok Q g' ps' xs' w' s' /\ g_files g' = files' /\ grows g g'.
Proof.
  intros Hok Hsteps. remember (g_files g, ps, w, s) as c eqn:Ec. remember (files', ps', w', s') as c' eqn:Ec'.
  revert files' ps' w' s' Ec'. induction Hsteps as [c|c1 c2 c3 _ IH Hstep]; intros files' ps' w' s' E3; subst.
  - injection E3 as <- <- <- <-. by exists g, xs.
  - destruct c2 as [[[files2 ps2] w2] s2]. destruct (IH eq_refl _ _ _ _ eq_refl) as (g2 & xs2 & Hok2 & <- & H12).
    inversion Hstep as [? ? i p p' ? ? ? ? Hi Hp|]; subst.
    + destruct (system_thread _ _ _ _ _ _ _ _ _ _ _ Hok2 Hi Hp) as (g3 & xs3 & Hok3 & Eg & H23).
      exists g3, xs3. split; [done|]. split; [done|by etrans].
    + edestruct system_edit as [Hok3 H23]; [exact Hok2|done..|]. eexists _, xs2. split; [exact Hok3|]. split; [done|by etrans].
Qed.

(** A process that has just started. *)
Record started (files : cstr -> list version) (w : world) (s : pstate) : Prop := {
  st_files : files_ok (History files ∅) (view w);
  st_heap : heap_wf (ps_heap s);
  st_reliable : reliable (ps_heap s);
  st_cache : ps_cache s = [];
}.

(** A request that asks for the rules of a file. *)
Definition asks (p : prog pstate (option cacher_ruleset)) : Prop :=
  exists dconf f path, resolve_rules_file_path dconf f = Some path /\ rules_file path /\
    p = get_ruleset_from_file dconf f.

Lemma reload_length files1 ps1 w1 s1 files2 ps2 w2 s2 :
  reload_steps (files1, ps1, w1, s1) (files2, ps2, w2, s2) -> length ps1 = length ps2.
Proof.
  intros H. change (length ps1) with (length (snd (fst (fst (files1, ps1, w1, s1))))).
  change (length ps2) with (length (snd (fst (fst (files2, ps2, w2, s2))))).
  induction H as [|c1 c2 c3 _ IH Hs]; [done|]. rewrite IH. destruct Hs; cbn; [by rewrite length_insert|done].
Qed.

Lemma system_start files ps w s :
  started files w s -> Forall asks ps ->
  system_ok (fun _ _ _ => True) (History files ∅) ps (replicate (length ps) nothing_open) w s.
Proof.
  intros [Hf Hwf Hr Hc] Hps. split; [done| | | |by rewrite length_replicate].
  - split; [by destruct Hf|done|done|by rewrite Hc|done].
  - intros i p Hp. exists nothing_open. split_and!.
    + apply lookup_replicate. split; [done|]. by eapply lookup_lt_Some.
    + split; cbn; apply map_empty_subseteq.
    + rewrite Forall_lookup in Hps. destruct (Hps i p Hp) as (dconf & f & path & Hres & Hpath & ->).
      eapply rg_mono; [by apply rg_from_file|done].
  - intros i j x y _ [-> _]%lookup_replicate [-> _]%lookup_replicate. apply map_disjoint_empty_l.
Qed.

(** The same threads, one of which promises more. *)
Lemma system_promise Q Q' g ps xs w s i p :
  system_ok Q g ps xs w s -> ps !! i = Some p -> (forall x, rg p (Q' i) x g) ->
  (forall j, j <> i -> Q' j = Q j) -> system_ok Q' g ps xs w s.
Proof.
  intros [Hf Hm Ht Hd Hl] Hi Hp HQ. split; [done|done| |done|done].
  intros j q Hj. destruct (Ht j q Hj) as (x & Hx & Hhas & Hq). exists x. split_and!; [done..|].
  destruct (decide (j = i)) as [->|Hne]; [|by rewrite HQ]. rewrite Hi in Hj. injection Hj as <-. apply Hp.
Qed.

(** C26: rules files may be replaced at any time and any number of requests may ask
    for their rules, interleaved in any way and whichever calls fail, with
    memory that does not run out, documents whose numbers all convert, and a new
    modification time or size for each replacement.  A request is undefined in
    one case only: it reads the text of a syntax error after another parse has
    overwritten the record its own parse left in cJSON's static (see
    [error_text_race]).  The rule set a request gets is never freed while the
    process runs; and it is none, or what parsing a version in force while the
    request ran gives, read as far as the size of such a version: of the file as
    it is when nothing was replaced meanwhile. *)
Theorem rules_reload_coherent files0 ps0 w0 s0 files1 ps1 w1 s1 files2 ps2 w2 s2 i dconf f path :
  started files0 w0 s0 -> Forall asks ps0 ->
  reload_steps (files0, ps0, w0, s0) (files1, ps1, w1, s1) ->
  ps1 !! i = Some (get_ruleset_from_file dconf f) ->
  resolve_rules_file_path dconf f = Some path -> rules_file path ->
  reload_steps (files1, ps1, w1, s1) (files2, ps2, w2, s2) ->
  exists p, ps2 !! i = Some p /\
    (is_Some (prog_step p w2 s2) \/ error_lost p s2 \/
     exists rs, p = Ret rs /\ list_to_set (opt_ruleset_blks rs) ⊆ h_live (ps_heap s2) /\
       (rs = None \/
        (exists u v, in_force (files1 path) (files2 path) u /\ in_force (files1 path) (files2 path) v /\
           parsed_from (take (length (v_data u)) (v_data v)) rs)) /\
       (files2 path = files1 path -> rs = None \/ exists v l, files2 path = v :: l /\ parsed_from (v_data v) rs)).
Proof.
  intros Hst Hps H01 Hi Hres Hpath H12. pose proof (system_start _ _ _ _ Hst Hps) as Hok0.
  destruct (system_steps _ _ _ _ _ _ _ _ _ _ Hok0 H01) as (g1 & xs1 & Hok1 & <- & _).
  set (Q := fun j => if decide (j = i) then decided g1 path else fun _ _ => True).
  assert (system_ok Q g1 ps1 xs1 w1 s1) as Hok1'.
  { eapply system_promise; [exact Hok1|exact Hi| |].
    - intros x. unfold Q. rewrite decide_True by done. by apply rg_from_file.
    - intros j Hj. unfold Q. by rewrite decide_False. }
  destruct (system_steps _ _ _ _ _ _ _ _ _ _ Hok1' H12) as (g2 & xs2 & Hok2 & <- & _).
  assert (i < length ps2) as Hlt.
  { replace (length ps2) with (length ps1); [by eapply lookup_lt_Some|]. by eapply reload_length. }
  apply lookup_lt_is_Some in Hlt as [p Hp]. exists p. split; [done|].
  destruct Hok2 as [Hf Hm Ht _ _]. destruct (Ht i p Hp) as (x & _ & Hhas & Hrg). unfold Q in Hrg.
  rewrite decide_True in Hrg by done. destruct p as [rs| |o k|X m k]; cbn in Hrg |- *; [right; right|done|left|].
  - destruct (Hrg g2 (reflexivity _)) as [Hl Hd]. exists rs. split; [done|].
    split; [pose proof (mo_live _ _ Hm); set_solver|]. split; [done|]. intros E.
    destruct Hd as [->|(u & v & Hu & Hv & Hr)]; [by left|right]. rewrite E in Hu, Hv.
    destruct (in_force_same _ _ Hu) as [l El]. destruct (in_force_same _ _ Hv) as [l' El'].
    exists v, l'. split; [by rewrite E|]. assert (u = v) as -> by congruence. unfold read_as in Hr.
    by rewrite firstn_all in Hr.
  - destruct Hrg as [_ Hk]. destruct (Hk g2 _ (reflexivity _) Hf Hhas) as [-> _]. destruct (run o w2). by eexists.
  - destruct (Hrg g2 _ (reflexivity _) Hm) as [[_ Hlost]|(a & s' & g3 & -> & _)]; [by right; left|left; by eexists].
Qed.
End reload.

(** ** A file that is replaced between two requests *)

Definition edit_disk (p : cstr) (v : version) (d : disk) : disk :=
  let j := fresh_key (d_data d) in
  set_names (set_file d j (v_data v) (v_mtime v)) (<[p := j]> (d_names d)).

Lemma edit_disk_edited p v d : edited p v d (edit_disk p v d).
Proof. exists (fresh_key (d_data d)). split; [apply fresh_key_None|apply later_refl]. Qed.

(** One of the threads, or an edit. *)
Inductive turn := Turn (i : nat) | Edit (p : cstr) (v : version).

Fixpoint run_reload (sched : list turn) (files : cstr -> list version)
    (ps : list (prog pstate (option cacher_ruleset))) (w : @world ref_files) (s : pstate) :=
  match sched with
  | [] => Some (files, ps, w, s)
  | Turn i :: sched' =>
      p ← ps !! i; '(p', w', s') ← prog_step p w s; run_reload sched' files (<[i := p']> ps) w' s'
  | Edit p v :: sched' =>
      if forallb (fun u => negb (bool_decide (stamp u = stamp v))) (files p)
      then run_reload sched' (add_version files p v) ps (edit_disk p v w) s else None
  end.

Lemma reload_steps_trans {AF : AprFiles} P c1 c2 c3 :
  reload_steps P c1 c2 -> reload_steps P c2 c3 -> reload_steps P c1 c3.
Proof.
  intros H12 H23. revert H12. induction H23 as [|a b c _ IH Hs]; [done|]. intros H.
  eapply reload_more; [by apply IH|exact Hs].
Qed.

Lemma run_reload_steps (P : cstr -> Prop) sched files ps (w : @world ref_files) s c :
  Forall (fun t => match t with Edit p v => P p /\ readable v | Turn _ => True end) sched ->
  run_reload sched files ps w s = Some c -> reload_steps (AF := ref_files) P (files, ps, w, s) c.
Proof.
  intros Hs. revert files ps w s. induction Hs as [|[i|p v] sched Ht Hs IH]; intros files ps w s; cbn [run_reload].
  - intros [= <-]. constructor.
  - destruct (ps !! i) as [p|] eqn:Ep; cbn [mbind option_bind]; [|done].
    destruct (prog_step p w s) as [[[p' w'] s']|] eqn:E; cbn [mbind option_bind]; [|done]. intros H%IH.
    eapply reload_steps_trans; [eapply reload_more; [constructor|by eapply thread_step]|done].
  - destruct (forallb _ _) eqn:E; [|done]. intros H%IH. destruct Ht as [Hp Hv].
    eapply reload_steps_trans; [eapply reload_more; [constructor|]|exact H].
    eapply edit_step; [done|apply edit_disk_edited| |done].
    intros Hin. apply list_elem_of_fmap in Hin as (u & Eu & Hu).
    rewrite forallb_forall in E. apply list_elem_of_In, E in Hu.
    apply negb_true_iff, bool_decide_eq_false in Hu. by rewrite Eu in Hu.
Qed.

(** A thread that is not picked stays where it is. *)
Lemma run_reload_untouched i sched files ps w s files' ps' w' s' :
  run_reload sched files ps w s = Some (files', ps', w', s') -> Forall (fun t => t <> Turn i) sched ->
  ps' !! i = ps !! i.
Proof.
  revert files ps w s. induction sched as [|[j|p v] sched IH]; intros files ps w s; cbn [run_reload].
  - by intros [= _ <- _ _].
  - destruct (ps !! j) as [p|]; cbn [mbind option_bind]; [|done].
    destruct (prog_step p w s) as [[[p' w1] s1]|]; cbn [mbind option_bind]; [|done].
    intros H [Hj Hs]%Forall_cons. rewrite (IH _ _ _ _ H Hs). apply list_lookup_insert_ne. congruence.
  - destruct (forallb _ _); [|done]. intros H [_ Hs]%Forall_cons. by apply (IH _ _ _ _ H).
Qed.

Definition reload_path : cstr := str "/srv/site/cacher.json".
Definition old_version : version := Version 42 sample_rules.
Definition new_version : version := Version 43 (json_text "{'rules':[{'ttl':5}]}").
Definition newest_version : version := Version 44 (json_text "{'rules':[]}").

Definition reload_files : cstr -> list version := fun p => if decide (p = reload_path) then [old_version] else [].

Definition reload_asks : list (prog pstate (option cacher_ruleset)) :=
  replicate 3 (get_ruleset_from_file sample_file_conf (str "cacher.json")).

(** The first request is about to open the file when it is replaced by a shorter
    one, the second one runs after that, the third one meets another edit. *)
Definition before_second : list turn :=
  replicate 3 (Turn 0) ++ [Edit reload_path new_version].
Definition after_second : list turn :=
  [Turn 0] ++ replicate 3 (Turn 1) ++ [Turn 0] ++ replicate 7 (Turn 1) ++ [Edit reload_path newest_version; Turn 2].

Definition reload_run (sched : list turn) := run_reload sched reload_files reload_asks sample_disk sample_state.

(** The first one cannot read as many bytes as it was told the file has; the
    second one gets the new rules. *)
Lemma reload_run_ends :
  match reload_run before_second with
  | Some (files1, ps1, w1, s1) =>
      match run_reload after_second files1 ps1 w1 s1 with
      | Some (files2, [_; Ret (Some rs); _], w2, s2) =>
          match view_ruleset rs with Some [r] => (a_ttl r =? 5)%Z | _ => false end
      | _ => false
      end
  | None => false
  end = true.
Proof. vm_compute. reflexivity. Qed.

(** All beginnings of a short text can be parsed. *)
Lemma readable_short v :
  (Z.of_nat (length (v_data v)) <? INT_MAX)%Z
  && forallb (fun n => bool_decide (is_Some (rules_of_document (c_str (take n (v_data v))))))
       (seq 0 (S (length (v_data v)))) = true -> readable v.
Proof.
  intros [Hl Hall]%andb_true_iff. split; [by apply Z.ltb_lt|]. intros n. rewrite forallb_forall in Hall.
  assert (take n (v_data v) = take (n `min` length (v_data v)) (v_data v)) as ->.
  { destruct (Nat.min_spec n (length (v_data v))) as [[_ ->]|[H ->]]; [done|]. by rewrite firstn_all, take_ge. }
  eapply bool_decide_eq_true, Hall, in_seq. lia.
Qed.

Lemma sample_versions v : v = old_version \/ v = new_version \/ v = newest_version -> readable v.
Proof. intros [->|[->| ->]]; apply readable_short; vm_compute; reflexivity. Qed.

Lemma sample_started : started (AF := ref_files) (eq reload_path) reload_files sample_disk sample_state.
Proof.
  split; [split; [split|]|apply fresh_heap_wf|done|done].
  - intros p <-. cbn. unfold reload_files. rewrite decide_True by done. repeat constructor. set_solver.
  - intros p v <-. cbn. unfold reload_files. rewrite decide_True by done.
    intros [->|?%elem_of_nil]%elem_of_cons; [apply sample_versions; auto|done].
  - intros p i <- Hi. exists old_version, []. cbn. unfold reload_files. rewrite decide_True by done.
    split; [done|]. vm_compute in Hi. injection Hi as <-. split; vm_compute; reflexivity.
Defined.

Lemma rules_reload_coherent_witness :
  exists files1 ps1 w1 s1 files2 ps2 w2 s2,
    reload_steps (AF := ref_files) (eq reload_path) (reload_files, reload_asks, sample_disk, sample_state) (files1, ps1, w1, s1) /\
    reload_steps (AF := ref_files) (eq reload_path) (files1, ps1, w1, s1) (files2, ps2, w2, s2) /\
    exists p, ps2 !! 1 = Some p /\
    (is_Some (prog_step p w2 s2) \/ error_lost p s2 \/
     exists rs, p = Ret rs /\ list_to_set (opt_ruleset_blks rs) ⊆ h_live (ps_heap s2) /\
       (rs = None \/
        (exists u v, in_force (files1 reload_path) (files2 reload_path) u /\
           in_force (files1 reload_path) (files2 reload_path) v /\
           parsed_from (take (length (v_data u)) (v_data v)) rs)) /\
       (files2 reload_path = files1 reload_path -> rs = None \/
        exists v l, files2 reload_path = v :: l /\ parsed_from (v_data v) rs)).
Proof.
  pose proof reload_run_ends as H. unfold reload_run in H.
  assert (forall sched, Forall (fun t => match t with Edit p v => p = reload_path /\ (v = old_version \/ v = new_version \/ v = newest_version) | Turn _ => True end) sched ->
    Forall (fun t => match t with Edit p v => eq reload_path p /\ readable v | Turn _ => True end) sched) as Hok.
  { intros sched Hs. eapply Forall_impl; [exact Hs|]. intros [i|p v]; [done|]. intros [-> Hv]. split; [done|by apply sample_versions]. }
  pose proof (run_reload_steps (eq reload_path) before_second reload_files reload_asks sample_disk sample_state) as H1.
  destruct (run_reload before_second _ _ _ _) as [[[[files1 ps1] w1] s1]|] eqn:E1; [|discriminate H].
  pose proof (run_reload_steps (eq reload_path) after_second files1 ps1 w1 s1) as H2.
  destruct (run_reload after_second _ _ _ _) as [[[[files2 ps2] w2] s2]|]; [|discriminate H].
  assert (ps1 !! 1 = Some (get_ruleset_from_file sample_file_conf (str "cacher.json"))) as Hi.
  { rewrite (run_reload_untouched 1 _ _ _ _ _ _ _ _ _ E1) by (repeat constructor; congruence). reflexivity. }
  specialize (H1 _ (Hok before_second ltac:(repeat (apply Forall_cons; split; [auto|]); constructor)) eq_refl).
  specialize (H2 _ (Hok after_second ltac:(repeat (apply Forall_cons; split; [auto|]); constructor)) eq_refl).
  exists files1, ps1, w1, s1, files2, ps2, w2, s2. split; [exact H1|]. split; [exact H2|].
  apply (rules_reload_coherent (AF := ref_files) (eq reload_path) reload_files reload_asks sample_disk sample_state
    files1 ps1 w1 s1 files2 ps2 w2 s2 1 sample_file_conf (str "cacher.json") reload_path);
    [apply sample_started| |exact H1|exact Hi|reflexivity|reflexivity|exact H2].
  apply Forall_replicate. exists sample_file_conf, (str "cacher.json"), reload_path. by split_and!.
Defined.

(** ** Two parses at the same time *)

Section error_race.
Context {AP : AprPaths} {AF : AprFiles}.

Lemma inline_ruleset conf json :
  dc_rules_file conf = None -> dc_rules_json conf = Some json ->
  cacher_config_get_ruleset (Some conf) = (fresh ← parse_or_log json; mret (fresh, option_list fresh)).
Proof. intros Hf Hj. unfold cacher_config_get_ruleset. by rewrite Hf, Hj. Qed.

(** A text with a syntax error, as the heap part of the parse sees it. *)
Lemma parse_ruleset_syntax json b h :
  heap_wf h -> reliable h -> cJSON_Parse json = PErr b ->
  exists h', parse_ruleset (Some json) h = Some ((None, SYNTAX (error_position b)), h').
Proof.
  intros Hwf Hr Hb. destruct (wp_run _ _ _ (cJSON_Parse_parsed json h Hwf)) as (res & h' & E & H).
  exists h'. unfold parse_ruleset, mbind, M_bind. rewrite E. rewrite Hb in H. clear E Hb. destruct res as [root|position]; cbn [parsed] in H.
  - by destruct H as [[b' [=]] _].
  - destruct H as [_ H]. by destruct (H Hr) as (b' & [= <-] & ->).
Qed.

(** The thread that found the error has noted it, and the other one begins. *)
Definition race_sched : list nat := replicate 5 0 ++ [1; 0].

(** C20: inline rules with a syntax error behind their first character are logged
    and leave a request without rules when it runs alone; but when another
    request begins to parse any inline rules between the moment the error is
    noted and the moment it is read, the request reads NULL plus an offset:
    it is stuck in undefined behaviour. *)
Theorem error_text_race conf1 conf2 json1 json2 b w s :
  dc_rules_file conf1 = None -> dc_rules_json conf1 = Some json1 ->
  dc_rules_file conf2 = None -> dc_rules_json conf2 = Some json2 ->
  heap_wf (ps_heap s) -> reliable (ps_heap s) ->
  cJSON_Parse json1 = PErr b -> error_position b <> 0 ->
  (exists s1, exec (cacher_config_get_ruleset (Some conf1)) w s = Some ((None, []), w, s1)) /\
  exists p q s',
    pool_steps (cacher_config_get_ruleset ∘ Some <$> [conf1; conf2], w, s) ([p; q], w, s') /\
    prog_step p w s' = None /\ forall rs, p <> Ret rs.
Proof.
  intros Hf1 Hj1 Hf2 Hj2 Hwf Hr Hb Hpos. destruct (parse_ruleset_syntax json1 b _ Hwf Hr Hb) as [h E]. split.
  - rewrite (inline_ruleset _ _ Hf1 Hj1). unfold parse_or_log. rewrite !exec_bind.
    pose proof (parse_in_process_alone json1 w s) as Ha. unfold cacher_ruleset_parse, mbind, M_bind in Ha.
    rewrite E in Ha. destruct Ha as [e ->]. by eexists.
  - assert (exists p q s', run_pool race_sched (cacher_config_get_ruleset ∘ Some <$> [conf1; conf2]) w s
        = Some ([p; q], w, s') /\ prog_step p w s' = None /\ forall rs, p <> Ret rs) as (p & q & s' & Hrun & H).
    { cbn [fmap list_fmap compose]. rewrite (inline_ruleset _ _ Hf1 Hj1), (inline_ruleset _ _ Hf2 Hj2).
      unfold parse_or_log, parse_in_process. clear Hb. revert E Hpos.
      generalize (parse_ruleset (Some json1)) (parse_ruleset (Some json2)) (error_position b). intros m1 m2 position E Hpos.
      cbn. rewrite E. cbn. eexists _, _, _. split; [reflexivity|]. cbn. split; [|done].
      unfold read_text. cbn. by destruct position. }
    exists p, q, s'. split; [by eapply run_pool_steps|done].
Qed.
End error_race.

Definition broken_rules : cstr := json_text "{'rules':[}".
Definition broken_conf : cacher_dir_conf := set_rules_json (cacher_create_dir_config None) (Some broken_rules).

Lemma broken_rules_error :
  match cJSON_Parse broken_rules with PErr b => negb (error_position b =? 0)%nat | _ => false end = true.
Proof. vm_compute. reflexivity. Qed.

Lemma error_text_race_witness :
  (exists s1, exec (cacher_config_get_ruleset (Some broken_conf)) sample_disk sample_state
     = Some ((None, []), sample_disk, s1)) /\
  exists p q s',
    pool_steps (AF := ref_files) (cacher_config_get_ruleset ∘ Some <$> [broken_conf; sample_inline_conf],
      sample_disk, sample_state) ([p; q], sample_disk, s') /\
    prog_step p sample_disk s' = None /\ forall rs, p <> Ret rs.
Proof.
  pose proof broken_rules_error as H. destruct (cJSON_Parse broken_rules) as [|b| |] eqn:Hb; [done| |done|done].
  apply negb_true_iff, Nat.eqb_neq in H.
  apply (error_text_race (AF := ref_files) broken_conf sample_inline_conf broken_rules sample_rules b);
    [reflexivity|reflexivity|reflexivity|reflexivity|apply fresh_heap_wf|intros n; reflexivity|exact Hb|exact H].
Defined.
