(* ===== verification/Store.v ===== *)
(** * The cache as a map of pages

    What the files below the cache root stand for: a finite map from the names
    of entries to pages. [tidy] is the invariant of the tree between two
    requests, [represents] relates a tree to the map it stands for, and the
    lemmas say how publishing an entry, discarding one, reading and purging
    change the two. *)

From S2P Require Import Prelude CNum CHeap Glob Rules RulesParse RulesMatch Apr AprFile AprRef Util Meta.
From S2P Require Import Cache Publish Lookup RoundTrip Admin Purge.
From Stdlib Require Import Lia.
Local Open Scope cstr_scope.

(** ** Pages *)

Record page := Page {
  pg_meta : cacher_entry_meta;
  pg_headers : cstr;
  pg_body : list ascii;
}.

(** The files of the entry [hex]. *)
Definition entry_header (root hex : cstr) : cstr := child (shard_of root hex) (hex ++ str ".header").
Definition entry_body (root hex : cstr) : cstr := child (shard_of root hex) (hex ++ str ".body").

(** The names entries have. *)
Definition is_key (hex : cstr) : Prop := Forall is_hex hex /\ length hex = 32.

Section pages.
Context {AS : AprStrings} {AT : AprTables}.

(** The page the files of an entry hold. *)
Definition page_at (root : cstr) (d : disk) (hex : cstr) : option page :=
  text ← file_at d (entry_header root hex);
  '(meta, headers) ← parse_header_file (c_str text);
  data ← file_at d (entry_body root hex);
  Some (Page meta headers data).

Lemma page_at_Some root d hex pg :
  page_at root d hex = Some pg <->
  entry_at d (entry_header root hex) (entry_body root hex) (pg_meta pg) (pg_headers pg) (pg_body pg).
Proof.
  unfold page_at, entry_at. split.
  - destruct (file_at d (entry_header root hex)) as [text|]; cbn [mbind option_bind]; [|done].
    destruct (parse_header_file _) as [[meta headers]|] eqn:E; cbn [mbind option_bind]; [|done].
    destruct (file_at d (entry_body _ _)) as [data|]; [|done]. intros [= <-]. by exists text.
  - intros (text & -> & E & Hb). cbn [mbind option_bind]. rewrite E. cbn [mbind option_bind]. rewrite Hb.
    by destruct pg.
Qed.

(** A page depends on its two files only. *)
Lemma page_at_ext root d d' hex :
  file_at d' (entry_header root hex) = file_at d (entry_header root hex) ->
  file_at d' (entry_body root hex) = file_at d (entry_body root hex) ->
  page_at root d' hex = page_at root d hex.
Proof. unfold page_at. intros E1 E2. by rewrite E1, E2. Qed.
End pages.

(** ** The names of entries *)

Section names.
Context (root : cstr).

Lemma key_names hex : is_key hex ->
  SLASH ∉ hex ++ str ".header" /\ SLASH ∉ hex ++ str ".body" /\ "."%char ∉ hex.
Proof.
  intros [H _]. rewrite !not_elem_of_app. pose proof (hex_no_slash _ H). pose proof (hex_no_dot _ H).
  split_and!; try done; apply (bool_decide_unpack _); vm_compute; exact I.
Qed.

Lemma child_inj2 d1 n1 d2 n2 :
  SLASH ∉ n1 -> SLASH ∉ n2 -> child d1 n1 = child d2 n2 -> d1 = d2 /\ n1 = n2.
Proof.
  intros H1 H2 E. pose proof (child_name_inj _ _ _ _ H1 H2 E) as <-. split; [|done].
  unfold child in E. by apply app_inv_tail in E.
Qed.

Lemma entry_header_inj hex hex' :
  is_key hex -> is_key hex' -> entry_header root hex = entry_header root hex' -> hex = hex'.
Proof.
  intros H H' E. apply child_inj2 in E as [_ E]; [|by apply key_names..]. by apply app_inv_tail in E.
Qed.

Lemma entry_body_inj hex hex' :
  is_key hex -> is_key hex' -> entry_body root hex = entry_body root hex' -> hex = hex'.
Proof.
  intros H H' E. apply child_inj2 in E as [_ E]; [|by apply key_names..]. by apply app_inv_tail in E.
Qed.

Lemma entry_header_ne_body hex hex' : is_key hex -> is_key hex' -> entry_header root hex <> entry_body root hex'.
Proof.
  intros H H' E. apply child_inj2 in E as [_ E]; [|by apply key_names..].
  apply app_inj_1 in E as [_ E]; [discriminate E|]. by destruct H as [_ ->], H' as [_ ->].
Qed.

(** The temporary names of an entry are no entry's names. *)
Lemma entry_not_temp hex hex' p q s :
  is_key hex -> is_key hex' -> p = entry_header root hex \/ p = entry_body root hex ->
  q = entry_header root hex' \/ q = entry_body root hex' -> q ++ str "." ++ s <> p.
Proof.
  intros [Hk Hl] [Hk' Hl'] Hp Hq E.
  assert (exists t t', p = (shard_of root hex ++ [SLASH] ++ hex) ++ t /\
                       q = (shard_of root hex' ++ [SLASH] ++ hex') ++ t' /\
                       t <> t' ++ str "." ++ s) as (t & t' & Ep & Eq & Ht).
  { unfold entry_header, entry_body, child in Hp, Hq. destruct Hp as [->| ->], Hq as [->| ->];
      do 2 eexists; (split; [by rewrite <- !app_assoc|split; [by rewrite <- !app_assoc|discriminate]]). }
  rewrite Ep, Eq, <- app_assoc in E. apply app_inj_1 in E as [_ E]; [by rewrite E in Ht|].
  unfold shard_of, child. rewrite !length_app, !length_take, !length_drop. lia.
Qed.

Lemma length_on_path q hex : is_key hex -> on_path q (shard_of root hex) -> length q <= length root + 6.
Proof.
  intros [_ Hl] H. assert (length (shard_of root hex) = length root + 6) as E.
  { unfold shard_of, child. rewrite !length_app, !length_take, length_drop, Hl. cbn. lia. }
  rewrite <- E. destruct H as [<-|[s ->]]; [done|]. rewrite length_app. lia.
Qed.

Lemma length_entry hex p : is_key hex -> p = entry_header root hex \/ p = entry_body root hex ->
  length root + 44 <= length p.
Proof.
  intros [_ Hl] [->| ->]; unfold entry_header, entry_body, shard_of, child;
    rewrite !length_app, !length_take, length_drop, Hl; cbn; lia.
Qed.

Lemma on_path_shard hex :
  on_path (child root (take 2 hex)) (shard_of root hex) /\ on_path (shard_of root hex) (shard_of root hex).
Proof.
  split; [right|by left]. exists (take 2 (drop 2 hex)). unfold shard_of, child. by rewrite <- !app_assoc.
Qed.

Lemma header_name_skip hex t : "."%char ∉ hex -> header_name (hex ++ t) = header_name t.
Proof.
  intros H. unfold header_name. change (str ".header") with ("."%char :: str "header").
  change (str ".XXXXXX") with ("."%char :: str "XXXXXX"). by rewrite !strstr_skip.
Qed.

(** The header of an entry is visited by the walk, its body is not. *)
Lemma entry_header_visible hex : is_key hex -> visible root (entry_header root hex).
Proof.
  intros Hk. destruct (key_names _ Hk) as (Hs & _ & Hdot). split.
  - exists (child (child (take 2 hex) (take 2 (drop 2 hex))) (hex ++ str ".header")).
    unfold entry_header, shard_of, child. by rewrite <- !app_assoc.
  - eexists _, _. split; [reflexivity|]. split; [done|]. rewrite header_name_skip by done.
    vm_compute. reflexivity.
Qed.

Lemma entry_body_not_visible hex : is_key hex -> ~ header_file (entry_body root hex).
Proof.
  intros Hk (dir & name & E & Hs & Hn). destruct (key_names _ Hk) as (_ & Hb & Hdot).
  apply child_inj2 in E as [_ <-]; [|done..]. rewrite header_name_skip in Hn by done.
  vm_compute in Hn. discriminate Hn.
Qed.
End names.

(** ** The invariant of the tree *)

Section tidy.
Context {AS : AprStrings} {AT : AprTables}.
Context (root : cstr).

(** Between two requests: the names entries need are free or theirs, nothing
    temporary is left over, every header the administration can see is the
    header of a page, and its directories exist. *)
Record tidy (d : disk) : Prop := {
  td_time : in_time (d_now d);
  td_root : root ∈ d_dirs d;
  td_shard hex q : is_key hex -> on_path q (shard_of root hex) -> d_names d !! q = None;
  td_slot hex : is_key hex -> entry_header root hex ∉ d_dirs d /\ entry_body root hex ∉ d_dirs d;
  td_temp hex : is_key hex -> no_temp (entry_header root hex) d /\ no_temp (entry_body root hex) d;
  td_ok p : file_ok d p;
  td_visible h : visible root h -> is_Some (d_names d !! h) ->
    exists hex, is_key hex /\ h = entry_header root hex /\ is_Some (page_at root d hex);
  td_dirs hex : is_key hex -> is_Some (d_names d !! entry_header root hex) ->
    child root (take 2 hex) ∈ d_dirs d /\ shard_of root hex ∈ d_dirs d;
}.

(** The map the tree stands for. *)
Definition represents (d : disk) (m : gmap cstr page) : Prop :=
  (forall hex, is_key hex -> m !! hex = page_at root d hex) /\
  (forall hex, is_Some (m !! hex) -> is_key hex).

Lemma tidy_slot d hex :
  tidy d -> is_key hex -> slot_ready d root hex (entry_header root hex) (entry_body root hex).
Proof.
  intros Ht Hk. split.
  - intros q. by apply (td_shard d Ht).
  - by apply (td_slot d Ht).
  - by apply (td_slot d Ht).
  - by apply (td_temp d Ht).
  - by apply (td_temp d Ht).
  - apply (td_ok d Ht).
Qed.

(** A header has its body. *)
Lemma tidy_pair d hex :
  tidy d -> is_key hex -> is_Some (file_at d (entry_header root hex)) -> is_Some (file_at d (entry_body root hex)).
Proof.
  intros Ht Hk Hh. destruct (td_visible d Ht (entry_header root hex)) as (hex' & Hk' & E & pg & Hpg).
  - by apply entry_header_visible.
  - unfold file_at in Hh. destruct (d_names d !! _); [by eexists|]. by destruct Hh.
  - apply entry_header_inj in E as <-; [|done..]. apply page_at_Some in Hpg as (text & _ & _ & Hb). by eexists.
Qed.

(** *** Reading *)

Lemma same_store_page_at d d' hex : same_store d d' -> page_at root d' hex = page_at root d hex.
Proof. intros H. apply page_at_ext; by apply same_store_file_at. Qed.

Lemma same_store_represents d d' m : same_store d d' -> represents d m -> represents d' m.
Proof. intros Hs [H1 H2]. split; [|done]. intros hex Hk. rewrite (same_store_page_at d) by done. by apply H1. Qed.

Lemma tidy_same_store d d' : same_store d d' -> tick (d_now d) (d_now d') -> tidy d -> tidy d'.
Proof.
  intros Hs [_ Ht] [].
  assert (forall hex, page_at root d' hex = page_at root d hex) as Hp by (intros; by apply same_store_page_at).
  destruct Hs as (En & Ed & _ & Edirs & _). split; unfold no_temp, file_ok in *; rewrite ?En, ?Ed, ?Edirs; auto.
  intros h Hv Hh. destruct (td_visible0 h Hv) as (hex & ? & ? & ?); [done|].
  exists hex. by rewrite Hp.
Qed.

(** *** Directories *)

Lemma grown_shard hex d0 d : is_key hex -> grown (entry_header root hex) d0 d ->
  d_dirs d0 ⊆ d_dirs d /\
  (forall q, q ∈ d_dirs d -> q ∈ d_dirs d0 \/ on_path q (shard_of root hex)) /\
  child root (take 2 hex) ∈ d_dirs d /\ shard_of root hex ∈ d_dirs d.
Proof.
  intros Hk (dir & name & E & Hn & H1 & H2 & H3).
  apply child_inj2 in E as [<- <-]; [|by apply key_names|done].
  destruct (on_path_shard root hex) as [P1 P2].
  split_and!; [done|done|..]; apply H3; try done; unfold shard_of, child; by destruct root.
Qed.

Lemma grown_slot hex hex' d0 d :
  is_key hex -> is_key hex' -> grown (entry_header root hex) d0 d ->
  entry_header root hex' ∉ d_dirs d0 /\ entry_body root hex' ∉ d_dirs d0 ->
  entry_header root hex' ∉ d_dirs d /\ entry_body root hex' ∉ d_dirs d.
Proof.
  intros Hk Hk' (_ & Hold & _)%grown_shard [H1 H2]; [|done].
  split; intros [H|H]%Hold; try done; apply length_on_path in H; try done.
  - pose proof (length_entry root hex' _ Hk' (or_introl eq_refl)). lia.
  - pose proof (length_entry root hex' _ Hk' (or_intror eq_refl)). lia.
Qed.

(** *** Discarding: nothing but directories and unnamed bytes are new *)

Record discarded (header : cstr) (d0 d : disk) : Prop := {
  ds_names : d_names d = d_names d0;
  ds_data i : is_Some (d_data d0 !! i) -> d_data d !! i = d_data d0 !! i;
  ds_fds : d_fds d = d_fds d0;
  ds_streams : d_streams d = d_streams d0;
  ds_dirs : grown header d0 d;
  ds_tick : tick (d_now d0) (d_now d);
}.

Lemma discarded_file_at header d0 d p : discarded header d0 d -> file_ok d0 p -> file_at d p = file_at d0 p.
Proof.
  intros [En Ed _ _ _ _] Hok. unfold file_at. rewrite En. destruct (d_names d0 !! p) as [i|] eqn:E; [|done].
  cbn. by apply Ed, Hok.
Qed.

Lemma discarded_tidy hex d0 d m : is_key hex -> discarded (entry_header root hex) d0 d -> tidy d0 -> represents d0 m ->
  tidy d /\ represents d m.
Proof.
  intros Hk Hd Ht [Hm1 Hm2].
  assert (forall hex', page_at root d hex' = page_at root d0 hex') as Hp.
  { intros hex'. apply page_at_ext; eapply discarded_file_at; try done; apply Ht. }
  split; [|split; [|done]; intros hex' Hk'; rewrite Hp; by apply Hm1].
  destruct Hd as [En Ed _ _ Hg [_ Htick]], Ht.
  destruct (grown_shard _ _ _ Hk Hg) as (Hsub & Hold & _).
  split; unfold no_temp, file_ok in *; rewrite ?En; auto.
  - intros hex' Hk'. apply (grown_slot hex hex' d0); auto.
  - intros p i Hi. rewrite Ed; by eapply td_ok0.
  - intros h Hv Hh. destruct (td_visible0 h Hv Hh) as (hex' & ? & ? & ?). exists hex'. by rewrite Hp.
  - intros hex' Hk' Hh. destruct (td_dirs0 hex' Hk' Hh). set_solver.
Qed.

(** *** Publishing *)

Section stored.
Context (hex : cstr) (text bytes : list ascii) (i j : nat) (d0 d : disk).
Context (Hk : is_key hex) (Ht : tidy d0).
Context (Hst : stored_at (entry_header root hex) (entry_body root hex) text bytes i j d0 d).

Lemma stored_at_other p :
  p <> entry_header root hex -> p <> entry_body root hex ->
  d_names d !! p = d_names d0 !! p /\ file_at d p = file_at d0 p.
Proof.
  intros H1 H2. destruct Hst as [Hi Hj _ Hn Hd _ _ _].
  assert (d_names d !! p = d_names d0 !! p) as En by by rewrite Hn, !lookup_insert_ne.
  split; [done|]. unfold file_at. rewrite En. destruct (d_names d0 !! p) as [l|] eqn:E; [|done]. cbn.
  destruct (td_ok _ Ht p l E) as [x Hx]. rewrite Hd, !lookup_insert_ne; congruence.
Qed.

Lemma stored_page meta headers :
  parse_header_file (c_str text) = Some (meta, headers) ->
  page_at root d hex = Some (Page meta headers bytes) /\
  forall hex', is_key hex' -> hex' <> hex -> page_at root d hex' = page_at root d0 hex'.
Proof.
  intros Hp. split.
  - apply page_at_Some. exists text. destruct (stored_files _ _ _ _ _ _ _ _ Hst); [|done].
    by apply entry_header_ne_body.
  - intros hex' Hk' Hne. apply page_at_ext; apply stored_at_other.
    + intros E%entry_header_inj; done.
    + by apply entry_header_ne_body.
    + intros E. by apply (entry_header_ne_body root hex hex').
    + intros E%entry_body_inj; done.
Qed.

Lemma stored_represents meta headers m :
  parse_header_file (c_str text) = Some (meta, headers) -> represents d0 m ->
  represents d (<[hex := Page meta headers bytes]> m).
Proof.
  intros [Hp1 Hp2]%stored_page [Hm1 Hm2]. split; intros hex'.
  - intros Hk'. destruct (decide (hex' = hex)) as [->|Hne]; [by rewrite lookup_insert_eq|].
    rewrite lookup_insert_ne by done. rewrite Hp2 by done. by apply Hm1.
  - intros [x Hx]. destruct (decide (hex' = hex)) as [->|Hne]; [done|].
    rewrite lookup_insert_ne in Hx by done. by apply Hm2.
Qed.

Lemma stored_new_name p : d_names d0 !! p = None ->
  p <> entry_header root hex /\ p <> entry_body root hex -> d_names d !! p = None.
Proof. intros E [H1 H2]. by destruct (stored_at_other p H1 H2) as [-> _]. Qed.

Lemma stored_tidy meta headers :
  in_time (d_now d) -> parse_header_file (c_str text) = Some (meta, headers) -> tidy d.
Proof.
  intros Htime Hp. destruct (stored_page meta headers Hp) as [Hp1 Hp2].
  destruct (grown_shard _ _ _ Hk (st_dirs _ _ _ _ _ _ _ _ Hst)) as (Hsub & _ & Hd1 & Hd2).
  split.
  - done.
  - apply Hsub, Ht.
  - intros hex' q Hk' Hq. apply stored_new_name; [by eapply td_shard|].
    apply length_on_path in Hq; [|done]. split; intros ->.
    + pose proof (length_entry root hex _ Hk (or_introl eq_refl)). lia.
    + pose proof (length_entry root hex _ Hk (or_intror eq_refl)). lia.
  - intros hex' Hk'. apply (grown_slot hex hex' d0); [done|done|apply Hst|by apply Ht].
  - intros hex' Hk'. split; intros s; (apply stored_new_name; [by apply (td_temp _ Ht)|]);
      split; apply (entry_not_temp root hex hex'); auto.
  - intros p l Hl. destruct Hst as [_ _ _ Hn Hdata _ _ _]. rewrite Hdata. rewrite Hn in Hl.
    apply lookup_insert_is_Some'. destruct (decide (j = l)); [by left|right].
    apply lookup_insert_is_Some'. destruct (decide (i = l)); [by left|right].
    apply lookup_insert_Some in Hl as [[_ ?]|[_ [[_ ?]|[_ Hl]]%lookup_insert_Some]]; [done..|].
    by apply (td_ok _ Ht p).
  - intros h Hv Hh. destruct (decide (h = entry_header root hex)) as [->|H1]; [by exists hex; rewrite Hp1|].
    destruct (decide (h = entry_body root hex)) as [->|H2].
    { destruct Hv as [_ Hv]. by apply entry_body_not_visible in Hv. }
    destruct (stored_at_other h H1 H2) as [En _]. rewrite En in Hh.
    destruct (td_visible _ Ht h Hv Hh) as (hex' & Hk' & -> & Hpg). exists hex'.
    rewrite Hp2; [done|done|]. by intros ->.
  - intros hex' Hk' Hh. destruct (decide (hex' = hex)) as [->|Hne]; [done|].
    assert (entry_header root hex' <> entry_header root hex) as H1 by (intros E%entry_header_inj; done).
    destruct (stored_at_other _ H1 (entry_header_ne_body root hex' hex Hk' Hk)) as [En _]. rewrite En in Hh.
    destruct (td_dirs _ Ht hex' Hk' Hh). set_solver.
Qed.
End stored.
End tidy.

(** ** Purging *)

Section purged.
Context {AS : AprStrings} {AT : AprTables} {AM : AprMd5} {HT : Httpd} {AF : AprFiles}.
Context (root : cstr).

(** The pages an administrator keeps, and those that go. *)
Definition spared (r : request) (pat : option cstr) (m : gmap cstr page) : gmap cstr page :=
  filter (fun e => selects r pat (pg_meta (snd e)) = false) m.
Definition taken (r : request) (pat : option cstr) (m : gmap cstr page) : gmap cstr page :=
  filter (fun e => selects r pat (pg_meta (snd e)) = true) m.

Context (r : request) (pat : option cstr) (d d' : disk) (m : gmap cstr page) (sel : list cstr).
Context (Ht : tidy root d) (Hm : represents root d m).

Lemma body_of_entry hex : body_of (entry_header root hex) = entry_body root hex.
Proof.
  rewrite body_of_spec. unfold entry_header, entry_body, child. rewrite !app_assoc. f_equal.
  change 7 with (length (str ".header")). by rewrite length_app, Nat.add_sub, take_app_length.
Qed.

Lemma entry_in_tree hex : is_key hex -> is_Some (d_names d !! entry_header root hex) ->
  in_tree d root (entry_header root hex).
Proof.
  intros Hk Hh. destruct (td_dirs _ _ Ht hex Hk Hh) as [D1 D2]. destruct (key_names _ Hk) as (Hs & _ & Hdot).
  pose proof Hk as [Hhex Hl]. pose proof (hex_no_slash _ Hhex) as Hns.
  assert (forall n (l : cstr) c, c ∈ take n l \/ c ∈ drop n l -> c ∈ l) as Hin.
  { intros n l c H. rewrite <- (take_drop n l). by apply elem_of_app. }
  assert (forall l, (forall c, c ∈ l -> c ∈ hex) -> l <> [] -> plain_name l) as Hplain.
  { intros l Hsub Hne. split; [intros H; by apply Hns, Hsub|].
    destruct l as [|c l]; [done|]. intros ->. apply Hdot, Hsub. by left. }
  apply (in_tree_below _ _ (take 2 hex)); [apply Hplain; [eauto|by destruct hex]|done|].
  apply (in_tree_below _ _ (take 2 (drop 2 hex))); [apply Hplain; [eauto 6|by destruct hex as [|? [|? [|? ?]]]]|done|].
  apply in_tree_here; [split; [done|]| |done].
  - destruct hex as [|c hex]; [done|]. intros ->. apply Hdot. by left.
  - rewrite header_name_skip by done. vm_compute. reflexivity.
Qed.

(** What is picked is the page. *)
Lemma picked_page hex : is_key hex -> picked r pat d (entry_header root hex) ->
  exists pg, m !! hex = Some pg /\ selects r pat (pg_meta pg) = true.
Proof.
  intros Hk (text & meta & headers & Htext & Hp & Hs).
  assert (is_Some (d_names d !! entry_header root hex)) as Hn.
  { unfold file_at in Htext. destruct (d_names d !! _); [by eexists|done]. }
  destruct (td_visible _ _ Ht _ (entry_header_visible root hex Hk) Hn) as (hex' & Hk' & E & pg & Hpg).
  apply entry_header_inj in E; [|done..]. subst hex'. exists pg. rewrite (proj1 Hm) by done. split; [done|].
  apply page_at_Some in Hpg as (text' & Ht' & Hp' & _). rewrite Htext in Ht'. injection Ht' as <-.
  rewrite Hp in Hp'. by injection Hp' as <- _.
Qed.

Lemma page_picked hex pg : m !! hex = Some pg -> selects r pat (pg_meta pg) = true ->
  is_key hex /\ is_Some (d_names d !! entry_header root hex) /\ picked r pat d (entry_header root hex).
Proof.
  intros Hpg Hs. assert (is_key hex) as Hk by (apply (proj2 Hm); by eexists).
  rewrite (proj1 Hm) in Hpg by done. apply page_at_Some in Hpg as (text & Htext & Hp & _).
  split_and!; [done| |by eexists _, _, _]. unfold file_at in Htext. destruct (d_names d !! _); [by eexists|done].
Qed.

Context (del : bool) (Ho : outcome r pat del root d d' True sel).

Lemma selected_pages h :
  h ∈ sel <-> exists hex pg, h = entry_header root hex /\ m !! hex = Some pg /\ selects r pat (pg_meta pg) = true.
Proof.
  split.
  - intros Hh. destruct (oc_sound _ _ _ _ _ _ _ _ Ho h Hh) as [Hp Hv]. pose proof Hp as (text & _ & _ & Htext & _).
    destruct (td_visible _ _ Ht h Hv) as (hex & Hk & -> & _).
    { unfold file_at in Htext. destruct (d_names d !! _); [by eexists|done]. }
    destruct (picked_page hex Hk Hp) as (pg & ? & ?). by exists hex, pg.
  - intros (hex & pg & -> & Hpg & Hs). destruct (page_picked hex pg Hpg Hs) as (Hk & Hn & Hp).
    apply (oc_complete _ _ _ _ _ _ _ _ Ho I); [by apply entry_in_tree| |done].
    exists (child (shard_of root hex) hex). unfold entry_header, child. by rewrite <- !app_assoc.
Qed.

(** As many entries were counted as pages are gone. *)
Lemma selected_count : length sel = size (taken r pat m).
Proof.
  transitivity (length (entry_header root <$> elements (dom (taken r pat m)))).
  - apply Permutation_length, NoDup_Permutation; [apply Ho| |].
    + apply NoDup_fmap_2_strong; [|apply NoDup_elements]. intros h1 h2 H1 H2 E.
      apply elem_of_elements, elem_of_dom in H1 as [p1 H1]. apply elem_of_elements, elem_of_dom in H2 as [p2 H2].
      apply map_lookup_filter_Some in H1 as [H1 _]. apply map_lookup_filter_Some in H2 as [H2 _].
      apply entry_header_inj in E; [done|apply (proj2 Hm); by eexists..].
    + intros h. rewrite selected_pages, list_elem_of_fmap. split.
      * intros (hex & pg & -> & Hpg & Hs). exists hex. split; [done|].
        apply elem_of_elements, elem_of_dom. exists pg. by apply map_lookup_filter_Some.
      * intros (hex & -> & Hin). apply elem_of_elements, elem_of_dom in Hin as [pg Hpg].
        apply map_lookup_filter_Some in Hpg as [? ?]. by exists hex, pg.
  - rewrite length_fmap. change (length (elements (dom (taken r pat m)))) with (size (dom (taken r pat m))).
    apply size_dom.
Qed.

Context (Hdel : del = true).

(** Names of entries that stay. *)
Lemma purged_names hex p :
  is_key hex -> p = entry_header root hex \/ p = entry_body root hex ->
  d_names d' !! p = d_names d !! p \/
  d_names d' !! p = None /\ exists pg, m !! hex = Some pg /\ selects r pat (pg_meta pg) = true.
Proof.
  intros Hk Hp. destruct (pn_names _ _ _ _ (oc_pruned _ _ _ _ _ _ _ _ Ho) p) as [E|(_ & E & h & Hh & Hph)];
    [by left|right]. split; [done|].
  apply selected_pages in Hh as (hex' & pg & -> & Hpg & Hs). rewrite body_of_entry in Hph.
  assert (is_key hex') as Hk' by (apply (proj2 Hm); by eexists).
  assert (hex' = hex) as -> by (destruct Hp as [->| ->], Hph as [Eh|Eh];
    first [by apply entry_header_inj in Eh|by apply entry_body_inj in Eh|
           by apply entry_header_ne_body in Eh|by symmetry in Eh; apply entry_header_ne_body in Eh]).
  by exists pg.
Qed.

Lemma purged_gone hex pg : m !! hex = Some pg -> selects r pat (pg_meta pg) = true ->
  d_names d' !! entry_header root hex = None.
Proof.
  intros Hpg Hs. apply (oc_swept _ _ _ _ _ _ _ _ Ho I Hdel). apply selected_pages. by exists hex, pg.
Qed.

Lemma kept_page hex : is_key hex -> (forall pg, m !! hex = Some pg -> selects r pat (pg_meta pg) = false) ->
  page_at root d' hex = m !! hex.
Proof.
  intros Hk Hs. rewrite (proj1 Hm) by done.
  assert (forall p, p = entry_header root hex \/ p = entry_body root hex -> d_names d' !! p = d_names d !! p) as Hn.
  { intros p Hp. destruct (purged_names hex p Hk Hp) as [|(_ & pg & Hpg & Hs')]; [done|]. by rewrite Hs in Hs'. }
  apply page_at_ext; unfold file_at; rewrite (pn_data _ _ _ _ (oc_pruned _ _ _ _ _ _ _ _ Ho)), Hn; auto.
Qed.

Lemma purged_page hex : is_key hex -> page_at root d' hex = spared r pat m !! hex.
Proof.
  intros Hk. unfold spared. rewrite map_lookup_filter. destruct (m !! hex) as [pg|] eqn:Hpg; cbn.
  - destruct (selects r pat (pg_meta pg)) eqn:Hs; cbn.
    + unfold page_at, file_at. by rewrite (purged_gone hex pg).
    + rewrite kept_page; [done..|congruence].
  - rewrite kept_page; [done..|congruence].
Qed.

Lemma purged_represents : represents root d' (spared r pat m).
Proof.
  split; [intros hex Hk; by rewrite purged_page|].
  intros hex [pg Hpg]. apply map_lookup_filter_Some in Hpg as [Hpg _]. apply (proj2 Hm). by eexists.
Qed.

Lemma purged_fewer p l : d_names d' !! p = Some l -> d_names d !! p = Some l.
Proof.
  intros E. destruct (pn_names _ _ _ _ (oc_pruned _ _ _ _ _ _ _ _ Ho) p) as [<-|(_ & E' & _)]; congruence.
Qed.

Lemma purged_tidy : tidy root d'.
Proof.
  destruct (oc_pruned _ _ _ _ _ _ _ _ Ho) as [Ed _ Edirs _ [_ Htick] _].
  assert (forall p, d_names d !! p = None -> d_names d' !! p = None) as Hnone.
  { intros p E. destruct (d_names d' !! p) eqn:E'; [|done]. apply purged_fewer in E'. congruence. }
  destruct Ht. split; unfold no_temp, file_ok in *; rewrite ?Ed, ?Edirs; auto.
  - intros hex q Hk Hq. by eapply Hnone, td_shard0.
  - intros hex Hk. split; intros s; by apply Hnone, td_temp0.
  - intros p i Hi. by eapply td_ok0, purged_fewer.
  - intros h Hv [l Hh]. pose proof (purged_fewer _ _ Hh) as Hh0.
    destruct (td_visible0 h Hv) as (hex & Hk & -> & pg & Hpg); [by eexists|]. exists hex. split_and!; [done..|].
    rewrite <- (proj1 Hm) in Hpg by done. rewrite purged_page by done. exists pg.
    apply map_lookup_filter_Some. split; [done|]. cbn. destruct (selects _ _ _) eqn:Hs; [|done].
    by rewrite (purged_gone hex pg) in Hh.
  - intros hex Hk [l Hl]. apply td_dirs0; [done|]. apply purged_fewer in Hl. by eexists.
Qed.
End purged.
