(* ===== verification/Delivery.v ===== *)
(** * How the delivery of a response ends

    [RoundTrip.v] follows a response that is stored. Here are the other ends:
    the client goes away, the length is not the declared one, or the content
    cannot be read; the entry is given up and the tree is as before. Together:
    what the filter does with any response that ends. *)

From S2P Require Import Prelude CNum CHeap Glob Rules RulesParse RulesMatch Apr AprFile AprRef Util Meta.
From S2P Require Import Cache Publish Lookup RoundTrip Admin Purge Store.
From Stdlib Require Import Lia.
Local Open Scope cstr_scope.

(** ** Streams of buckets *)

(** The bytes of a stream that ends in EOS. *)
Fixpoint stream_bytes (l : list bucket) : option (list ascii) :=
  match l with
  | [EOS] => Some []
  | DATA data :: l' => app data <$> stream_bytes l'
  | METADATA :: l' => stream_bytes l'
  | _ => None
  end.

(** The stream ends: in its only EOS, or in content that cannot be read. *)
Fixpoint ends (l : list bucket) : bool :=
  match l with
  | [EOS] => true
  | BROKEN (Some (S _)) :: _ => true
  | (DATA _ | METADATA) :: l' => ends l'
  | _ => false
  end.

Lemma ends_spec l : ends l = true ->
  exists bs e rest, l = bs ++ e :: rest /\ Forall is_content bs /\
    (e = EOS /\ rest = [] /\ stream_bytes l = Some (payload bs) \/
     (exists n, e = BROKEN (Some (S n))) /\ stream_bytes l = None).
Proof.
  assert (forall e l', is_content e -> ends l' = true ->
    (exists bs e rest, l' = bs ++ e :: rest /\ Forall is_content bs /\
       (e = EOS /\ rest = [] /\ stream_bytes l' = Some (payload bs) \/
        (exists n, e = BROKEN (Some (S n))) /\ stream_bytes l' = None)) ->
    exists bs e' rest, e :: l' = bs ++ e' :: rest /\ Forall is_content bs /\
       (e' = EOS /\ rest = [] /\ stream_bytes (e :: l') = Some (payload bs) \/
        (exists n, e' = BROKEN (Some (S n))) /\ stream_bytes (e :: l') = None)) as Hstep.
  { intros e l' He _ (bs & e' & rest & -> & Hbs & H). exists (e :: bs), e', rest. split; [done|].
    split; [by constructor|]. destruct e as [| |data|]; try done; cbn [stream_bytes].
    destruct H as [(-> & -> & ->)|[H ->]]; [by left|by right]. }
  induction l as [|e l IH]; [done|]. destruct e as [| |data|[[|n]|]]; try done; cbn [ends].
  - destruct l; [|done]. intros _. exists [], EOS, []. split; [done|]. split; [constructor|by left].
  - intros H. by apply Hstep; [|done|apply IH].
  - intros H. by apply Hstep; [|done|apply IH].
  - intros _. exists [], (BROKEN (Some (S n))), l. split; [done|]. split; [constructor|]. right. eauto.
Qed.

(** A stream cut at an element: it is in the first part, or after it. *)
Lemma cut_stream {A} (bb rest' bs rest : list A) e :
  bb ++ rest' = bs ++ e :: rest ->
  (exists l, bb = bs ++ e :: l /\ rest = l ++ rest') \/ exists bs2, bs = bb ++ bs2 /\ rest' = bs2 ++ e :: rest.
Proof.
  revert bs. induction bb as [|x bb IH]; intros bs E; [right; by exists bs|].
  destruct bs as [|y bs]; injection E as -> E; [left; by exists bb|].
  destruct (IH bs E) as [(l & -> & ->)|(bs2 & -> & ->)]; [left; by exists l|right; by exists bs2].
Qed.

Section delivery.
Context {AS : AprStrings} {AT : AprTables} {AM : AprMd5} {HT : Httpd} {AF : AprFiles} {S : Type}.

(** The captured file is closed and removed. *)
Lemma wpp_discard {B} rule header body tmp fd i d0 bytes (k : prog S B) (Q : B -> world -> S -> Prop) w s :
  capturing rule header body tmp fd i d0 bytes (view w) -> new_file body tmp fd i d0 -> healthy w ->
  (forall w', healthy w' -> discarded header d0 (view w') -> wpp k Q w' s) ->
  wpp (_ ← call (Close fd); remove tmp k) Q w s.
Proof.
  intros [Hn Hd Hf _ Ht Hg Hss] [_ Hname Hdata Hfd] Hw HQ.
  eapply wpp_close_ok; [done|by rewrite Hf, lookup_insert_eq|]. intros w1 Hw1 (t1 & T1 & V1). unfold remove.
  eapply (wpp_remove_ok _ _ _ Hw1 tmp i); [by rewrite V1; cbn; rewrite Hn, lookup_insert_eq|].
  intros w2 Hw2 (t2 & T2 & V2). apply HQ; [done|].
  split.
  - rewrite V2. cbn. rewrite V1. cbn. rewrite Hn. by apply delete_insert_id.
  - intros l [x Hl]. rewrite V2, V1. cbn. rewrite Hd. rewrite lookup_insert_ne; [done|congruence].
  - rewrite V2. cbn. rewrite V1. cbn. rewrite Hf. by apply delete_insert_id.
  - by rewrite V2, V1.
  - eapply grown_dirs; [|exact Hg]. by rewrite V2, V1.
  - eapply tick_trans; [exact Ht|]. eapply tick_trans; [exact T1|]. by rewrite V2; rewrite V1 in T2.
Qed.

Context (r : request) (rule : cacher_rule) (header body tmp : cstr) (fd i : nat) (d0 : disk).
Context (Hnew : new_file body tmp fd i d0).

(** The end of a stream that is not stored. *)
Definition unfit (bytes : list ascii) (e : bucket) (rest : list bucket) : Prop :=
  e = EOS /\ rest = [] /\ (r_aborted r || wrong_length r (capture_ctx rule header body tmp fd bytes) = true) \/
  exists n, e = BROKEN (Some (Datatypes.S n)).

Lemma wpp_unfit_end bytes e l w (s : S) (Q : cacher_out_ctx * bool -> world -> S -> Prop) :
  healthy w -> capturing rule header body tmp fd i d0 bytes (view w) -> unfit bytes e l ->
  (forall ctx' removed w', healthy w' -> discarded header d0 (view w') -> oc_started ctx' = true ->
     (removed = true \/ l = [] /\ e = EOS) -> Q (ctx', removed) w' s) ->
  wpp (filter_loop r (capture_ctx rule header body tmp fd bytes) (e :: l)) Q w s.
Proof.
  intros Hw Hc Hun HQ. cbn [filter_loop capture_ctx oc_cacheable]. destruct Hun as [(-> & -> & Hab)|[n ->]].
  - apply wpp_bind. unfold finalize_cache_entry. cbn [oc_tmp_body_file oc_tmp_body_path].
    fold (capture_ctx rule header body tmp fd bytes).
    assert (wpp (_ ← call (Close fd); remove tmp (mret tt)) (fun _ w' s' =>
      wpp (mret (capture_ctx rule header body tmp fd bytes, false)) Q w' s') w s) as H.
    { eapply wpp_discard; [done..|]. intros w1 Hw1 Hd. apply wpp_ret, wpp_ret. apply HQ; auto. }
    destruct (r_aborted r); [exact H|]. cbn [orb] in Hab. rewrite Hab. exact H.
  - cbn [capture]. unfold abandon. cbn [oc_tmp_body_file oc_tmp_body_path]. apply wpp_bind.
    eapply wpp_discard; [done..|]. intros w1 Hw1 Hd. apply wpp_ret.
    rewrite filter_loop_idle by done. apply wpp_ret. apply wpp_ret. apply HQ; auto.
Qed.

Lemma wpp_run_unfit bytes bbs bs e rest w (s : S) :
  concat bbs = bs ++ e :: rest -> Forall is_content bs -> unfit (bytes ++ payload bs) e rest ->
  healthy w -> capturing rule header body tmp fd i d0 bytes (view w) ->
  wpp (run_filter r (capture_ctx rule header body tmp fd bytes) bbs)
    (fun _ w' s' => s' = s /\ healthy w' /\ discarded header d0 (view w')) w s.
Proof.
  revert bytes bs w. induction bbs as [|bb bbs IH]; intros bytes bs w E Hbs Hun Hw Hc; [by destruct bs|].
  cbn [run_filter]. apply wpp_bind. apply wpp_filter_started; [done|].
  apply cut_stream in E as [(l & -> & ->)|(bs2 & -> & E)].
  - eapply wpp_filter_loop; [done..|]. intros w1 Hw1 Hc1.
    assert (unfit (bytes ++ payload bs) e l) as Hun'.
    { destruct Hun as [(-> & [-> _]%app_eq_nil & H)|H]; [by left|by right]. }
    eapply wpp_unfit_end; [done..|]. intros ctx' removed w2 Hw2 Hd Hst [->|[-> ->]]; [by apply wpp_ret|].
    destruct removed; [by apply wpp_ret|]. apply wpp_run_empty; [done| |done].
    destruct Hun as [(_ & E & _)|[n [=]]]. done.
  - apply Forall_app in Hbs as [Hb1 Hb2].
    eapply wpp_filter_content; [done..|]. intros w1 Hw1 Hc1.
    assert (payload (bb ++ bs2) = payload bb ++ payload bs2) as Ep.
    { unfold payload. by rewrite fmap_app, concat_app. }
    rewrite Ep, app_assoc in *. exact (IH (bytes ++ payload bb) bs2 w1 E Hb2 Hun Hw1 Hc1).
Qed.
End delivery.
