(* ===== verification/Refine.v ===== *)
(** * The cache refines a map of pages

    The specification: a map from entry names to pages and a clock, with one
    rule for each thing that can happen to it. The refinement: on a healthy
    file system the module's functions, run on the files, take exactly these
    steps, whatever the order of requests; so what a lookup returns is the
    last response stored for the entry and not purged since. *)

From S2P Require Import Prelude CNum CHeap Glob Rules RulesParse RulesMatch Apr AprFile AprRef Util Meta.
From S2P Require Import Cache Publish Lookup RoundTrip Admin Purge Store Delivery.
From Stdlib Require Import Lia.
Local Open Scope cstr_scope.

(** ** Commands *)

Section refine.
Context {AS : AprStrings} {AT : AprTables} {AM : AprMd5} {HT : Httpd} {AF : AprFiles} {S : Type}.
Context (root : cstr).

(** What a server does with the cache, one request after the other. *)
Inductive command :=
  | PUT (r : request) (rule : cacher_rule) (bbs : list (list bucket))  (* a response passes the filter *)
  | GET (r : request) (rule : cacher_rule)
  | PURGE (r : request) (pattern : cstr)
  | RESET (r : request)
  | LIST (r : request).

Inductive reply :=
  | SENT
  | HIT (r : request) (status length age : Z) (body : option (list ascii))
  | MISS (r : request)
  | REPORT (r : request) (out : cstr) (status : Z).

(** The functions of the module, as the handler and httpd run them: the file of
    a hit is sent by httpd, which reads and closes it. *)
Definition perform (fuel : nat) (c : command) : prog S reply :=
  match c with
  | PUT r rule bbs =>
      match cacher_cache_insert_filter r (Some root) rule with
      | None => mret SENT
      | Some ctx => _ ← run_filter r ctx bbs; mret SENT
      end
  | GET r rule =>
      '(r', res) ← cacher_cache_lookup r (Some root) rule;
      match res with
      | None => mret (MISS r')
      | Some hit =>
          body ← call (ReadFull (ch_file hit) (Z.to_nat (ch_length hit)));
          _ ← call (Close (ch_file hit));
          mret (HIT r' (ch_status hit) (ch_length hit) (ch_age hit) body)
      end
  | PURGE r pattern =>
      '(r', out, status) ← cacher_admin_handle fuel fuel r (Some root) (Some (str "/purge" ++ pattern));
      mret (REPORT r' out status)
  | RESET r =>
      '(r', out, status) ← cacher_admin_handle fuel fuel r (Some root) (Some (str "/full-reset"));
      mret (REPORT r' out status)
  | LIST r =>
      '(r', out, status) ← cacher_admin_handle fuel fuel r (Some root) (Some (str "/list"));
      mret (REPORT r' out status)
  end.

(** ** The specification *)

(** The declared length, if any, is the actual one. *)
Definition length_matches (r : request) (n : nat) : bool :=
  match apr_table_get (r_headers_out r) (str "Content-Length") with
  | Some declared => (apr_atoi64 declared =? Z.of_nat n)%Z
  | None => true
  end.

(** The body a response leaves in the cache, if it does. *)
Definition kept (r : request) (rule : cacher_rule) (stream : list bucket) : option (list ascii) :=
  if (0 <? ttl_seconds rule)%Z && negb (r_header_only r) && response_cacheable r rule && negb (r_aborted r)
  then bytes ← stream_bytes stream; if length_matches r (length bytes) then Some bytes else None
  else None.

Definition response_page (r : request) (created expires : Z) (bytes : list ascii) : page :=
  Page (entry_meta r created expires) (dump_headers (r_headers_out r)) bytes.

(** A row of the listing shows a page. *)
Definition shows (m : gmap cstr page) (hex row : cstr) : Prop :=
  exists pg size time_left, m !! hex = Some pg /\ row = apr_psprintf (row_args (pg_meta pg) size time_left).

(** [spec m t t' c rep m']: begun at [t] and over at [t'], the command [c] may
    answer [rep] and turn the pages [m] into [m']. *)
Inductive spec (m : gmap cstr page) (t t' : Z) : command -> reply -> gmap cstr page -> Prop :=
  | spec_kept r rule bbs bytes created now :
      kept r rule (concat bbs) = Some bytes -> (t <= created <= now)%Z -> (now <= t')%Z ->
      spec m t t' (PUT r rule bbs) SENT
        (<[entry_hex r rule := response_page r created (now + ttl_seconds rule) bytes]> m)
  | spec_sent r rule bbs :
      kept r rule (concat bbs) = None -> spec m t t' (PUT r rule bbs) SENT m
  | spec_hit r rule pg t1 :
      m !! entry_hex r rule = Some pg -> (t < em_expires (pg_meta pg))%Z -> (t <= t1 <= t')%Z ->
      spec m t t' (GET r rule)
        (HIT (replay_text r (pg_headers pg)) (em_status (pg_meta pg)) (Z.of_nat (length (pg_body pg)))
           (if 0 <? em_created (pg_meta pg) then t1 - em_created (pg_meta pg) else -1)%Z (Some (pg_body pg))) m
  | spec_miss r rule :
      (forall pg, m !! entry_hex r rule = Some pg -> (em_expires (pg_meta pg) <= t')%Z) ->
      spec m t t' (GET r rule) (MISS r) m
  | spec_purge r pattern n :
      n = size (taken r (Some pattern) m) ->
      spec m t t' (PURGE r pattern)
        (REPORT (set_ctype r (Some text_plain)) (removed_text (str "purge " ++ pattern) n)
           (if decide (n = 0) then HTTP_NOT_FOUND else OK)) (spared r (Some pattern) m)
  | spec_reset r :
      spec m t t' (RESET r)
        (REPORT (set_ctype r (Some text_plain)) (removed_text (str "full-reset") (size (taken r None m))) OK)
        (spared r None m)
  | spec_list r keys rows total :
      keys ≡ₚ elements (dom (taken r None m)) -> Forall2 (shows m) keys rows ->
      spec m t t' (LIST r) (REPORT (set_ctype r (Some text_plain)) (list_text (length keys) rows total) OK) m.

(** What is asked of a command: a stored response can be written as lines of
    text, the tree fits the counters of the walk, and the fuel the tree. *)
Definition admissible (fuel : nat) (d : disk) (c : command) : Prop :=
  match c with
  | PUT r rule bbs =>
      ends (concat bbs) = true /\ ttl_ok rule /\ (is_Some (kept r rule (concat bbs)) -> response_ok r)
  | GET r rule => True
  | PURGE r pattern =>
      pattern <> [] /\ pattern <> str "/" /\ walk_fuel d <= fuel /\ exists bound, walk_ok false d bound
  | RESET r => walk_fuel d <= fuel /\ exists bound, walk_ok false d bound
  | LIST r => walk_fuel d <= fuel /\ exists bound, walk_ok true d bound
  end.
(** ** Each command *)

(** [perform] from [w] does what the specification says. *)
Definition refines (fuel : nat) (c : command) (m : gmap cstr page) (w : world) (s : S) : Prop :=
  wpp (perform fuel c) (fun rep w' s' => s' = s /\ healthy w' /\ tidy root (view w') /\
    d_fds (view w') = d_fds (view w) /\
    exists m', represents root (view w') m' /\ spec m (d_now (view w)) (d_now (view w')) c rep m') w s.

Lemma kept_Some r rule l bytes : kept r rule l = Some bytes ->
  (0 < ttl_seconds rule)%Z /\ r_header_only r = false /\ response_cacheable r rule = true /\
  r_aborted r = false /\ stream_bytes l = Some bytes /\ length_matches r (length bytes) = true.
Proof.
  unfold kept. destruct (0 <? ttl_seconds rule)%Z eqn:E1; [|done]. destruct (r_header_only r); [done|].
  destruct (response_cacheable r rule); [|done]. destruct (r_aborted r); [done|]. cbn.
  destruct (stream_bytes l) as [b|]; [|done]. cbn. destruct (length_matches r (length b)) eqn:E2; [|done].
  intros [= <-]. apply Z.ltb_lt in E1. done.
Qed.

Lemma wrong_length_matches r rule header body tmp fd bytes :
  wrong_length r (capture_ctx rule header body tmp fd bytes) = negb (length_matches r (length bytes)).
Proof. unfold wrong_length, length_matches. by destruct (apr_table_get _ _). Qed.

Lemma insert_filter_inv r rule ctx : cacher_cache_insert_filter r (Some root) rule = Some ctx ->
  (0 < ttl_seconds rule)%Z /\ r_header_only r = false /\
  ctx = OutCtx rule (entry_header root (entry_hex r rule)) (entry_body root (entry_hex r rule))
          None None 0 false false.
Proof.
  unfold cacher_cache_insert_filter. destruct (Z.leb_spec (ttl_seconds rule) 0); [done|].
  destruct (r_header_only r); [done|]. rewrite cache_key_paths_shard. by intros [= <-].
Qed.

Lemma insert_filter_none r rule l :
  cacher_cache_insert_filter r (Some root) rule = None -> kept r rule l = None.
Proof.
  unfold cacher_cache_insert_filter, kept. rewrite cache_key_paths_shard.
  destruct (Z.leb_spec (ttl_seconds rule) 0), (Z.ltb_spec 0 (ttl_seconds rule)); try lia; try done.
  by destruct (r_header_only r).
Qed.

(** A response that is not stored leaves no trace among the files. *)
Lemma wpp_run_discarded r rule ctx bbs w (s : S) :
  healthy w -> tidy root (view w) -> cacher_cache_insert_filter r (Some root) rule = Some ctx ->
  response_cacheable r rule = true -> ends (concat bbs) = true -> kept r rule (concat bbs) = None ->
  wpp (run_filter r ctx bbs) (fun _ w' s' => s' = s /\ healthy w' /\
    discarded (entry_header root (entry_hex r rule)) (view w) (view w')) w s.
Proof.
  intros Hw Ht (Httl & Hho & ->)%insert_filter_inv Hc Hends Hk.
  destruct (ends_spec _ Hends) as (bs & e & rest & E & Hbs & Hend).
  destruct bbs as [|bb bbs]; [by destruct bs|].
  cbn [run_filter]. apply wpp_bind, wpp_filter_unstarted; [done|].
  pose proof (entry_hex_spec r rule) as [Hhex Hlen].
  eapply wpp_mono; [eapply (wpp_filter_start r rule root (entry_hex r rule)); try done; by apply tidy_slot|].
  intros ctx1 w1 s1 (tmp & fd & i & -> & -> & Hw1 & Hnew & Hcap).
  split; [done|]. split; [done|]. apply wpp_bind_inv.
  apply (wpp_run_unfit r rule _ _ tmp fd i (view w) Hnew [] (bb :: bbs) bs e rest w1 s); [done|done| |done|done].
  destruct Hend as [(-> & -> & Hsb)|[[n ->] _]]; [left|right; by exists n]. split; [done|]. split; [done|].
  rewrite wrong_length_matches. unfold kept in Hk. rewrite Hho, Hc, Hsb in Hk.
  rewrite (proj2 (Z.ltb_lt _ _) Httl) in Hk. cbn in Hk |- *. destruct (r_aborted r); [done|]. cbn in Hk |- *.
  by destruct (length_matches r _).
Qed.
Lemma wpp_put fuel r rule bbs m w (s : S) :
  healthy w -> tidy root (view w) -> represents root (view w) m -> admissible fuel (view w) (PUT r rule bbs) ->
  refines fuel (PUT r rule bbs) m w s.
Proof.
  intros Hw Ht Hm (Hends & Httl & Hok). unfold refines. cbn [perform].
  destruct (cacher_cache_insert_filter r (Some root) rule) as [ctx|] eqn:Hf.
  2: { apply wpp_ret. do 4 (split; [done|]). exists m. split; [done|]. apply spec_sent. by apply insert_filter_none. }
  pose proof (insert_filter_inv _ _ _ Hf) as (Hpos & Hho & Ectx).
  destruct (response_cacheable r rule) eqn:Hc.
  2: { destruct (run_uncacheable r ctx bbs w s) as [ctx' E]; [by rewrite Ectx..|].
       apply wpp_bind. unfold wpp at 1. rewrite E. apply wpp_ret. do 4 (split; [done|]). exists m. split; [done|].
       apply spec_sent. unfold kept. by rewrite Hc, !andb_false_r. }
  pose proof (entry_hex_spec r rule) as Hkey. fold (is_key (entry_hex r rule)) in Hkey.
  apply wpp_bind. destruct (kept r rule (concat bbs)) as [bytes|] eqn:Hk.
  - pose proof (kept_Some _ _ _ _ Hk) as (_ & _ & _ & Hab & Hsb & Hlen).
    destruct (ends_spec _ Hends) as (bs & e & rest & E & Hbs & [(-> & -> & Hsb')|[_ Hsb']]); [|congruence].
    rewrite Hsb in Hsb'. injection Hsb' as ->.
    eapply wpp_mono; [apply (wpp_run_filter r rule root ctx bbs bs w s Hw)|].
    { split; try done.
      - unfold length_matches in Hlen. destruct (apr_table_get _ _); [by apply Z.eqb_eq|done].
      - apply Ht.
      - rewrite Ectx. by apply tidy_slot. }
    intros _ w' s' (-> & Hw' & i & j & created & now & Hle & Hnow & Htime & Hst). apply wpp_ret.
    rewrite Ectx in Hst. cbn [oc_header_path oc_body_path] in Hst.
    pose proof (in_time_between _ now _ (td_time _ _ Ht) Htime ltac:(lia)) as Hin.
    pose proof (in_time_between _ created _ (td_time _ _ Ht) Htime ltac:(lia)) as Hic.
    pose proof (parse_entry_text r created now rule (Hok (mk_is_Some _ _ eq_refl)) Hic Hin Httl) as Hp.
    split; [done|]. split; [done|]. split; [by eapply stored_tidy|]. split; [apply Hst|].
    eexists. split; [by eapply stored_represents|]. by apply (spec_kept m _ _ r rule bbs (payload bs) created now).
  - eapply wpp_mono; [by apply (wpp_run_discarded r rule)|]. intros _ w' s' (-> & Hw' & Hd). apply wpp_ret.
    destruct (discarded_tidy _ _ _ _ _ Hkey Hd Ht Hm) as [Ht' Hm'].
    do 3 (split; [done|]). split; [apply Hd|]. exists m. split; [done|]. by apply spec_sent.
Qed.

(** A lookup in a tidy tree: the page of the entry, or the request as it was. *)
Definition looked_up (m : gmap cstr page) (d d' : disk) (r : request) (rule : cacher_rule) (r' : request)
    (res : option cache_hit) : Prop :=
  match res with
  | Some hit => exists pg, m !! entry_hex r rule = Some pg /\ (d_now d < em_expires (pg_meta pg))%Z /\
      r' = replay_text r (pg_headers pg) /\ opened d (entry_body root (entry_hex r rule)) (ch_file hit) d' /\
      ch_status hit = em_status (pg_meta pg) /\ ch_length hit = Z.of_nat (length (pg_body pg)) /\
      ch_age hit = (if 0 <? em_created (pg_meta pg) then d_now d' - em_created (pg_meta pg) else -1)%Z /\
      file_at d (entry_body root (entry_hex r rule)) = Some (pg_body pg)
  | None => r' = r /\ waited d d' /\
      forall pg, m !! entry_hex r rule = Some pg -> (em_expires (pg_meta pg) <= d_now d')%Z
  end.

Lemma wpp_lookup_tidy r rule m w (s : S) :
  healthy w -> tidy root (view w) -> represents root (view w) m ->
  wpp (cacher_cache_lookup r (Some root) rule) (fun '(r', res) w' s' =>
    s' = s /\ healthy w' /\ looked_up m (view w) (view w') r rule r' res) w s.
Proof.
  intros Hw Ht Hm. pose proof (entry_hex_spec r rule) as Hkey. fold (is_key (entry_hex r rule)) in Hkey.
  eapply wpp_mono; [apply (wpp_lookup r (Some root) rule); apply cache_key_paths_shard|].
  intros [r' res] w1 s1 (-> & Hh1 & H). split; [done|]. split; [by apply Hh1|]. destruct res as [hit|].
  - destruct H as (meta & headers & data & Hat & Hfresh & -> & Hop & Hs & Hl & Hage).
    exists (Page meta headers data). split_and!; try done.
    + rewrite (proj1 Hm) by done. by apply page_at_Some.
    + by destruct Hat as (text & _ & _ & Hb).
  - destruct H as (Hwait & Hr & Hmiss). split; [|split; [done|]].
    + destruct Hr as [->|(headers & _ & H)]; [done|]. exfalso. destruct (H Hw) as [Hh Hb].
      destruct (tidy_pair _ _ _ Ht Hkey Hh) as [x Hx]. unfold entry_body in Hx. congruence.
    + intros pg Hpg. rewrite (proj1 Hm) in Hpg by done. apply page_at_Some in Hpg. by eapply Hmiss.
Qed.

(** httpd sends the file of a hit and closes it. *)
Lemma wpp_send {B} d0 path fd data (k : option (list ascii) -> prog S B) (Q : B -> world -> S -> Prop) w s :
  healthy w -> opened d0 path fd (view w) -> file_at d0 path = Some data ->
  (forall w', healthy w' -> waited d0 (view w') -> (d_now (view w) <= d_now (view w'))%Z -> wpp (k (Some data)) Q w' s) ->
  wpp (body ← call (ReadFull fd (length data)); _ ← call (Close fd); k body) Q w s.
Proof.
  intros Hw (Hsame & Htick & Hfree & i & Hi & Hfds) Hfile HQ.
  assert (d_data (view w) !! i = Some data) as Hdata.
  { unfold file_at in Hfile. rewrite Hi in Hfile. destruct Hsame as (_ & -> & _). exact Hfile. }
  wp_call; [apply bool_decide_eq_true; by rewrite Hfds, lookup_insert_eq|].
  intros body w2 Hs2 Hh2. destruct (Hh2 Hw) as [Hok Hw2]. pose proof (fs_spec_now _ _ _ _ Hs2) as T2.
  cbn in Hs2, Hok. rewrite Hfds, lookup_insert_eq in Hs2, Hok.
  destruct (Hok i 0 data eq_refl Hdata ltac:(lia)) as [bytes ->].
  destruct Hs2 as (i' & off & data' & [= <- <-] & Hd' & _ & -> & t2 & _ & V2).
  rewrite Hdata in Hd'. injection Hd' as <-. rewrite drop_0, firstn_all.
  wp_call; [apply bool_decide_eq_true; rewrite V2; cbn; by rewrite lookup_insert_eq|].
  intros [] w3 Hs3 Hh3. destruct (Hh3 Hw2) as [_ Hw3]. pose proof (fs_spec_now _ _ _ _ Hs3) as T3.
  cbn in Hs3. destruct Hs3 as (t3 & _ & V3). apply HQ; [done| |destruct T2, T3; lia]. split_and!.
  - etrans; [exact Hsame|]. by rewrite V3, V2.
  - eapply tick_trans; [exact Htick|by eapply tick_trans].
  - rewrite V3. cbn. rewrite V2. cbn. rewrite !insert_insert_eq. by apply delete_insert_id.
Qed.

(** Waiting changes nothing. *)
Lemma waited_store d d' m : waited d d' -> tidy root d -> represents root d m ->
  tidy root d' /\ represents root d' m.
Proof. intros (Hs & Ht & _) ? ?. split; [by eapply tidy_same_store|by eapply same_store_represents]. Qed.

Lemma wpp_get fuel r rule m w (s : S) :
  healthy w -> tidy root (view w) -> represents root (view w) m -> refines fuel (GET r rule) m w s.
Proof.
  intros Hw Ht Hm. unfold refines. cbn [perform]. apply wpp_bind.
  eapply wpp_mono; [by apply (wpp_lookup_tidy r rule m)|].
  intros [r' res] w1 s1 (-> & Hw1 & H). destruct res as [hit|].
  - destruct H as (pg & Hpg & Hfresh & -> & Hop & Hs & Hl & Hage & Hfile). rewrite Hl, Nat2Z.id.
    pose proof Hop as (_ & Htick & _).
    eapply wpp_send; [done..|]. intros w2 Hw2 Hwait Hle. apply wpp_ret.
    destruct (waited_store _ _ _ Hwait Ht Hm) as [Ht2 Hm2].
    do 3 (split; [done|]). split; [apply Hwait|]. exists m. split; [done|]. rewrite Hs, Hage.
    apply (spec_hit m _ _ r rule pg (d_now (view w1))); [done|done|]. destruct Htick. lia.
  - destruct H as (-> & Hwait & Hmiss). apply wpp_ret. destruct (waited_store _ _ _ Hwait Ht Hm) as [Ht2 Hm2].
    do 3 (split; [done|]). split; [apply Hwait|]. exists m. split; [done|]. by apply spec_miss.
Qed.

(** *** Administration *)

Lemma outcome_healthy r pat del d d' (hlt : Prop) sel :
  hlt -> outcome r pat del root d d' hlt sel -> outcome r pat del root d d' True sel.
Proof. intros H []. split; auto. Qed.

(** After a walk that removes. *)
Lemma walk_refines r pat m w w' sel :
  healthy w -> tidy root (view w) -> represents root (view w) m ->
  outcome r pat true root (view w) (view w') (healthy w) sel ->
  tidy root (view w') /\ d_fds (view w') = d_fds (view w) /\ represents root (view w') (spared r pat m) /\
  length sel = size (taken r pat m).
Proof.
  intros Hw Ht Hm Ho%(outcome_healthy _ _ _ _ _ _ _ Hw). split_and!.
  - by eapply purged_tidy.
  - apply (oc_pruned _ _ _ _ _ _ _ _ Ho).
  - by eapply purged_represents.
  - by eapply selected_count.
Qed.

Lemma wpp_admin fuel c m w (s : S) :
  match c with PURGE _ _ | RESET _ => True | _ => False end ->
  healthy w -> tidy root (view w) -> represents root (view w) m -> admissible fuel (view w) c ->
  refines fuel c m w s.
Proof.
  intros Hc Hw Ht Hm Ha. pose proof (td_root _ _ Ht) as Hr. destruct c as [| |r pattern|r|]; try done.
  - destruct Ha as (Hne & Hns & Hf & bound & Hok). apply wpp_bind.
    eapply wpp_mono; [by apply (wpp_purge r root pattern bound)|].
    intros res w' s' (-> & sel & -> & Ho & Hh). apply wpp_ret.
    destruct (walk_refines _ _ _ _ _ _ Hw Ht Hm Ho) as (Ht' & Hfd & Hm' & Hn).
    split; [done|]. split; [by apply Hh|]. split; [done|]. split; [done|]. eexists. split; [exact Hm'|].
    assert ((if decide (sel = []) then HTTP_NOT_FOUND else OK) =
            (if decide (length sel = 0) then HTTP_NOT_FOUND else OK)) as -> by by destruct sel.
    by apply spec_purge.
  - destruct Ha as (Hf & bound & Hok). apply wpp_bind.
    eapply wpp_mono; [by apply (wpp_full_reset r root bound)|].
    intros res w' s' (-> & sel & -> & Ho & Hh). apply wpp_ret.
    destruct (walk_refines _ _ _ _ _ _ Hw Ht Hm Ho) as (Ht' & Hfd & Hm' & Hn).
    split; [done|]. split; [by apply Hh|]. split; [done|]. split; [done|]. eexists. split; [exact Hm'|].
    rewrite Hn. apply spec_reset.
Qed.

(** The entries of a listing, as keys. *)
Lemma selected_keys r pat del m d d' sel :
  tidy root d -> represents root d m -> outcome r pat del root d d' True sel ->
  exists keys, sel = entry_header root <$> keys /\ keys ≡ₚ elements (dom (taken r pat m)).
Proof.
  intros Ht Hm Ho.
  assert (exists keys, sel = entry_header root <$> keys /\ Forall (fun hex => is_Some (taken r pat m !! hex)) keys)
    as (keys & E & Hkeys).
  { assert (Forall (fun h => exists hex, h = entry_header root hex /\ is_Some (taken r pat m !! hex)) sel) as Hall.
    { apply Forall_forall. intros h (hex & pg & -> & Hpg & Hs)%(selected_pages root r pat d d' m sel Ht Hm del Ho).
      exists hex. split; [done|]. exists pg. by apply map_lookup_filter_Some. }
    clear -Hall. induction Hall as [|h sel (hex & -> & Hh) _ (ks & -> & Hks)]; [by exists []|].
    exists (hex :: ks). by split; [|constructor]. }
  exists keys. split; [done|]. pose proof (oc_nodup _ _ _ _ _ _ _ _ Ho) as Hnd. rewrite E in Hnd.
  apply NoDup_fmap_1 in Hnd. apply NoDup_Permutation; [done|apply NoDup_elements|]. intros hex.
  rewrite elem_of_elements, elem_of_dom. split; [intros H; by apply (proj1 (Forall_forall _ _) Hkeys)|].
  intros [pg [Hpg Hs]%map_lookup_filter_Some].
  assert (entry_header root hex ∈ sel) as Hin by (apply (selected_pages root r pat d d' m sel Ht Hm del Ho); eauto).
  rewrite E in Hin. apply list_elem_of_fmap in Hin as (hex' & Eh & Hin).
  apply entry_header_inj in Eh as ->; [done|apply (proj2 Hm); by eexists|].
  apply (proj2 Hm). apply (proj1 (Forall_forall _ _) Hkeys) in Hin as [x [Hx _]%map_lookup_filter_Some]. by exists x.
Qed.

Lemma row_shows d exact t m hex row :
  tidy root d -> represents root d m -> is_key hex -> is_Some (m !! hex) ->
  row_of d exact t (entry_header root hex) row -> shows m hex row.
Proof.
  intros Ht Hm Hk [pg Hpg] (meta & size & now & (text & headers & Htext & Hp) & _ & _ & ->).
  exists pg, size, (em_expires meta - now)%Z. split; [done|]. rewrite <- list_row_spec. rewrite (proj1 Hm) in Hpg by done. apply page_at_Some in Hpg as (text' & Ht' & Hp' & _).
  rewrite Htext in Ht'. injection Ht' as <-. rewrite Hp in Hp'. by injection Hp' as -> _.
Qed.

Lemma wpp_listing fuel r m w (s : S) :
  healthy w -> tidy root (view w) -> represents root (view w) m -> admissible fuel (view w) (LIST r) ->
  refines fuel (LIST r) m w s.
Proof.
  intros Hw Ht Hm (Hf & bound & Hok). pose proof (td_root _ _ Ht) as Hr. apply wpp_bind.
  eapply wpp_mono; [by apply (wpp_list r root bound)|].
  intros res w' s' (-> & Hsame & Hfd & Hh & sel & rows & sizes & -> & Hrows & _ & Ho). apply wpp_ret.
  pose proof (pn_tick _ _ _ _ (oc_pruned _ _ _ _ _ _ _ _ Ho)) as Htick.
  split; [done|]. split; [by apply Hh|]. split; [by eapply tidy_same_store|]. split; [done|].
  exists m. split; [by eapply same_store_represents|].
  destruct (selected_keys _ _ _ m _ _ _ Ht Hm (outcome_healthy _ _ _ _ _ _ _ Hw Ho)) as (keys & -> & Hkeys).
  rewrite Forall2_fmap_l in Hrows.
  assert (Forall2 (shows m) keys (rev rows)) as H.
  { assert (Forall (fun hex => is_Some (m !! hex)) keys) as Hin.
    { apply Forall_forall. intros hex Hx. rewrite Hkeys in Hx. apply elem_of_elements, elem_of_dom in Hx.
      destruct Hx as [x [Hx _]%map_lookup_filter_Some]. by exists x. }
    revert Hrows. generalize (rev rows). intros rows0 Hrows. clear -Hrows Hin Ht Hm. induction Hrows as [|hex row ks rows' Hrow _ IH]; [constructor|].
    apply Forall_cons in Hin as [H1 H2]. constructor; [|by apply IH].
    eapply row_shows; [done|done|by apply (proj2 Hm)|done|done]. }
  rewrite length_fmap, <- length_rev. apply spec_list.
  - rewrite <- Hkeys. symmetry. apply Permutation_rev.
  - apply Forall2_reverse in H. unfold reverse in H. by rewrite <- !rev_alt, rev_involutive in H.
Qed.
Lemma wpp_perform fuel c m w (s : S) :
  healthy w -> tidy root (view w) -> represents root (view w) m -> admissible fuel (view w) c ->
  refines fuel c m w s.
Proof.
  intros Hw Ht Hm Ha. destruct c; [by apply wpp_put|by apply wpp_get|by apply wpp_admin|by apply wpp_admin|
    by apply wpp_listing].
Qed.


(** ** Histories *)

(** A run of commands, the last one first. *)
Inductive runs (w0 : world) (s : S) : list (command * reply) -> world -> Prop :=
  | runs_none : runs w0 s [] w0
  | runs_step h w fuel c rep w' :
      runs w0 s h w -> admissible fuel (view w) c -> exec (perform fuel c) w s = Some (rep, w', s) ->
      runs w0 s ((c, rep) :: h) w'.

(** A response goes when an administrator's selection covers it. *)
Definition unless_selected (r : request) (pat : option cstr) (x : request * cacher_rule * list ascii)
    : option (request * cacher_rule * list ascii) :=
  if selects r pat (entry_meta (fst (fst x)) 0 0) then None else Some x.

(** The response an entry should hold after a history: the last one kept for it
    and not purged since. *)
Fixpoint last_put (hex : cstr) (h : list (command * reply)) : option (request * cacher_rule * list ascii) :=
  match h with
  | [] => None
  | (PUT r rule bbs, _) :: h' =>
      match (if decide (entry_hex r rule = hex) then kept r rule (concat bbs) else None) with
      | Some bytes => Some (r, rule, bytes)
      | None => last_put hex h'
      end
  | (PURGE r pattern, _) :: h' => x ← last_put hex h'; unless_selected r (Some pattern) x
  | (RESET r, _) :: h' => x ← last_put hex h'; unless_selected r None x
  | (GET _ _, _) :: h' | (LIST _, _) :: h' => last_put hex h'
  end.

(** The page of an entry after a history. *)
Definition page_ok (t0 t : Z) (x : option (request * cacher_rule * list ascii)) (o : option page) : Prop :=
  match x with
  | None => o = None
  | Some (r, rule, bytes) =>
      response_ok r /\ exists created now, (t0 <= created <= now)%Z /\ (now <= t)%Z /\
        o = Some (response_page r created (now + ttl_seconds rule) bytes)
  end.

Lemma page_ok_later t0 t t' x o : (t <= t')%Z -> page_ok t0 t x o -> page_ok t0 t' x o.
Proof.
  intros H. destruct x as [[[r rule] bytes]|]; [|done]. intros (Hr & created & now & H1 & H2 & ->).
  split; [done|]. exists created, now. split_and!; [lia..|done].
Qed.

Lemma page_ok_spared (t0 t : Z) (r : request) (pat : option cstr) (hex : cstr) (m : gmap cstr page) x :
  page_ok t0 t x (m !! hex) -> page_ok t0 t (x ≫= unless_selected r pat) (spared r pat m !! hex).
Proof.
  unfold spared. rewrite map_lookup_filter. destruct x as [[[r' rule] bytes]|]; cbn [mbind option_bind page_ok].
  - intros (Hr & created & now & H1 & H2 & ->). unfold unless_selected. cbn [fst].
    change (selects r pat (entry_meta r' 0 0))
      with (selects r pat (pg_meta (response_page r' created (now + ttl_seconds rule) bytes))). cbn.
    destruct (selects _ _ _); cbn; [done|]. split; [done|]. by exists created, now.
  - by intros ->.
Qed.

(** The clock goes forward. *)
Lemma exec_tick {A} (p : prog S A) w s a w' s' : exec p w s = Some (a, w', s') -> tick (d_now (view w)) (d_now (view w')).
Proof.
  revert w s. induction p as [b| |o k IH|X f k IH]; intros w s E; cbn [exec] in E.
  - injection E as <- <- <-. apply tick_refl.
  - done.
  - destruct (op_defined _ _) eqn:Hd; [|done]. pose proof (run_spec w o Hd) as Hs. apply fs_spec_now in Hs.
    destruct (run o w) as [b w1]. eapply tick_trans; [exact Hs|]. by eapply IH.
  - destruct (f s) as [[x s1]|]; [|done]. by eapply IH.
Qed.

(** The files after a history. *)
Lemma runs_pages w0 (s : S) h w :
  healthy w0 -> tidy root (view w0) -> represents root (view w0) ∅ -> runs w0 s h w ->
  healthy w /\ tidy root (view w) /\ (d_now (view w0) <= d_now (view w))%Z /\
  exists m, represents root (view w) m /\
    forall hex, page_ok (d_now (view w0)) (d_now (view w)) (last_put hex h) (m !! hex).
Proof.
  intros Hw Ht Hm. induction 1 as [|h w fuel c rep w' _ (Hw1 & Ht1 & Hle & m & Hm1 & Hpages) Ha E].
  { split_and!; [done|done|lia|]. by exists ∅. }
  destruct (wpp_run _ _ _ _ (wpp_perform fuel c m w s Hw1 Ht1 Hm1 Ha))
    as (rep' & w'' & s' & E' & -> & Hw' & Ht' & _ & m' & Hm' & Hs).
  rewrite E in E'. injection E' as <- <-.
  destruct (exec_tick _ _ _ _ _ _ E) as [Hle' _].
  split_and!; [done|done|lia|]. exists m'. split; [done|]. intros hex. specialize (Hpages hex).
  apply (page_ok_later _ _ _ _ _ Hle') in Hpages.
  destruct Hs as [r rule bbs bytes created now Hk H1 H2|r rule bbs Hk|r rule pg t1 _ _ _|r rule _|r pattern n _|r|
                  r keys rows total _ _]; cbn [last_put]; try done.
  - destruct (decide (entry_hex r rule = hex)) as [<-|Hne].
    + rewrite Hk, lookup_insert_eq. destruct Ha as (_ & _ & Hok). split; [apply Hok; by eexists|].
      exists created, now. split_and!; [lia..|done].
    + by rewrite lookup_insert_ne.
  - rewrite Hk. by destruct (decide _).
  - by apply page_ok_spared.
  - by apply page_ok_spared.
Qed.
(** C3: on a healthy file system, from an empty cache, after any history of
    responses that can be written as lines of text, of lookups, purges, resets
    and listings, a lookup serves the last response kept for the key and not
    purged since (its status, its whole body, its headers that may be shared)
    until it expires, and misses when there is none. *)
Theorem lookup_returns_last_response w0 (s : S) h w fuel r rule :
  healthy w0 -> tidy root (view w0) -> represents root (view w0) ∅ -> runs w0 s h w ->
  exists rep w', exec (perform fuel (GET r rule)) w s = Some (rep, w', s) /\
    match last_put (entry_hex r rule) h with
    | None => rep = MISS r
    | Some (r1, rule1, bytes) =>
        exists created now, (d_now (view w0) <= created <= now)%Z /\ (now <= d_now (view w))%Z /\
          ((d_now (view w) < now + ttl_seconds rule1)%Z /\
           (exists age, rep = HIT (fold_left replay_header (stored_headers (r_headers_out r1)) r) (r_status r1)
                                (Z.of_nat (length bytes)) age (Some bytes)) \/
           (now + ttl_seconds rule1 <= d_now (view w'))%Z /\ rep = MISS r)
    end.
Proof.
  intros Hw Ht Hm Hr. destruct (runs_pages w0 s h w Hw Ht Hm Hr) as (Hw1 & Ht1 & _ & m & Hm1 & Hpages).
  destruct (wpp_run _ _ _ _ (wpp_get fuel r rule m w s Hw1 Ht1 Hm1))
    as (rep & w' & s' & E & -> & _ & _ & _ & m' & _ & Hs). exists rep, w'. split; [done|].
  specialize (Hpages (entry_hex r rule)). inversion Hs as [| |r0 rule0 pg t1 Hpg Hfresh|r0 rule0 Hmiss| | |];
    subst; clear Hs.
  - rewrite Hpg in Hpages. destruct (last_put _ h) as [[[r1 rule1] bytes]|]; [|done].
    destruct Hpages as (Hok & created & now & H1 & H2 & [= ->]). exists created, now. split; [done|]. split; [done|].
    left. split; [done|]. eexists. cbn [pg_headers response_page pg_meta pg_body em_status entry_meta].
    rewrite replay_dump by apply Hok. reflexivity.
  - destruct (last_put _ h) as [[[r1 rule1] bytes]|]; [|done].
    destruct Hpages as (_ & created & now & H1 & H2 & Hpg). exists created, now. split; [done|]. split; [done|].
    right. split; [|done]. exact (Hmiss _ Hpg).
Qed.

(** An empty cache directory. *)
Lemma tidy_fresh d :
  in_time (d_now d) -> root ∈ d_dirs d -> d_names d = ∅ ->
  (forall q, q ∈ d_dirs d -> length q < length root + 44) -> tidy root d /\ represents root d ∅.
Proof.
  intros Htime Hroot Hn Hdirs. split.
  - split; unfold no_temp, file_ok; rewrite ?Hn; try done.
    + intros hex Hk. split; intros H%Hdirs.
      * pose proof (length_entry root hex _ Hk (or_introl eq_refl)). lia.
      * pose proof (length_entry root hex _ Hk (or_intror eq_refl)). lia.
    + intros h _ [x Hx]. done.
    + intros hex _ [x Hx]. done.
  - split; [|by intros hex [x Hx]]. intros hex _. unfold page_at, file_at. by rewrite Hn.
Qed.
End refine.

(** ** A page stored, served and purged *)

Lemma empty_cache_tidy :
  tidy (str "/var/cache") empty_cache /\
  represents (str "/var/cache") empty_cache ∅.
Proof.
  apply tidy_fresh.
  - split; vm_compute; discriminate.
  - apply (bool_decide_unpack _). vm_compute. exact I.
  - reflexivity.
  - intros q Hq. assert (q ∈ elements (d_dirs empty_cache)) as Hin by by apply elem_of_elements.
    clear Hq. revert q Hin. apply Forall_forall. apply (bool_decide_unpack _). vm_compute. exact I.
Qed.

Definition sample_put : command := PUT sample_response sample_vary_rule sample_brigades.
Definition sample_other_reset : command := RESET (admin_request "other.example" "/admin/full-reset").
Definition sample_get : command := GET sample_gzip_request sample_vary_rule.

(** The answer to a command and the files after it. *)
Definition after (fuel : nat) (c : command) (w : @world ref_files) : reply * @world ref_files :=
  match exec (perform (str "/var/cache") fuel c) w tt with Some (rep, w', _) => (rep, w') | None => (SENT, w) end.

Definition put_cache : @world ref_files := snd (after 0 sample_put empty_cache).
Definition reset_fuel : nat := walk_fuel put_cache.
Definition reset_cache : reply * @world ref_files := after reset_fuel sample_other_reset put_cache.

Lemma exec_after fuel c w :
  is_Some (exec (perform (str "/var/cache") fuel c) w tt) ->
  exec (perform (str "/var/cache") fuel c) w tt = Some (fst (after fuel c w), snd (after fuel c w), tt).
Proof. unfold after. intros [[[rep w'] []] ->]. done. Qed.

Lemma sample_put_admissible : admissible 0 empty_cache sample_put.
Proof.
  split; [vm_compute; reflexivity|]. split; [split; vm_compute; discriminate|]. intros _. apply sample_response_ok.
Qed.

Lemma sample_reset_admissible : admissible reset_fuel put_cache sample_other_reset.
Proof.
  split; [unfold reset_fuel; lia|]. exists 1000%Z.
  apply walk_ok_intro; [by vm_compute|done|by vm_compute|by vm_compute|].
  apply (bool_decide_unpack _). vm_compute. exact I.
Qed.

Lemma is_Some_true {A} (o : option A) : match o with Some _ => true | None => false end = true -> is_Some o.
Proof. destruct o; [by eexists|done]. Qed.

Lemma sample_put_sent : fst (after 0 sample_put empty_cache) = SENT.
Proof.
  assert (match fst (after 0 sample_put empty_cache) with SENT => true | _ => false end = true) as H
    by (vm_compute; reflexivity).
  by destruct (fst (after 0 sample_put empty_cache)).
Qed.

Lemma sample_last_put rep1 rep2 :
  last_put (entry_hex sample_gzip_request sample_vary_rule) [(sample_other_reset, rep1); (sample_put, rep2)] =
  Some (sample_response, sample_vary_rule, str "hello").
Proof.
  cbn [last_put sample_put sample_other_reset].
  rewrite decide_True by (vm_compute; reflexivity).
  assert (kept sample_response sample_vary_rule (concat sample_brigades) = Some (str "hello")) as ->
    by (vm_compute; reflexivity).
  cbn [mbind option_bind]. unfold unless_selected.
  assert (selects (admin_request "other.example" "/admin/full-reset") None (entry_meta sample_response 0 0) = false) as E
    by (vm_compute; reflexivity).
  cbn [fst]. by rewrite E.
Qed.

Lemma sample_runs :
  runs (AF := ref_files) (str "/var/cache") empty_cache tt
    [(sample_other_reset, fst reset_cache); (sample_put, SENT)] (snd reset_cache).
Proof.
  apply (runs_step _ _ _ _ put_cache reset_fuel).
  - rewrite <- sample_put_sent.
    apply (runs_step _ _ _ _ empty_cache 0); [constructor|apply sample_put_admissible|].
    apply exec_after, is_Some_true. vm_compute. reflexivity.
  - apply sample_reset_admissible.
  - apply exec_after, is_Some_true. vm_compute. reflexivity.
Qed.


(** The page is still there after another site's reset, and is served. *)
Lemma lookup_returns_last_response_witness :
  exists rep w', exec (perform (str "/var/cache") 0 sample_get) (snd reset_cache) tt = Some (rep, w', tt) /\
    exists created now, (1000 <= created <= now)%Z /\ (now <= d_now (snd reset_cache))%Z /\
      ((d_now (snd reset_cache) < now + ttl_seconds sample_vary_rule)%Z /\
       (exists age, rep = HIT (fold_left replay_header (stored_headers (r_headers_out sample_response)) sample_gzip_request)
                            200 5 age (Some (str "hello"))) \/
       (now + ttl_seconds sample_vary_rule <= d_now w')%Z /\ rep = MISS sample_gzip_request).
Proof.
  pose proof (lookup_returns_last_response (AF := ref_files) (str "/var/cache") empty_cache tt _ _ 0
    sample_gzip_request sample_vary_rule I (proj1 empty_cache_tidy) (proj2 empty_cache_tidy) sample_runs) as H.
  rewrite sample_last_put in H. exact H.
Defined.
