(* ===== verification/Startup.v ===== *)
(** * Starting and restarting the server

    [cacher_post_config] makes the cache roots of all virtual hosts before the
    first request.  Whatever else it meets, it lets the server start; a root
    that was not there is an empty cache afterwards, and one that was there
    keeps the pages it had. *)

From S2P Require Import Prelude CNum CHeap Glob Rules RulesParse RulesMatch Apr AprFile AprRef Util Config Meta.
From S2P Require Import Cache Publish Lookup RoundTrip Admin Purge Handler Store Delivery Refine.
From Stdlib Require Import Lia.
Local Open Scope cstr_scope.

(** The roots the servers configure. *)
Definition roots (servers : list (option cacher_svr_conf)) : list cstr :=
  omap (fun conf => conf ≫= sc_cache_root) servers.

Section startup.
Context {AS : AprStrings} {AT : AprTables} {AM : AprMd5} {HT : Httpd} {AF : AprFiles} {S : Type}.
Context (root : cstr).

(** No file is on the way to the root or below it. *)
Record cleared (d : disk) : Prop := {
  cl_time : in_time (d_now d);
  cl_way q : on_path q root -> d_names d !! q = None;
  cl_below p : under root p -> d_names d !! p = None;
  cl_slot hex : is_key hex -> entry_header root hex ∉ d_dirs d /\ entry_body root hex ∉ d_dirs d;
  cl_files p : file_ok d p;
}.

(** Before the root is made, and after. *)
Definition cache_of (m : gmap cstr page) (d : disk) : Prop := tidy root d /\ represents root d m.
Definition coming (m : gmap cstr page) (d : disk) : Prop := cache_of m d \/ cleared d /\ m = ∅.

(** Another root that has no directory where an entry of this one belongs. *)
Definition clear_of (other : cstr) : Prop :=
  forall hex, is_key hex -> ~ on_path (entry_header root hex) other /\ ~ on_path (entry_body root hex) other.

(** A directory on the way to something below the root is on the way to the
    root or below it. *)
Lemma on_path_below q p : under root p -> on_path q p -> on_path q root \/ under root q.
Proof.
  intros [t ->] [H|[x E]]; [right; by exists t|]. unfold child in E. cbn [app] in E.
  apply app_eq_inv in E as [(k & E1 & E2)|(k & E1 & E2)].
  - left. destruct k as [|c k]; [rewrite app_nil_r in E1; by left|]. injection E2 as <- _. right. by exists k.
  - destruct k as [|c k]; [left; rewrite app_nil_r in E1; by left|]. injection E2 as <- _. right. by exists k.
Qed.

Lemma below_root hex :
  under root (shard_of root hex) /\ under root (entry_header root hex) /\ under root (entry_body root hex).
Proof.
  unfold under, entry_header, entry_body, shard_of, child. split_and!; eexists; by rewrite <- !app_assoc.
Qed.

Lemma cleared_empty d : root ∈ d_dirs d -> cleared d -> cache_of ∅ d.
Proof.
  intros Hroot [Ht Hway Hbelow Hslot Hok]. split.
  - split; try done.
    + intros hex q _ Hq. apply on_path_below in Hq as [Hq|Hq]; [by apply Hway|by apply Hbelow|apply below_root].
    + intros hex _. destruct (below_root hex) as (_ & [t1 E1] & [t2 E2]).
      split; intros x; apply Hbelow; rewrite ?E1, ?E2; unfold child; eexists; by rewrite <- !app_assoc.
    + intros h [Hh _] [i Hi]. by rewrite Hbelow in Hi.
    + intros hex _ [i Hi]. rewrite Hbelow in Hi; [done|apply below_root].
  - split; [|by intros hex [x Hx]]. intros hex _. unfold page_at, file_at.
    rewrite (Hbelow (entry_header root hex)) by apply below_root. apply lookup_empty.
Qed.

(** Directories were made, on the way to [other]. *)
Definition made (other : cstr) (d d' : disk) : Prop :=
  exists ds, later (set_dirs d (ds ∪ d_dirs d)) d' /\ forall q, q ∈ ds -> on_path q other.

Lemma made_coming other m d d' : clear_of other -> made other d d' -> coming m d -> coming m d'.
Proof.
  intros Hother (ds & (t & [_ Htick] & ->) & Hds).
  assert (forall hex, is_key hex -> entry_header root hex ∉ d_dirs d /\ entry_body root hex ∉ d_dirs d ->
    entry_header root hex ∉ ds ∪ d_dirs d /\ entry_body root hex ∉ ds ∪ d_dirs d) as Hslot.
  { intros hex Hk [H1 H2]. destruct (Hother hex Hk) as [N1 N2]. rewrite !not_elem_of_union. auto 6. }
  intros [[[T1 T2 T3 T4 T5 T6 T7 T8] [H1 H2]]|[[C1 C2 C3 C4 C5] ->]].
  - left. split; [|by split]. split; cbn; auto; [set_solver|]. intros hex Hk Hh.
    destruct (T8 hex Hk Hh). set_solver.
  - right. split; [|done]. split; cbn; auto.
Qed.

Lemma made_dirs other d d' : made other d d' -> d_dirs d ⊆ d_dirs d'.
Proof. intros (ds & (t & _ & ->) & _). cbn. set_solver. Qed.

Lemma wpp_ensure_root m servers w (s : S) :
  root <> [] -> healthy w -> (forall other, other ∈ roots servers -> clear_of other) ->
  coming m (view w) ->
  wpp (cacher_cache_ensure_root servers) (fun _ w' s' => s' = s /\ healthy w' /\
    d_fds (view w') = d_fds (view w) /\ coming m (view w') /\ d_dirs (view w) ⊆ d_dirs (view w') /\
    (root ∈ roots servers -> root ∈ d_dirs (view w'))) w s.
Proof.
  intros Hne. revert w. induction servers as [|conf servers IH]; intros w Hw Hclear Hc.
  { apply wpp_ret. split_and!; try done. by intros ?%elem_of_nil. }
  cbn [cacher_cache_ensure_root]. unfold roots in *. cbn [omap list_omap] in *.
  destruct (conf ≫= sc_cache_root) as [other|] eqn:E; [|by apply IH].
  wp_call; [done|]. intros ok w1 Hs Hh. destruct (Hh Hw) as [Hok Hw1].
  assert (made other (view w) (view w1)) as Hmade.
  { destruct ok; [destruct Hs as (ds & Hl & Hds & _); by exists ds|]. exists ∅. split; [|set_solver].
    destruct Hs as (t & Ht & ->). exists t. split; [done|]. unfold set_dirs. cbn. by rewrite union_empty_l_L. }
  assert (d_fds (view w1) = d_fds (view w)) as F1 by apply (fs_spec_fds _ _ _ _ Hs).
  assert (coming m (view w1)) as Hc1 by (eapply made_coming; [|done..]; apply Hclear; by left).
  assert (other = root -> root ∈ d_dirs (view w1)) as Hroot.
  { intros ->. destruct Hc as [[Ht _]|[Hcl _]]; [apply (made_dirs _ _ _ Hmade), Ht|]. cbn in Hok.
    assert (ok = true) as -> by (apply Hok, Hcl). destruct Hs as (ds & (t & _ & ->) & _ & Hin). cbn.
    apply Hin; [by left|done]. }
  apply wpp_bind. eapply wpp_mono; [apply IH; [done| |done]|].
  { intros other' Ho. apply Hclear. by right. }
  intros ok' w2 s2 (-> & Hw2 & F2 & Hc2 & D2 & Hr2). apply wpp_ret. split_and!; [done|done|congruence|done| |].
  - etrans; [by eapply made_dirs|done].
  - intros [->|Hin]%elem_of_cons; [by apply D2, Hroot|by apply Hr2].
Qed.

(** Whatever fails, making the roots leaves the files and what is open alone, and
    makes directories on the way to a root only. *)
Lemma wpp_ensure_root_made servers w (s : S) :
  wpp (cacher_cache_ensure_root servers) (fun _ w' s' => s' = s /\
    d_names (view w') = d_names (view w) /\ d_data (view w') = d_data (view w) /\ d_fds (view w') = d_fds (view w) /\
    forall q, q ∈ d_dirs (view w') -> q ∈ d_dirs (view w) \/ exists other, other ∈ roots servers /\ on_path q other) w s.
Proof.
  revert w. induction servers as [|conf servers IH]; intros w; [apply wpp_ret; split_and!; auto|].
  cbn [cacher_cache_ensure_root]. unfold roots in *. cbn [omap list_omap] in *.
  destruct (conf ≫= sc_cache_root) as [other|]; [|apply IH].
  wp_call; [done|]. intros ok w1 Hs _. apply wpp_bind. eapply wpp_mono; [apply IH|].
  intros ok' w2 s2 (-> & N & D & F & Q). apply wpp_ret.
  assert (d_names (view w1) = d_names (view w) /\ d_data (view w1) = d_data (view w) /\
    d_fds (view w1) = d_fds (view w) /\ forall q, q ∈ d_dirs (view w1) -> q ∈ d_dirs (view w) \/ on_path q other)
    as (N1 & D1 & F1 & Q1).
  { cbn in Hs. destruct ok; [destruct Hs as (ds & (t & _ & ->) & Hds & _)|destruct Hs as (t & _ & ->)]; cbn.
    - split_and!; [done..|]. intros q [Hq|Hq]%elem_of_union; auto.
    - split_and!; auto. }
  split_and!; [done|congruence..|]. intros q Hq. destruct (Q q Hq) as [Hq1|(o & Ho & Hp)].
  - destruct (Q1 q Hq1) as [|Hp]; [by left|right]. exists other. split; [by left|done].
  - right. exists o. split; [by right|done].
Qed.

(** C30: the server always starts, whatever fails, and touches no file and nothing
    open on the way; it makes directories on the way to a configured root only.
    On a healthy file system every configured root is usable afterwards,
    whatever became of the others: a root that was a cache before the restart
    stands for the same pages, and one that was not there for none; where no
    file stands on the way to it and no other root is placed on an entry of
    it. *)
Theorem startup_ready m servers w (s : S) :
  exists w', exec (cacher_post_config servers) w s = Some (OK, w', s) /\
    d_names (view w') = d_names (view w) /\ d_data (view w') = d_data (view w) /\ d_fds (view w') = d_fds (view w) /\
    (forall q, q ∈ d_dirs (view w') -> q ∈ d_dirs (view w) \/ exists other, other ∈ roots servers /\ on_path q other) /\
    (root <> [] -> healthy w -> root ∈ roots servers -> (forall other, other ∈ roots servers -> clear_of other) ->
     coming m (view w) ->
     healthy w' /\ tidy root (view w') /\ represents root (view w') m).
Proof.
  destruct (wpp_run _ _ _ _ (wpp_ensure_root_made servers w s)) as (ok & w' & s' & E & -> & N & D & F & Q).
  exists w'. split; [unfold cacher_post_config; by rewrite exec_bind, E|]. split_and!; [done..|].
  intros Hne Hw Hin Hclear Hc.
  destruct (wpp_run _ _ _ _ (wpp_ensure_root m servers w s Hne Hw Hclear Hc))
    as (ok2 & w2 & s2 & E2 & -> & Hw2 & _ & Hc2 & _ & Hroot).
  rewrite E in E2. injection E2 as <- <-. split; [done|].
  destruct Hc2 as [Hc2|[Hcl ->]]; [done|]. apply cleared_empty; auto.
Qed.
End startup.

(** Short paths are clear of all entries. *)
Lemma clear_of_short root other : length other < length root + 44 -> clear_of root other.
Proof.
  intros Hl hex Hk.
  assert (forall p, p = entry_header root hex \/ p = entry_body root hex -> ~ on_path p other) as H; [|by split; apply H; auto].
  intros p Hp Hon. pose proof (length_entry root hex p Hk Hp).
  destruct Hon as [->|[x ->]]; [lia|]. rewrite length_app in Hl. lia.
Qed.

(** Two hosts with roots of their own and one without; nothing is there yet. *)
Definition sample_servers : list (option cacher_svr_conf) :=
  [None; Some (SvrConf (Some (str "/var/cache"))); Some (SvrConf None); Some (SvrConf (Some (str "/var/cache/other")))].

Definition bare_disk : @world ref_files := Disk ∅ ∅ ∅ {[str "/var"]} ∅ ∅ 1000.

Lemma bare_coming : coming (str "/var/cache") ∅ bare_disk.
Proof.
  right. split; [|done]. split.
  - split; vm_compute; discriminate.
  - intros q _. apply lookup_empty.
  - intros p _. apply lookup_empty.
  - intros hex Hk.
    assert (forall p, p = entry_header (str "/var/cache") hex \/ p = entry_body (str "/var/cache") hex -> p ∉ d_dirs bare_disk) as H;
      [|by split; apply H; auto].
    intros p Hp Hin. cbn in Hin. apply elem_of_singleton in Hin as ->. pose proof (length_entry _ hex _ Hk Hp) as Hl. cbn in Hl. lia.
  - intros p i Hi. vm_compute in Hi. discriminate Hi.
Qed.

Lemma startup_ready_witness :
  exists w', exec (cacher_post_config sample_servers) bare_disk tt = Some (OK, w', tt) /\ healthy w' /\
    tidy (str "/var/cache") (view w') /\ represents (str "/var/cache") (view w') ∅ /\
    d_fds (view w') = d_fds (view bare_disk).
Proof.
  destruct (startup_ready (AF := ref_files) (str "/var/cache") ∅ sample_servers bare_disk tt)
    as (w' & E & _ & _ & F & _ & H).
  exists w'. split; [exact E|]. destruct H as (H1 & H2 & H3); [discriminate|exact I| | |apply bare_coming|].
  - apply (bool_decide_unpack _). vm_compute. exact I.
  - intros other Ho. apply clear_of_short. unfold roots, sample_servers in Ho. cbn in Ho.
    revert Ho. intros [->|[->|?%elem_of_nil]%elem_of_cons]%elem_of_cons; [cbn; lia|cbn; lia|done].
  - split; [exact H1|]. split; [exact H2|]. split; [exact H3|exact F].
Defined.
