(* ===== verification/Headers.v ===== *)
(** * The headers of a response, with and without the cache

    What of a response's headers is stored and replayed: every header that may
    be shared reads the same on a hit as in the response the entry was made
    from, and so does the content type, as long as no two of them have one name
    and the generator puts the type where the cache looks for it. *)

From S2P Require Import Prelude CNum CHeap CJson Rules RulesParse RulesMatch Apr AprFile AprRef Util.
From S2P Require Import Config Meta Cache Publish Lookup RoundTrip Admin Purge Handler Serve.
From Stdlib Require Import Lia.
Local Open Scope cstr_scope.

Section headers.
Context {AS : AprStrings} {AT : AprTables} {AM : AprMd5} {HT : Httpd}.

(** A header of the response. *)
Definition header (r : request) (k : cstr) : option cstr := apr_table_get (r_headers_out r) k.

(** The headers visitors may share, but for the content type, which httpd takes
    from elsewhere. *)
Definition shareable (k : cstr) : Prop := is_uncacheable_header k = false /\ ~ ci_eq k (str "Content-Type").

(** The value the list gives to a name. *)
Definition value_in (l : list (cstr * cstr)) (k : cstr) : option cstr :=
  snd <$> head (filter (fun e => ci_eq (fst e) k) l).

(** No name twice, in whatever case. *)
Definition distinct_names (l : list (cstr * cstr)) : Prop := NoDup ((fun e : cstr * cstr => tolower <$> fst e) <$> l).

#[export] Instance distinct_names_dec l : Decision (distinct_names l).
Proof. unfold distinct_names. apply _. Defined.

Lemma value_in_cons e l k :
  value_in (e :: l) k = if decide (ci_eq (fst e) k) then Some (snd e) else value_in l k.
Proof. unfold value_in. rewrite filter_cons. by destruct (decide _). Qed.

Lemma value_in_None l k : (forall e, e ∈ l -> ~ ci_eq (fst e) k) -> value_in l k = None.
Proof.
  induction l as [|e l IH]; intros H; [done|]. rewrite value_in_cons, decide_False by (apply H; by left).
  apply IH. intros e' He. apply H. by right.
Qed.

Lemma distinct_names_cons e l :
  distinct_names (e :: l) -> distinct_names l /\ forall k, ci_eq (fst e) k -> value_in l k = None.
Proof.
  intros [Hn Hl]%NoDup_cons. split; [done|]. intros k Hk. apply value_in_None. intros e' He' Hk'.
  apply Hn, list_elem_of_fmap. exists e'. split; [|done]. cbn. unfold ci_eq in *. congruence.
Qed.

(** ** Tables *)

Lemma table_get_setn_other t n v k : ~ ci_eq n k -> apr_table_get (apr_table_setn t n v) k = apr_table_get t k.
Proof.
  intros Hn. rewrite !apr_table_get_spec. do 2 f_equal.
  assert (forall e : cstr * cstr, ci_eq (fst e) k -> ~ ci_eq (fst e) n) as H.
  { intros e Hk He. apply Hn. by rewrite <- He, Hk. }
  rewrite <- (list_filter_filter_l _ (fun e => ~ ci_eq (fst e) n) _ H), apr_table_setn_other.
  by apply list_filter_filter_l.
Qed.

(** Shared headers are the stored ones. *)
Lemma header_stored r k : is_uncacheable_header k = false -> header r k = value_in (stored_headers (r_headers_out r)) k.
Proof.
  intros Hk. unfold header, value_in, stored_headers. rewrite apr_table_get_spec, list_filter_filter_l; [done|].
  intros e He. by rewrite (is_uncacheable_ci _ _ He).
Qed.

Lemma stored_setn_private t n v : is_uncacheable_header n = true -> stored_headers (apr_table_setn t n v) = stored_headers t.
Proof.
  intros Hn. unfold stored_headers.
  assert (forall e : cstr * cstr, is_uncacheable_header (fst e) = false -> ~ ci_eq (fst e) n) as H.
  { intros e He Hk. by rewrite (is_uncacheable_ci _ _ Hk), Hn in He. }
  rewrite <- (list_filter_filter_l _ (fun e => ~ ci_eq (fst e) n) _ H), apr_table_setn_other.
  by apply list_filter_filter_l.
Qed.

Lemma header_setn_private r n v k :
  is_uncacheable_header n = true -> is_uncacheable_header k = false ->
  header (set_headers_out r (apr_table_setn (r_headers_out r) n v)) k = header r k.
Proof. intros Hn Hk. rewrite !header_stored by done. cbn [r_headers_out set_headers_out]. by rewrite stored_setn_private. Qed.

(** ** Replaying *)

Lemma replay_header_header r e k :
  shareable k -> header (replay_header r e) k = if decide (ci_eq (fst e) k) then Some (snd e) else header r k.
Proof.
  intros [_ Hk]. unfold replay_header, header. destruct (decide (ci_eq (fst e) (str "Content-Type"))) as [Hc|Hc].
  - rewrite decide_False; [done|]. intros He. apply Hk. by rewrite <- He.
  - destruct (decide (ci_eq (fst e) k)) as [He|He]; cbn [r_headers_out set_headers_out]; [|by apply table_get_setn_other].
    rewrite apr_table_get_spec. rewrite (list_filter_iff _ (fun e' => ci_eq (fst e') (fst e))).
    + rewrite <- apr_table_get_spec. apply apr_table_setn_same.
    + intros e'. by rewrite He.
Qed.

Lemma replay_headers_header l r k :
  shareable k -> distinct_names l ->
  header (fold_left replay_header l r) k = match value_in l k with Some v => Some v | None => header r k end.
Proof.
  intros Hk. revert r. induction l as [|e l IH]; intros r Hl; [done|].
  apply distinct_names_cons in Hl as [Hl He]. cbn [fold_left]. rewrite IH, value_in_cons, replay_header_header by done.
  destruct (decide (ci_eq (fst e) k)) as [Hek|]; [by rewrite (He k Hek)|done].
Qed.

Lemma replay_header_type r e :
  r_content_type (replay_header r e) =
  if decide (ci_eq (fst e) (str "Content-Type")) then Some (snd e) else r_content_type r.
Proof. unfold replay_header. by destruct (decide _). Qed.

Lemma replay_headers_type l r :
  distinct_names l ->
  r_content_type (fold_left replay_header l r) =
  match value_in l (str "Content-Type") with Some v => Some v | None => r_content_type r end.
Proof.
  revert r. induction l as [|e l IH]; intros r Hl; [done|].
  apply distinct_names_cons in Hl as [Hl He]. cbn [fold_left]. rewrite IH, value_in_cons, replay_header_type by done.
  destruct (decide (ci_eq (fst e) (str "Content-Type"))) as [Hek|]; [by rewrite (He _ Hek)|done].
Qed.

(** ** What the handler adds *)

Lemma set_status_stored r dconf status : stored_headers (r_headers_out (set_status r dconf status)) = stored_headers (r_headers_out r).
Proof. unfold set_status. destruct (negb _); [|done]. cbn. by apply stored_setn_private. Qed.

Lemma hit_response_stored r dconf hit :
  stored_headers (r_headers_out (hit_response r dconf hit)) = stored_headers (r_headers_out r).
Proof.
  unfold hit_response. rewrite ap_set_content_length_spec.
  assert (forall r' : request, stored_headers (r_headers_out r') = stored_headers (r_headers_out r) ->
    stored_headers (r_headers_out (if (0 <=? ch_age hit)%Z
      then set_headers_out r' (apr_table_setn (r_headers_out r') (str "Age") (apr_psprintf [FInt (ch_age hit)])) else r'))
    = stored_headers (r_headers_out r)) as H.
  { intros r' <-. destruct (0 <=? ch_age hit)%Z; [|done]. by apply stored_setn_private. }
  apply H. rewrite set_status_stored. cbn. by apply stored_setn_private.
Qed.

Lemma hit_response_type r dconf hit : r_content_type (hit_response r dconf hit) = r_content_type r.
Proof.
  unfold hit_response. rewrite ap_set_content_length_spec. unfold set_status. by destruct (negb _), (0 <=? ch_age hit)%Z.
Qed.

(** ** Responses that look the same *)

(** Visitors see the same shared headers and the same type. *)
Definition looks_like (r r' : request) : Prop :=
  r_content_type r' = r_content_type r /\ forall k, shareable k -> header r' k = header r k.

Lemma looks_like_stored r r' :
  r_content_type r' = r_content_type r -> stored_headers (r_headers_out r') = stored_headers (r_headers_out r) ->
  looks_like r r'.
Proof. intros Hc Hs. split; [done|]. intros k [Hk _]. by rewrite !header_stored, Hs. Qed.

(** The type is among the headers, or was known before the generator ran. *)
Definition type_kept (r resp : request) : Prop :=
  r_content_type resp = match header resp (str "Content-Type") with Some ct => Some ct | None => r_content_type r end.

(** A hit looks like the response that was stored, when this has no name twice,
    shows its type, and has the headers [r] has from the start. *)
Lemma hit_looks_like r resp dconf hit text :
  text = dump_headers (r_headers_out resp) -> Forall header_ok (stored_headers (r_headers_out resp)) ->
  distinct_names (stored_headers (r_headers_out resp)) -> type_kept r resp ->
  (forall k, shareable k -> is_Some (header r k) -> is_Some (header resp k)) ->
  looks_like resp (hit_response (replay_text r text) dconf hit).
Proof.
  intros -> Hok Hd Ht Hk. rewrite replay_dump by done. split.
  - rewrite hit_response_type, replay_headers_type, Ht by done.
    by rewrite header_stored.
  - intros k Hs. destruct Hs as [Hu Hn]. rewrite header_stored, hit_response_stored, <- header_stored by done.
    rewrite replay_headers_header by done. rewrite <- header_stored by done.
    destruct (header resp k) as [v|] eqn:Ev; [done|]. destruct (header r k) as [v|] eqn:Er; [|done].
    destruct (Hk k (conj Hu Hn)) as [v' Hv']; [by eexists|congruence].
Qed.
End headers.

(** ** What a hit loses *)

(** Of two headers with one name only the last comes back. *)
Example duplicate_names_collapse :
  let headers := [(str "Link", str "<a.css>; rel=preload"); (str "link", str "<b.js>; rel=preload"); (str "ETag", str "7")] in
  r_headers_out (replay_text sample_page (dump_headers headers)) =
  [(str "Link", str "<b.js>; rel=preload"); (str "ETag", str "7")].
Proof. apply (bool_decide_unpack _). vm_compute. exact I. Qed.

(** A type the generator left in the request alone does not come back. *)
Example type_outside_headers_lost :
  let response := set_ctype (set_headers_out sample_page [(str "ETag", str "7")]) (Some (str "text/html")) in
  r_content_type (replay_text sample_page (dump_headers (r_headers_out response))) = None.
Proof. apply (bool_decide_unpack _). vm_compute. exact I. Qed.
