(* ===== verification/Site.v ===== *)
(** * A site behind the cache

    The handler, the capture filter and the administration put together: every
    request goes through [cacher_handler], is answered from the cache or by the
    content generator of the site, and on its way back through the filter the
    handler installed.  The cache is transparent: whatever came before, a
    visitor gets the page the site itself would have sent. *)

From S2P Require Import Prelude CNum CJson CHeap Glob Rules RulesParse RulesMatch Apr AprFile AprRef Util.
From S2P Require Import Config Meta Cache Publish Lookup RoundTrip Admin Purge Handler Serve Store Delivery Refine Headers.
From Stdlib Require Import Lia.
Local Open Scope cstr_scope.

(** ** What a response depends on *)

Section inputs.
Context {AS : AprStrings} {AT : AprTables} {AM : AprMd5} {HT : Httpd} {AP : AprPaths}.

(** Two requests that differ in their responses only. *)
Record same_input (r r' : request) : Prop := {
  si_main : r_main r' = r_main r;
  si_prev : r_prev r' = r_prev r;
  si_uri : r_uri r' = r_uri r;
  si_path : r_path r' = r_path r;
  si_args : r_args r' = r_args r;
  si_method : r_method r' = r_method r;
  si_header_only : r_header_only r' = r_header_only r;
  si_hostname : r_hostname r' = r_hostname r;
  si_headers_in : r_headers_in r' = r_headers_in r;
}.

Lemma same_input_status r dconf status : same_input r (set_status r dconf status).
Proof. unfold set_status. by destruct (negb _). Qed.

(** Nor in the headers and the type that the response starts with. *)
Record same_start (r r' : request) : Prop := {
  ss_input : same_input r r';
  ss_type : r_content_type r' = r_content_type r;
  ss_headers : stored_headers (r_headers_out r') = stored_headers (r_headers_out r);
}.

Lemma same_start_status r dconf status : same_start r (set_status r dconf status).
Proof.
  split; [apply same_input_status|unfold set_status; by destruct (negb _)|apply set_status_stored].
Qed.

Lemma same_input_trans r1 r2 r3 : same_input r1 r2 -> same_input r2 r3 -> same_input r1 r3.
Proof. intros [] []. split; congruence. Qed.

Lemma original_same_input r r' : same_input r r' ->
  r_uri (cacher_original_request r') = r_uri (cacher_original_request r) /\
  r_path (cacher_original_request r') = r_path (cacher_original_request r) /\
  r_args (cacher_original_request r') = r_args (cacher_original_request r).
Proof.
  intros [_ Hp Hu Hpa Ha _ _ _ _]. destruct r as [? p1], r' as [? p2]. cbn in *. subst p2.
  by destruct p1.
Qed.

Lemma entry_hex_same_input r r' rule : same_input r r' -> entry_hex r' rule = entry_hex r rule.
Proof.
  intros H. destruct (original_same_input _ _ H) as (Eu & _ & Ea). destruct H as [_ _ _ _ _ Em Eh Eho Ei].
  unfold entry_hex, build_cache_key_string. cbv zeta. rewrite Eu, Ea, Em, Eh, Eho.
  destruct (vary rule) as [a|]; [|done]. do 2 f_equal. generalize (arr_vals a). intros l.
  generalize (apr_pstrcat [if r_header_only r then str "GET" else r_method r; [LF]; opt_text (r_hostname r); [LF];
     r_uri (cacher_original_request r); query_mark (r_args (cacher_original_request r));
     opt_text (r_args (cacher_original_request r))]).
  induction l as [|e l IH]; intros key; [done|]. cbn [fold_left].
  assert (vary_value r' e = vary_value r e) as ->; [|apply IH].
  unfold vary_value, cacher_get_cookie, for_each_cookie. by rewrite Ei.
Qed.

Lemma insert_filter_same_input r r' root rule :
  same_input r r' -> cacher_cache_insert_filter r' (Some root) rule = cacher_cache_insert_filter r (Some root) rule.
Proof.
  intros H. unfold cacher_cache_insert_filter. rewrite !cache_key_paths_shard.
  by rewrite (entry_hex_same_input r r') , (si_header_only _ _ H).
Qed.
End inputs.

Section site.
Context {AS : AprStrings} {AT : AprTables} {AM : AprMd5} {HT : Httpd} {AP : AprPaths} {AF : AprFiles}.

(** ** The site *)

(** The cache directory, the configuration of the site and its rules, and the
    content generator: from a request to the response it fills in and the
    brigades it sends. *)
Context (root : cstr) (dconf : cacher_dir_conf) (vs : list arule).
Context (origin : request -> request * list (list bucket)).

Record answer := Answer { an_request : request; an_body : option (list ascii) }.

(** The brigades go through the filter of the handler, if it installed one. *)
Definition generate (r : request) (filter : option cacher_out_ctx) : prog pstate answer :=
  let '(r', bbs) := origin r in
  match filter with
  | Some ctx => _ ← run_filter r' ctx bbs; mret (Answer r' (stream_bytes (concat bbs)))
  | None => mret (Answer r' (stream_bytes (concat bbs)))
  end.

(** What the handler returned is sent, or the site generates its response. *)
Definition send_page (res : handled) : prog pstate answer :=
  match hd_sent res with
  | Some (SentFile fd n) =>
      body ← call (ReadFull fd (Z.to_nat n));
      _ ← call (Close fd);
      mret (Answer (hd_request res) body)
  | Some (SentText text) => mret (Answer (hd_request res) (Some text))
  | None =>
      if (hd_status res =? DECLINED)%Z then generate (hd_request res) (hd_filter res)
      else mret (Answer (set_status_code (hd_request res) (hd_status res)) None)
  end.

(** A request from end to end. *)
Definition serve_page (depth width : nat) (r : request) : prog pstate answer :=
  res ← cacher_handler depth width r; send_page res.

(** The status and the body the site itself answers with. *)
Definition page_of (r : request) : Z * option (list ascii) :=
  (r_status (fst (origin r)), stream_bytes (concat (snd (origin r)))).

(** The rule [rule] has the request cached. *)
Definition cached_by (rule : cacher_rule) (r : request) : Prop :=
  deciding_rule vs r = Some (view_rule rule) /\ enabled rule <> 0%Z /\ ~ carries_bypass_cookie r (view_rule rule).

(** The rules fit the site: pages that share an entry are the same page.  The
    generator fills in a response, whatever is there already, that ends. *)
Record origin_fits : Prop := {
  og_input r : same_input r (fst (origin r));
  og_blind r r' : same_input r r' -> page_of r' = page_of r;
  og_keyed r1 rule1 r2 rule2 : cached_by rule1 r1 -> cached_by rule2 r2 ->
    entry_hex r1 rule1 = entry_hex r2 rule2 -> page_of r1 = page_of r2;
  og_ends r : ends (concat (snd (origin r))) = true;
  og_ttl : Forall (fun v => 0 <= a_ttl v <= 9223362813482738952)%Z vs;
}.

(** The headers and the type that responses start with, before a handler runs. *)
Context (usual : request -> Prop).

(** What it takes for the headers of the pages too: they depend on the request
    and on what the response starts with, which the generator keeps; no name
    comes twice; the content type is among them. *)
Record headers_fit : Prop := {
  hf_blind r r' : usual r -> same_start r r' ->
    stored_headers (r_headers_out (fst (origin r'))) = stored_headers (r_headers_out (fst (origin r))) /\
    r_content_type (fst (origin r')) = r_content_type (fst (origin r));
  hf_keyed r1 rule1 r2 rule2 : usual r1 -> usual r2 -> cached_by rule1 r1 -> cached_by rule2 r2 ->
    entry_hex r1 rule1 = entry_hex r2 rule2 ->
    stored_headers (r_headers_out (fst (origin r1))) = stored_headers (r_headers_out (fst (origin r2)));
  hf_distinct r : usual r -> distinct_names (stored_headers (r_headers_out (fst (origin r))));
  hf_type r : usual r -> type_kept r (fst (origin r));
  hf_keeps r k : usual r -> shareable k -> is_Some (header r k) -> is_Some (header (fst (origin r)) k);
}.

(** A request of the site's visitors; the metadata of what is kept for it can be
    written as lines of text. *)
Record servable (r : request) (w : world) (s : pstate) : Prop := {
  sv_cache : cache_request r dconf;
  sv_plain : plain_request r;
  sv_root : cache_root_of r = Some root;
  sv_usual : usual r;
  sv_rules : rules_in_force dconf vs w s;
  sv_text r1 rule : same_input r r1 -> is_Some (kept (fst (origin r1)) rule (concat (snd (origin r1)))) ->
    response_ok (fst (origin r1));
}.

(** What is in the cache are pages of the site. *)
Definition faithful (m : gmap cstr page) : Prop :=
  forall r rule pg, cached_by rule r -> m !! entry_hex r rule = Some pg ->
    page_of r = (em_status (pg_meta pg), Some (pg_body pg)) /\
    (headers_fit -> usual r -> Forall header_ok (stored_headers (r_headers_out (fst (origin r)))) /\
       pg_headers pg = dump_headers (r_headers_out (fst (origin r)))).

(** The state between two requests. *)
Definition settled (w : world) : Prop :=
  healthy w /\ tidy root (view w) /\ exists m, represents root (view w) m /\ faithful m.

(** ** One request *)

Lemma exec_healthy {S A} (p : prog S A) w s a w' s' : exec p w s = Some (a, w', s') -> healthy w -> healthy w'.
Proof.
  revert w s. induction p as [b| |o k IH|X f k IH]; intros w s E Hw; cbn [exec] in E.
  - by injection E as <- <- <-.
  - done.
  - destruct (op_defined _ _) eqn:Hd; [|done]. destruct (run_healthy w o Hd Hw) as [_ Hw1].
    destruct (run o w) as [b w1]. by eapply IH.
  - destruct (f s) as [[x s1]|]; [|done]. by eapply IH.
Qed.

Lemma wpp_exec_eq {S A} (p p' : prog S A) (Q : A -> world -> S -> Prop) w s w' s' :
  exec p w s = exec p' w' s' -> wpp p' Q w' s' -> wpp p Q w s.
Proof. unfold wpp. by intros ->. Qed.

(** Reading only leaves the tree as it is. *)
Lemma reads_tidy {A} (p : prog pstate A) w s a w' s' m :
  reads_only p -> exec p w s = Some (a, w', s') -> healthy w -> tidy root (view w) -> represents root (view w) m ->
  healthy w' /\ tidy root (view w') /\ represents root (view w') m.
Proof.
  intros Hp E Hw Ht Hm. pose proof (exec_reads_only _ _ _ _ _ _ Hp E) as Hs.
  split_and!; [by eapply exec_healthy|eapply tidy_same_store; [done|by eapply exec_tick|done]|
    by eapply same_store_represents].
Qed.

Context (Hfit : origin_fits).

Definition answered (r : request) (ans : answer) (w' : world) (s' : pstate) : Prop :=
  settled w' /\ (r_status (an_request ans), an_body ans) = page_of r /\
  (headers_fit -> looks_like (fst (origin r)) (an_request ans)).

Lemma generated_looks_like r r1 : usual r -> same_start r r1 -> headers_fit -> looks_like (fst (origin r)) (fst (origin r1)).
Proof. intros Hu H Hh. by destruct (hf_blind Hh r r1 Hu H); apply looks_like_stored. Qed.

(** Without a filter, or with a response that is refused. *)
Lemma wpp_generate_plain r r1 w s :
  settled w -> usual r -> same_start r r1 -> wpp (generate r1 None) (answered r) w s.
Proof.
  intros Hw Hu H. pose proof (generated_looks_like r r1 Hu H) as Hlook. unfold generate.
  destruct (origin r1) as [r' bbs] eqn:E. apply wpp_ret. split; [done|]. split; [|exact Hlook].
  rewrite <- (og_blind Hfit r r1 (ss_input _ _ H)). unfold page_of. by rewrite E.
Qed.

(** Past the filter of a rule: the response may be stored. *)
Lemma wpp_generate_cached r r1 rule m w s :
  healthy w -> tidy root (view w) -> represents root (view w) m -> faithful m ->
  cached_by rule r -> ttl_ok rule -> usual r -> same_start r r1 ->
  (is_Some (kept (fst (origin r1)) rule (concat (snd (origin r1)))) -> response_ok (fst (origin r1))) ->
  wpp (generate r1 (cacher_cache_insert_filter r1 (Some root) rule)) (answered r) w s.
Proof.
  intros Hw Ht Hm Hfaith Hc Httl Hu Hstart Hok. pose proof (ss_input _ _ Hstart) as Hin.
  pose proof (generated_looks_like r r1 Hu Hstart) as Hlook. pose proof (og_blind Hfit r r1 Hin) as Hpage.
  assert (headers_fit -> stored_headers (r_headers_out (fst (origin r1))) = stored_headers (r_headers_out (fst (origin r))))
    as Hsth by (intros Hh; by destruct (hf_blind Hh r r1 Hu Hstart)).
  pose proof (og_input Hfit r1) as Hin1. pose proof (og_ends Hfit r1) as Hends.
  unfold generate, page_of in *. destruct (origin r1) as [r' bbs]. cbn [fst snd] in *.
  rewrite <- (insert_filter_same_input r1 r') by done.
  pose proof (wpp_put root 0 r' rule bbs m w s Hw Ht Hm (conj Hends (conj Httl Hok))) as H.
  unfold refines in H. cbn [perform] in H.
  destruct (cacher_cache_insert_filter r' (Some root) rule) as [ctx|].
  - apply wpp_bind_inv in H. apply wpp_bind. eapply wpp_mono; [exact H|].
    intros _ w' s' (_ & Hw' & Ht' & _ & m' & Hm' & Hs). apply wpp_ret. split; [|done].
    split; [done|]. split; [done|]. exists m'. split; [done|].
    inversion Hs as [r0 rule0 bbs0 bytes created now Hk _ _| | | | | |]; subst; [|done].
    pose proof (ro_headers _ (Hok (mk_is_Some _ _ Hk))) as Hro.
    apply kept_Some in Hk as (_ & _ & _ & _ & Hsb & _). intros r2 rule2 pg Hc2 Hpg.
    assert (same_input r r') as Hin' by by eapply same_input_trans.
    destruct (decide (entry_hex r' rule = entry_hex r2 rule2)) as [Ee|Hne].
    + rewrite Ee, lookup_insert_eq in Hpg. injection Hpg as <-.
      rewrite (entry_hex_same_input r r') in Ee by done.
      split; [rewrite <- (og_keyed Hfit r rule r2 rule2) by done; unfold page_of; by rewrite <- Hpage, Hsb|].
      intros Hh Hu2. cbn [pg_headers response_page].
      rewrite !dump_headers_text, <- (hf_keyed Hh r rule r2 rule2), <- (Hsth Hh) by done.
      done.
    + rewrite lookup_insert_ne in Hpg by done. exact (Hfaith _ _ _ Hc2 Hpg).
  - apply wpp_ret. split; [|done]. split_and!; [done..|]. by exists m.
Qed.

Lemma hit_response_status r conf hit : r_status (hit_response r conf hit) = ch_status hit.
Proof.
  unfold hit_response. rewrite ap_set_content_length_spec. unfold set_status.
  destruct (negb _), (0 <=? ch_age hit)%Z; done.
Qed.

(** The cached part: a hit is the page, a miss goes to the generator. *)
Lemma wpp_serve_cached r rule cleanups m w s :
  healthy w -> tidy root (view w) -> represents root (view w) m -> faithful m ->
  cached_by rule r -> ttl_ok rule -> usual r -> cache_root_of r = Some root ->
  (forall r1 rule, same_input r r1 -> is_Some (kept (fst (origin r1)) rule (concat (snd (origin r1)))) ->
     response_ok (fst (origin r1))) ->
  wpp (serve_or_capture r dconf rule cleanups ≫= send_page) (answered r) w s.
Proof.
  intros Hw Ht Hm Hfaith Hc Httl Hu Hroot Htext. apply wpp_bind. unfold serve_or_capture. rewrite Hroot. apply wpp_bind.
  eapply wpp_mono; [by apply (wpp_lookup_tidy root r rule m)|].
  intros [r' res] w1 s1 (-> & Hw1 & H). destruct res as [hit|].
  - destruct H as (pg & Hpg & _ & -> & Hop & Hs & Hl & _ & Hfile). apply wpp_ret.
    unfold send_page. cbn [hd_sent hd_request]. rewrite Hl, Nat2Z.id.
    eapply wpp_send; [done..|]. intros w2 Hw2 Hwait _. apply wpp_ret.
    destruct (waited_store root _ _ m Hwait Ht Hm) as [Ht2 Hm2]. split.
    + split; [done|]. split; [done|]. by exists m.
    + cbn [an_request an_body]. rewrite hit_response_status, Hs. destruct (Hfaith _ _ _ Hc Hpg) as [Hpage Hhead].
      split; [by rewrite Hpage|]. intros Hh. destruct (Hhead Hh Hu) as [Hok Edump].
      apply hit_looks_like; [exact Edump|exact Hok|by apply Hh..|]. intros k Hk. by apply Hh.
  - destruct H as (-> & Hwait & _). apply wpp_ret. unfold send_page. cbn [hd_sent hd_status hd_request hd_filter].
    destruct (waited_store root _ _ m Hwait Ht Hm) as [Ht1 Hm1].
    assert (cache_root_of (set_status r dconf "MISS") = Some root) as ->.
    { rewrite <- Hroot. unfold set_status. by destruct (negb _). }
    change (DECLINED =? DECLINED)%Z with true.
    apply (wpp_generate_cached r _ rule m); try done; [apply same_start_status|].
    apply Htext, same_input_status.
Qed.

Lemma first_match_in l p q me v : first_match l p q me = Some v -> v ∈ l.
Proof.
  unfold first_match. intros H. assert (v ∈ filter (fun v => arule_matches v p q me) l) as Hv.
  { destruct (filter _ l); [done|]. injection H as <-. by left. }
  by apply list_elem_of_filter in Hv as [_ ?].
Qed.

Lemma wpp_serve_page depth width r w s :
  settled w -> servable r w s -> wpp (serve_page depth width r) (answered r) w s.
Proof.
  intros (Hw & Ht & m & Hm & Hfaith) [Hc Hpl Hroot Hu Hrules Htext].
  destruct (handler_decision depth width r dconf vs w s Hc Hpl Hrules)
    as (rs & cleanups & w1 & s1 & E1 & Eh & Hmatch).
  destruct (reads_tidy _ _ _ _ _ _ m (get_ruleset_reads _) E1 Hw Ht Hm) as (Hw1 & Ht1 & Hm1).
  assert (settled w1) as Hset by (split; [done|]; split; [done|]; by exists m).
  eapply (wpp_exec_eq _ (apply_rules r dconf rs cleanups ≫= _) _ w s w1 s1).
  { unfold serve_page. rewrite !exec_bind, Eh. reflexivity. }
  unfold apply_rules. destruct (cacher_ruleset_match _ _ _ _) as [rule|]; cbn [fmap option_fmap option_map] in Hmatch.
  2: { apply wpp_bind, wpp_ret. apply wpp_generate_plain; [done|done|apply same_start_status]. }
  destruct (Z.eqb_spec (enabled rule) 0) as [H0|H0].
  { apply wpp_bind, wpp_ret. apply wpp_generate_plain; [done|done|apply same_start_status]. }
  destruct (cacher_request_bypasses r (Some rule)) eqn:Eb.
  { apply wpp_bind, wpp_ret. apply wpp_generate_plain; [done|done|apply same_start_status]. }
  apply (wpp_serve_cached r rule cleanups m); try done.
  - split; [done|]. split; [done|]. intros Hb. apply bypasses_view in Hb; [congruence|apply Hpl].
  - pose proof (og_ttl Hfit) as Httl. rewrite Forall_forall in Httl. symmetry in Hmatch.
    apply first_match_in, Httl in Hmatch. exact Hmatch.
Qed.

(** ** Histories *)

Definition is_admin (c : command) : Prop := match c with PURGE _ _ | RESET _ | LIST _ => True | _ => False end.

(** Requests of visitors and of administrators, in any order.  The memory of
    the process is whatever it is when a request comes, as long as the rules
    are in force. *)
Inductive site_runs (w0 : world) : world -> Prop :=
  | site_start : site_runs w0 w0
  | site_page w s depth width r ans w' s' :
      site_runs w0 w -> servable r w s -> exec (serve_page depth width r) w s = Some (ans, w', s') ->
      site_runs w0 w'
  | site_admin w (s : pstate) fuel c rep w' :
      site_runs w0 w -> is_admin c -> admissible fuel (view w) c ->
      exec (perform root fuel c) w s = Some (rep, w', s) -> site_runs w0 w'.

Lemma faithful_spared r pat m : faithful m -> faithful (spared r pat m).
Proof.
  intros H r' rule pg Hc Hpg. apply map_lookup_filter_Some in Hpg as [Hpg _]. exact (H _ _ _ Hc Hpg).
Qed.

Lemma faithful_empty : faithful ∅.
Proof. intros r rule pg _ H. done. Qed.

Lemma site_settled w0 w :
  healthy w0 -> tidy root (view w0) -> represents root (view w0) ∅ -> site_runs w0 w -> settled w.
Proof.
  intros Hw Ht Hm. induction 1 as [|w s depth width r ans w' s' _ IH Hsv E|w s fuel c rep w' _ IH Hc Ha E].
  - split; [done|]. split; [done|]. exists ∅. split; [done|apply faithful_empty].
  - destruct (wpp_run _ _ _ _ (wpp_serve_page depth width r w s IH Hsv)) as (ans' & w2 & s2 & E2 & H & _).
    rewrite E in E2. by injection E2 as <- <- <-.
  - destruct IH as (Hw1 & Ht1 & m & Hm1 & Hfaith).
    destruct (wpp_run _ _ _ _ (wpp_perform root fuel c m w s Hw1 Ht1 Hm1 Ha))
      as (rep' & w2 & s2 & E2 & _ & Hw2 & Ht2 & _ & m' & Hm2 & Hs).
    rewrite E in E2. injection E2 as <- <- <-. split; [done|]. split; [done|]. exists m'. split; [done|].
    destruct Hs; try done; by apply faithful_spared.
Qed.

(** C1: the cache is transparent: on a healthy file system, from an empty cache
    and after any history of visits, purges, resets and listings, a visitor's
    request is always answered, with the status and the body the site itself
    would answer with, whether or not they come from the cache; and with its
    content type and its headers, but for those that must not be shared.  The
    visitor's request has no star in its path, query and cookie names, and what
    is kept for it can be written as lines of text.  The site's side of it: its
    rules only let requests share an entry that have the same page; for the
    headers, no name comes twice among them and the type is one of them. *)
Theorem cache_is_transparent w0 w s depth width r :
  healthy w0 -> tidy root (view w0) -> represents root (view w0) ∅ -> site_runs w0 w -> servable r w s ->
  exists ans w' s', exec (serve_page depth width r) w s = Some (ans, w', s') /\
    (r_status (an_request ans), an_body ans) = page_of r /\
    (headers_fit -> looks_like (fst (origin r)) (an_request ans)).
Proof.
  intros Hw Ht Hm Hr Hsv. pose proof (site_settled w0 w Hw Ht Hm Hr) as Hset.
  destruct (wpp_run _ _ _ _ (wpp_serve_page depth width r w s Hset Hsv)) as (ans & w' & s' & E & _ & H).
  by exists ans, w', s'.
Qed.
End site.

(** ** Two visits to one page *)

(** The site sends the same page to everyone. *)
Definition sample_origin (r : request) : request * list (list bucket) :=
  (set_headers_out (set_ctype (set_status_code r 200) (Some (str "text/html")))
     [(str "Content-Type", str "text/html"); (str "ETag", str "7")],
   [[DATA (str "hel")]; [METADATA; DATA (str "lo"); EOS]]).

Lemma sample_origin_fits : origin_fits sample_site_vs sample_origin.
Proof.
  split; try done.
  apply (bool_decide_unpack _). vm_compute. exact I.
Qed.

(** Responses start without headers that are shared, and without a type. *)
Definition sample_usual (r : request) : Prop := stored_headers (r_headers_out r) = [] /\ r_content_type r = None.

Lemma sample_headers_fit : headers_fit sample_site_vs sample_origin sample_usual.
Proof.
  split; try done.
  - intros r _. apply (bool_decide_unpack _). vm_compute. exact I.
  - intros r k [Hs _] [Hk _] [v Hv]. rewrite header_stored, Hs in Hv by done. done.
Qed.

Lemma sample_response_text r1 : same_input sample_page r1 -> response_ok (fst (sample_origin r1)).
Proof.
  intros H0. assert (same_input sample_page (fst (sample_origin r1))) as H by (eapply same_input_trans; [exact H0|done]).
  destruct (original_same_input _ _ H) as (Eu & _ & Ea). pose proof (si_method _ _ H) as Em.
  pose proof (si_hostname _ _ H) as Eh.
  split; unfold request_url; cbv zeta; rewrite ?Eu, ?Ea, ?Em, ?Eh; [split; [reflexivity|done]|..];
    apply (bool_decide_unpack _); vm_compute; exact I.
Qed.

Definition sample_visit (w : @world ref_files) : option (answer * @world ref_files * pstate) :=
  exec (serve_page sample_origin 0 0 sample_page) w sample_state.

(** The files after a visit. *)
Definition visited_cache (w : @world ref_files) : @world ref_files :=
  match sample_visit w with Some (_, w', _) => w' | None => w end.

(** The first visit misses, the second one hits. *)
Example sample_visits :
  (fun o => match o with
            | Some (ans, _, _) => apr_table_get (r_headers_out (an_request ans)) CACHER_STATUS_HEADER
            | None => None
            end) <$> [sample_visit empty_cache; sample_visit (visited_cache empty_cache)]
  = [None; Some (str "HIT")].
Proof. vm_compute. reflexivity. Qed.

Lemma sample_servable w : servable (AF := ref_files) (str "/var/cache") sample_site_conf sample_site_vs sample_origin
  sample_usual sample_page w sample_state.
Proof.
  split.
  - apply sample_cache_request.
  - apply sample_plain_request.
  - reflexivity.
  - by split.
  - apply (in_force_inline _ _ _ _ sample_rules);
      [reflexivity|reflexivity|apply fresh_heap_wf|done|reflexivity|vm_compute; reflexivity].
  - intros r1 rule H _. by apply sample_response_text.
Qed.

Lemma sample_site_runs :
  site_runs (AF := ref_files) (str "/var/cache") sample_site_conf sample_site_vs sample_origin sample_usual empty_cache
    (visited_cache empty_cache).
Proof.
  assert (is_Some (exec (serve_page sample_origin 0 0 sample_page) empty_cache sample_state)) as [[[ans w'] s'] E]
    by (apply is_Some_true; vm_compute; reflexivity).
  assert (visited_cache empty_cache = w') as -> by (unfold visited_cache, sample_visit; by rewrite E).
  eapply (site_page _ _ _ _ _ _ empty_cache sample_state 0 0 sample_page ans w' s');
    [constructor|apply sample_servable|exact E].
Qed.

Lemma cache_is_transparent_witness :
  exists ans w' s', exec (serve_page sample_origin 0 0 sample_page) (visited_cache empty_cache) sample_state
      = Some (ans, w', s') /\
    (r_status (an_request ans), an_body ans) = (200%Z, Some (str "hello")) /\
    r_content_type (an_request ans) = Some (str "text/html") /\ header (an_request ans) (str "etag") = Some (str "7").
Proof.
  destruct (cache_is_transparent (AF := ref_files) (str "/var/cache") sample_site_conf sample_site_vs sample_origin
    sample_usual sample_origin_fits empty_cache (visited_cache empty_cache) sample_state 0 0 sample_page I
    (proj1 empty_cache_tidy) (proj2 empty_cache_tidy) sample_site_runs (sample_servable _))
    as (ans & w' & s' & E & Hpage & Hlook).
  exists ans, w', s'. split; [exact E|]. split; [exact Hpage|]. destruct (Hlook sample_headers_fit) as [Hct Hh].
  split; [exact Hct|]. apply Hh. split; [reflexivity|]. by vm_compute.
Defined.
