(* ===== verification/Conc.v ===== *)
(** * A logic for workers that run at the same time

    Separation logic in small.  A worker owns the files and directories it has
    open, the bytes of the files only it can reach, the temporary names it was
    given and some blocks of memory; it may rely on what it owns.  Nobody else
    touches it, but that a name may be removed.  Published files are shared:
    their content is good and never changes.  What [conc] proves of each worker
    by itself holds of every interleaving of all of them.  The number of steps
    is counted: [conc n] speaks of the next [n] steps only, which is how loops
    whose bound depends on the other workers are covered. *)

From S2P Require Import Prelude CNum CHeap Glob Rules RulesParse RulesMatch Apr AprFile AprRef Util Meta Cache.
From S2P Require Import Config Publish Lookup Admin Purge Handler Race.
From Stdlib Require Import Lia.
Local Open Scope cstr_scope.

(** ** Temporary names

    [apr_file_mktemp] answers with a name that is in no use; nothing keeps it
    from choosing one again that a worker has given up.  A run is fresh when
    it does not. *)

Definition handed (o : op) : answer o -> gset cstr :=
  match o return answer o -> gset cstr with
  | Mktemp _ => fun a => match a with Some (p, _) => {[p]} | None => ∅ end
  | _ => fun _ => ∅
  end.

Section fresh.
Context {AF : AprFiles} {S T : Type}.

(** The name the next step of a program is given. *)
Definition next_handed {A} (p : prog S A) (w : world) : gset cstr :=
  match p with Do o _ => handed o (fst (run o w)) | _ => ∅ end.

(** What the file system never goes beyond. *)
Context (limits : disk -> Prop).

(** [fresh_steps c0 n U c]: [n] steps from [c0], with the names handed out so
    far. *)
Inductive fresh_steps (c0 : pool * world * S) : nat -> gset cstr -> pool (S := S) (T := T) * world * S -> Prop :=
  | fresh_none : limits (view (snd (fst c0))) -> fresh_steps c0 0 ∅ c0
  | fresh_more n U ps i p p' w s w' s' :
      fresh_steps c0 n U (ps, w, s) -> ps !! i = Some p -> prog_step p w s = Some (p', w', s') ->
      next_handed p w ## U -> limits (view w') ->
      fresh_steps c0 (Datatypes.S n) (U ∪ next_handed p w) (<[i := p']> ps, w', s').

Lemma fresh_pool_steps c0 n U c : fresh_steps c0 n U c -> pool_steps c0 c.
Proof. intros H. induction H; [constructor|]. eapply more_steps; [done|]. by econstructor. Qed.

Lemma fresh_limits c0 n U c : fresh_steps c0 n U c -> limits (view (snd (fst c))).
Proof. by intros []. Qed.

Context {limits_dec : forall d, Decision (limits d)}.

(** The workers in the order [sched]; [None] too when a name comes again or the
    limits are exceeded. *)
Fixpoint run_fresh (sched : list nat) (U : gset cstr) (ps : pool (S := S) (T := T)) (w : world) (s : S) :=
  match sched with
  | [] => Some (U, (ps, w, s))
  | i :: sched' =>
      p ← ps !! i; '(p', w', s') ← prog_step p w s;
      if decide (next_handed p w ## U /\ limits (view w'))
      then run_fresh sched' (U ∪ next_handed p w) (<[i := p']> ps) w' s'
      else None
  end.

Lemma run_fresh_from sched c0 n U ps w s U' c :
  fresh_steps c0 n U (ps, w, s) -> run_fresh sched U ps w s = Some (U', c) ->
  fresh_steps c0 (n + length sched) U' c.
Proof.
  revert n U ps w s. induction sched as [|i sched IH]; intros n U ps w s H; cbn [run_fresh length].
  - rewrite Nat.add_0_r. by intros [= <- <-].
  - destruct (ps !! i) as [p|] eqn:Ep; cbn [mbind option_bind]; [|done].
    destruct (prog_step p w s) as [[[p' w'] s']|] eqn:E; cbn [mbind option_bind]; [|done].
    destruct (decide _) as [[Hd Hl]|]; [|done]. rewrite Nat.add_succ_r, <- Nat.add_succ_l. apply IH. by eapply fresh_more.
Qed.

Lemma run_fresh_steps sched ps w s U c :
  limits (view w) -> run_fresh sched ∅ ps w s = Some (U, c) -> fresh_steps (ps, w, s) (length sched) U c.
Proof. intros Hl. apply (run_fresh_from _ _ 0). by constructor. Qed.
End fresh.

(** ** Resources *)

Record res := Res {
  rs_fds : gmap nat (nat * nat);         (* open file |-> file, offset *)
  rs_dirs : gset nat;                    (* open directories *)
  rs_data : gmap nat (list ascii);       (* files only this worker can reach *)
  rs_frozen : gmap nat (list ascii);     (* published files, shared by all *)
  rs_temps : gmap cstr (option nat);     (* temporary names; [None]: no longer in use *)
  rs_blks : gset nat;                    (* blocks of memory *)
}.

Definition nothing : res := Res ∅ ∅ ∅ ∅ ∅ ∅.

Definition with_fds (x : res) m := Res m (rs_dirs x) (rs_data x) (rs_frozen x) (rs_temps x) (rs_blks x).
Definition with_dirs (x : res) m := Res (rs_fds x) m (rs_data x) (rs_frozen x) (rs_temps x) (rs_blks x).
Definition with_data (x : res) m := Res (rs_fds x) (rs_dirs x) m (rs_frozen x) (rs_temps x) (rs_blks x).
Definition with_frozen (x : res) m := Res (rs_fds x) (rs_dirs x) (rs_data x) m (rs_temps x) (rs_blks x).
Definition with_temps (x : res) m := Res (rs_fds x) (rs_dirs x) (rs_data x) (rs_frozen x) m (rs_blks x).
Definition with_blks (x : res) m := Res (rs_fds x) (rs_dirs x) (rs_data x) (rs_frozen x) (rs_temps x) m.

(** Two workers can own both. *)
Record apart (r1 r2 : res) : Prop := {
  ap_fds : rs_fds r1 ##ₘ rs_fds r2;
  ap_dirs : rs_dirs r1 ## rs_dirs r2;
  ap_data : rs_data r1 ##ₘ rs_data r2;
  ap_frozen1 : rs_data r1 ##ₘ rs_frozen r2;
  ap_frozen2 : rs_frozen r1 ##ₘ rs_data r2;
  ap_temps : rs_temps r1 ##ₘ rs_temps r2;
  ap_blks : rs_blks r1 ## rs_blks r2;
}.

#[export] Instance apart_sym : Symmetric apart.
Proof. intros ?? []. by split. Qed.

Lemma apart_nothing x : apart nothing x.
Proof. split; cbn; solve [apply map_disjoint_empty_l|set_solver]. Qed.

Section logic.
Context {AF : AprFiles} {S T : Type}.

(** Names of published files, temporary names, and what may be published where;
    [mem_ok] is what the workers keep of the memory they share, and [blocks] are
    the ones in it that single workers can own. *)
Context (limits : disk -> Prop).
Context (public temp : cstr -> Prop) (good : cstr -> list ascii -> Prop).
Context (mem_ok : S -> Prop) (blocks : S -> gset nat).
Context (public_not_temp : forall p, public p -> ~ temp p).

(** Every name stands for a file, and every published file is complete. *)
Record all_good (d : disk) : Prop := {
  ag_time : in_time (d_now d);
  ag_files p : file_ok d p;
  ag_public p i b : public p -> d_names d !! p = Some i -> d_data d !! i = Some b -> good p b;
}.

(** The disk has what the worker owns; [U] are the names handed out so far. *)
Record owned (x : res) (d : disk) (U : gset cstr) : Prop := {
  ow_fds : rs_fds x ⊆ d_fds d;
  ow_dirs : rs_dirs x ⊆ dom (d_streams d);
  ow_data : rs_data x ⊆ d_data d;
  ow_frozen : rs_frozen x ⊆ d_data d;
  ow_apart : rs_data x ##ₘ rs_frozen x;
  ow_temps p v : rs_temps x !! p = Some v -> (d_names d !! p = v \/ d_names d !! p = None) /\ p ∈ U /\ temp p;
  ow_private p i : d_names d !! p = Some i -> is_Some (rs_data x !! i) -> rs_temps x !! p = Some (Some i);
}.

(** A step from [x] to [x'] that leaves to the others what is theirs. *)
Record update (x : res) (d : disk) (U : gset cstr) (x' : res) (d' : disk) (U' : gset cstr) : Prop := {
  up_good : all_good d';
  up_blks : rs_blks x' = rs_blks x;
  up_owned : owned x' d' U';
  up_frame y : apart x y -> owned y d U -> owned y d' U' /\ apart x' y;
}.

Lemma update_trans x d U x1 d1 U1 x2 d2 U2 :
  update x d U x1 d1 U1 -> update x1 d1 U1 x2 d2 U2 -> update x d U x2 d2 U2.
Proof.
  intros [_ B1 _ F1] [G2 B2 O2 F2]. split; [done|congruence|done|]. intros y Ha Ho. destruct (F1 y Ha Ho). by apply F2.
Qed.

(** The blocks [bs] of a worker become [bs'], and nobody else's change. *)
Record update_blks (bs : gset nat) (s : S) (bs' : gset nat) (s' : S) : Prop := {
  ub_mem : mem_ok s';
  ub_own : bs' ⊆ blocks s';
  ub_frame B : bs ## B -> B ⊆ blocks s -> B ⊆ blocks s' /\ bs' ## B;
}.

(** [conc n p Q x]: owning [x], the worker is not undefined within [n] steps,
    keeps to the rules and, if it ends, owns some [x'] with [Q a x']. *)
Fixpoint conc {A} (n : nat) (p : prog S A) (Q : A -> res -> Prop) (x : res) {struct p} : Prop :=
  match p with
  | Ret a => Q a x
  | Undef => n = 0
  | Do o k =>
      match n with
      | 0 => True
      | Datatypes.S n => forall d U, all_good d -> limits d -> owned x d U ->
          op_defined d o = true /\
          forall a d', fs_spec d o a d' -> handed o a ## U ->
            exists x', update x d U x' d' (U ∪ handed o a) /\ conc n (k a) Q x'
      end
  | Mem m k =>
      match n with
      | 0 => True
      | Datatypes.S n => forall s, mem_ok s -> rs_blks x ⊆ blocks s -> exists a s' bs,
          m s = Some (a, s') /\ update_blks (rs_blks x) s bs s' /\ conc n (k a) Q (with_blks x bs)
      end
  end.

Lemma conc_ret {A} n (a : A) (Q : A -> res -> Prop) x : Q a x -> conc n (mret a) Q x.
Proof. done. Qed.

(** Fewer steps. *)
Lemma conc_S {A} n (p : prog S A) Q x : conc (Datatypes.S n) p Q x -> conc n p Q x.
Proof.
  revert n x. induction p as [a| |o k IH|X m k IH]; intros n x; [intros E; exact E|intros [=]| |]; (destruct n as [|n]; [done|]); intros H.
  - intros d U Hg Hl Ho. destruct (H d U Hg Hl Ho) as [Hd Hk]. split; [done|]. intros a d' Hs Hf.
    destruct (Hk a d' Hs Hf) as (x' & Hu & Hc). exists x'. split; [done|]. by apply IH.
  - intros s Hs Hb. destruct (H s Hs Hb) as (a & s' & bs & E & Hu & Hc). exists a, s', bs.
    split_and!; [done..|]. by apply IH.
Qed.

Lemma conc_le {A} n n' (p : prog S A) Q x : n' <= n -> conc n p Q x -> conc n' p Q x.
Proof. induction 1 as [|m _ IH]; [done|]. intros Hp%conc_S. auto. Qed.

Lemma conc_bind {A B} n (p : prog S A) (k : A -> prog S B) (Q : B -> res -> Prop) x :
  conc n p (fun a y => conc n (k a) Q y) x -> conc n (p ≫= k) Q x.
Proof.
  assert (forall n', n' <= n -> conc n' p (fun a y => conc n (k a) Q y) x -> conc n' (p ≫= k) Q x) as H; [|by apply H].
  intros n'. revert n' x. induction p as [a| |o k' IH|X m k' IH]; intros n' x Hn; [intros Hc; by apply (conc_le n n' (k a))|intros E; exact E| |];
    (destruct n' as [|n']; [done|]); intros H.
  - intros d U Hg Hl Ho. destruct (H d U Hg Hl Ho) as [Hd Hk]. split; [done|]. intros a d' Hs Hf.
    destruct (Hk a d' Hs Hf) as (x' & Hu & Hc). exists x'. split; [done|]. apply IH; [lia|done].
  - intros s Hs Hb. destruct (H s Hs Hb) as (a & s' & bs & E & Hu & Hc). exists a, s', bs.
    split_and!; [done..|]. apply IH; [lia|done].
Qed.

Lemma conc_mono {A} n (p : prog S A) (P Q : A -> res -> Prop) x :
  conc n p P x -> (forall a y, P a y -> Q a y) -> conc n p Q x.
Proof.
  intros H HPQ. revert n x H. induction p as [a| |o k IH|X m k IH]; intros n x; [by apply HPQ|intros E; exact E| |];
    (destruct n as [|n]; [done|]); intros H.
  - intros d U Hg Hl Ho. destruct (H d U Hg Hl Ho) as [Hd Hk]. split; [done|]. intros a d' Hs Hf.
    destruct (Hk a d' Hs Hf) as (x' & Hu & Hc). eauto.
  - intros s Hs Hb. destruct (H s Hs Hb) as (a & s' & bs & E & Hu & Hc). exists a, s', bs. auto.
Qed.

Lemma conc_assoc {A B C} n (p : prog S A) (f : A -> prog S B) (g : B -> prog S C) Q x :
  conc n (p ≫= fun a => f a ≫= g) Q x -> conc n ((p ≫= f) ≫= g) Q x.
Proof.
  revert n x. induction p as [a| |o k IH|X m k IH]; intros n x; [intros H; exact H|intros H; exact H| |];
    (destruct n as [|n]; [done|]); intros H.
  - intros d U Hg Hl Ho. destruct (H d U Hg Hl Ho) as [Hd Hk]. split; [done|]. intros a d' Hs Hf.
    destruct (Hk a d' Hs Hf) as (x' & Hu & Hc). exists x'. split; [done|]. by apply IH.
  - intros s Hs Hb. destruct (H s Hs Hb) as (a & s' & bs & E & Hu & Hc). exists a, s', bs.
    split_and!; [done..|]. by apply IH.
Qed.

(** Owning more than the worker needs; memory apart, it may forget the rest. *)
Record within (x' x : res) : Prop := {
  wi_fds : rs_fds x' ⊆ rs_fds x;
  wi_dirs : rs_dirs x' ⊆ rs_dirs x;
  wi_data : rs_data x' ⊆ rs_data x;
  wi_frozen : rs_frozen x' ⊆ rs_frozen x;
  wi_temps : rs_temps x' ⊆ rs_temps x;
  wi_named p i : rs_temps x !! p = Some (Some i) -> is_Some (rs_data x' !! i) -> rs_temps x' !! p = Some (Some i);
  wi_blks : rs_blks x' = rs_blks x;
}.

Lemma within_memory x : within (with_blks nothing (rs_blks x)) x.
Proof. split; cbn; try apply map_empty_subseteq; [apply empty_subseteq| |done]. intros p i _ [? ?]. done. Qed.

Lemma conc_forget {A} n (p : prog S A) (Q : A -> res -> Prop) x x' :
  within x' x -> (forall a y y', within y' y -> Q a y' -> Q a y) -> conc n p Q x' -> conc n p Q x.
Proof.
  intros Hw HQ. revert n x x' Hw. induction p as [a| |o k _|X m k IH]; intros n x x' Hw;
    [by apply HQ|intros E; exact E| |]; (destruct n as [|n]; [done|]); intros H; pose proof Hw as [E1 E2 E3 E4 E5 E6 E7].
  - intros d U Hg Hl Ho.
    assert (forall y, apart x y -> apart x' y) as Ha.
    { intros y [A1 A2 A3 A4 A5 A6 A7]. split; [by apply (map_disjoint_weaken_l _ _ _ A1)|clear -E2 A2; set_solver|
        by apply (map_disjoint_weaken_l _ _ _ A3)|by apply (map_disjoint_weaken_l _ _ _ A4)|
        by apply (map_disjoint_weaken_l _ _ _ A5)|by apply (map_disjoint_weaken_l _ _ _ A6)|by rewrite E7]. }
    assert (owned x' d U) as Ho'.
    { destruct Ho as [Hf Hds Hd Hz Hap Htm Hpr]. split; [by etrans|by etrans|by etrans|by etrans| | |].
      - by apply (map_disjoint_weaken _ _ _ _ Hap).
      - intros p v Hp. apply Htm. by eapply lookup_weaken.
      - intros p i Hp Hi. apply E6; [|done]. apply Hpr; [done|]. destruct Hi as [b Hb]. exists b. by eapply lookup_weaken. }
    destruct (H d U Hg Hl Ho') as [Hd Hk]. split; [done|]. intros a d' Hs Hf.
    destruct (Hk a d' Hs Hf) as (y & [Hg' Hb Hoy Hfr] & Hc). exists y. split; [|done].
    split; [done|congruence|done|]. intros z Hz. apply Hfr. by apply Ha.
  - intros s Hs Hb. rewrite <- E7 in Hb. destruct (H s Hs Hb) as (a & s' & bs & E & Hu & Hc).
    exists a, s', bs. rewrite <- E7. split; [done|]. split; [done|]. eapply IH; [|exact Hc]. by split.
Qed.

(** ** Pools of workers *)

(** The workers [ps] with what they own: nothing twice. *)
Record pool_ok (Q : nat -> T -> res -> Prop) (n : nat) (ps : list (prog S T)) (xs : list res) (U : gset cstr)
    (w : world) (s : S) : Prop := {
  po_good : all_good (view w);
  po_mem : mem_ok s;
  po_conc i p : ps !! i = Some p -> exists x, xs !! i = Some x /\ owned x (view w) U /\
    rs_blks x ⊆ blocks s /\ conc n p (Q i) x;
  po_apart i j x y : i <> j -> xs !! i = Some x -> xs !! j = Some y -> apart x y;
  po_length : length xs = length ps;
}.

(** One of them has moved on; the others own what they owned. *)
Lemma pool_ok_update Q n ps xs U w s i x x' p' U' w' s' :
  pool_ok Q (Datatypes.S n) ps xs U w s -> xs !! i = Some x ->
  all_good (view w') -> mem_ok s' -> owned x' (view w') U' -> rs_blks x' ⊆ blocks s' -> conc n p' (Q i) x' ->
  (forall y, apart x y -> owned y (view w) U -> rs_blks y ⊆ blocks s ->
     owned y (view w') U' /\ rs_blks y ⊆ blocks s' /\ apart x' y) ->
  pool_ok Q n (<[i := p']> ps) (<[i := x']> xs) U' w' s'.
Proof.
  intros [Hg Hm Hc Ha Hl] Hx Hg' Hm' Ho' Hb' Hp' Hfr.
  assert (i < length xs) as Hlt by by eapply lookup_lt_Some.
  assert (forall j y, j <> i -> xs !! j = Some y ->
    owned y (view w') U' /\ rs_blks y ⊆ blocks s' /\ apart x' y) as Hfr'.
  { intros j y Hji Hy. assert (is_Some (ps !! j)) as [q Hq].
    { apply lookup_lt_is_Some. rewrite <- Hl. by eapply lookup_lt_Some. }
    destruct (Hc j q Hq) as (y' & Hy' & Hoy & Hby & _). rewrite Hy in Hy'. injection Hy' as <-.
    apply Hfr; [|done..]. by eapply (Ha i j). }
  split; [done|done| | |by rewrite !length_insert].
  - intros j q [(<- & <- & _)|[Hji Hq]]%list_lookup_insert_Some.
    + exists x'. by rewrite list_lookup_insert_eq.
    + destruct (Hc j q Hq) as (y & Hy & Hoy & _ & Hqy). exists y. rewrite list_lookup_insert_ne by done.
      destruct (Hfr' j y) as (? & ? & _); [done..|]. split_and!; [done..|by apply conc_S].
  - intros j1 j2 y1 y2 Hne [(<- & <- & _)|[N1 H1]]%list_lookup_insert_Some
      [(<- & <- & _)|[N2 H2]]%list_lookup_insert_Some; [done| | |].
    + by eapply Hfr'.
    + symmetry. by eapply Hfr'.
    + by eapply (Ha j1 j2).
Qed.

Lemma pool_ok_step Q n ps xs U w s i p p' w' s' :
  pool_ok Q (Datatypes.S n) ps xs U w s -> ps !! i = Some p -> prog_step p w s = Some (p', w', s') ->
  next_handed p w ## U -> limits (view w) ->
  exists xs', pool_ok Q n (<[i := p']> ps) xs' (U ∪ next_handed p w) w' s'.
Proof.
  intros Hok Hi Hs Hf Hlim. destruct (po_conc _ _ _ _ _ _ _ Hok i p Hi) as (x & Hx & Ho & Hb & Hp).
  pose proof (po_good _ _ _ _ _ _ _ Hok) as Hg. pose proof (po_mem _ _ _ _ _ _ _ Hok) as Hm.
  destruct p as [a| |o k|X m k]; cbn in Hs, Hf, Hp |- *; try done.
  - destruct (op_defined _ _) eqn:Hd; [|done]. pose proof (run_spec w o Hd) as Hsp.
    destruct (run o w) as [a w1]. cbn in Hsp, Hf |- *. injection Hs as <- <- <-.
    destruct (Hp _ _ Hg Hlim Ho) as [_ Hk]. destruct (Hk a _ Hsp Hf) as (x' & [Hg' Hbl Ho' Hfr] & Hp').
    exists (<[i := x']> xs). eapply pool_ok_update; [done..|by rewrite Hbl|done|].
    intros y Hay Hoy Hby. destruct (Hfr y Hay Hoy). done.
  - destruct (Hp s Hm Hb) as (a & s1 & bs & E & [Hm' Hb' Hfr] & Hp'). rewrite E in Hs. injection Hs as <- <- <-.
    rewrite union_empty_r_L. exists (<[i := with_blks x bs]> xs). eapply pool_ok_update; [done|done|done|done| |done|done|].
    + destruct Ho. by split.
    + intros y [A1 A2 A3 A4 A5 A6 A7] Hoy Hby. destruct (Hfr _ A7 Hby). split_and!; [done..|]. by split.
Qed.

Lemma pool_ok_start Q n ps w s :
  all_good (view w) -> mem_ok s -> (forall i (p : prog S T), ps !! i = Some p -> conc n p (Q i) nothing) ->
  pool_ok Q n ps (replicate (length ps) nothing) ∅ w s.
Proof.
  intros Hg Hm Hc. split; [done|done| | |by rewrite length_replicate].
  - intros i p Hp. exists nothing. split_and!; [| |done|].
    + apply lookup_replicate. split; [done|]. by eapply lookup_lt_Some.
    + split; cbn; try apply map_empty_subseteq; [done|apply map_disjoint_empty_l|done|intros ? ? _ [? ?]; done].
    + by eapply Hc.
  - intros i j x y _ [-> _]%lookup_replicate [-> _]%lookup_replicate. apply apart_nothing.
Qed.

Lemma pool_ok_steps Q n m ps w s U ps' w' s' :
  all_good (view w) -> mem_ok s -> (forall i (p : prog S T), ps !! i = Some p -> conc (n + m) p (Q i) nothing) ->
  fresh_steps limits (ps, w, s) m U (ps', w', s') -> exists xs, pool_ok Q n ps' xs U w' s'.
Proof.
  intros Hg Hm Hc Hsteps. remember (ps', w', s') as c eqn:Ec. revert n ps' w' s' Hc Ec.
  induction Hsteps as [|j U ps1 i p p' w1 s1 w2 s2 Hst IH Hi Hs Hf _]; intros n ps' w' s' Hc [= <- <- <-].
  - eexists. rewrite Nat.add_0_r in Hc. by apply pool_ok_start.
  - pose proof (fresh_limits _ _ _ _ _ Hst) as Hl. rewrite Nat.add_succ_r, <- Nat.add_succ_l in Hc.
    destruct (IH _ _ _ _ Hc eq_refl) as [xs Hxs]. by eapply pool_ok_step.
Qed.

(** Soundness: in every fresh interleaving no worker is ever undefined, published
    files are always good, and a worker that has ended did what it promised. *)
Lemma conc_sound Q m ps w s U ps' w' s' :
  all_good (view w) -> mem_ok s ->
  (forall i (p : prog S T), ps !! i = Some p -> conc (Datatypes.S m) p (Q i) nothing) ->
  fresh_steps limits (ps, w, s) m U (ps', w', s') ->
  all_good (view w') /\ mem_ok s' /\
  forall i p, ps' !! i = Some p ->
    (exists a x, p = Ret a /\ owned x (view w') U /\ Q i a x) \/ is_Some (prog_step p w' s').
Proof.
  intros Hg Hm Hc Hsteps. pose proof (fresh_limits _ _ _ _ _ Hsteps) as Hlim. cbn in Hlim.
  destruct (pool_ok_steps Q 1 m ps w s U ps' w' s' Hg Hm Hc Hsteps) as [xs [Hg' Hm' Hc' _ _]].
  split; [done|]. split; [done|]. intros i p Hp. destruct (Hc' i p Hp) as (x & _ & Ho & Hb & Hpx).
  destruct p as [a| |o k|X f k]; cbn in Hpx |- *.
  - left. by exists a, x.
  - done.
  - right. destruct (Hpx _ _ Hg' Hlim Ho) as [-> _]. destruct (run o w'). by eexists.
  - right. destruct (Hpx _ Hm' Hb) as (a & s1 & bs & -> & _). by eexists.
Qed.

(** ** Changes of what is owned *)

Lemma all_good_same d d' :
  all_good d -> d_names d' = d_names d -> d_data d' = d_data d -> tick (d_now d) (d_now d') -> all_good d'.
Proof.
  intros [Ht Hf Hp] En Ed [_ Htick]. split; [auto| |by rewrite En, Ed].
  intros p i. rewrite En, Ed. apply Hf.
Qed.

(** Nothing the workers care about changed. *)
Lemma update_quiet x d U d' :
  all_good d -> owned x d U -> d_names d' = d_names d -> d_data d' = d_data d -> d_fds d' = d_fds d ->
  d_streams d' = d_streams d -> tick (d_now d) (d_now d') -> update x d U x d' U.
Proof.
  intros Hg Ho En Ed Ef Es Ht.
  assert (forall y, owned y d U -> owned y d' U) as H.
  { intros y []. split; by rewrite ?En, ?Ed, ?Ef, ?Es. }
  split; [by eapply all_good_same|done|by apply H|auto].
Qed.

(** The state of one open file: opened, moved on or closed. *)
Lemma update_fd x d U d' fd v :
  all_good d -> owned x d U -> d_names d' = d_names d -> d_data d' = d_data d ->
  d_fds d' = partial_alter (fun _ => v) fd (d_fds d) -> d_streams d' = d_streams d -> tick (d_now d) (d_now d') ->
  (is_Some (rs_fds x !! fd) \/ d_fds d !! fd = None) ->
  update x d U (with_fds x (partial_alter (fun _ => v) fd (rs_fds x))) d' U.
Proof.
  intros Hg Ho En Ed Ef Es Ht Hfd. split.
  - by eapply all_good_same.
  - done.
  - destruct Ho as [Hf Hds Hd Hz Hap Htm Hp]. split; cbn; rewrite ?En, ?Ed, ?Ef, ?Es; try done.
    apply map_subseteq_spec. intros k u. destruct (decide (k = fd)) as [->|Hne].
    + by rewrite !lookup_partial_alter_eq.
    + rewrite !lookup_partial_alter_ne by done. intros Hk. by eapply lookup_weaken.
  - intros y [A1 A2 A3 A4 A5 A6 A7] [Hf Hds Hd Hz Hap Htm Hp].
    assert (rs_fds y !! fd = None) as Hy.
    { destruct Hfd as [[u Hu]|Hn]; [by eapply map_disjoint_Some_l|].
      destruct (rs_fds y !! fd) as [u|] eqn:E; [|done]. eapply lookup_weaken in E; [|exact Hf]. congruence. }
    split.
    + split; cbn; rewrite ?En, ?Ed, ?Ef, ?Es; try done. apply map_subseteq_spec. intros k u Hk.
      destruct (decide (k = fd)) as [->|Hne]; [congruence|]. rewrite lookup_partial_alter_ne by done.
      by eapply lookup_weaken.
    + split; cbn; try done. apply map_disjoint_spec. intros k u v' Hu Hv.
      destruct (decide (k = fd)) as [->|Hne]; [congruence|]. rewrite lookup_partial_alter_ne in Hu by done.
      by eapply (map_disjoint_spec (rs_fds x)).
Qed.

Lemma update_set_fd x d U d' fd v :
  all_good d -> owned x d U -> d_names d' = d_names d -> d_data d' = d_data d ->
  d_fds d' = <[fd := v]> (d_fds d) -> d_streams d' = d_streams d -> tick (d_now d) (d_now d') ->
  (is_Some (rs_fds x !! fd) \/ d_fds d !! fd = None) ->
  update x d U (with_fds x (<[fd := v]> (rs_fds x))) d' U.
Proof. apply update_fd. Qed.

(** The directories it has open. *)
Lemma update_dirs x d U d' ds :
  all_good d -> owned x d U -> d_names d' = d_names d -> d_data d' = d_data d -> d_fds d' = d_fds d ->
  tick (d_now d) (d_now d') -> ds ⊆ dom (d_streams d') ->
  (forall k, k ∈ dom (d_streams d) -> k ∉ rs_dirs x -> k ∈ dom (d_streams d') /\ k ∉ ds) ->
  update x d U (with_dirs x ds) d' U.
Proof.
  intros Hg Ho En Ed Ef Ht Hds Hk. split.
  - by eapply all_good_same.
  - done.
  - destruct Ho. by split; cbn; rewrite ?En, ?Ed, ?Ef.
  - intros y [A1 A2 A3 A4 A5 A6 A7] [Hf Hy Hd Hz Hap Htm Hp].
    assert (forall k, k ∈ rs_dirs y -> k ∈ dom (d_streams d') /\ k ∉ ds) as H.
    { intros k Hin. apply Hk; [by apply Hy|]. intros Hx. by apply (A2 k). }
    split; [split; rewrite ?En, ?Ed, ?Ef; try done; intros k Hin; by apply H|].
    split; cbn; try done. intros k Hin Hiny. by destruct (H k Hiny).
Qed.

(** What is public can be looked at. *)
Lemma update_freeze x d U p i b :
  all_good d -> owned x d U -> public p -> d_names d !! p = Some i -> d_data d !! i = Some b ->
  update x d U (with_frozen x (<[i := b]> (rs_frozen x))) d U.
Proof.
  intros Hg Ho Hp Hi Hb.
  assert (forall y, owned y d U -> rs_data y !! i = None) as Hpriv.
  { intros y [_ _ _ _ _ Htm Hpr]. destruct (rs_data y !! i) as [b'|] eqn:E; [|done]. exfalso.
    specialize (Hpr p i Hi (ex_intro _ b' E)). destruct (Htm _ _ Hpr) as (_ & _ & Htp). by apply (public_not_temp p). }
  split; [done|done| |].
  - pose proof (Hpriv x Ho). destruct Ho as [Hf Hds Hd Hz Hap Htm Hpr]. split; cbn; try done.
    + by apply insert_subseteq_l.
    + by apply map_disjoint_insert_r_2.
  - intros y [A1 A2 A3 A4 A5 A6 A7] Hoy. split; [done|]. split; cbn; try done.
    apply map_disjoint_insert_l_2; [by apply Hpriv|done].
Qed.

(** A new file under a name nobody was given before. *)
Lemma update_new x d U d' p i :
  all_good d -> owned x d U -> d_names d !! p = None -> d_data d !! i = None -> temp p -> p ∉ U ->
  d_names d' = <[p := i]> (d_names d) -> d_data d' = <[i := []]> (d_data d) -> d_fds d' = d_fds d ->
  d_streams d' = d_streams d -> tick (d_now d) (d_now d') ->
  update x d U (with_temps (with_data x (<[i := []]> (rs_data x))) (<[p := Some i]> (rs_temps x))) d' (U ∪ {[p]}).
Proof.
  intros [Ht Hfiles Hg] Ho Hn Hi Htp HU En Ed Ef Es [_ Htick].
  assert (forall y, owned y d U -> rs_temps y !! p = None /\ rs_data y !! i = None /\ rs_frozen y !! i = None) as Hnew.
  { intros y [_ _ Hd Hz _ Htm _]. split_and!.
    - destruct (rs_temps y !! p) as [v|] eqn:E; [|done]. by destruct (Htm _ _ E) as (_ & ? & _).
    - by eapply lookup_weaken_None.
    - by eapply lookup_weaken_None. }
  assert (forall y, owned y d U -> owned y d' (U ∪ {[p]})) as Hkeep.
  { intros y Hoy. destruct (Hnew y Hoy) as (N1 & N2 & N3). destruct Hoy as [Hf Hds Hd Hz Hap Htm Hpr].
    split; rewrite ?En, ?Ed, ?Ef, ?Es; [done|done| | |done| |].
    - etrans; [exact Hd|]. by apply insert_subseteq.
    - etrans; [exact Hz|]. by apply insert_subseteq.
    - intros q v Hq. destruct (Htm q v Hq) as (H1 & H2 & H3). rewrite lookup_insert_ne by congruence. set_solver.
    - intros q j [[<- <-]|[Hqp Hq]]%lookup_insert_Some Hj; [rewrite N2 in Hj; by destruct Hj|by apply Hpr]. }
  destruct (Hnew x Ho) as (N1 & N2 & N3). split; [|done| |].
  - split; [auto| |].
    + intros q j. rewrite En, Ed. intros [[<- <-]|[_ Hj]]%lookup_insert_Some; apply lookup_insert_is_Some'; [by left|].
      right. by apply (Hfiles q).
    + intros q j b Hq. rewrite En, Ed. intros [[<- _]|[_ Hj]]%lookup_insert_Some; [by destruct (public_not_temp p)|].
      destruct (Hfiles q j Hj) as [c Hc]. rewrite lookup_insert_ne by congruence. by apply Hg.
  - destruct (Hkeep x Ho) as [Hf Hds Hd Hz Hap Htm Hpr]. split; cbn; [done|done| |done| | |].
    + rewrite Ed. apply insert_mono. by destruct Ho.
    + by apply map_disjoint_insert_l_2.
    + intros q v [[<- <-]|[Hqp Hq]]%lookup_insert_Some; [|by apply Htm].
      rewrite En, lookup_insert_eq. split; [by left|set_solver].
    + intros q j Hq Hj. destruct (decide (q = p)) as [->|Hqp].
      { rewrite En, lookup_insert_eq in Hq. injection Hq as <-. apply lookup_insert_eq. }
      rewrite lookup_insert_ne by done. apply Hpr; [done|].
      apply lookup_insert_is_Some' in Hj as [<-|Hj]; [|done]. exfalso.
      rewrite En, lookup_insert_ne in Hq by done. destruct (Hfiles q i Hq). congruence.
  - intros y [A1 A2 A3 A4 A5 A6 A7] Hoy. destruct (Hnew y Hoy) as (M1 & M2 & M3). split; [by apply Hkeep|].
    split; cbn; try done; by apply map_disjoint_insert_l_2.
Qed.

(** The bytes of an own file. *)
Lemma update_data x d U d' i b b' :
  all_good d -> owned x d U -> rs_data x !! i = Some b ->
  d_names d' = d_names d -> d_data d' = <[i := b']> (d_data d) -> d_fds d' = d_fds d ->
  d_streams d' = d_streams d -> tick (d_now d) (d_now d') ->
  update x d U (with_data x (<[i := b']> (rs_data x))) d' U.
Proof.
  intros [Ht Hfiles Hg] Ho Hi En Ed Ef Es [_ Htick].
  assert (forall m : gmap nat (list ascii), m ⊆ d_data d -> m !! i = None -> m ⊆ d_data d') as Hm.
  { intros m Hm Hn. rewrite Ed. by apply insert_subseteq_r. }
  split; [|done| |].
  - split; [auto| |].
    + intros q j. rewrite En, Ed. intros Hj%Hfiles. apply lookup_insert_is_Some'. by right.
    + intros q j c Hq. rewrite En, Ed. intros Hj. rewrite lookup_insert_ne; [by apply Hg|]. intros <-.
      destruct Ho as [_ _ _ _ _ Htm Hpr]. destruct (Htm q (Some i)) as (_ & _ & Htq); [by apply Hpr|].
      by destruct (public_not_temp q).
  - destruct Ho as [Hf Hds Hd Hz Hap Htm Hpr]. split; cbn; rewrite ?En, ?Ef, ?Es; [done|done| | | |done|].
    + rewrite Ed. by apply insert_mono.
    + apply Hm; [done|]. by eapply map_disjoint_Some_l.
    + apply map_disjoint_insert_l_2; [by eapply map_disjoint_Some_l|done].
    + intros q j Hq [<-|Hj]%lookup_insert_is_Some'; apply Hpr; eauto.
  - intros y [A1 A2 A3 A4 A5 A6 A7] [Hf Hds Hd Hz Hap Htm Hpr].
    pose proof (map_disjoint_Some_l _ _ _ _ A3 Hi). pose proof (map_disjoint_Some_l _ _ _ _ A4 Hi). split.
    + split; rewrite ?En, ?Ef, ?Es; auto.
    + split; cbn; try done; by apply map_disjoint_insert_l_2.
Qed.

(** A name goes; the worker knows when it was an own one. *)
Lemma update_unlink x d U d' p x' :
  all_good d -> owned x d U -> d_names d' = delete p (d_names d) -> d_data d' = d_data d -> d_fds d' = d_fds d ->
  d_streams d' = d_streams d -> tick (d_now d) (d_now d') ->
  x' = x \/ is_Some (rs_temps x !! p) /\ x' = with_temps x (<[p := None]> (rs_temps x)) ->
  update x d U x' d' U.
Proof.
  intros [Ht Hfiles Hg] Ho En Ed Ef Es [_ Htick] Hx'.
  assert (forall y, owned y d U -> owned y d' U) as Hkeep.
  { intros y [Hf Hds Hd Hz Hap Htm Hpr]. split; rewrite ?En, ?Ed, ?Ef, ?Es; try done.
    - intros q v Hq. destruct (Htm q v Hq) as (Hn & ? & ?). split; [|done].
      destruct (decide (q = p)) as [->|Hqp]; [right; apply lookup_delete_eq|by rewrite lookup_delete_ne].
    - intros q j [_ Hq]%lookup_delete_Some. by apply Hpr. }
  split.
  - split; [auto| |].
    + intros q j. rewrite En, Ed. intros [_ Hj]%lookup_delete_Some. by apply (Hfiles q).
    + intros q j c Hq. rewrite En, Ed. intros [_ Hj]%lookup_delete_Some. by apply Hg.
  - by destruct Hx' as [->|[_ ->]].
  - destruct Hx' as [->|[[v Hv] ->]]; [by apply Hkeep|]. destruct (Hkeep x Ho) as [Hf Hds Hd Hz Hap Htm Hpr].
    split; cbn; try done.
    + intros q u [[<- <-]|[Hqp Hq]]%lookup_insert_Some; [|by apply Htm].
      destruct (Htm p v Hv) as (_ & ? & ?). split; [|done]. rewrite En, lookup_delete_eq. auto.
    + intros q j Hq Hj. rewrite lookup_insert_ne; [by apply Hpr|]. intros <-. by rewrite En, lookup_delete_eq in Hq.
  - intros y Ha Hoy. split; [by apply Hkeep|]. destruct Hx' as [->|[[v Hv] ->]]; [done|].
    destruct Ha as [A1 A2 A3 A4 A5 A6 A7]. split; cbn; try done.
    apply map_disjoint_insert_l_2; [by eapply map_disjoint_Some_l|done].
Qed.

(** An own file becomes public, in the place of what was there. *)
Lemma update_publish x d U d' a p i b :
  all_good d -> owned x d U -> rs_temps x !! a = Some (Some i) -> rs_data x !! i = Some b ->
  public p -> good p b ->
  d_names d' = <[p := i]> (delete a (d_names d)) -> d_data d' = d_data d -> d_fds d' = d_fds d ->
  d_streams d' = d_streams d -> tick (d_now d) (d_now d') ->
  update x d U (with_temps (with_data x (delete i (rs_data x))) (<[a := None]> (rs_temps x))) d' U.
Proof.
  intros [Ht Hfiles Hg] Ho Ha Hb Hp Hgb En Ed Ef Es [_ Htick].
  assert (d_data d !! i = Some b) as Hdb by (eapply lookup_weaken; [done|apply Ho]).
  assert (temp a) as Hta by (by eapply Ho).
  assert (forall y q v, owned y d U -> rs_temps y !! q = Some v -> q <> a ->
    (d_names d' !! q = v \/ d_names d' !! q = None) /\ q ∈ U /\ temp q) as Htmp.
  { intros y q v [_ _ _ _ _ Htm _] Hq Hqa. destruct (Htm q v Hq) as (H1 & H2 & H3). split; [|done].
    rewrite En, lookup_insert_ne, lookup_delete_ne; [done|by intros <-|]. intros ->. by destruct (public_not_temp q). }
  split; [|done| |].
  - split; [auto| |].
    + intros q j. rewrite En, Ed. intros [[_ <-]|[_ [_ Hj]%lookup_delete_Some]]%lookup_insert_Some; [by eexists|by apply (Hfiles q)].
    + intros q j c Hq. rewrite En, Ed. intros [[<- <-]|[_ [_ Hj]%lookup_delete_Some]]%lookup_insert_Some Hc; [congruence|].
      by apply (Hg q j).
  - pose proof (Htmp x) as Htx. destruct Ho as [Hf Hds Hd Hz Hap Htm Hpr]. split; cbn; rewrite ?Ed, ?Ef, ?Es; try done.
    + etrans; [apply delete_subseteq|done].
    + by apply map_disjoint_delete_l.
    + intros q v [[<- <-]|[Hqa Hq]]%lookup_insert_Some; [|by apply Htx].
      destruct (Htm a _ Ha) as (_ & HU & _). split; [|done].
      rewrite En, lookup_insert_ne, lookup_delete_eq; [auto|]. intros ->. by destruct (public_not_temp a).
    + intros q j Hq [Hij Hj]%lookup_delete_is_Some. rewrite En in Hq.
      apply lookup_insert_Some in Hq as [[_ ?]|[_ [Hqa Hq]%lookup_delete_Some]]; [done|].
      rewrite lookup_insert_ne by done. by apply Hpr.
  - intros y [A1 A2 A3 A4 A5 A6 A7] Hoy. pose proof (Htmp y) as Hty. pose proof Hoy as [Hf Hds Hd Hz Hap Htm Hpr].
    assert (rs_temps y !! a = None) as Hya by by eapply map_disjoint_Some_l.
    pose proof (map_disjoint_Some_l _ _ _ _ A3 Hb) as Hyi.
    split.
    + split; rewrite ?Ed, ?Ef, ?Es; try done.
      * intros q v Hq. apply Hty; [done..|congruence].
      * rewrite En. intros q j [[_ <-]|[_ [_ Hq]%lookup_delete_Some]]%lookup_insert_Some Hj; [|by apply Hpr].
        rewrite Hyi in Hj. by destruct Hj.
    + split; cbn; try done; [by apply map_disjoint_delete_l..|]. by apply map_disjoint_insert_l_2.
Qed.

(** ** Rules for the calls *)

Section rules.
Context {B : Type} (n : nat) (Q : B -> res -> Prop) (x : res).

(** A call that hands out no name. *)
Lemma conc_call_S o (k : answer o -> prog S B) :
  (forall a, handed o a = ∅) ->
  (forall d U, all_good d -> limits d -> owned x d U -> op_defined d o = true /\
     forall a d', fs_spec d o a d' -> exists x', update x d U x' d' U /\ conc n (k a) Q x') ->
  conc (Datatypes.S n) (call o ≫= k) Q x.
Proof.
  intros Hh H. cbn. intros d U Hg Hl Ho. destruct (H d U Hg Hl Ho) as [Hd Hk]. split; [done|].
  intros a d' Hs _. rewrite Hh, union_empty_r_L. by apply Hk.
Qed.

Lemma conc_call o (k : answer o -> prog S B) :
  (forall a, handed o a = ∅) ->
  (forall d U, all_good d -> limits d -> owned x d U -> op_defined d o = true /\
     forall a d', fs_spec d o a d' -> exists x', update x d U x' d' U /\ conc n (k a) Q x') ->
  conc n (call o ≫= k) Q x.
Proof. intros Hh H. by apply conc_S, conc_call_S. Qed.

(** A step on the memory that is shared. *)
Lemma conc_mem {X} (m : S -> option (X * S)) (k : X -> prog S B) :
  (forall s, mem_ok s -> rs_blks x ⊆ blocks s -> exists a s' bs,
     m s = Some (a, s') /\ update_blks (rs_blks x) s bs s' /\ conc n (k a) Q (with_blks x bs)) ->
  conc n (mem m ≫= k) Q x.
Proof. intros H. by apply conc_S. Qed.

Lemma conc_now (k : Z -> prog S B) : (forall t, in_time t -> conc n (k t) Q x) -> conc n (call Now ≫= k) Q x.
Proof.
  intros H. apply (conc_call Now); [done|]. intros d U Hg Hl Ho. split; [done|]. intros t d' [Ht ->].
  exists x. split; [by apply update_quiet|]. apply H. apply Ht, Hg.
Qed.

Lemma conc_mkdirs p (k : bool -> prog S B) : (forall ok, conc n (k ok) Q x) -> conc n (call (Mkdirs p) ≫= k) Q x.
Proof.
  intros H. apply (conc_call (Mkdirs p)); [done|]. intros d U Hg Hl Ho. split; [done|]. intros ok d' Hs.
  exists x. split; [|done]. destruct ok; [destruct Hs as (ds & (t & Ht & ->) & _)|destruct Hs as (t & Ht & ->)];
    by apply update_quiet.
Qed.

(** A new temporary file, open at its start. *)
Definition with_new (p : cstr) (fd i : nat) : res :=
  Res (<[fd := (i, 0)]> (rs_fds x)) (rs_dirs x) (<[i := []]> (rs_data x)) (rs_frozen x)
    (<[p := Some i]> (rs_temps x)) (rs_blks x).

Lemma conc_mktemp template (k : option (cstr * nat) -> prog S B) :
  (forall p, fills_template template p -> temp p) -> conc n (k None) Q x ->
  (forall p fd i, fills_template template p -> rs_temps x !! p = None -> rs_data x !! i = None ->
     rs_fds x !! fd = None -> conc n (k (Some (p, fd))) Q (with_new p fd i)) ->
  conc n (call (Mktemp template) ≫= k) Q x.
Proof.
  intros Htemp Hn Hs. apply conc_S. cbn. intros d U Hg Hl Ho. split; [done|]. intros [[p fd]|] d' Hsp Hf.
  - destruct Hsp as (i & t & Hfill & Hp & Hi & Hfd & t' & Ht & ->).
    assert (p ∉ U) as HU by set_solver.
    pose proof (update_new x d U (set_file (set_names d (<[p := i]> (d_names d))) i [] t) p i Hg Ho Hp Hi
      (Htemp p Hfill) HU eq_refl eq_refl eq_refl eq_refl (tick_refl _)) as Hup.
    exists (with_new p fd i). split; [|apply Hs; [done| | |]].
    + eapply update_trans; [exact Hup|].
      refine (update_set_fd _ _ _ (set_now _ t') fd (i, 0) (up_good _ _ _ _ _ _ Hup)
        (up_owned _ _ _ _ _ _ Hup) _ _ _ _ Ht _); try done. by right.
    + destruct (rs_temps x !! p) as [v|] eqn:E; [|done]. by destruct (ow_temps _ _ _ Ho p v E) as (_ & ? & _).
    + eapply lookup_weaken_None; [exact Hi|apply Ho].
    + eapply lookup_weaken_None; [exact Hfd|apply Ho].
  - destruct Hsp as (t & Ht & ->). exists x. rewrite union_empty_r_L. split; [by apply update_quiet|done].
Qed.

Lemma fd_defined d U fd v : owned x d U -> rs_fds x !! fd = Some v -> d_fds d !! fd = Some v.
Proof. intros Ho Hfd. eapply lookup_weaken; [done|apply Ho]. Qed.

(** Writing at the end of an own file: all, or some of it. *)
Lemma conc_write fd bytes i old (k : bool -> prog S B) :
  rs_fds x !! fd = Some (i, length old) -> rs_data x !! i = Some old ->
  conc n (k true) Q (with_fds (with_data x (<[i := old ++ bytes]> (rs_data x)))
                     (<[fd := (i, length (old ++ bytes))]> (rs_fds x))) ->
  (forall off b, conc n (k false) Q (with_fds (with_data x (<[i := b]> (rs_data x))) (<[fd := (i, off)]> (rs_fds x)))) ->
  conc n (call (WriteFull fd bytes) ≫= k) Q x.
Proof.
  intros Hfd Hi Ht Hf. apply (conc_call (WriteFull fd bytes)); [done|]. intros d U Hg Hl Ho.
  pose proof (fd_defined _ _ _ _ Ho Hfd) as Hd. split; [cbn; apply bool_decide_eq_true; by rewrite Hd|].
  assert (d_data d !! i = Some old) as Hold by (eapply lookup_weaken; [done|apply Ho]).
  intros a d' (j & off & b & t & Hj & Hb & c & Hn & Hall & t' & Htk & ->).
  rewrite Hd in Hj. injection Hj as <- <-. rewrite Hold in Hb. cbn in Hb. subst b.
  set (b := take (length old) old ++ take c bytes ++ drop (length old + c) old).
  assert (update x d U (with_fds (with_data x (<[i := b]> (rs_data x))) (<[fd := (i, length old + c)]> (rs_fds x)))
    (set_now (set_fds (set_file d i b t) (<[fd := (i, length old + c)]> (d_fds d))) t') U) as Hup.
  { pose proof (update_data x d U (set_file d i b t) i old b Hg Ho Hi eq_refl eq_refl eq_refl eq_refl (tick_refl _)) as Hup.
    eapply update_trans; [exact Hup|].
    refine (update_set_fd _ _ _ (set_now _ t') fd (i, length old + c) (up_good _ _ _ _ _ _ Hup)
      (up_owned _ _ _ _ _ _ Hup) _ _ _ _ Htk _); try done. left. by eexists. }
  eexists. split; [exact Hup|]. destruct a; [|apply Hf].
  unfold b. rewrite (Hall eq_refl), firstn_all, firstn_all, drop_ge, app_nil_r, <- length_app by lia. exact Ht.
Qed.

Lemma conc_close fd v (k : unit -> prog S B) :
  rs_fds x !! fd = Some v -> conc n (k tt) Q (with_fds x (delete fd (rs_fds x))) -> conc n (call (Close fd) ≫= k) Q x.
Proof.
  intros Hfd H. apply (conc_call (Close fd)); [done|]. intros d U Hg Hl Ho.
  split; [cbn; apply bool_decide_eq_true; by rewrite (fd_defined _ _ _ _ Ho Hfd)|].
  intros [] d' (t & Ht & ->). eexists. split; [|exact H].
  eapply (update_fd x d U _ fd None); try done. left. by eexists.
Qed.

Lemma conc_remove_temp p v (k : prog S B) :
  rs_temps x !! p = Some v ->
  (forall v', conc n k Q (with_temps x (<[p := v']> (rs_temps x)))) -> conc n (remove p k) Q x.
Proof.
  intros Hp H. unfold remove. apply (conc_call (Remove p)); [done|]. intros d U Hg Hl Ho. split; [done|].
  intros [] d' (t & Ht & ->).
  - eexists. split; [|apply (H None)]. eapply update_unlink; try done. right. split; [by eexists|done].
  - exists x. split; [by apply update_quiet|]. specialize (H v). rewrite insert_id in H by done. by destruct x.
Qed.

(** Anybody may remove anything. *)
Lemma conc_remove p (k : prog S B) : conc n k Q x -> conc n (remove p k) Q x.
Proof.
  intros H. unfold remove. apply (conc_call (Remove p)); [done|]. intros d U Hg Hl Ho. split; [done|].
  intros [] d' (t & Ht & ->); exists x; (split; [|done]).
  - eapply update_unlink; try done. by left.
  - by apply update_quiet.
Qed.

Lemma conc_rename a p i b (k : bool -> prog S B) :
  rs_temps x !! a = Some (Some i) -> rs_data x !! i = Some b -> public p -> good p b ->
  conc n (k true) Q (with_temps (with_data x (delete i (rs_data x))) (<[a := None]> (rs_temps x))) ->
  conc n (k false) Q x -> conc n (call (Rename a p) ≫= k) Q x.
Proof.
  intros Ha Hb Hp Hgb Ht Hf. apply (conc_call (Rename a p)); [done|]. intros d U Hg Hl Ho. split; [done|].
  intros [] d' Hs.
  - destruct Hs as (i' & Hi' & t & Htk & ->). destruct (ow_temps _ _ _ Ho a _ Ha) as [[E|E] _]; [|congruence].
    rewrite E in Hi'. injection Hi' as <-. eexists. split; [|exact Ht]. by eapply update_publish.
  - destruct Hs as (t & Htk & ->). exists x. split; [by apply update_quiet|done].
Qed.

(** Opening a published file: it is complete. *)
Lemma conc_open p (k : option nat -> prog S B) :
  public p -> conc n (k None) Q x ->
  (forall fd i b, good p b -> rs_fds x !! fd = None ->
     conc n (k (Some fd)) Q (with_fds (with_frozen x (<[i := b]> (rs_frozen x))) (<[fd := (i, 0)]> (rs_fds x)))) ->
  conc n (call (OpenRead p) ≫= k) Q x.
Proof.
  intros Hp Hn Hs. apply (conc_call (OpenRead p)); [done|]. intros d U Hg Hl Ho. split; [done|]. intros [fd|] d' Hsp.
  - destruct Hsp as (i & Hi & Hfd & t & Ht & ->). destruct (ag_files _ Hg p i Hi) as [b Hb].
    pose proof (update_freeze x d U p i b Hg Ho Hp Hi Hb) as Hup. eexists. split; [|apply Hs].
    + eapply update_trans; [exact Hup|].
      refine (update_set_fd _ _ _ (set_now _ t) fd (i, 0) (up_good _ _ _ _ _ _ Hup)
        (up_owned _ _ _ _ _ _ Hup) _ _ _ _ Ht _); try done. by right.
    + by eapply ag_public.
    + eapply lookup_weaken_None; [exact Hfd|apply Ho].
  - destruct Hsp as (t & Ht & ->). exists x. split; [by apply update_quiet|done].
Qed.

(** The size and the bytes of a file that is shared. *)
Lemma conc_size fd i off b (k : option Z -> prog S B) :
  rs_fds x !! fd = Some (i, off) -> rs_frozen x !! i = Some b ->
  conc n (k None) Q x -> conc n (k (Some (Z.of_nat (length b)))) Q x -> conc n (call (InfoSize fd) ≫= k) Q x.
Proof.
  intros Hfd Hi Hn Hs. apply (conc_call (InfoSize fd)); [done|]. intros d U Hg Hl Ho.
  pose proof (fd_defined _ _ _ _ Ho Hfd) as Hd. split; [cbn; apply bool_decide_eq_true; by rewrite Hd|].
  intros a d' [(t & Ht & ->) Ha]. exists x. split; [by apply update_quiet|]. destruct a as [sz|]; [|done].
  specialize (Ha sz eq_refl). unfold fd_data in Ha. rewrite Hd in Ha. cbn in Ha.
  rewrite (lookup_weaken _ (d_data d) _ _ Hi) in Ha by apply Ho. by injection Ha as <-.
Qed.

Lemma conc_read fd i len b (k : option (list ascii) -> prog S B) :
  rs_fds x !! fd = Some (i, 0) -> rs_frozen x !! i = Some b -> len = length b ->
  (forall off, conc n (k None) Q (with_fds x (<[fd := (i, off)]> (rs_fds x)))) ->
  (forall off, conc n (k (Some b)) Q (with_fds x (<[fd := (i, off)]> (rs_fds x)))) ->
  conc n (call (ReadFull fd len) ≫= k) Q x.
Proof.
  intros Hfd Hi -> Hn Hs. apply (conc_call (ReadFull fd (length b))); [done|]. intros d U Hg Hl Ho.
  pose proof (fd_defined _ _ _ _ Ho Hfd) as Hd. split; [cbn; apply bool_decide_eq_true; by rewrite Hd|].
  assert (d_data d !! i = Some b) as Hb by (eapply lookup_weaken; [done|apply Ho]).
  intros [a|] d' Hsp.
  - destruct Hsp as (j & off & b' & Hj & Hb' & _ & -> & t & Ht & ->). rewrite Hd in Hj. injection Hj as <- <-.
    rewrite Hb in Hb'. injection Hb' as <-. rewrite drop_0, firstn_all.
    eexists. split; [|apply (Hs (0 + length b))]. apply update_set_fd; try done. left. by eexists.
  - destruct Hsp as (off & j & off0 & Hj & t & Ht & ->). rewrite Hd in Hj. injection Hj as <- _.
    eexists. split; [|apply (Hn off)]. apply update_set_fd; try done. left. by eexists.
Qed.

(** Files and directories of which nothing is known. *)
Lemma conc_open_any p (k : option nat -> prog S B) :
  conc n (k None) Q x ->
  (forall fd i, rs_fds x !! fd = None -> conc n (k (Some fd)) Q (with_fds x (<[fd := (i, 0)]> (rs_fds x)))) ->
  conc n (call (OpenRead p) ≫= k) Q x.
Proof.
  intros Hn Hs. apply (conc_call (OpenRead p)); [done|]. intros d U Hg Hl Ho. split; [done|]. intros [fd|] d' Hsp.
  - destruct Hsp as (i & Hi & Hfd & t & Ht & ->). eexists. split; [|apply (Hs fd i)].
    + apply update_set_fd; try done. by right.
    + eapply lookup_weaken_None; [exact Hfd|apply Ho].
  - destruct Hsp as (t & Ht & ->). exists x. split; [by apply update_quiet|done].
Qed.

Lemma conc_size_any fd v (k : option Z -> prog S B) :
  rs_fds x !! fd = Some v -> (forall a, conc n (k a) Q x) -> conc n (call (InfoSize fd) ≫= k) Q x.
Proof.
  intros Hfd H. apply (conc_call (InfoSize fd)); [done|]. intros d U Hg Hl Ho.
  split; [cbn; apply bool_decide_eq_true; by rewrite (fd_defined _ _ _ _ Ho Hfd)|].
  intros a d' [(t & Ht & ->) _]. exists x. split; [by apply update_quiet|done].
Qed.

Lemma conc_read_any fd i off len (k : option (list ascii) -> prog S B) :
  rs_fds x !! fd = Some (i, off) ->
  (forall off' a, conc n (k a) Q (with_fds x (<[fd := (i, off')]> (rs_fds x)))) ->
  conc n (call (ReadFull fd len) ≫= k) Q x.
Proof.
  intros Hfd H. apply (conc_call (ReadFull fd len)); [done|]. intros d U Hg Hl Ho.
  pose proof (fd_defined _ _ _ _ Ho Hfd) as Hd. split; [cbn; apply bool_decide_eq_true; by rewrite Hd|].
  assert (forall a off' t, tick (d_now d) t -> exists x',
    update x d U x' (set_now (set_fds d (<[fd := (i, off')]> (d_fds d))) t) U /\ conc n (k a) Q x') as Hup.
  { intros a off' t Ht. eexists. split; [|apply (H off')]. apply update_set_fd; try done. left. by eexists. }
  intros [a|] d' Hsp.
  - destruct Hsp as (j & off0 & b & Hj & _ & _ & _ & t & Ht & ->). rewrite Hd in Hj. injection Hj as <- <-. by apply Hup.
  - destruct Hsp as (off' & j & off0 & Hj & t & Ht & ->). rewrite Hd in Hj. injection Hj as <- _. by apply Hup.
Qed.

(** The size of some file on disk. *)
Lemma conc_stat p (k : option (Z * Z) -> prog S B) :
  conc n (k None) Q x ->
  (forall d i b t, all_good d -> limits d -> d_names d !! p = Some i -> d_data d !! i = Some b ->
     conc n (k (Some (t, Z.of_nat (length b)))) Q x) ->
  conc n (call (Stat p) ≫= k) Q x.
Proof.
  intros Hn Hs. apply (conc_call (Stat p)); [done|]. intros d U Hg Hl Ho. split; [done|].
  intros a d' [(t & Ht & ->) Ha]. exists x. split; [by apply update_quiet|].
  destruct a as [[m sz]|]; [|done]. destruct (Ha m sz eq_refl) as (i & b & Hi & _ & Hb & ->). by eapply Hs.
Qed.

Lemma conc_dir_open p (k : option nat -> prog S B) :
  conc n (k None) Q x ->
  (forall s, s ∉ rs_dirs x -> conc n (k (Some s)) Q (with_dirs x ({[s]} ∪ rs_dirs x))) ->
  conc (Datatypes.S n) (call (DirOpen p) ≫= k) Q x.
Proof.
  clear public_not_temp. intros Hn Hs. apply (conc_call_S (DirOpen p)); [done|]. intros d U Hg Hl Ho. split; [done|]. intros [s|] d' Hsp.
  - destruct Hsp as (es & Hsn & _ & _ & _ & t & Ht & ->). pose proof (ow_dirs _ _ _ Ho) as Hds.
    apply not_elem_of_dom in Hsn. eexists. split; [|apply Hs; set_solver].
    apply update_dirs; try done; cbn; rewrite dom_insert_L; set_solver.
  - destruct Hsp as (t & Ht & ->). exists x. split; [by apply update_quiet|done].
Qed.

Lemma conc_dir_read s (k : option dirent -> prog S B) :
  s ∈ rs_dirs x -> (forall a, conc n (k a) Q x) -> conc (Datatypes.S n) (call (DirRead s) ≫= k) Q x.
Proof.
  clear public_not_temp. intros Hs H. apply (conc_call_S (DirRead s)); [done|]. intros d U Hg Hl Ho.
  pose proof (ow_dirs _ _ _ Ho) as Hds. assert (s ∈ dom (d_streams d)) as Hsd by set_solver.
  split; [cbn; apply bool_decide_eq_true; by apply elem_of_dom|]. intros [e|] d' Hsp; exists x; (split; [|done]).
  - destruct Hsp as (skipped & es & _ & t & Ht & ->).
    replace x with (with_dirs x (rs_dirs x)) at 2 by by destruct x.
    apply update_dirs; try done; cbn; rewrite dom_insert_L; set_solver.
  - destruct Hsp as (t & Ht & ->). by apply update_quiet.
Qed.

Lemma conc_dir_close s (k : unit -> prog S B) :
  s ∈ rs_dirs x -> conc n (k tt) Q (with_dirs x (rs_dirs x ∖ {[s]})) -> conc n (call (DirClose s) ≫= k) Q x.
Proof.
  clear public_not_temp. intros Hs H. apply (conc_call (DirClose s)); [done|]. intros d U Hg Hl Ho.
  pose proof (ow_dirs _ _ _ Ho) as Hds. assert (s ∈ dom (d_streams d)) as Hsd by set_solver.
  split; [cbn; apply bool_decide_eq_true; by apply elem_of_dom|]. intros [] d' (t & Ht & ->).
  eexists. split; [|exact H]. apply update_dirs; try done; cbn; rewrite dom_delete_L; set_solver.
Qed.
End rules.
End logic.
