(* ===== verification/Workers.v ===== *)
(** * Responses and lookups at the same time

    Any number of workers deliver responses to the cache and look entries up,
    in any interleaving and whichever calls fail.  The logic of [Conc.v]
    proves each of them by itself: nobody ever runs into undefined behaviour,
    every published file is complete at every moment, and a lookup that hits
    gives complete files of stored responses.  All of it needs that no
    temporary name is handed out twice; the last section shows what happens
    when one is. *)

From S2P Require Import Prelude CNum CHeap Glob Rules RulesParse RulesMatch Apr AprFile AprRef Util Meta Cache.
From S2P Require Import Publish Lookup RoundTrip Admin Purge Race Store Delivery Refine Conc.
From Stdlib Require Import Lia.
Local Open Scope cstr_scope.

Section workers.
Context {AS : AprStrings} {AT : AprTables} {AM : AprMd5} {HT : Httpd} {AF : AprFiles} {S : Type}.
Context (root : cstr).

(** ** What is shared *)

(** The names entries are published under, and the temporary names of those. *)
Definition entry_name (p : cstr) : Prop :=
  exists hex, is_key hex /\ (p = entry_header root hex \/ p = entry_body root hex).
Definition entry_temp (p : cstr) : Prop := exists q, entry_name q /\ temp_of q p.

Lemma entry_name_not_temp p : entry_name p -> ~ entry_temp p.
Proof.
  intros (hex & Hk & Hp) (q & (hex' & Hk' & Hq) & (s & -> & _)%temp_of_inv).
  exact (entry_not_temp root hex hex' _ q s Hk Hk' Hp Hq eq_refl).
Qed.

Lemma entry_names r rule :
  entry_name (entry_header root (entry_hex r rule)) /\ entry_name (entry_body root (entry_hex r rule)).
Proof. split; exists (entry_hex r rule); (split; [apply entry_hex_spec|auto]). Qed.

(** The content of a published file: the one of before, or a file of a response
    that one of the workers [cs] stores. *)
Definition genuine (cs : list command) (d0 : disk) (p : cstr) (data : list ascii) : Prop :=
  file_at d0 p = Some data \/
  exists r rule bbs bytes, PUT r rule bbs ∈ cs /\ kept r rule (concat bbs) = Some bytes /\
    (p = entry_body root (entry_hex r rule) /\ data = bytes \/
     p = entry_header root (entry_hex r rule) /\ exists created now, in_time created /\ in_time now /\
       data = entry_text r created (now + ttl_seconds rule)).

(** ** Delivering a response *)

(** The names of entries are published, and maybe others; the workers may share
    memory, of which this one owns the blocks [bs]. *)
Section deliver.
Context (limits : disk -> Prop) (public : cstr -> Prop) (good : cstr -> list ascii -> Prop).
Context (mem_ok : S -> Prop) (blocks : S -> gset nat) (n : nat) (bs : gset nat).
Context (entry_public : forall p, entry_name p -> public p) (pnt : forall p, public p -> ~ entry_temp p).
Abbreviation conc := (conc (S := S) limits public entry_temp good mem_ok blocks n).

(** Nothing is open any more. *)
Definition closed (x : res) : Prop := rs_fds x = ∅ /\ rs_blks x = bs.

(** Nothing but memory is owned. *)
Definition idle : res := with_blks nothing bs.

Lemma closed_delete x fd v : rs_fds x = {[fd := v]} -> rs_blks x = bs -> closed (with_fds x (delete fd (rs_fds x))).
Proof. intros E. split; [cbn; by rewrite E, delete_singleton_eq|done]. Qed.

Section entry.
Context (r : request) (rule : cacher_rule) (header body : cstr).
Context (Hpaths : cache_key_paths r (Some root) rule = Some (header, body)).
Abbreviation ctx := (capture_ctx rule header body).

Lemma paths_entry : entry_name header /\ entry_name body.
Proof.
  rewrite cache_key_paths_shard in Hpaths. injection Hpaths as <- <-. apply (entry_names r rule).
Qed.

Lemma paths_public : public header /\ public body.
Proof. destruct paths_entry. auto. Qed.

Lemma conc_cleanup tmp tmph v v' x :
  closed x -> tmp <> tmph -> rs_temps x !! tmp = Some v -> rs_temps x !! tmph = Some v' ->
  conc (remove tmp (remove tmph (remove body (mret tt)))) (fun _ y => closed y) x.
Proof.
  intros Hx Nt H1 H2. eapply conc_remove_temp; [exact H1|]. intros u.
  eapply conc_remove_temp; [cbn; rewrite lookup_insert_ne by done; exact H2|]. intros u'.
  by apply conc_remove, conc_ret.
Qed.

Lemma conc_publish tmp tmph x fd i j bytes text :
  closed x -> tmp <> tmph -> i <> j ->
  rs_temps x !! tmp = Some (Some i) -> rs_data x !! i = Some bytes ->
  rs_temps x !! tmph = Some (Some j) -> rs_data x !! j = Some text ->
  good body bytes -> good header text ->
  conc (publish (ctx tmp fd bytes) tmp tmph) (fun _ y => closed y) x.
Proof.
  intros Hx Nt Nij Ti Di Tj Dj Gb Gh. destruct paths_public as [Ph Pb].
  unfold publish. cbn [oc_body_path oc_header_path capture_ctx].
  eapply conc_rename; [exact pnt|exact Ti|exact Di|done|done| |].
  - eapply conc_rename; [exact pnt| | |done|exact Gh| |].
    + cbn. rewrite lookup_insert_ne by done. exact Tj.
    + cbn. rewrite lookup_delete_ne by done. exact Dj.
    + by apply conc_ret.
    + eapply conc_cleanup; [done|done| |]; cbn; [by rewrite lookup_insert_eq|].
      rewrite lookup_insert_ne by done. exact Tj.
  - apply conc_bind, conc_ret. by eapply conc_cleanup.
Qed.

(** After the header file is opened, written and closed. *)
Lemma conc_write_header tmp x fd i bytes text :
  closed x -> temp_of body tmp -> rs_temps x !! tmp = Some (Some i) -> rs_data x !! i = Some bytes ->
  good body bytes -> good header text ->
  conc (write_header (ctx tmp fd bytes) tmp text) (fun _ y => closed y) x.
Proof.
  intros [Hx Hb] Htmp Ti Di Gb Gh. destruct paths_entry as [Ph Pb].
  pose proof (entry_paths_of _ _ _ _ _ Hpaths) as Hep.
  unfold write_header. cbn [oc_header_path capture_ctx]. rewrite apr_pstrcat_spec. cbn [concat]. rewrite app_nil_r.
  apply conc_mktemp; [exact pnt|intros p Hp; by exists header| |].
  { eapply conc_remove_temp; [exact Ti|]. intros u. by apply conc_ret. }
  intros tmph hf j Hth Hnt Hnd Hnf.
  assert (tmp <> tmph) as Ntt.
  { intros ->. by destruct (temp_body_ne _ _ Hep _ Htmp) as (_ & _ & []). }
  assert (i <> j) as Nij by congruence.
  eapply (conc_write _ _ _ _ _ _ pnt _ _ _ hf text j []); [cbn; by rewrite lookup_insert_eq..| |].
  - eapply conc_close; [cbn; by rewrite lookup_insert_eq|].
    eapply (conc_publish tmp tmph _ fd i j); cbn; try done.
    + split; [cbn; by rewrite insert_insert_eq, delete_insert_id|done].
    + by rewrite lookup_insert_ne.
    + by rewrite !lookup_insert_ne.
    + by rewrite lookup_insert_eq.
    + by rewrite lookup_insert_eq.
  - intros off b. eapply conc_close; [cbn; by rewrite lookup_insert_eq|].
    eapply conc_remove_temp; [cbn; by rewrite lookup_insert_eq|]. intros u.
    eapply conc_remove_temp; [cbn; rewrite !lookup_insert_ne by done; exact Ti|]. intros u'.
    apply conc_ret. split; [cbn; by rewrite insert_insert_eq, delete_insert_id|done].
Qed.

(** What the worker owns while it captures. *)
Definition capture_res (tmp : cstr) (fd i : nat) (bytes : list ascii) : res :=
  Res {[fd := (i, length bytes)]} ∅ {[i := bytes]} ∅ {[tmp := Some i]} bs.

Lemma closed_capture tmp fd i bytes : closed (with_fds (capture_res tmp fd i bytes) (delete fd {[fd := (i, length bytes)]})).
Proof. by eapply (closed_delete (capture_res _ _ _ _)). Qed.

Context (Httl : ttl_ok rule).

Lemma conc_finalize tmp fd i bytes :
  temp_of body tmp ->
  (r_aborted r = false -> wrong_length r (ctx tmp fd bytes) = false ->
     good body bytes /\ forall created now, in_time created -> in_time now ->
       good header (entry_text r created (now + ttl_seconds rule))) ->
  conc (finalize_cache_entry r (ctx tmp fd bytes)) (fun _ y => closed y) (capture_res tmp fd i bytes).
Proof.
  intros Htmp Hgood. unfold finalize_cache_entry. cbn [oc_tmp_body_file oc_tmp_body_path capture_ctx oc_rule].
  fold (capture_ctx rule header body tmp fd bytes).
  eapply conc_close; [cbn; by rewrite lookup_singleton_eq|].
  assert (conc (remove tmp (mret tt)) (fun _ y => closed y)
    (with_fds (capture_res tmp fd i bytes) (delete fd (rs_fds (capture_res tmp fd i bytes))))) as Hdrop.
  { eapply conc_remove_temp; [cbn; by rewrite lookup_singleton_eq|]. intros u. apply conc_ret.
    apply closed_capture. }
  destruct (r_aborted r); [exact Hdrop|]. destruct (wrong_length r _); [exact Hdrop|].
  destruct (Hgood eq_refl eq_refl) as [Gb Gh].
  apply conc_now. intros created Hcr. apply conc_now. intros now Hnow.
  rewrite (add_ttl (ctx tmp fd bytes)) by done.
  eapply conc_write_header; [apply closed_capture|done| | |done|by apply Gh]; cbn; apply lookup_singleton_eq.
Qed.

(** *** The filter *)

Context (Hcacheable : response_cacheable r rule = true).
Context (stream : list bucket).
Context (Hgood : forall bytes, stream_bytes stream = Some bytes -> r_aborted r = false ->
  length_matches r (length bytes) = true -> good body bytes /\
  forall created now, in_time created -> in_time now ->
    good header (entry_text r created (now + ttl_seconds rule))).

(** [bytes] are captured, and [rest] is to come. *)
Definition expecting (bytes : list ascii) (rest : list bucket) : Prop :=
  ends rest = true /\ forall more, stream_bytes rest = Some more -> stream_bytes stream = Some (bytes ++ more).

(** The worker after some brigades: still capturing, or done with it. *)
Definition filter_state (rest : list bucket) (ctx' : cacher_out_ctx) (removed : bool) (y : res) : Prop :=
  (removed = false /\ exists tmp fd i bytes, ctx' = ctx tmp fd bytes /\ y = capture_res tmp fd i bytes /\
     temp_of body tmp /\ expecting bytes rest) \/
  (closed y /\ oc_started ctx' = true /\ (removed = true \/ rest = [])).

Lemma conc_start ctx0 :
  oc_rule ctx0 = rule -> oc_body_path ctx0 = body -> oc_header_path ctx0 = header -> oc_body_len ctx0 = 0%Z ->
  conc (filter_start r ctx0) (fun ctx' y =>
    (exists tmp fd i, ctx' = ctx tmp fd [] /\ y = capture_res tmp fd i [] /\ temp_of body tmp) \/
    (oc_started ctx' = true /\ oc_cacheable ctx' = false /\ closed y)) idle.
Proof.
  intros Er Eb Eh El. destruct paths_entry as [Ph Pb]. unfold filter_start. rewrite Er, Eb, Hcacheable. cbn [negb].
  destruct (strrchr body SLASH) as [slash|] eqn:Estr.
  2: { exfalso. apply strrchr_None in Estr. apply Estr. destruct Pb as (hex & _ & [->| ->]);
       unfold entry_header, entry_body, child; rewrite !elem_of_app; right; left; by apply list_elem_of_singleton. }
  apply conc_mkdirs. intros []; [|apply conc_ret; by right].
  rewrite apr_pstrcat_spec. cbn [concat]. rewrite app_nil_r.
  apply conc_mktemp; [exact pnt|intros p Hp; by exists body| |].
  { apply conc_ret. by right. }
  intros tmp fd i Htmp _ _ _. apply conc_ret. left. exists tmp, fd, i. split_and!; [|done..].
  unfold start_ctx, capture_ctx. by rewrite Er, Eb, Eh, El.
Qed.

(** One bucket that is not the end. *)
Lemma conc_capture tmp fd i bytes e rest :
  temp_of body tmp -> e <> EOS -> expecting bytes (e :: rest) ->
  conc (capture (ctx tmp fd bytes) e) (fun '(ctx', removed) y =>
    (removed = false /\ ctx' = ctx tmp fd (bytes ++ bucket_bytes e) /\
       y = capture_res tmp fd i (bytes ++ bucket_bytes e) /\ expecting (bytes ++ bucket_bytes e) rest) \/
    (removed = true /\ oc_started ctx' = true /\ oc_cacheable ctx' = false /\ closed y))
    (capture_res tmp fd i bytes).
Proof.
  intros Htmp He [Hends Hbytes].
  assert (forall b off, conc (abandon (ctx tmp fd bytes)) (fun '(ctx', removed) y =>
    removed = true /\ oc_started ctx' = true /\ oc_cacheable ctx' = false /\ closed y)
    (with_fds (with_data (capture_res tmp fd i bytes) {[i := b]}) {[fd := (i, off)]})) as Hab.
  { intros b off. unfold abandon. cbn [oc_tmp_body_file oc_tmp_body_path capture_ctx].
    eapply conc_close; [cbn; by rewrite lookup_singleton_eq|].
    eapply conc_remove_temp; [cbn; by rewrite lookup_singleton_eq|]. intros u. apply conc_ret.
    split_and!; [done..|]. split; [cbn; by rewrite delete_singleton_eq|done]. }
  destruct e as [| |data|[[|len]|]]; try done; cbn [ends stream_bytes bucket_bytes] in *.
  - apply conc_ret. left. rewrite app_nil_r. split_and!; done.
  - destruct data as [|c data].
    { apply conc_ret. left. rewrite app_nil_r. split_and!; [done..|]. split; [done|]. intros bs0 Hbs.
      apply Hbytes. by rewrite Hbs. }
    cbn [capture oc_tmp_body_file capture_ctx].
    eapply (conc_write _ _ _ _ _ _ pnt _ _ _ fd (c :: data) i bytes); [cbn; apply lookup_singleton_eq..| |].
    + apply conc_ret. left. split_and!; [done| | |].
      * unfold add_len, capture_ctx. cbn [oc_rule oc_header_path oc_body_path oc_tmp_body_path
          oc_tmp_body_file oc_body_len oc_started oc_cacheable]. f_equal. rewrite length_app. lia.
      * unfold capture_res. cbn. by rewrite !insert_singleton_eq.
      * split; [done|]. intros bs0 Hbs. rewrite <- app_assoc. apply Hbytes. by rewrite Hbs.
    + intros off b. cbn [rs_fds rs_data with_data with_fds capture_res]. rewrite !insert_singleton_eq.
      eapply conc_mono; [apply (Hab b off)|].
      intros [ctx' removed] y H. by right.
  - eapply conc_mono; [apply (Hab bytes (length bytes))|]. intros [ctx' removed] y H. by right.
Qed.

Lemma conc_loop tmp fd i bytes bb rest :
  temp_of body tmp -> expecting bytes (bb ++ rest) ->
  conc (filter_loop r (ctx tmp fd bytes) bb) (fun '(ctx', removed) y => filter_state rest ctx' removed y)
    (capture_res tmp fd i bytes).
Proof.
  intros Htmp. revert bytes. induction bb as [|e bb IH]; intros bytes Hexp.
  { apply conc_ret. left. split; [done|]. by exists tmp, fd, i, bytes. }
  cbn [filter_loop app capture_ctx oc_cacheable]. fold (capture_ctx rule header body tmp fd bytes).
  assert (e = EOS \/ e <> EOS) as [->|He] by (destruct e; auto).
  - destruct Hexp as [Hends Hbytes]. apply conc_bind. eapply conc_mono; [eapply conc_finalize; [done..|]|].
    + intros Hab Hwl. rewrite wrong_length_matches in Hwl. apply negb_false_iff in Hwl.
      apply Hgood; [|done|done]. rewrite <- (app_nil_r bytes). apply Hbytes. cbn in Hends |- *. by destruct (bb ++ rest).
    + intros [] y Hy. cbn in Hends. destruct bb; [|done]. destruct rest; [|done].
      apply conc_ret. right. by split_and!; [..|right].
  - assert (conc ('(ctx1, removed) ← capture (ctx tmp fd bytes) e;
                  '(ctx2, removed') ← filter_loop r ctx1 bb; mret (ctx2, removed || removed'))
      (fun '(ctx', removed) y => filter_state rest ctx' removed y) (capture_res tmp fd i bytes)) as H.
    { apply conc_bind. eapply conc_mono; [by eapply (conc_capture tmp fd i bytes e)|].
      intros [ctx1 removed] y [(-> & -> & -> & Hexp')|(-> & Hst & Hca & Hy)].
      - apply conc_bind. eapply conc_mono; [by apply IH|]. intros [ctx2 removed'] z Hz. by apply conc_ret.
      - rewrite filter_loop_idle by done. apply conc_ret. right. split_and!; [done|done|by left]. }
    by destruct e.
Qed.

Lemma conc_run_empty c bbs y :
  oc_started c = true -> concat bbs = [] -> closed y -> conc (run_filter r c bbs) (fun _ z => closed z) y.
Proof.
  intros Hst. induction bbs as [|bb bbs IH]; intros E Hy; [by apply conc_ret|].
  cbn in E. apply app_eq_nil in E as [-> E]. cbn [run_filter]. unfold cacher_output_filter. rewrite Hst.
  apply (IH E Hy).
Qed.

Lemma conc_run tmp fd i bytes bbs :
  temp_of body tmp -> expecting bytes (concat bbs) ->
  conc (run_filter r (ctx tmp fd bytes) bbs) (fun _ y => closed y) (capture_res tmp fd i bytes).
Proof.
  revert tmp fd i bytes. induction bbs as [|bb bbs IH]; intros tmp fd i bytes Htmp Hexp; [by destruct Hexp|].
  cbn [run_filter]. unfold cacher_output_filter. cbn [oc_started capture_ctx].
  apply conc_bind, conc_bind, conc_ret, conc_bind.
  eapply conc_mono; [by apply (conc_loop tmp fd i bytes bb (concat bbs))|].
  intros [ctx' removed] y [(-> & tmp' & fd' & i' & bytes' & -> & -> & Htmp' & Hexp')|(Hy & Hst & Hor)];
    apply conc_ret; cbn [orb].
  - by apply IH.
  - destruct removed; [by apply conc_ret|]. destruct Hor as [?|E]; [done|]. by apply conc_run_empty.
Qed.

Lemma conc_run_filter ctx0 bbs :
  cacher_cache_insert_filter r (Some root) rule = Some ctx0 -> concat bbs = stream -> ends stream = true ->
  conc (run_filter r ctx0 bbs) (fun _ y => closed y) idle.
Proof.
  intros Hctx Estream Hends. unfold cacher_cache_insert_filter in Hctx.
  destruct (_ <=? _)%Z; [done|]. destruct (r_header_only r); [done|]. rewrite Hpaths in Hctx. injection Hctx as <-.
  destruct bbs as [|bb bbs]; [by subst stream|]. cbn [run_filter]. unfold cacher_output_filter. cbn [oc_started].
  apply conc_bind, conc_bind, conc_bind. eapply conc_mono; [by apply conc_start|].
  intros ctx1 y [(tmp & fd & i & -> & -> & Htmp)|(Hst & Hca & Hy)].
  - apply conc_ret, conc_bind. eapply conc_mono; [apply (conc_loop tmp fd i [] bb (concat bbs)); [done|]|].
    { split; [by rewrite <- Estream in Hends|]. intros bs0 Hbs. by rewrite <- Estream. }
    intros [ctx' removed] y [(-> & tmp' & fd' & i' & bytes' & -> & -> & Htmp' & Hexp')|(Hy & Hst & Hor)];
      apply conc_ret; cbn [orb oc_cacheable capture_ctx negb].
    + by apply conc_run.
    + destruct removed; [by apply conc_ret|]. destruct Hor as [?|E]; [done|]. by apply conc_run_empty.
  - apply conc_ret, conc_bind. rewrite filter_loop_idle by done. rewrite Hca. by apply conc_ret, conc_ret, conc_ret.
Qed.
End entry.

(** The filter of a request, whether it keeps the response or not. *)
Lemma conc_filter r rule bbs ctx0 :
  cacher_cache_insert_filter r (Some root) rule = Some ctx0 -> ends (concat bbs) = true -> ttl_ok rule ->
  (forall bytes, kept r rule (concat bbs) = Some bytes -> good (entry_body root (entry_hex r rule)) bytes /\
     forall created now, in_time created -> in_time now ->
       good (entry_header root (entry_hex r rule)) (entry_text r created (now + ttl_seconds rule))) ->
  conc (run_filter r ctx0 bbs) (fun _ y => closed y) idle.
Proof.
  intros Ectx Hends Httl Hgood. pose proof (insert_filter_paths _ _ _ _ Ectx) as Hpaths.
  destruct (response_cacheable r rule) eqn:Hc.
  - eapply (conc_run_filter r rule _ _ Hpaths Httl Hc (concat bbs)); try done.
    intros bytes Hb Hab Hlen. pose proof Hpaths as Hp. rewrite cache_key_paths_shard in Hp. injection Hp as <- <-.
    apply Hgood. unfold kept. rewrite Hc, Hab, Hb. cbn [mbind option_bind]. rewrite Hlen.
    unfold cacher_cache_insert_filter in Ectx. destruct (Z.leb_spec (ttl_seconds rule) 0); [done|].
    destruct (r_header_only r); [done|]. by rewrite (proj2 (Z.ltb_lt _ _)).
  - unfold cacher_cache_insert_filter in Ectx. destruct (_ <=? _)%Z; [done|]. destruct (r_header_only r); [done|].
    rewrite cache_key_paths_shard in Ectx. injection Ectx as <-.
    destruct bbs as [|bb bbs]; [done|]. cbn [run_filter]. rewrite filter_uncacheable by done. by apply conc_ret.
Qed.

(** ** Looking an entry up *)

Lemma conc_read_meta p x :
  public p -> closed x ->
  conc (cacher_cache_read_meta p) (fun meta y => closed y /\
    (meta = None \/ exists text, good p text /\ meta = parse_header_file (c_str text))) x.
Proof.
  intros Hp [Hx Hbl]. unfold cacher_cache_read_meta.
  apply conc_open; [exact pnt|done|apply conc_ret; by split; [|left]|]. intros fd i b Hb _.
  assert (forall v, delete fd (<[fd := v]> (rs_fds x)) = ∅) as Hcl by (intros v; rewrite Hx, insert_empty; apply delete_singleton_eq).
  eapply conc_size; [cbn; apply lookup_insert_eq|cbn; apply lookup_insert_eq| |].
  { eapply conc_close; [cbn; apply lookup_insert_eq|]. apply conc_ret. split; [by split; [apply Hcl|]|by left]. }
  destruct (_ <=? 0)%Z.
  { eapply conc_close; [cbn; apply lookup_insert_eq|]. apply conc_ret. split; [by split; [apply Hcl|]|by left]. }
  eapply conc_read; [cbn; apply lookup_insert_eq|cbn; apply lookup_insert_eq|by rewrite Nat2Z.id| |];
    intros off; (eapply conc_close; [cbn; apply lookup_insert_eq|]; apply conc_ret);
    (split; [split; [cbn; by rewrite insert_insert_eq, Hcl|done]|]).
  - by left.
  - right. by exists b.
Qed.

(** What the header file of an entry says about it. *)
Definition described (r : request) (rule : cacher_rule) (meta : cacher_entry_meta) (headers : cstr) : Prop :=
  exists text, good (entry_header root (entry_hex r rule)) text /\
    parse_header_file (c_str text) = Some (meta, headers).

(** The worker after a lookup: the body of a hit is open at its start. *)
Definition lookup_state (r : request) (rule : cacher_rule) (found : request * option cache_hit) (y : res) : Prop :=
  match found with
  | (r', None) => closed y /\ (r' = r \/ exists meta headers, described r rule meta headers /\ r' = replay_text r headers)
  | (r', Some hit) => exists meta headers i b, described r rule meta headers /\ r' = replay_text r headers /\
      good (entry_body root (entry_hex r rule)) b /\ rs_fds y = {[ch_file hit := (i, 0)]} /\
      rs_blks y = bs /\ rs_frozen y !! i = Some b /\ ch_status hit = em_status meta /\ ch_length hit = Z.of_nat (length b)
  end.

Lemma conc_lookup r rule : conc (cacher_cache_lookup r (Some root) rule) (lookup_state r rule) idle.
Proof.
  unfold cacher_cache_lookup. rewrite cache_key_paths_shard.
  fold (entry_header root (entry_hex r rule)). fold (entry_body root (entry_hex r rule)).
  destruct (entry_names r rule) as [Ph%entry_public Pb%entry_public].
  apply conc_bind. eapply conc_mono; [by apply conc_read_meta|].
  intros m y [[Hy Hbl] [->|(text & Hg & ->)]]; [apply conc_ret; by split; [|left]|].
  destruct (parse_header_file _) as [[meta headers]|] eqn:Ep; [|apply conc_ret; by split; [|left]].
  assert (described r rule meta headers) as Hdesc by by exists text.
  apply conc_now. intros now _. destruct (_ <=? _)%Z; [apply conc_ret; by split; [|left]|].
  fold (replay_text r headers).
  apply conc_open; [exact pnt|done|apply conc_ret; split; [done|eauto]|]. intros fd i b Hb _.
  set (z := with_fds _ _).
  assert (rs_blks z = bs) as Bz by done.
  assert (rs_fds z = {[fd := (i, 0)]}) as Ez by (subst z; cbn; rewrite Hy; apply insert_empty).
  assert (rs_frozen z !! i = Some b) as Fz by (subst z; apply lookup_insert_eq).
  assert (rs_fds z !! fd = Some (i, 0)) as Lz by (rewrite Ez; apply lookup_singleton_eq).
  clearbody z. eapply conc_size; [exact Lz|exact Fz| |].
  { eapply conc_close; [exact Lz|]. apply conc_ret. split; [|by eauto].
    by eapply closed_delete. }
  destruct (0 <? _)%Z; [apply conc_now; intros now' _|]; apply conc_ret; by exists meta, headers, i, b.
Qed.

(** ** Workers *)

(** What a worker may end with. *)
Definition answers (c : command) (rep : reply) : Prop :=
  match c, rep with
  | PUT _ _ _, SENT => True
  | GET r rule, MISS r' => r' = r \/ exists meta headers, described r rule meta headers /\ r' = replay_text r headers
  | GET r rule, HIT r' status len age body => exists meta headers b,
      described r rule meta headers /\ good (entry_body root (entry_hex r rule)) b /\
      r' = replay_text r headers /\ status = em_status meta /\ len = Z.of_nat (length b) /\
      (body = Some b \/ body = None)
  | _, _ => False
  end.

Lemma conc_get fuel r rule : conc (perform root fuel (GET r rule)) (fun rep _ => answers (GET r rule) rep) idle.
Proof.
  cbn [perform]. apply conc_bind. eapply conc_mono; [apply conc_lookup|]. intros [r' [hit|]] y.
  - intros (meta & headers & i & b & Hdesc & -> & Hb & Ef & _ & Hi & Hst & Hlen).
    assert (rs_fds y !! ch_file hit = Some (i, 0)) as L by (rewrite Ef; apply lookup_singleton_eq).
    eapply conc_read; [exact L|exact Hi|by rewrite Hlen, Nat2Z.id| |]; intros off;
      (eapply conc_close; [cbn; apply lookup_insert_eq|]; apply conc_ret); exists meta, headers, b; auto 10.
  - intros [Hy Hr]. by apply conc_ret.
Qed.
End deliver.

(** Responses and lookups, of responses that end and rules whose lifetime does
    not overflow. *)
Definition concurrent (c : command) : Prop :=
  match c with
  | PUT _ rule bbs => ends (concat bbs) = true /\ ttl_ok rule
  | GET _ _ => True
  | _ => False
  end.

(** Nothing but files is shared. *)
Abbreviation alone good := (Conc.conc (S := S) (fun _ => True) entry_name entry_temp good (fun _ => True) (fun _ => ∅)).

Lemma conc_put fuel cs d0 m r rule bbs :
  PUT r rule bbs ∈ cs -> concurrent (PUT r rule bbs) ->
  alone (genuine cs d0) m (perform root fuel (PUT r rule bbs)) (fun rep _ => rep = SENT) nothing.
Proof.
  intros Hin [Hends Httl]. cbn [perform].
  destruct (cacher_cache_insert_filter r (Some root) rule) as [ctx0|] eqn:Ectx; [|by apply conc_ret].
  apply conc_bind. eapply conc_mono.
  - eapply (conc_filter _ _ _ _ _ _ ∅); [done|exact entry_name_not_temp|exact Ectx|done|done|].
    intros bytes Hk. split; [|intros created now Hcr Hnow]; right; exists r, rule, bbs, bytes; (split; [done|split; [done|]]).
    + by left.
    + right. split; [done|]. by exists created, now.
  - intros _ y _. by apply conc_ret.
Qed.

Lemma conc_command fuel cs d0 m c :
  c ∈ cs -> concurrent c ->
  alone (genuine cs d0) m (perform root fuel c) (fun rep _ => answers (genuine cs d0) c rep) nothing.
Proof.
  intros Hin Hc. destruct c as [r rule bbs|r rule| | |]; try done.
  - eapply conc_mono; [by apply conc_put|]. by intros rep y ->.
  - by apply (conc_get _ _ _ _ _ _ ∅); [|exact entry_name_not_temp].
Qed.

(** C6: workers that deliver responses and look entries up at the same time, in
    any interleaving and whichever calls fail, never meet undefined behaviour as
    long as the file system hands out no temporary name twice;
    at every moment each published file is the one of before or a complete
    file of a response that is to be stored; and what a lookup answers comes
    from complete files: no reader ever sees a part of a body.
    ([reused_name_publishes_part] is what a reused name can do.) *)
Theorem workers_isolated fuel cs w (s : S) m U ps' w' s' :
  Forall concurrent cs -> in_time (d_now (view w)) -> (forall p, file_ok (view w) p) ->
  fresh_steps (fun _ => True) (perform root fuel <$> cs, w, s) m U (ps', w', s') ->
  (forall p data, entry_name p -> file_at (view w') p = Some data -> genuine cs (view w) p data) /\
  forall i p c, ps' !! i = Some p -> cs !! i = Some c ->
    is_Some (prog_step p w' s') \/ exists rep, p = Ret rep /\ answers (genuine cs (view w)) c rep.
Proof.
  intros Hcs Ht Hfiles Hsteps.
  assert (all_good entry_name (genuine cs (view w)) (view w)) as Hg.
  { split; [done..|]. intros p i b _ Hi Hb. left. unfold file_at. by rewrite Hi. }
  destruct (conc_sound (fun _ => True) entry_name entry_temp (genuine cs (view w)) (fun _ => True) (fun _ => ∅)
    (fun i rep _ => forall c, cs !! i = Some c -> answers (genuine cs (view w)) c rep)
    m (perform root fuel <$> cs) w s U ps' w' s' Hg I) as (Hg' & _ & Hw); [|done|].
  - intros i p Hp. apply list_lookup_fmap_Some in Hp as (c & -> & Hc).
    eapply conc_mono; [eapply (conc_command fuel cs (view w) _ c)|].
    + by eapply list_elem_of_lookup_2.
    + rewrite Forall_lookup in Hcs. by eapply Hcs.
    + cbn beta. intros rep _ Hrep c'. rewrite Hc. by intros [= <-].
  - split.
    + intros p data Hp Hd. unfold file_at in Hd.
      destruct (d_names (view w') !! p) as [i|] eqn:Ei; cbn in Hd; [|done]. by apply (ag_public _ _ _ Hg' p i data).
    + intros i p c Hp Hc. destruct (Hw i p Hp) as [(rep & y & -> & _ & Hrep)|Hs]; [right|by left]. eauto.
Qed.
End workers.

(** ** A response and two lookups *)

Definition mixed_commands : list command := [sample_put; sample_get; sample_get].

(** The first lookup starts while the response is being captured, the second
    one when it is published. *)
Definition mixed_sched : list nat :=
  replicate 4 0 ++ [1] ++ replicate 8 0 ++ replicate 10 2.

Definition mixed_run :=
  run_fresh (AF := ref_files) (fun _ => True) mixed_sched ∅ (perform (str "/var/cache") 0 <$> mixed_commands) empty_cache tt.

(** They answer with a miss and with a hit. *)
Lemma mixed_run_ends :
  match mixed_run with
  | Some (_, (ps, _, _)) =>
      match ps with
      | [Ret SENT; Ret (MISS _); Ret (HIT _ 200 5 _ (Some b))] => bool_decide (b = str "hello")
      | _ => false
      end
  | None => false
  end = true.
Proof. vm_compute. reflexivity. Qed.

Lemma workers_isolated_witness :
  exists m U ps' w', fresh_steps (AF := ref_files) (fun _ => True)
    (perform (str "/var/cache") 0 <$> mixed_commands, empty_cache, tt) m U (ps', w', tt) /\
  (forall p data, entry_name (str "/var/cache") p -> file_at (view w') p = Some data ->
     genuine (str "/var/cache") mixed_commands (view empty_cache) p data) /\
  forall i p c, ps' !! i = Some p -> mixed_commands !! i = Some c ->
    is_Some (prog_step p w' tt) \/
    exists rep, p = Ret rep /\ answers (str "/var/cache") (genuine (str "/var/cache") mixed_commands (view empty_cache)) c rep.
Proof.
  pose proof mixed_run_ends as H. pose proof (run_fresh_steps (AF := ref_files) (fun _ => True) mixed_sched
    (perform (str "/var/cache") 0 <$> mixed_commands) empty_cache tt) as Hsteps.
  unfold mixed_run in H. destruct (run_fresh _ _ _ _ _ _) as [[U [[ps' w'] []]]|]; [|discriminate H].
  specialize (Hsteps _ _ I eq_refl). exists (length mixed_sched), U, ps', w'. split; [exact Hsteps|].
  apply (workers_isolated (AF := ref_files) (str "/var/cache") 0 mixed_commands empty_cache tt (length mixed_sched) U ps' w' tt).
  - apply Forall_cons; split; [split; [vm_compute; reflexivity|split; vm_compute; discriminate]|by repeat constructor].
  - split; vm_compute; discriminate.
  - intros p i Hi. vm_compute in Hi. discriminate Hi.
  - exact Hsteps.
Defined.

(** ** A temporary name that comes again

    A file system on which one rename fails, the [n]-th from now. *)

Definition flaky_run (o : op) (w : disk * nat) : answer o * (disk * nat) :=
  match o return answer o * (disk * nat) with
  | Rename a b =>
      match snd w with
      | 1 => (false, (fst w, 0))
      | n => let '(r, d) := ref_run (Rename a b) (fst w) in (r, (d, pred n))
      end
  | o => let '(r, d) := ref_run o (fst w) in (r, (d, snd w))
  end.

Program Definition flaky_files : AprFiles := {|
  world := disk * nat;
  view := fst;
  run := flaky_run;
  healthy := fun _ => False;
|}.
Next Obligation.
  intros [d n] o H. pose proof (ref_run_spec d o H) as Hs. cbn in Hs.
  destruct o; cbn [flaky_run fst snd] in *; try (destruct (ref_run _ d); exact Hs).
  destruct n as [|[|n]]; [destruct (ref_run _ d); exact Hs| |destruct (ref_run _ d); exact Hs].
  cbn. apply later_refl.
Qed.
Next Obligation. done. Qed.

(** The first worker has given its name away by renaming it, cannot publish the
    header, and removes the name all the same: by then it is the one of the
    second worker; the third one is given it again, and the second one
    publishes what the third one has written so far. *)
Definition reuse_commands : list command :=
  [PUT sample_response sample_vary_rule [[DATA (str "one"); EOS]];
   PUT sample_response sample_vary_rule [[DATA (str "two"); EOS]];
   PUT sample_response sample_vary_rule [[DATA (str "part")]; [DATA (str "of three"); EOS]];
   sample_get].

Definition reuse_sched : list nat :=
  replicate 11 0 ++ replicate 2 1 ++ replicate 3 0 ++ replicate 3 2 ++ replicate 9 1 ++ replicate 10 3.

Definition reuse_start : @world flaky_files := (empty_cache, 2).

Definition reuse_run :=
  run_pool (AF := flaky_files) reuse_sched (perform (str "/var/cache") 0 <$> reuse_commands) reuse_start tt.

Lemma reuse_run_ends :
  match reuse_run with
  | Some (ps, _, _) =>
      match ps with
      | [Ret SENT; Ret SENT; Do _ _; Ret (HIT _ 200 4 _ (Some b))] => bool_decide (b = str "part")
      | _ => false
      end
  | None => false
  end = true.
Proof. vm_compute. reflexivity. Qed.

Lemma part_not_genuine p hex :
  is_key hex -> p = entry_body (str "/var/cache") hex ->
  ~ genuine (str "/var/cache") reuse_commands empty_cache p (str "part").
Proof.
  intros Hk -> [Hp|(r0 & rule & bbs & bytes & Hin & Hkept & [[_ <-]|[Hp _]])].
  - unfold file_at in Hp. cbn in Hp. by rewrite lookup_empty in Hp.
  - unfold reuse_commands in Hin. rewrite !elem_of_cons in Hin.
    destruct Hin as [[= -> -> ->]|[[= -> -> ->]|[[= -> -> ->]|[?|?%elem_of_nil]]]]; try done;
      vm_compute in Hkept; discriminate Hkept.
  - by apply eq_sym, entry_header_ne_body in Hp; [|apply entry_hex_spec|].
Qed.

(** C40: the cleanup of a failed publication removes its temporary name even when
    it has already given it away, and the name can have been handed out again
    by then: after one failing rename a lookup serves, as a hit, the first part
    of a body whose response is still being captured, under the header of
    another response. *)
Theorem reused_name_publishes_part :
  exists ps' w' r' age,
    pool_steps (AF := flaky_files) (perform (str "/var/cache") 0 <$> reuse_commands, reuse_start, tt) (ps', w', tt) /\
    ps' !! 3 = Some (Ret (HIT r' 200 4 age (Some (str "part")))) /\
    ~ genuine (str "/var/cache") reuse_commands empty_cache
        (entry_body (str "/var/cache") (entry_hex sample_gzip_request sample_vary_rule)) (str "part").
Proof.
  pose proof reuse_run_ends as H. pose proof (run_pool_steps (AF := flaky_files) reuse_sched
    (perform (str "/var/cache") 0 <$> reuse_commands) reuse_start tt) as Hsteps.
  unfold reuse_run in H. destruct (run_pool _ _ _ _) as [[[ps' w'] []]|]; [|discriminate H].
  specialize (Hsteps _ eq_refl). repeat case_match; try discriminate H. bool_hyps. subst.
  do 4 eexists. split; [exact Hsteps|]. split; [reflexivity|]. by eapply part_not_genuine; [apply entry_hex_spec|].
Qed.
