(* ===== verification/Shared.v ===== *)
(** * Administration and memory that are shared

    More of what workers do at the same time, in the logic of [Conc.v]: the
    walks of the administration over a cache that changes under them, and the
    memory of the process, where requests get their rule sets and free them. *)

From S2P Require Import Prelude CNum CJson CHeap Glob Rules RulesParse RulesMatch Apr AprFile AprRef Util.
From S2P Require Import Config Meta Cache Publish Lookup RoundTrip Admin Purge Handler Serve Race Store Delivery Refine.
From S2P Require Import Site Conc Workers.
From Stdlib Require Import Lia.
Local Open Scope cstr_scope.

(** No file reaches 4 GiB. *)
Definition modest (d : disk) : Prop := map_Forall (fun _ b => (Z.of_nat (length b) < 4294967296)%Z) (d_data d).

#[export] Instance modest_dec d : Decision (modest d).
Proof. unfold modest. apply _. Defined.

(** ** Administration while others work

    Nothing is known of what a walk over the cache finds: files come, go and
    change.  It takes as many steps as there are entries, so that a walk with
    more fuel than steps does not run out of it, and its counters are bounded by
    the number of steps. *)

Section administration.
Context {AS : AprStrings} {AT : AprTables} {AM : AprMd5} {HT : Httpd} {AF : AprFiles} {S : Type}.
Context (public temp : cstr -> Prop) (good : cstr -> list ascii -> Prop).
Context (mem_ok : S -> Prop) (blocks : S -> gset nat).
Abbreviation conc := (conc (S := S) modest public temp good mem_ok blocks).

(** [p] ends with [P], of the steps that are left and its result, and owning
    what it owned. *)
Definition returns {A} (n : nat) (P : nat -> A -> Prop) (x : res) (p : prog S A) : Prop :=
  forall B (k : A -> prog S B) Q, (forall m a, m <= n -> P m a -> conc m (k a) Q x) -> conc n (p ≫= k) Q x.

Lemma returns_ret {A} n (P : nat -> A -> Prop) x (a : A) : P n a -> returns n P x (mret a).
Proof. intros Ha B k Q Hk. by apply (Hk n a). Qed.

Lemma returns_bind {A B} n (P : nat -> A -> Prop) (P' : nat -> B -> Prop) x (p : prog S A) f :
  returns n P x p -> (forall m a, m <= n -> P m a -> returns m P' x (f a)) -> returns n P' x (p ≫= f).
Proof.
  intros Hp Hf C k Q Hk. apply conc_assoc, Hp. intros m a Hm Ha. apply (Hf m a Hm Ha).
  intros m' b Hm'. apply Hk. lia.
Qed.

Lemma returns_conc {A} n (P : nat -> A -> Prop) x (p : prog S A) Q :
  returns n P x p -> (forall m a, m <= n -> P m a -> Q a x) -> conc n p Q x.
Proof.
  intros Hp HQ. assert (forall m (q : prog S A), conc m (q ≫= mret) Q x -> conc m q Q x) as Hret.
  { clear. intros m q. revert m x. induction q as [a| |o k IH|X f k IH]; intros m x;
      [intros H; exact H|intros H; exact H| |]; (destruct m as [|m]; [done|]); intros H.
    - intros d U Hg Hl Ho. destruct (H d U Hg Hl Ho) as [Hd Hk]. split; [done|]. intros a d' Hs Hf.
      destruct (Hk a d' Hs Hf) as (x' & Hu & Hc). exists x'. split; [done|]. by apply IH.
    - intros s Hs Hb. destruct (H s Hs Hb) as (a & s' & bs & E & Hu & Hc). exists a, s', bs.
      split_and!; [done..|]. by apply IH. }
  apply Hret, Hp. intros m a Hm Ha. by apply conc_ret, (HQ m).
Qed.

(** *** One entry *)

Lemma returns_read_meta n x p : returns (A := option (cacher_entry_meta * cstr)) n (fun _ _ => True) x (cacher_cache_read_meta p).
Proof.
  intros B k Q Hk. unfold cacher_cache_read_meta.
  apply conc_assoc, conc_open_any; [by apply (Hk n)|]. intros fd i Hfd.
  assert (forall v, with_fds x (delete fd (<[fd := v]> (rs_fds x))) = x) as Hx.
  { intros v. rewrite delete_insert_id by done. by destruct x. }
  apply conc_assoc. eapply conc_size_any; [apply lookup_insert_eq|].
  assert (forall v m, conc n ((_ ← call (Close fd); mret m) ≫= k) Q (with_fds x (<[fd := v]> (rs_fds x)))) as Hclose.
  { intros v m. apply conc_assoc. eapply conc_close; [apply lookup_insert_eq|]. cbn [rs_fds with_fds].
    change (conc n (k m) Q (with_fds x (delete fd (<[fd := v]> (rs_fds x))))). rewrite Hx. by apply (Hk n). }
  intros [size|]; [|apply Hclose]. destruct (size <=? 0)%Z; [apply Hclose|].
  apply conc_assoc. eapply conc_read_any; [apply lookup_insert_eq|]. intros off [data|]; cbn [rs_fds with_fds];
    rewrite insert_insert_eq; apply Hclose.
Qed.

Lemma returns_body_size n x p : returns n (fun _ size => 0 <= size < 4294967296)%Z x (body_size p).
Proof.
  intros B k Q Hk. unfold body_size. apply conc_assoc, conc_stat; [by apply (Hk n)|].
  intros d i b t _ Hl _ Hb. apply (Hk n); [done|]. split; [lia|]. by apply (Hl i).
Qed.

Lemma returns_remove {A} n (P : nat -> A -> Prop) x p (q : prog S A) : returns n P x q -> returns n P x (remove p q).
Proof.
  intros Hq B k Q Hk. unfold remove. apply conc_assoc. apply (conc_call _ _ _ _ _ _ n Q x (Remove p)); [done|].
  intros d U Hg Hl Ho. split; [done|]. intros [] d' (t & Ht & ->); exists x; (split; [|by apply Hq]).
  - eapply update_unlink; try done. by left.
  - by apply update_quiet.
Qed.

Lemma returns_delete_entry n x p : returns n (fun _ _ => True) x (delete_entry p).
Proof. by apply returns_remove, returns_remove, returns_ret. Qed.

(** A walk that has [n] more steps cannot overflow its counters; it prints nothing. *)
Record fine (n : nat) (c : admin_ctx) : Prop := {
  fi_print : ac_print_rows c = false;
  fi_matched : (0 <= ac_matched c /\ ac_matched c + Z.of_nat n <= INT_MAX)%Z;
  fi_bytes : (0 <= ac_bytes c <= ac_matched c * 4294967296)%Z;
}.

Lemma fine_le n m c : m <= n -> fine n c -> fine m c.
Proof. intros Hm [Hp Hma Hb]. split; [done|lia|done]. Qed.

Lemma returns_visit_entry n x c p : fine (Datatypes.S n) c -> returns n fine x (visit_entry c p).
Proof.
  intros Hc. assert (fine n c) as Hn by (by apply (fine_le (Datatypes.S n)); [lia|]). destruct Hc as [Hp [Hm1 Hm2] Hb].
  unfold visit_entry. eapply returns_bind; [apply returns_read_meta|]. intros n1 [[meta headers]|] Hle _.
  2: { apply returns_ret. by apply (fine_le n). }
  destruct (negb _); [apply returns_ret; by apply (fine_le n)|].
  rewrite add_int_ok by (unfold INT_MIN; lia). eapply returns_bind; [apply returns_body_size|]. intros n2 size Hle2 Hsize. cbn beta in Hsize.
  rewrite add_int64_ok by (unfold LONG_MIN, LONG_MAX, INT_MAX in *; lia). cbn [ac_print_rows count_match]. rewrite Hp.
  eapply (returns_bind _ (fun m c' => fine m c')); [apply returns_ret|].
  - split; cbn; [done|lia|lia].
  - intros n3 c' Hle3 Hc'. destruct (ac_delete_matches c').
    + eapply returns_bind; [apply returns_delete_entry|]. intros n4 [] Hle4 _. apply returns_ret. by apply (fine_le n3).
    + eapply (returns_bind _ (fun _ _ => True)); [by apply returns_ret|]. intros n4 [] Hle4 _. apply returns_ret. by apply (fine_le n3).
Qed.

(** *** The tree *)

Lemma returns_visit_name walk n x c dir name is_dir :
  fine (Datatypes.S n) c -> (forall c p, fine n c -> returns n fine x (walk c p)) ->
  returns n fine x (visit_name walk c dir name is_dir).
Proof.
  intros Hc Hwalk. assert (fine n c) as Hn by (by apply (fine_le (Datatypes.S n)); [lia|]).
  unfold visit_name. destruct (match name with [] => false | _ => _ end); [by apply returns_ret|].
  destruct is_dir; [by apply Hwalk|]. destruct (_ && _); [by apply returns_visit_entry|by apply returns_ret].
Qed.

Lemma returns_read_entries walk n width c dir s x :
  s ∈ rs_dirs x -> n <= width -> fine n c ->
  (forall m c p, m < n -> fine m c -> returns m fine x (walk c p)) ->
  returns n fine x (read_entries walk width c dir s).
Proof.
  intros Hs. revert n c. induction width as [|width IH]; intros n c Hn Hc Hwalk B k Q Hk; (destruct n as [|n];
    [first [exact I|exact eq_refl]|]); [lia|]. cbn [read_entries]. apply conc_assoc, conc_dir_read; [done|].
  assert (forall c', fine n c' -> conc n (read_entries walk width c' dir s ≫= k) Q x) as Hnext.
  { intros c' Hc'. apply IH; [lia|done|intros; apply Hwalk; [lia|done]|]. intros m a Hm. apply Hk. lia. }
  intros [[[name|] is_dir]|].
  - apply conc_assoc, returns_visit_name; [done|intros; by apply Hwalk; [lia|]|]. intros m c' Hm Hc'.
    assert (returns m fine x (read_entries walk width c' dir s)) as H.
    { apply IH; [lia|done|]. intros; apply Hwalk; [lia|done]. }
    apply H. intros m' a Hm'. apply Hk. lia.
  - apply Hnext. by apply (fine_le (Datatypes.S n)); [lia|].
  - apply (Hk n); [lia|]. by apply (fine_le (Datatypes.S n)); [lia|].
Qed.

Lemma returns_walk n depth width c dir x :
  n <= depth -> n <= width -> fine n c -> returns n fine x (walk_cache depth width c dir).
Proof.
  revert n c dir x. induction depth as [|depth IH]; intros n c dir x Hd Hw Hc B k Q Hk;
    (destruct n as [|n]; [first [exact I|exact eq_refl]|]); [lia|]. cbn [walk_cache].
  assert (fine n c) as Hn by by apply (fine_le (Datatypes.S n)); [lia|].
  apply conc_assoc, conc_dir_open; [apply (Hk n); [lia|done]|]. intros s Hs. apply conc_assoc.
  apply returns_read_entries; [cbn; set_solver|lia|done|intros; apply IH; [lia|lia|done]|].
  intros m c' Hm Hc'. apply conc_assoc, conc_dir_close; [cbn; set_solver|]. cbn [rs_dirs with_dirs].
  replace (({[s]} ∪ rs_dirs x) ∖ {[s]}) with (rs_dirs x) by set_solver.
  assert (with_dirs (with_dirs x ({[s]} ∪ rs_dirs x)) (rs_dirs x) = x) as -> by by destruct x.
  apply (Hk m); [lia|done].
Qed.

Lemma fine_new n r pat del : (Z.of_nat n <= INT_MAX)%Z -> fine n (new_ctx r pat del false).
Proof. by split; cbn; [|lia|]. Qed.

(** *** The actions *)

Lemma conc_purge n depth width r root pat x :
  n <= depth -> n <= width -> (Z.of_nat n <= INT_MAX)%Z ->
  conc n (admin_purge depth width r root pat) (fun _ y => y = x) x.
Proof.
  intros Hd Hw Hn. unfold admin_purge. destruct (_ || _); [by apply conc_ret|].
  apply (returns_conc _ (fun _ _ => True)); [|done]. eapply returns_bind; [by apply returns_walk, fine_new|].
  intros m c _ _. by apply returns_ret.
Qed.

Lemma conc_full_reset n depth width r root x :
  n <= depth -> n <= width -> (Z.of_nat n <= INT_MAX)%Z ->
  conc n (admin_full_reset depth width r root) (fun _ y => y = x) x.
Proof.
  intros Hd Hw Hn. unfold admin_full_reset.
  apply (returns_conc _ (fun _ _ => True)); [|done]. eapply returns_bind; [by apply returns_walk, fine_new|].
  intros m c _ _. by apply returns_ret.
Qed.
End administration.

(** ** The memory of the process *)

(** The blocks of cached rule sets. *)
Definition cached_blks (l : list cacher_rules_cache_entry) : gset nat :=
  list_to_set (concat (opt_ruleset_blks ∘ ce_ruleset <$> l)).

(** Single requests can own what is allocated but not cached. *)
Definition request_blks (s : pstate) : gset nat := h_live (ps_heap s) ∖ cached_blks (ps_cache s).

Lemma cached_blks_cons e l : cached_blks (e :: l) = list_to_set (opt_ruleset_blks (ce_ruleset e)) ∪ cached_blks l.
Proof. unfold cached_blks. cbn. apply list_to_set_app_L. Qed.

Lemma cached_blks_replace l e :
  cached_blks (cache_replace l e) ⊆ list_to_set (opt_ruleset_blks (ce_ruleset e)) ∪ cached_blks l.
Proof.
  induction l as [|e' l IH]; cbn [cache_replace]; [set_solver|]. destruct (decide _); rewrite !cached_blks_cons; set_solver.
Qed.

Section rules.
Context {AS : AprStrings} {AT : AprTables} {AM : AprMd5} {HT : Httpd} {AP : AprPaths} {AF : AprFiles}.

(** The rules of the site, inline or in a file outside of the cache. *)
Context (root : cstr) (dconf : cacher_dir_conf) (vs : list arule).

Definition says (json : cstr) : Prop :=
  (Z.of_nat (length json) < INT_MAX)%Z /\ rules_of_document json = Some (Some vs).

(** [src] is the path of the rules file, if there is one, and its content. *)
Inductive rules_source : option (cstr * list ascii) -> Prop :=
  | source_inline json :
      dc_rules_file dconf = None -> dc_rules_json dconf = Some json -> says json -> rules_source None
  | source_file f path data :
      dc_rules_file dconf = Some f -> resolve_rules_file_path dconf f = Some path ->
      ~ entry_name root path -> ~ entry_temp root path -> says (c_str data) -> rules_source (Some (path, data)).

Lemma source_cases src : rules_source src ->
  (exists json, dc_rules_file dconf = None /\ dc_rules_json dconf = Some json /\ says json) \/
  (exists f path data, src = Some (path, data) /\ dc_rules_file dconf = Some f /\
     resolve_rules_file_path dconf f = Some path /\ says (c_str data)).
Proof. intros [json|f path data]; [left|right]; eauto 10. Qed.

Lemma source_document src : rules_source src -> exists json, rules_of_document json = Some (Some vs).
Proof. by intros [json _ _ [_ H]|f path data _ _ _ _ [_ H]]; eexists. Qed.

Context (src : option (cstr * list ascii)) (Hsrc : rules_source src).

(** What the site publishes: entries, and its rules. *)
Definition site_name (p : cstr) : Prop := entry_name root p \/ fst <$> src = Some p.

Lemma site_name_not_temp p : site_name p -> ~ entry_temp root p.
Proof.
  intros [Hp|Hp]; [by apply entry_name_not_temp|]. destruct Hsrc as [|f path data _ _ _ Hn _]; [done|].
  by injection Hp as ->.
Qed.

(** Requests share the heap and the cache of rules files, where the file of the
    site stands with its rules. *)
Record shared_ok (s : pstate) : Prop := {
  so_heap : heap_wf (ps_heap s);
  so_reliable : reliable (ps_heap s);
  so_rules : Forall (fun e => fst <$> src = Some (ce_path e) -> forall rs, ce_ruleset e = Some rs -> view_ruleset rs = Some vs)
               (ps_cache s);
  so_cached : cached_blks (ps_cache s) ⊆ h_live (ps_heap s);
}.

Context (limits : disk -> Prop) (good : cstr -> list ascii -> Prop) (n : nat).
Context (good_rules : forall p data b, src = Some (p, data) -> good p b -> b = data).
Abbreviation conc := (conc (S := pstate) limits site_name (entry_temp root) good shared_ok request_blks n).

(** *** Parsing and remembering *)

(** A step that changes cJSON's record of errors at most. *)
Lemma conc_error {X B} (m : pstate -> option (X * pstate)) (k : X -> prog pstate B) Q x :
  (forall s, exists a s', m s = Some (a, s') /\ ps_heap s' = ps_heap s /\ ps_cache s' = ps_cache s) ->
  (forall a, conc (k a) Q x) -> conc (mem m ≫= k) Q x.
Proof.
  clear Hsrc good_rules. intros Hm Hk. apply conc_mem. intros s [Hwf Hr Hes Hc] Hb.
  destruct (Hm s) as (a & s' & E & Eh & Ec). exists a, s', (rs_blks x). split; [done|].
  split; [|by destruct x; apply Hk]. unfold request_blks in *. split; rewrite ?Eh, ?Ec; [|done|done].
  by split; rewrite ?Eh, ?Ec.
Qed.

Lemma conc_parse {B} json (k : option cacher_ruleset -> prog pstate B) Q x :
  says json ->
  (forall rs, view_ruleset rs = Some vs -> NoDup (ruleset_blks rs) -> list_to_set (ruleset_blks rs) ## rs_blks x ->
     conc (k (Some rs)) Q (with_blks x (rs_blks x ∪ list_to_set (ruleset_blks rs)))) ->
  conc (parse_or_log json ≫= k) Q x.
Proof.
  intros [Hl Hvs] Hk. unfold parse_or_log, parse_in_process. apply conc_assoc.
  apply (conc_error reset_json); [intros s; by eexists _, _|]. intros own.
  apply (conc_error (write_position 0)); [intros s; by eexists _, _|]. intros [].
  clear Hsrc good_rules. apply conc_mem. intros s [Hwf Hr Hes Hc] Hb.
  destruct (wp_run _ _ _ (parse_ruleset_builds json _ _ Hwf Hl Hvs))
    as ([rs e] & h' & E & Ho & Hv & He & _). specialize (Hv Hr).
  destruct rs as [rs|]; [|done]. cbn in Hv, Ho. destruct e as [| |position|]; [|done|by destruct He|done].
  pose proof (owns_disjoint _ _ _ Hwf Ho) as Hnew.
  pose proof (own_live _ _ _ Ho) as El. unfold request_blks in *.
  eexists (Some rs, NO_MESSAGE), _, (rs_blks x ∪ list_to_set (ruleset_blks rs)).
  split; [unfold on_heap; cbv beta; by rewrite E|]. split.
  - split; cbn.
    + split; cbn; [by eapply owns_wf|by eapply owns_reliable|done|set_solver].
    + set_solver.
    + intros C HC HCs. split; set_solver.
  - apply Hk; [done|apply Ho|set_solver].
Qed.

(** Storing a rule set gives it away. *)
Lemma conc_store {B} e rs (k : unit -> prog pstate B) Q x bs :
  ce_ruleset e = Some rs -> view_ruleset rs = Some vs ->
  rs_blks x = bs ∪ list_to_set (ruleset_blks rs) -> list_to_set (ruleset_blks rs) ## bs ->
  conc (k tt) Q (with_blks x bs) -> conc (mem (cache_store e) ≫= k) Q x.
Proof.
  clear Hsrc good_rules. intros Ers Hv Ex Hdis Hk. apply conc_mem. intros s [Hwf Hr Hes Hc] Hb. rewrite Ex in *.
  set (l' := match cache_lookup (ps_cache s) (ce_path e) with
             | None => e :: ps_cache s | Some _ => cache_replace (ps_cache s) e end).
  assert (cached_blks l' ⊆ list_to_set (ruleset_blks rs) ∪ cached_blks (ps_cache s)) as Hsub.
  { subst l'. destruct (cache_lookup _ _); [|rewrite cached_blks_cons, Ers; done].
    pose proof (cached_blks_replace (ps_cache s) e) as H. by rewrite Ers in H. }
  eexists tt, _, bs. split; [reflexivity|]. unfold request_blks in *. fold l'. split; [|done].
  split; cbn.
  - split; cbn; [done|done| |set_solver]. rewrite Forall_forall in Hes |- *. intros e' He'.
    assert (e' = e \/ e' ∈ ps_cache s) as [->|Hin].
    { subst l'. destruct (cache_lookup _ _); [|by apply elem_of_cons].
      clear -He'. induction (ps_cache s) as [|e2 l IH]; cbn in *; [by right|]. destruct (decide _); set_solver. }
    + intros _ rs' E. congruence.
    + by apply Hes.
  - set_solver.
  - intros C HC HCs. split; set_solver.
Qed.
(** *** The rule set of a request *)

(** None, or the rules of the site. *)
Definition ruled (rs : option cacher_ruleset) : Prop := forall rs', rs = Some rs' -> view_ruleset rs' = Some vs.

Lemma conc_load path data mtime x :
  src = Some (path, data) -> says (c_str data) -> closed ∅ x ->
  conc (load_ruleset path mtime (Z.of_nat (length data))) (fun rs y => closed ∅ y /\ ruled rs) x.
Proof.
  intros Es Hsays [Hx Hb]. unfold load_ruleset. rewrite Nat2Z.id.
  apply conc_open; [exact site_name_not_temp|right; by rewrite Es|apply conc_ret; by split; [split|]|].
  intros fd i b Hg _. apply (good_rules _ _ _ Es) in Hg as ->. cbn [rs_fds with_fds with_frozen].
  assert (forall v, delete fd (<[fd := v]> (rs_fds x)) = ∅) as Hcl by (intros v; rewrite Hx, insert_empty; apply delete_singleton_eq).
  eapply conc_read; [apply lookup_insert_eq|apply lookup_insert_eq|done| |]; intros off;
    (eapply conc_close; [apply lookup_insert_eq|]); cbn [rs_fds with_fds].
  { apply conc_ret. split; [|done]. split; [cbn; by rewrite insert_insert_eq, Hcl|done]. }
  apply conc_parse; [done|]. intros rs Hv Hnd Hdis. cbn [rs_blks with_fds] in *.
  eapply (conc_store _ rs); [done|done|reflexivity|done|]. apply conc_ret. split; [|by intros rs' [= <-]].
  split; [cbn; by rewrite insert_insert_eq, Hcl|done].
Qed.

Lemma conc_from_file f path data x :
  src = Some (path, data) -> resolve_rules_file_path dconf f = Some path -> says (c_str data) -> closed ∅ x ->
  conc (get_ruleset_from_file dconf f) (fun rs y => closed ∅ y /\ ruled rs) x.
Proof.
  intros Es Hres Hsays Hx. unfold get_ruleset_from_file. rewrite Hres.
  apply conc_mem. intros s Hs Hb. exists (ps_mutex s), s, (rs_blks x). split; [done|]. split; [by split|].
  assert (with_blks x (rs_blks x) = x) as -> by by destruct x.
  destruct (negb (ps_mutex s)); [by apply conc_ret|].
  apply conc_stat; [by apply conc_ret|]. intros d i b t Hg _ Hi Hd.
  apply (ag_public _ _ _ Hg path i b) in Hd; [|right; by rewrite Es|done]. apply (good_rules _ _ _ Es) in Hd as ->.
  clear s Hs Hb d i Hg Hi. apply conc_mem. intros s Hs Hb. eexists _, s, (rs_blks x). split; [reflexivity|].
  split; [by split|]. assert (with_blks x (rs_blks x) = x) as -> by by destruct x.
  destruct (cache_lookup (ps_cache s) path) as [e|] eqn:El; [|by apply conc_load].
  destruct (_ && _); [|by apply conc_load]. apply conc_ret. split; [done|]. intros rs Ers.
  apply cache_lookup_Some in El as [Hin Ep]. pose proof (so_rules _ Hs) as Hes. rewrite Forall_forall in Hes.
  apply (Hes e Hin); [by rewrite Ep, Es|done].
Qed.

(** What the request must free when it ends. *)
Definition to_free (l : list cacher_ruleset) : list nat := concat (ruleset_blks <$> l).

Lemma conc_get_ruleset :
  conc (cacher_config_get_ruleset (Some dconf)) (fun '(rs, cleanups) y =>
    ruled rs /\ NoDup (to_free cleanups) /\ closed (list_to_set (to_free cleanups)) y) nothing.
Proof.
  unfold cacher_config_get_ruleset. destruct (source_cases _ Hsrc) as [(json & Hf & Hj & Hsays)|(f & path & data & Es & Hf & Hres & Hsays)].
  - rewrite Hf, Hj. apply conc_parse; [done|]. intros rs Hv Hnd _. apply conc_ret.
    unfold to_free. cbn. rewrite app_nil_r. split; [by intros rs' [= <-]|]. split; [done|]. split; [done|]. cbn. set_solver.
  - rewrite Hf. apply conc_bind. eapply conc_mono; [by eapply conc_from_file|].
    intros rs y [Hy Hrs]. apply conc_ret. split; [done|]. split; [constructor|done].
Qed.

(** *** The end of the request *)

Lemma cleanup_frees l : frees (cleanup_rulesets l) (to_free l).
Proof.
  induction l as [|rs l IH]; [apply frees_ret|]. cbn [cleanup_rulesets].
  apply (frees_seq _ _ (ruleset_blks rs) (to_free l)); [apply cacher_ruleset_free_frees|done].
Qed.

Lemma conc_cleanup_rulesets {B} l (k : unit -> prog pstate B) Q x :
  NoDup (to_free l) -> rs_blks x = list_to_set (to_free l) -> conc (k tt) Q (with_blks x ∅) ->
  conc (on_heap (cleanup_rulesets l) ≫= k) Q x.
Proof.
  clear Hsrc good_rules. intros Hnd Ex Hk. apply conc_mem. intros s [Hwf Hr Hes Hc] Hb. rewrite Ex in *. unfold request_blks in *.
  assert (Forall (fun b => b ∈ h_live (ps_heap s)) (to_free l)) as Hlive.
  { apply Forall_forall. intros b Hin. apply (elem_of_list_to_set (C := gset nat)) in Hin. set_solver. }
  destruct (wp_run _ _ _ (cleanup_frees l (ps_heap s) Hnd Hlive)) as ([] & h' & E & El & En & Eo).
  eexists tt, _, ∅. split; [by rewrite E|]. split; [|done]. split; cbn; rewrite ?El.
  - split; cbn; [|by intros m; rewrite Eo|done|rewrite El; set_solver].
    intros b. rewrite El, En. intros [Hin _]%elem_of_difference. by apply Hwf.
  - set_solver.
  - intros C HC HCs. split; set_solver.
Qed.
End rules.
