(* ===== verification/Traffic.v ===== *)
(** * A site under load

    Any number of requests at the same time, of visitors and of administrators,
    each from the handler to the cleanup of its memory, over one cache
    directory and one cache of rules: whatever the interleaving and whichever
    calls fail, visitors get the pages of the site. *)

From S2P Require Import Prelude CNum CJson CHeap Glob Rules RulesParse RulesMatch Apr AprFile AprRef Util.
From S2P Require Import Config Meta Cache Publish Lookup RoundTrip Admin Purge Handler Serve Race Store Delivery Refine.
From S2P Require Import Site Conc Workers Shared.
From Stdlib Require Import Lia.
Local Open Scope cstr_scope.

Section traffic.
Context {AS : AprStrings} {AT : AprTables} {AM : AprMd5} {HT : Httpd} {AP : AprPaths} {AF : AprFiles}.
Context (root : cstr) (dconf : cacher_dir_conf) (vs : list arule).
Context (origin : request -> request * list (list bucket)).
Context (src : option (cstr * list ascii)).

(** ** Requests *)

(** A request with the cleanup of its pool at the end. *)
Definition visit (depth width : nat) (r : request) : prog pstate answer :=
  res ← cacher_handler depth width r;
  ans ← send_page origin res;
  _ ← on_heap (cleanup_rulesets (hd_cleanups res));
  mret ans.

(** A request of the site's visitors; the metadata of what is kept for it can be
    written as lines of text. *)
Record visitor (r : request) : Prop := {
  vi_cache : cache_request r dconf;
  vi_plain : plain_request r;
  vi_root : cache_root_of r = Some root;
  vi_text r1 rule : same_input r r1 -> is_Some (kept (fst (origin r1)) rule (concat (snd (origin r1)))) ->
    response_ok (fst (origin r1));
}.

(** A request of the administration, but for a listing. *)
Record administrator (r : request) : Prop := {
  ad_main : r_main r = false;
  ad_conf : r_dir_conf r = Some dconf;
  ad_path : exists p, dc_admin_path dconf = Some p /\ at_admin_path (r_uri r) p = true /\
    strcmp_eq (drop (length p) (r_uri r)) (str "/list") = false;
}.

(** What may stand under a published name: the rules of the site, and pages of
    it under the names of the requests they are for. *)
Definition site_file (p : cstr) (data : list ascii) : Prop :=
  (forall q text, src = Some (q, text) -> p = q -> data = text) /\
  forall r rule, cached_by vs rule r ->
    (p = entry_body root (entry_hex r rule) -> snd (page_of origin r) = Some data) /\
    (p = entry_header root (entry_hex r rule) -> forall meta headers,
       parse_header_file (c_str data) = Some (meta, headers) -> em_status meta = fst (page_of origin r)).

(** The status of the page, and its body unless it cannot be read. *)
Definition page_for (r : request) (ans : answer) : Prop :=
  r_status (an_request ans) = fst (page_of origin r) /\
  (an_body ans = snd (page_of origin r) \/ an_body ans = None).

Lemma page_for_page r ans : page_of origin r = (r_status (an_request ans), an_body ans) -> page_for r ans.
Proof. intros E. unfold page_for. rewrite E. auto. Qed.

Context (Hsrc : rules_source root dconf vs src) (Hfit : origin_fits vs origin).

Lemma site_file_rules p data b : src = Some (p, data) -> site_file p b -> b = data.
Proof. intros E [H _]. by eapply H. Qed.

Lemma entry_not_rules p : entry_name root p -> forall q text, src = Some (q, text) -> p <> q.
Proof. intros Hp q text E ->. destruct Hsrc as [|f path data _ _ Hn _ _]; [done|]. by injection E as -> ->. Qed.

(** What is kept for a request are files of the site. *)
Lemma kept_site_file r r1 rule bytes :
  cached_by vs rule r -> ttl_ok rule -> same_input r r1 ->
  kept (fst (origin r1)) rule (concat (snd (origin r1))) = Some bytes -> response_ok (fst (origin r1)) ->
  site_file (entry_body root (entry_hex (fst (origin r1)) rule)) bytes /\
  forall created now, in_time created -> in_time now ->
    site_file (entry_header root (entry_hex (fst (origin r1)) rule))
      (entry_text (fst (origin r1)) created (now + ttl_seconds rule)).
Proof.
  intros Hc Httl Hin Hk Hok. pose proof (og_blind _ _ Hfit r r1 Hin) as Hpage.
  pose proof (same_input_trans _ _ _ Hin (og_input _ _ Hfit r1)) as Hin'.
  apply kept_Some in Hk as (_ & _ & _ & _ & Hsb & _). unfold page_of in Hpage at 1. rewrite Hsb in Hpage.
  rewrite (entry_hex_same_input r _ rule Hin').
  destruct (entry_names root r rule) as [Nh Nb]. pose proof (entry_hex_spec r rule) as Hk1.
  split; [|intros created now Hcr Hnow]; (split; [intros q text E Ep; by eapply entry_not_rules in Ep|]);
    intros r2 rule2 Hc2; pose proof (entry_hex_spec r2 rule2) as Hk2; split; intros E.
  - apply entry_body_inj in E; [|done..]. by rewrite <- (og_keyed _ _ Hfit r rule r2 rule2), <- Hpage.
  - by apply eq_sym, entry_header_ne_body in E.
  - by apply entry_header_ne_body in E.
  - apply entry_header_inj in E; [|done..]. rewrite <- (og_keyed _ _ Hfit r rule r2 rule2), <- Hpage by done.
    intros meta headers. rewrite parse_entry_text by done. by intros [= <- _].
Qed.
(** ** One request among others *)

Context (depth width n : nat).
Abbreviation conc :=
  (conc (S := pstate) modest (site_name root src) (entry_temp root) site_file (shared_ok vs src) request_blks n).
Local Abbreviation pnt := (site_name_not_temp root dconf vs src Hsrc).

(** What is left to do when the handler has returned. *)
Definition finish (res : handled) : prog pstate answer :=
  ans ← send_page origin res; _ ← on_heap (cleanup_rulesets (hd_cleanups res)); mret ans.

Section request.
Context (r : request) (cleanups : list cacher_ruleset) (Hnd : NoDup (to_free cleanups)).
Abbreviation bs := (list_to_set (C := gset nat) (to_free cleanups)).

Lemma conc_cleanup_answer ans x :
  rs_blks x = bs -> page_for r ans ->
  conc (_ ← on_heap (cleanup_rulesets cleanups); mret ans) (fun a _ => page_for r a) x.
Proof. intros Hx Ha. eapply conc_cleanup_rulesets; [exact Hnd|exact Hx|]. by apply conc_ret. Qed.

(** The generator, with or without the filter of a rule. *)
Lemma conc_generate_plain r1 x :
  same_input r r1 -> rs_blks x = bs ->
  conc (ans ← generate origin r1 None; _ ← on_heap (cleanup_rulesets cleanups); mret ans) (fun a _ => page_for r a) x.
Proof.
  intros Hin Hx. unfold generate. pose proof (og_blind _ _ Hfit r r1 Hin) as Hpage. unfold page_of in Hpage at 1.
  destruct (origin r1) as [r' bbs]. apply conc_cleanup_answer; [done|]. by apply page_for_page.
Qed.

Lemma conc_generate_cached r1 rule x :
  cached_by vs rule r -> ttl_ok rule -> same_input r r1 ->
  (is_Some (kept (fst (origin r1)) rule (concat (snd (origin r1)))) -> response_ok (fst (origin r1))) ->
  rs_blks x = bs ->
  conc (ans ← generate origin r1 (cacher_cache_insert_filter r1 (Some root) rule);
        _ ← on_heap (cleanup_rulesets cleanups); mret ans) (fun a _ => page_for r a) x.
Proof.
  intros Hc Httl Hin Hok Hx. rewrite <- (insert_filter_same_input r1 (fst (origin r1))) by apply (og_input _ _ Hfit).
  destruct (cacher_cache_insert_filter _ _ _) as [ctx|] eqn:Ectx; [|by apply conc_generate_plain].
  pose proof (kept_site_file r r1 rule) as Hfile. unfold generate.
  pose proof (og_blind _ _ Hfit r r1 Hin) as Hpage. unfold page_of in Hpage at 1. pose proof (og_ends _ _ Hfit r1) as Hends.
  destruct (origin r1) as [r' bbs]. cbn [fst snd] in *.
  apply conc_assoc. eapply conc_forget; [apply within_memory|done|]. rewrite Hx. apply conc_bind. eapply conc_mono.
  - eapply (conc_filter _ _ _ _ _ _ _ bs); [by left|exact pnt|exact Ectx|done|done|].
    intros bytes Hk. apply Hfile; [done..|]. apply Hok. by eexists.
  - intros _ y [_ Hy]. apply conc_cleanup_answer; [done|]. by apply page_for_page.
Qed.

(** A request that may be cached. *)
Lemma conc_cached rule x :
  visitor r -> cached_by vs rule r -> ttl_ok rule -> rs_blks x = bs ->
  conc (serve_or_capture r dconf rule cleanups ≫= finish) (fun a _ => page_for r a) x.
Proof.
  intros [_ _ Hroot Htext] Hc Httl Hx. eapply conc_forget; [apply within_memory|done|]. rewrite Hx.
  apply conc_bind. unfold serve_or_capture. rewrite Hroot. apply conc_bind.
  eapply conc_mono; [eapply (conc_lookup _ _ _ _ _ _ _ bs); [by left|exact pnt]|]. intros [r' [hit|]] y.
  - intros (meta & headers & i & b & (text & Htxt & Hmeta) & -> & Hb & Ef & Hbl & Hi & Hst & Hlen).
    apply conc_ret. unfold finish, send_page. cbn [hd_sent hd_request hd_cleanups].
    assert (rs_fds y !! ch_file hit = Some (i, 0)) as L by (rewrite Ef; apply lookup_singleton_eq).
    destruct Hb as [_ Hb]. destruct Htxt as [_ Htxt]. destruct (Hb r rule Hc) as [Eb _]. destruct (Htxt r rule Hc) as [_ Eh].
    apply conc_assoc. eapply conc_read; [exact L|exact Hi|by rewrite Hlen, Nat2Z.id| |]; intros off;
      apply conc_assoc; (eapply conc_close; [cbn; apply lookup_insert_eq|]); (apply conc_cleanup_answer; [done|]); split;
      cbn [an_request an_body]; rewrite ?hit_response_status, ?Hst; eauto.
    left. by rewrite Eb.
  - intros [[_ Hbl] Hr]. apply conc_ret. unfold finish, send_page. cbn [hd_sent hd_status hd_request hd_filter hd_cleanups].
    change (DECLINED =? DECLINED)%Z with true. cbv iota.
    assert (same_input r (set_status r' dconf "MISS")) as Hin.
    { eapply same_input_trans; [|apply same_input_status]. destruct Hr as [->|(meta & headers & _ & ->)]; [done|].
      destruct (replay_text_same r headers) as (ct & t & ->). by split. }
    replace (cache_root_of (set_status r' dconf "MISS")) with (Some root).
    + apply conc_generate_cached; [done..| |done]. by apply Htext.
    + destruct Hr as [->|(meta & headers & _ & ->)]; rewrite <- Hroot; unfold set_status; destruct (negb _); try done;
        destruct (replay_text_same r headers) as (ct & t & ->); done.
Qed.
End request.
(** A visitor is decided by the rules, if they can be read. *)
Lemma conc_visitor r : visitor r -> conc (visit depth width r) (fun a _ => page_for r a) nothing.
Proof.
  intros Hv. pose proof (vi_cache _ Hv) as Hc. pose proof (vi_plain _ Hv) as [Hp Hq Hm Hck].
  unfold visit. fold finish. change (conc (cacher_handler depth width r ≫= finish) (fun a _ => page_for r a) nothing).
  unfold cacher_handler. rewrite (cr_main _ _ Hc), (cr_conf _ _ Hc). cbn [mbind option_bind].
  rewrite (gate_open _ _ _ _ Hc), (cr_enabled _ _ Hc). cbn [negb Z.eqb Pos.eqb].
  apply conc_assoc, conc_bind. eapply conc_mono; [eapply (conc_get_ruleset root dconf vs src Hsrc)|].
  { intros p data b. apply site_file_rules. }
  intros [rs cleanups] y (Hrs & Hnd & [_ Hy]).
  assert (forall r', same_input r r' ->
    conc (mret (Handled DECLINED r' None None cleanups) ≫= finish) (fun a _ => page_for r a) y) as Hpass.
  { intros r' Hin. by apply conc_generate_plain. }
  destruct rs as [rs|]; [|by apply Hpass]. specialize (Hrs rs eq_refl).
  destruct (source_document _ _ _ _ Hsrc) as [json Hvs].
  assert (STAR ∉ default [] (Some (match_path r)) /\ no_nul (default [] (Some (r_method r)))) as [Hp' Hm'] by done.
  pose proof (ruleset_match_view rs json vs _ _ _ Hvs Hrs Hp' Hq Hm') as Hmatch.
  unfold apply_rules. destruct (cacher_ruleset_match _ _ _ _) as [rule|]; cbn [fmap option_fmap option_map] in Hmatch;
    [|apply Hpass, same_input_status].
  destruct (Z.eqb_spec (enabled rule) 0) as [H0|H0]; [apply Hpass, same_input_status|].
  destruct (cacher_request_bypasses r (Some rule)) eqn:Eb; [apply Hpass, same_input_status|].
  apply conc_cached; [done|done| | |done].
  - split; [done|]. split; [done|]. intros Hb. apply bypasses_view in Hb; [congruence|done].
  - pose proof (og_ttl _ _ Hfit) as Httl. rewrite Forall_forall in Httl. symmetry in Hmatch.
    apply first_match_in, Httl in Hmatch. exact Hmatch.
Qed.

(** The actions of the administration, but for a listing. *)
Lemma conc_admin_handle r croot action x :
  strcmp_eq action (str "/list") = false -> n <= depth -> n <= width -> (Z.of_nat n <= INT_MAX)%Z ->
  conc (cacher_admin_handle depth width r croot (Some action)) (fun _ y => y = x) x.
Proof.
  intros Hlist Hd Hw Hn. unfold cacher_admin_handle. destruct croot as [croot|]; [|by apply conc_ret].
  destruct (_ || _); [by apply conc_ret|]. rewrite Hlist.
  destruct (strcmp_eq action (str "/full-reset")); [by apply conc_full_reset|].
  destruct (strncmp_eq action (str "/purge") 6); [by apply conc_purge|by apply conc_ret].
Qed.

(** Whatever an administrator is answered, nobody is harmed. *)
Lemma conc_administrator r :
  administrator r -> n <= depth -> n <= width -> (Z.of_nat n <= INT_MAX)%Z ->
  conc (visit depth width r) (fun _ _ => True) nothing.
Proof.
  intros [Hmain Hconf (p & Hp & Hat & Hlist)] Hd Hw Hn. unfold visit.
  change (conc (cacher_handler depth width r ≫= finish) (fun _ _ => True) nothing).
  assert (forall ans, conc (_ ← on_heap (cleanup_rulesets []); mret (M := prog pstate) (A := answer) ans) (fun _ _ => True) nothing) as Hfree.
  { intros ans. by eapply conc_cleanup_rulesets; [constructor|done|]. }
  unfold cacher_handler. rewrite Hmain, Hconf. cbn [mbind option_bind]. unfold admin_gate. rewrite Hp, Hat.
  destruct (_ && _); [apply Hfree|]. apply conc_assoc, conc_bind. eapply conc_mono; [by apply conc_admin_handle|].
  intros [[r' out] status] y ->. apply Hfree.
Qed.

(** ** Any number of them *)

Definition guest (r : request) : Prop := visitor r \/ administrator r.

(** What the requests of a site share: files and memory. *)
Record site_ok (d : disk) (s : pstate) : Prop := {
  st_time : in_time (d_now d);
  st_files p : file_ok d p;
  st_site p data : site_name root src p -> file_at d p = Some data -> site_file p data;
  st_memory : shared_ok vs src s;
}.

Lemma site_ok_good d s : site_ok d s <-> all_good (site_name root src) site_file d /\ shared_ok vs src s.
Proof.
  split.
  - intros [Ht Hf Hs Hm]. split; [|done]. split; [done..|]. intros p i b Hp Hi Hb. apply Hs; [done|].
    unfold file_at. by rewrite Hi.
  - intros [[Ht Hf Hs] Hm]. split; [done..| |done]. intros p data Hp Hd. unfold file_at in Hd.
    destruct (d_names d !! p) as [i|] eqn:Ei; [|done]. by eapply Hs.
Qed.
End traffic.

Section theorem.
Context {AS : AprStrings} {AT : AprTables} {AM : AprMd5} {HT : Httpd} {AP : AprPaths} {AF : AprFiles}.
Context (root : cstr) (dconf : cacher_dir_conf) (vs : list arule).
Context (origin : request -> request * list (list bucket)) (src : option (cstr * list ascii)).

End theorem.

(** ** Three visitors and a reset *)

Definition busy_requests : list request :=
  [sample_page; site_request "/cacher/full-reset" (Some (str "bob")) []; sample_page; sample_page].

(** The first visitor is about to publish when the third one comes, which gets no
    temporary file and is not stored; the reset finds the entry and, while the
    last visitor has its body open, removes it. *)
Definition busy_sched : list nat :=
  replicate 14 0 ++ replicate 7 2 ++ replicate 3 0 ++ replicate 7 1 ++ replicate 10 3 ++ replicate 14 1 ++ replicate 4 3.

Abbreviation busy_pool := (visit sample_origin 100 100 <$> busy_requests).

Abbreviation busy_run := (run_fresh (AF := ref_files) modest busy_sched ∅ busy_pool empty_cache sample_state).

(** All of them are answered. *)
Lemma busy_run_ends :
  match busy_run with
  | Some (_, (ps, _, _)) =>
      match ps with
      | [Ret a0; Ret a1; Ret a2; Ret a3] =>
          bool_decide (an_body <$> [a0; a2; a3] = replicate 3 (Some (str "hello")))
          && bool_decide (an_body a1 = Some (str "full-reset: removed 1 entry" ++ [LF]))
      | _ => false
      end
  | None => false
  end = true.
Proof. vm_compute. reflexivity. Qed.

Lemma sample_says : says sample_site_vs sample_rules.
Proof. split; [reflexivity|vm_compute; reflexivity]. Defined.

Lemma sample_visitor : visitor (str "/var/cache") sample_site_conf sample_origin sample_page.
Proof.
  split; [apply sample_cache_request|apply sample_plain_request|reflexivity|].
  intros r1 rule H _. by apply sample_response_text.
Qed.

Lemma sample_guests : Forall (guest (str "/var/cache") sample_site_conf sample_origin) busy_requests.
Proof.
  repeat (apply Forall_cons; split); [left; apply sample_visitor|right|left; apply sample_visitor..|constructor].
  split; [reflexivity..|]. exists (str "/cacher"). by split_and!; vm_compute.
Qed.

Lemma sample_site_ok :
  site_ok (str "/var/cache") sample_site_vs sample_origin None (view empty_cache) sample_state.
Proof.
  split.
  - split; vm_compute; discriminate.
  - intros p i Hi. vm_compute in Hi. discriminate Hi.
  - intros p data _ Hd. vm_compute in Hd. discriminate Hd.
  - split; [apply fresh_heap_wf|done|constructor|apply empty_subseteq].
Qed.

