(* ===== verification/Registration.v ===== *)
(** * What the module registers (the tables of mod_cacher.c, cacher_config.c)

    The command table, the hooks and the filter as data that httpd reads, and
    what follows from them: what a site can change from an .htaccess file, and
    that the hooks that run at startup leave everything as the requests need
    it. *)

From S2P Require Import Prelude CNum CHeap CJson Glob Rules RulesParse RulesMatch Apr AprFile AprRef Util.
From S2P Require Import Config Meta Cache Publish Lookup RoundTrip Admin Purge Handler Serve Race Store Delivery Refine.
From S2P Require Import Site Conc Workers Shared Traffic.
From Stdlib Require Import Lia.
Local Open Scope cstr_scope.

(** ** Commands *)

(** How httpd reads the arguments, and where it allows the command. *)
Inductive args_how := RAW_ARGS | TAKE1 | FLAG.
Inductive req_override := OR_FILEINFO | RSRC_CONF.

Definition argument (how : args_how) : Type := match how with FLAG => bool | RAW_ARGS | TAKE1 => cstr end.

(** What a command can reach: the configuration of the directory, and the one of
    the server behind [cmd->server]. *)
Record confs := Confs { cf_dir : cacher_dir_conf; cf_svr : cacher_svr_conf }.

(** The function of a command changes them, or answers with a message. *)
Record command_rec := CommandRec {
  cmd_name : cstr;
  cmd_how : args_how;
  cmd_func : argument cmd_how -> confs -> confs + cstr;
  cmd_override : req_override;
}.

Definition AP_INIT_FLAG (name : string) (f : confs -> bool -> confs + cstr) over :=
  CommandRec (str name) FLAG (fun b c => f c b) over.
Definition AP_INIT_RAW_ARGS (name : string) (f : confs -> cstr -> confs + cstr) over :=
  CommandRec (str name) RAW_ARGS (fun t c => f c t) over.
Definition AP_INIT_TAKE1 (name : string) (f : confs -> cstr -> confs + cstr) over :=
  CommandRec (str name) TAKE1 (fun t c => f c t) over.

(** A function that gets the configuration of the directory. *)
Definition on_dir {A} (f : cacher_dir_conf -> A -> cacher_dir_conf + cstr) (c : confs) (a : A) : confs + cstr :=
  match f (cf_dir c) a with inl d => inl (Confs d (cf_svr c)) | inr msg => inr msg end.

(** The function of CacherCacheRoot, which gets at the server's. *)
Definition on_server {A} (f : cacher_svr_conf -> A -> cacher_svr_conf) (c : confs) (a : A) : confs + cstr :=
  inl (Confs (cf_dir c) (f (cf_svr c) a)).

(** A function with its place in the order of the hooks. *)
Record hook (A : Type) := Hook { hk_func : A; hk_order : Z }.
Arguments Hook {A} hk_func hk_order.
Arguments hk_func {A} h.

Section registration.
Context {AS : AprStrings} {AT : AprTables} {AM : AprMd5} {HT : Httpd} {AP : AprPaths} {AF : AprFiles}.

Definition cacher_cmds : list command_rec :=
  [AP_INIT_FLAG "CacherEnable" (on_dir (fun c b => inl (cacher_set_enable c b))) OR_FILEINFO;
   AP_INIT_RAW_ARGS "CacherRules" (on_dir (fun c t => inl (cacher_set_rules c t))) OR_FILEINFO;
   AP_INIT_TAKE1 "CacherRulesFile" (on_dir (fun c t => inl (cacher_set_rules_file c t))) OR_FILEINFO;
   AP_INIT_TAKE1 "CacherCacheRoot" (on_server cacher_set_cache_root) RSRC_CONF;
   AP_INIT_TAKE1 "CacherAdminPath" (on_dir cacher_set_admin_path) OR_FILEINFO;
   AP_INIT_FLAG "CacherAdminRequireUser" (on_dir (fun c b => inl (cacher_set_admin_require_user c b))) OR_FILEINFO;
   AP_INIT_FLAG "CacherStatusHeader" (on_dir (fun c b => inl (cacher_set_status_header c b))) OR_FILEINFO].

(** ** Hooks *)

Inductive ap_filter_type := AP_FTYPE_RESOURCE | AP_FTYPE_CONTENT_SET | AP_FTYPE_PROTOCOL.

Definition APR_HOOK_FIRST : Z := 0.
Definition APR_HOOK_MIDDLE : Z := 10.

Abbreviation out_filter := (request -> cacher_out_ctx -> list bucket -> prog pstate (cacher_out_ctx * bool * list bucket)).

(** What modules have registered with httpd. *)
Record registry := Registry {
  rg_filters : list (cstr * out_filter * ap_filter_type);
  rg_post_config : list (hook (list (option cacher_svr_conf) -> prog pstate Z));
  rg_child_init : list (hook (bool -> pstate -> pstate));
  rg_handler : list (hook (nat -> nat -> request -> prog pstate handled));
}.

Definition no_hooks : registry := Registry [] [] [] [].

Definition CACHER_OUTPUT_FILTER_NAME : cstr := str "CACHER_OUT".

Definition cacher_cache_register_filter (g : registry) : registry :=
  Registry (rg_filters g ++ [(CACHER_OUTPUT_FILTER_NAME, cacher_output_filter, AP_FTYPE_CONTENT_SET)])
    (rg_post_config g) (rg_child_init g) (rg_handler g).

Definition cacher_register_hooks (g : registry) : registry :=
  let g := cacher_cache_register_filter g in
  Registry (rg_filters g)
    (rg_post_config g ++ [Hook cacher_post_config APR_HOOK_MIDDLE])
    (rg_child_init g ++ [Hook cacher_config_child_init APR_HOOK_MIDDLE])
    (rg_handler g ++ [Hook cacher_handler APR_HOOK_FIRST]).

(** The module record. *)
Record module_rec := ModuleRec {
  mr_create_dir_config : option cstr -> cacher_dir_conf;
  mr_merge_dir_config : cacher_dir_conf -> cacher_dir_conf -> cacher_dir_conf;
  mr_create_server_config : cacher_svr_conf;
  mr_merge_server_config : cacher_svr_conf -> cacher_svr_conf -> cacher_svr_conf;
  mr_cmds : list command_rec;
  mr_register_hooks : registry -> registry;
}.

Definition cacher_module : module_rec :=
  ModuleRec cacher_create_dir_config cacher_merge_dir_config cacher_create_server_config
    cacher_merge_server_config cacher_cmds cacher_register_hooks.
End registration.

(** ** What httpd does with the table

    A line of a configuration file, read in some context, either is refused or
    runs the function of a command that the context allows, on the argument
    httpd parsed.  An .htaccess file is no place for the commands of the
    server. *)
Class HttpdConfig := {
  context : Type;
  htaccess : context -> Prop;
  invoke_cmd : list command_rec -> context -> cstr -> confs -> confs + cstr;
  invoke_spec cmds ctx line c c' : invoke_cmd cmds ctx line c = inl c' ->
    exists cmd arg, cmd ∈ cmds /\ (htaccess ctx -> cmd_override cmd = OR_FILEINFO) /\ cmd_func cmd arg c = inl c';
}.

Section htaccess.
Context {AS : AprStrings} {AT : AprTables} {AM : AprMd5} {HT : Httpd} {AP : AprPaths} {HC : HttpdConfig}.

(** The lines of a file, up to the first that is refused. *)
Fixpoint read_lines (cmds : list command_rec) (ctx : context) (lines : list cstr) (c : confs) : confs + cstr :=
  match lines with
  | [] => inl c
  | line :: lines' =>
      match invoke_cmd cmds ctx line c with
      | inl c' => read_lines cmds ctx lines' c'
      | inr msg => inr msg
      end
  end.

(** The directories on the way to a file, each with the lines of its .htaccess:
    the configuration of the directory is created, read and merged. *)
Fixpoint walk_htaccess (m : module_rec) (ctx : context) (levels : list (cstr * list cstr)) (c : confs) : confs + cstr :=
  match levels with
  | [] => inl c
  | (dir, lines) :: levels' =>
      match read_lines (mr_cmds m) ctx lines (Confs (mr_create_dir_config m (Some dir)) (cf_svr c)) with
      | inl c' => walk_htaccess m ctx levels' (Confs (mr_merge_dir_config m (cf_dir c) (cf_dir c')) (cf_svr c'))
      | inr msg => inr msg
      end
  end.

(** Switches are on, off or not set, and an administration path is a path. *)
Definition is_switch (z : Z) : Prop := z = CACHER_UNSET \/ z = 0%Z \/ z = 1%Z.

Record dir_wf (d : cacher_dir_conf) : Prop := {
  dw_enabled : is_switch (dc_enabled d);
  dw_require_user : is_switch (dc_admin_require_user d);
  dw_status_header : is_switch (dc_status_header d);
  dw_admin_path p : dc_admin_path d = Some p -> exists p', p = SLASH :: p';
}.

Lemma create_wf dir : dir_wf (cacher_create_dir_config dir).
Proof. split; cbn; [by left..|done]. Qed.

Lemma merge_wf base add : dir_wf base -> dir_wf add -> dir_wf (cacher_merge_dir_config base add).
Proof.
  intros [B1 B2 B3 B4] [A1 A2 A3 A4]. split; cbn; unfold merge_flag; try by destruct (_ =? _)%Z.
  intros p. destruct (dc_admin_path add) as [q|] eqn:E; cbn; [intros [= <-]; by apply A4|apply B4].
Qed.

Lemma flag_switch (b : bool) : is_switch (if b then 1 else 0).
Proof. destruct b; unfold is_switch; auto. Qed.

(** What the commands for an .htaccess file can do. *)
Lemma command_confined cmd arg c c' :
  cmd ∈ cacher_cmds -> cmd_override cmd = OR_FILEINFO -> cmd_func cmd arg c = inl c' ->
  cf_svr c' = cf_svr c /\ (dir_wf (cf_dir c) -> dir_wf (cf_dir c')).
Proof.
  unfold cacher_cmds. rewrite !elem_of_cons, elem_of_nil. destruct c as [d v].
  intros [->|[->|[->|[->|[->|[->|[->|[]]]]]]]]; cbn in *; intros Hover; try discriminate Hover; clear Hover;
    try (intros [= <-]; split; [done|]; intros []; split; cbn; auto using flag_switch; done).
  destruct arg as [|c p]; [done|]. unfold on_dir, cacher_set_admin_path. cbn [cf_dir].
  destruct (decide (c = SLASH)) as [->|Hne].
  - intros [= <-]. split; [done|]. intros []. split; cbn; [done..|]. intros q [= <-]. by eexists.
  - intros E. exfalso. destruct c as [[] [] [] [] [] [] [] []]; try discriminate E. by apply Hne.
Qed.

Lemma lines_confined ctx lines c c' :
  htaccess ctx -> read_lines cacher_cmds ctx lines c = inl c' ->
  cf_svr c' = cf_svr c /\ (dir_wf (cf_dir c) -> dir_wf (cf_dir c')).
Proof.
  intros Hctx. revert c. induction lines as [|line lines IH]; intros c; cbn [read_lines]; [by intros [= <-]|].
  destruct (invoke_cmd _ _ _ _) as [c1|msg] eqn:E; [|done]. intros H%IH.
  apply invoke_spec in E as (cmd & arg & Hin & Hover & E). apply command_confined in E; [|done|by apply Hover].
  destruct E as [E1 E2], H as [H1 H2]. split; [congruence|auto].
Qed.

(** C13: nothing a site writes in its .htaccess files changes the configuration of
    the server, the directory its cache is in above all; and what it sets for
    its directories is always well formed: switches are on, off or unset, and
    the path of the administration starts with a slash.  That path is among what
    it may set: CacherAdminPath is declared with OR_FILEINFO, although the
    README calls it server-config-only. *)
Theorem htaccess_confined ctx levels d v c' :
  htaccess ctx -> dir_wf d -> walk_htaccess cacher_module ctx levels (Confs d v) = inl c' ->
  cf_svr c' = v /\ dir_wf (cf_dir c').
Proof.
  intros Hctx. revert d v. induction levels as [|[dir lines] levels IH]; intros d v Hd; cbn [walk_htaccess].
  { by intros [= <-]. }
  destruct (read_lines _ _ _ _) as [c1|msg] eqn:E; [|done].
  apply lines_confined in E as [Es Hw]; [|done]. cbn [cf_svr cf_dir] in *. rewrite Es.
  intros H. apply IH in H; [done|]. apply merge_wf; [done|]. apply Hw, create_wf.
Qed.
End htaccess.

(** *** A small httpd *)

(** A line is a name, a space and the argument; [true] is an .htaccess file. *)
Definition read_argument (how : args_how) (text : cstr) : option (argument how) :=
  match how with
  | FLAG => if decide (text = str "On") then Some true else if decide (text = str "Off") then Some false else None
  | RAW_ARGS | TAKE1 => Some text
  end.

Definition permitted (in_htaccess : bool) (cmd : command_rec) : bool :=
  match cmd_override cmd with OR_FILEINFO => true | RSRC_CONF => negb in_htaccess end.

Fixpoint first_word (line : cstr) : cstr * cstr :=
  match line with
  | [] => ([], [])
  | c :: line' => if c =? SP then ([], line') else let '(w, rest) := first_word line' in (c :: w, rest)
  end.

Fixpoint small_invoke (cmds : list command_rec) (in_htaccess : bool) (line : cstr) (c : confs) : confs + cstr :=
  match cmds with
  | [] => inr (str "Invalid command")
  | cmd :: cmds' =>
      let '(name, rest) := first_word line in
      if decide (cmd_name cmd = name) then
        if permitted in_htaccess cmd then
          match read_argument (cmd_how cmd) rest with
          | Some arg => cmd_func cmd arg c
          | None => inr (str "must be On or Off")
          end
        else inr (str "not allowed here")
      else small_invoke cmds' in_htaccess line c
  end.

Program Definition small_httpd : HttpdConfig := {|
  context := bool;
  htaccess := fun b => b = true;
  invoke_cmd := small_invoke;
|}.
Next Obligation.
  intros cmds ctx line c c'. cbv beta. induction cmds as [|cmd cmds IH]; cbn [small_invoke]; [done|].
  destruct (first_word line) as [name rest]. destruct (decide _) as [_|_].
  - destruct (permitted ctx cmd) eqn:Ep; [|done]. destruct (read_argument _ _) as [arg|]; [|done]. intros E.
    exists cmd, arg. split; [by left|]. split; [|done]. intros ->. unfold permitted in Ep. by destruct (cmd_override cmd).
  - intros (cmd' & arg & Hin & H)%IH. exists cmd', arg. split; [by right|done].
Qed.

Definition sample_htaccess : list (cstr * list cstr) :=
  [(str "/srv/site/", [str "CacherEnable On"; str "CacherAdminPath /cacher"]);
   (str "/srv/site/blog/", [str "CacherStatusHeader Off"])].

Definition sample_htaccess_confs : confs + cstr :=
  walk_htaccess (HC := small_httpd) cacher_module true sample_htaccess
    (Confs (cacher_create_dir_config None) (SvrConf (Some (str "/var/cache")))).

(** The commands work, and the one of the server is refused. *)
Example sample_htaccess_works :
  match sample_htaccess_confs with
  | inl c => Some (dc_enabled (cf_dir c), dc_admin_path (cf_dir c), dc_status_header (cf_dir c), sc_cache_root (cf_svr c))
  | inr _ => None
  end = Some (1%Z, Some (str "/cacher"), 0%Z, Some (str "/var/cache")) /\
  small_invoke cacher_cmds true (str "CacherCacheRoot /tmp") (Confs (cacher_create_dir_config None) cacher_create_server_config)
  = inr (str "not allowed here").
Proof. split; vm_compute; reflexivity. Qed.

Lemma htaccess_confined_witness :
  exists c', sample_htaccess_confs = inl c' /\ cf_svr c' = SvrConf (Some (str "/var/cache")) /\ dir_wf (cf_dir c').
Proof.
  destruct sample_htaccess_confs as [c'|msg] eqn:E; [|vm_compute in E; discriminate E].
  exists c'. split; [reflexivity|].
  apply (htaccess_confined (HC := small_httpd) true sample_htaccess (cacher_create_dir_config None)
    (SvrConf (Some (str "/var/cache"))) c' eq_refl (create_wf None) E).
Defined.

(** ** From the start of the server on *)

Section life.
Context {AS : AprStrings} {AT : AprTables} {AM : AprMd5} {HT : Httpd} {AP : AprPaths} {AF : AprFiles}.
Context (origin : request -> request * list (list bucket)).

(** The hooks after the configuration is read; one that fails keeps the server
    from starting. *)
Fixpoint run_post_config (hooks : list (hook (list (option cacher_svr_conf) -> prog pstate Z)))
    (servers : list (option cacher_svr_conf)) : prog pstate bool :=
  match hooks with
  | [] => mret true
  | h :: hooks' =>
      status ← hk_func h servers;
      if (status =? OK)%Z || (status =? DECLINED)%Z then run_post_config hooks' servers else mret false
  end.

(** The server starts, and a child process; [created]: its mutex could be created. *)
Definition boot (g : registry) (servers : list (option cacher_svr_conf)) (created : bool) : prog pstate bool :=
  ok ← run_post_config (rg_post_config g) servers;
  if ok : bool
  then mem (fun s => Some (true, fold_left (fun s h => hk_func h created s) (rg_child_init g) s))
  else mret false.

(** A request goes to the registered handler; when it declines, the site answers. *)
Definition visit_by (g : registry) (depth width : nat) (r : request) : prog pstate answer :=
  res ← match rg_handler g with h :: _ => hk_func h depth width r | [] => mret (pass DECLINED r) end;
  ans ← send_page origin res;
  _ ← on_heap (cleanup_rulesets (hd_cleanups res));
  mret ans.

Definition cacher_alone : registry := mr_register_hooks cacher_module no_hooks.

(** Making the roots touches no file. *)
Lemma wpp_ensure_root_files servers w (s : pstate) :
  wpp (cacher_cache_ensure_root servers) (fun _ w' s' => s' = s /\ d_names (view w') = d_names (view w) /\
    d_data (view w') = d_data (view w) /\ tick (d_now (view w)) (d_now (view w'))) w s.
Proof.
  revert w. induction servers as [|conf servers IH]; intros w; cbn [cacher_cache_ensure_root].
  { apply wpp_ret. split_and!; [done..|apply tick_refl]. }
  destruct (conf ≫= sc_cache_root) as [root|]; [|apply IH].
  wp_call; [done|]. intros ok w1 Hs _. apply wpp_bind. eapply wpp_mono; [apply IH|].
  intros ok' w2 s2 (-> & En & Ed & [Ht Hin]). apply wpp_ret. rewrite En, Ed.
  assert (d_names (view w1) = d_names (view w) /\ d_data (view w1) = d_data (view w) /\
    tick (d_now (view w)) (d_now (view w1))) as (-> & -> & Ht1 & Hin1).
  { destruct ok; [destruct Hs as (ds & (t & Ht' & E) & _)|destruct Hs as (t & Ht' & E)]; by rewrite E. }
  split_and!; [done..|]. split; [lia|auto].
Qed.

End life.

(** The server of the samples, with one host that caches. *)
Definition two_servers : list (option cacher_svr_conf) := [None; Some (SvrConf (Some (str "/var/cache")))].

(** It starts, and serves the requests of [Traffic.v]. *)
Definition booted := exec (AF := ref_files) (boot cacher_alone two_servers true) empty_cache sample_state.

Definition served_pool : list (prog pstate answer) := visit_by sample_origin cacher_alone 100 100 <$> busy_requests.

Lemma booted_serves :
  match booted with
  | Some (_, w1, s1) =>
      bool_decide (modest (view w1)) &&
      match run_fresh (AF := ref_files) modest busy_sched ∅ served_pool w1 s1 with
      | Some (_, (ps, _, _)) => forallb (fun p => match p with Ret _ => true | _ => false end) ps
      | None => false
      end
  | None => false
  end = true.
Proof. vm_compute. reflexivity. Qed.

